(* ===== verification/_CoqProject ===== *)
-Q . S2P
Prelude.v
CryptoInternal.v
Cbs.v
Cbb.v
CbbSpec.v
Asn1.v
Asn1Build.v
Asn1Int.v
CbbSafety.v
Bytestring.v
SetOf.v
OidText.v
Unicode.v
Base64.v
PosixTime.v
CbsTime.v
SslVersions.v
SslAead.v
TlsRecord.v
DtlsWindow.v
DtlsRecord.v
Transition.v
DtlsBitmap.v
DtlsMessages.v
DtlsFlight.v
DtlsDelivery.v
DtlsDemo.v
CMemory.v
CApi.v
ConfigCrypto.v
Host.v
Ffi.v
FfiContract.v
ConfigCalls.v
LogBuffer.v
LogText.v
HandleCalls.v
PacketCalls.v
PacketsIn.v
PacketWake.v
Lifecycle.v
Worker.v
WorkerInv.v
WorkerEnds.v
WorkerAgrees.v
CreateCalls.v
ApiContract.v
TunFd.v
ApiDemo.v
WorkerDemo.v
