(* ===== verification/Prelude.v ===== *)
(** * Verification of the C interface of the proxy and of its TLS record code

    The program is a proxy.  Applications embed it through a C interface,
    declared in [src/crates/ffi/include/clyntis.h] and implemented by the Rust
    crate [src/crates/ffi]; its TLS stack is a patched BoringSSL, kept under
    [src/third-party/boring-sys/deps/boringssl].  This library models both as
    executable Rocq functions and proves what makes them correct.

    ** The C interface and its parts

    - [clyntis.h]: statuses, the layout of the hooks, the rules every call
      obeys (caller buffers, thread-local errors, checked handles, lifecycle)
      and what each function promises.  Hosts include it ([ios/Core/Bridge.h]).
    - [ffi/src/lib.rs]: the exported functions.  Each runs its operation behind
      [boundary], which turns errors and panics into META_ERROR with a text,
      copies arguments from the host's memory and answers into it, and finds
      cores in a process-wide registry of handles.
    - [ffi/src/host.rs]: what a handle owns: the core, its worker thread, the
      two packet queues with the flag that coalesces wake-ups, and the scope
      that marks a thread as running a host callback.
      Host threads reach the worker through a queue of four commands, a
      cancellation token and a watched counter of network changes.
    - [ffi/src/logs.rs]: the bounded buffer of log lines, their text and the
      panic hook.
    - [config/src/crypto.rs]: the encrypted form of configurations.

    ** The BoringSSL parts and how they interact

    - [crypto/internal.h], [crypto/mem.cc]: word-sized helpers, constant-time
      selection, byte swaps, loads and stores.  Everything else uses them.
    - [crypto/bytestring]: the parser [CBS] and the builder [CBB] through which
      all wire formats are read and written: length prefixes, ASN.1 elements,
      integers, object identifiers, SET OF, Unicode, times.
    - [crypto/base64], [crypto/asn1/posix_time.cc]: text encoding and calendar
      time, used for certificates and PEM files.
    - [ssl/ssl_versions.cc]: which protocol versions are enabled and which one
      two endpoints agree on; it reads and writes lists with [CBS] and [CBB].
    - [ssl/ssl_aead_ctx.cc]: protection of one record under an AEAD.
    - [ssl/tls_record.cc], [ssl/dtls_record.cc]: the record layers.  They parse
      headers with [CBS], choose keys and sequence numbers, call the protection
      context and keep the counters that limit what a peer can make them do.
    - [ssl/d1_both.cc], [ssl/d1_lib.cc], [ssl/d1_pkt.cc]: handshake messages over
      datagrams.  Incoming ones are reassembled from fragments; outgoing ones
      form a flight that is cut into records and packets, sent again when its
      timer fires, and dropped when it is acknowledged.

    ** Files of the C interface

    - [Transition]: machines given by a partial step function on labels: runs,
      invariants of runs, and what is inevitable whatever step is taken next.
    - [CMemory]: the caller's memory, regions and little-endian integers.
    - [CApi]: the header.  Data as C declares it; [view], what a host observes
      of the process; [caller_buffer], [text_query], [error_frame], the
      common rules; [online_update], what can be changed online; [lifecycle_step], the life of a handle; and one
      [.._contract] per declared function, a relation between the views before
      and after a call and its status.  What the header takes for granted (what
      a valid configuration is, what a core does) is the class [ApiSemantics].
    - [ConfigCrypto]: [crypto.rs] over the class [CipherCrates].
    - [Host]: the data of [host.rs] and the methods of [Handle].  Channels are
      the class [Mpsc] with tokio's documented laws [MpscLaws].
    - [Ffi]: the process state [world], the monad [ffi] (a thread and a state
      give a result, an error or a panic, and a state) and the shared part of
      [lib.rs].  The crates behind the interface are the class [Crates]; the two
      maps in which the core keeps the outcomes of probes obey [ProbeLaws].
    - [FfiContract]: the instance [api] of [ApiSemantics] that the
      implementation gives, [view_of], and the lemmas from which contracts
      follow.
    - [ConfigCalls], [LogBuffer], [HandleCalls]: the exported functions, by
      subject; [PacketCalls], [CreateCalls], [TunFd]: the contracts of reading
      and writing packets, of creation, and of the Android descriptor.
    - [LogText]: what a log event and a panic make a line of, and, apart from the
      code, what a log is meant to contain; serde_json and the clock are the
      class [LogCrates] with the laws [LogLaws].
    - [PacketsIn]: the core's end of the packets the host writes.
    - [PacketWake]: sending and reading packets taken apart into atomic steps.
    - [Worker]: one handle as its threads see it, step by step: the loop of the
      worker, the tasks of its runtime, the host threads inside [start],
      [set_fd], [probe], [network_changed] and [shutdown].  [WorkerInv]: its
      invariants and what follows from them; [WorkerEnds]: every call comes to
      an end; [WorkerAgrees]: the methods of [Host] are runs of these steps.
    - [Lifecycle]: the registry over any sequence of calls and worker steps.
    - [ApiContract]: what holds of all functions together; host callbacks.
    - [ApiDemo], [WorkerDemo]: concrete crates that satisfy the laws, and the
      theorems applied to calls and runs on them.

    ** Files of the BoringSSL part

    - [Prelude]: machine integers with explicit wrap-around, big-endian byte
      strings, the state monad [st] (an operation returns the state it leaves
      even when it fails) and its notation, tactics and hint databases.
    - [CryptoInternal]: the helpers above, with their arithmetic meaning.
    - [Cbs]: [crypto/bytestring/cbs.cc].  A [CBS] is the list of bytes left.
    - [Cbb]: [crypto/bytestring/cbb.cc].  The state is the shared buffer
      [cbb_buffer] and the chain of open children; a child is named by its
      depth.  Allocation is the class [Env], which may refuse any request.
    - [CbbSpec]: the abstract builder, a tree of contents behind pending length
      prefixes, and the refinement of [Cbb] to it; [Asn1], [Asn1Build],
      [Asn1Int]: tags, lengths and integers, as parsed and as built.
    - [CbbSafety]: the invariant of every builder call.
    - [Bytestring], [SetOf], [OidText]: the theorems on parser and builder.
    - [Unicode], [Base64], [PosixTime], [CbsTime]: [unicode.cc], [base64.cc],
      [posix_time.cc] and the time parser of [cbs.cc].
    - [SslVersions]: [ssl/ssl_versions.cc].
    - [SslAead]: [ssl/ssl_aead_ctx.cc], with [ssl_cipher_get_evp_aead].  An
      initialised [EVP_AEAD_CTX] is a record of functions; [aead_ok] states
      what [openssl/aead.h] documents of them, and is what the record layers
      are proved against.  The CBC suites of TLS, whose contexts are stateful,
      are simplified by that; the round trip of TLS records leaves them out.  [Create_well_formed] derives the invariant of a
      context from its creation.
    - [TlsRecord]: [ssl/tls_record.cc], with the handshake buffer checks of
      [ssl/s3_both.cc].  [SSL] holds the fields the record layer uses;
      [RecordState] those it changes.
    - [DtlsWindow]: the replay window, record numbers and reconstruction.
    - [DtlsRecord]: [ssl/dtls_record.cc] and the installation of read epochs
      from [ssl/dtls_method.cc].
    - [DtlsBitmap]: [DTLSMessageBitmap], the bits of a message that have arrived
      or were acknowledged, against the set of positions.
    - [DtlsMessages]: the receiving half of [ssl/d1_both.cc]: fragments, the ring
      of incoming messages, taking messages.
    - [DtlsFlight]: the sending half, with the timers of [ssl/d1_lib.cc], the
      ACKs of [ssl/d1_pkt.cc] and the installation of write epochs.  A [CONN] is
      the record layer's [DTLS], the reading state, the flight, the timers, the
      records to acknowledge and the transport, whose answers are parameters.
    - [DtlsDelivery]: what holds of sending, acknowledging and receiving
      together; [DtlsDemo]: concrete flights.

    ** What the theorems show

    - Contracts: every exported function meets the contract read off the
      header, error paths and unusable buffers included, and fails only where
      the contract says; every function records an error of its own exactly when
      it returns META_ERROR, and the text can be read back by a size query and a
      second call.
    - Handles: the registry implements the lifecycle of the header under any
      sequence of calls; identifiers are never reused, a core is started at
      most once, a destroyed handle stays unknown; calls made inside a callback
      change no lifecycle.
    - Threads of a handle: when a shutdown has returned no callback runs or ever
      will; provided that the operations of the core and the callbacks of the
      host return, every call comes to an end without its timeout, and a
      cancelled worker ends, while the tasks of a core that runs need not;
      answers reach the call that asked; what a start leaves
      behind; changes of network in quick succession are handled together; the
      methods that the contracts use are runs of these threads.
    - Packets: reads and writes act on exactly one queue; in every interleaving
      of senders and the reader no wake-up is lost, delivery is in order and
      inevitable, and notifications are coalesced; what the host writes
      reaches the core whole, once and in order.  A descriptor once set closes
      the packet calls of its handle for good.
    - Configurations: an exported configuration is imported to the same bytes;
      decryption hands out only valid configurations.
    - Logs: the buffer holds the latest 2000 lines, and a host that drains in
      time receives every line exactly once; split at the newlines and parsed,
      the lines are the events and panics with their times, types and payloads,
      of the types the header names.
    - Where header and code differ, a theorem or a run shows what the code does
      ([notification_before_would_block], [lifecycle_refused_in_callback],
      [empty_update_ignores_handle]).
    - Builder: finishing writes every open child behind its final length
      prefix; no sequence of calls overruns a fixed buffer; errors stick;
      prefixes, elements, integers, identifiers, SET OF and Unicode round trip,
      and DER and UTF-8 parsing are canonical.
    - Base64 and times: one-shot and streaming coding are inverse and do not
      depend on chunking; the branch-free table lookups are the alphabet; time
      conversion is inverse, counts calendar days, and adjusts exactly.
    - Versions: the range is the lowest enabled run, negotiation picks the most
      preferred common version, and two endpoints agree.
    - Protection: opening inverts sealing, nonces do not repeat within a
      connection, and the maximal input length is exact.
    - TLS records: what is sealed under no cipher or an AEAD suite is opened to
      the same contents ([tls_record_roundtrip]); split records are read as the
      first byte and the rest, under the simplification above; a partial result asks for exactly what is missing; the number
      of consecutive records without data is bounded.
    - DTLS records: the bitmap computes the abstract replay check; over any
      run of datagrams and epoch changes no record number is accepted twice and
      none is used twice when writing; sealed records open, with plain and with
      encrypted headers; truncated numbers are reconstructed as specified.
    - DTLS handshake messages: the bitmap answers like a set of positions;
      messages cut into pieces in any way and received in any order are taken
      exactly as they were sent; whatever a peer sends, what is kept for it is
      bounded.  A byte counts as acknowledged only when a record that carried it
      was acknowledged, and a flight that was sent can be taken whole by a peer
      that has processed what was sent and what it acknowledged.
      [retry_after_ack_refused] shows a flight that the code fails to resume.

    ** Bounds and termination

    Every function is structurally recursive, on its input, on a list of
    constants or on fuel.  Fuel is either a width (the ten groups of a base-128
    number, the digits of an integer) or the length of the input, every round
    of the loop consuming some of it; the theorems are about calls with that
    fuel, so they also say that the loops end.  The loops that send a flight have
    the number of its messages and the bytes in them as fuel
    ([packets_bound]); more fuel does not change their result.  That the packet protocol and the
    threads of a handle come to rest is proved with a weight that every step
    under way decreases.  [size_t] and pointers have 64 bits and integers in
    memory are little-endian, as on the targets the interface is built for.  Lengths of lists stand for buffer
    sizes, so theorems that need a length to fit a [size_t] or an [int] say so.

    ** Modelling choices of the C interface

    A call is one transition of the process, so calls of different threads
    interleave as wholes; what happens while a call waits (the worker's answer,
    or none) is an argument of it, and everything else the process does between
    calls is a step of [process].  Two models go below that: [PacketWake]
    interleaves every access to the channel and the flag, with the atomic
    accesses of [PacketWake] in one order, and [Worker] every access to what the
    threads of a handle share; [WorkerAgrees] connects it to the calls.  In
    [Worker] the core's own code is in the labels: whether [start_inner]
    succeeds, fails or panics, which tasks it spawns, when they call the host.
    The watched counter is unbounded there: it stands for the version that
    tokio's watch compares; the 64-bit number the code keeps in it is [network]
    of [Host.Handle] and wraps ([same_handle] of [WorkerAgrees] relates them).
    A snapshot and a status are given to the JSON crate as the core's data; how
    [lib.rs] names the members of a snapshot is part of that parameter.
    Regions that a host must keep apart according to the header are kept apart
    by hypotheses.
    A mutex poisoned by a panic is modelled for the registry.

    ** Not modelled

    Of the interface: how long a call waits before its timeout (that it may time
    out at any moment is modelled), what the file system does with the panic
    file, and a log subscriber that somebody else installed first.  The proxy,
    its configuration parser and its protocols are Rust crates behind the class
    [Crates], and the applications are hosts.

    Of BoringSSL: the error queue, message and info callbacks, fuzzer mode and
    the aliasing checks of buffers; the cryptographic primitives behind
    [EVP_AEAD], the record number encrypter and the random generator, which are
    parameters; [Span]s are lists, and decryption in place gives a new list.
    Of DTLS: the key update that waits for an acknowledgement, the dispatch of
    records by type, the building of a message around its body, and the calls
    that report or change the timeout.  The read and write buffers over BIOs,
    which only move bytes around the record layer.  BER conversion.  The
    handshake itself with its extensions, sessions, certificates and X.509: their
    meaning is that of the cryptography they drive, which is a parameter here. *)
From Stdlib Require Import ZArith List Lia Bool.
Import ListNotations.
Open Scope Z_scope.

(** ** Machine integers

    A [w]-bit unsigned integer is a [Z]; every operation that can leave the
    range is followed by an explicit wrap. *)

Definition wrap (w x : Z) : Z := x mod 2 ^ w.

Abbreviation u8 := (wrap 8).
Abbreviation u16 := (wrap 16).
Abbreviation u32 := (wrap 32).
Abbreviation u64 := (wrap 64).

Definition UINT64_MAX : Z := 2 ^ 64 - 1.
Definition SIZE_MAX : Z := 2 ^ 64 - 1.
Definition INT_MAX : Z := 2 ^ 31 - 1.

Definition in_width (w x : Z) : Prop := 0 <= x < 2 ^ w.

Lemma wrap_range w x : 0 <= w -> 0 <= wrap w x < 2 ^ w.
Proof. intros. apply Z.mod_pos_bound. now apply Z.pow_pos_nonneg. Qed.

Lemma wrap_small w x : 0 <= x < 2 ^ w -> wrap w x = x.
Proof. apply Z.mod_small. Qed.

Lemma wrap_wrap w x : wrap w (wrap w x) = wrap w x.
Proof. unfold wrap. apply Zdiv.Zmod_mod. Qed.

Lemma wrap_add_l w a b : wrap w (wrap w a + b) = wrap w (a + b).
Proof. unfold wrap. apply Zdiv.Zplus_mod_idemp_l. Qed.

Lemma wrap_add_r w a b : wrap w (a + wrap w b) = wrap w (a + b).
Proof. unfold wrap. apply Zdiv.Zplus_mod_idemp_r. Qed.

Lemma wrap_land w x : 0 <= w -> wrap w x = Z.land x (Z.ones w).
Proof. intros. unfold wrap. now rewrite Z.land_ones. Qed.

(** ** Shifts and masks as arithmetic *)

Lemma shiftr_div a n : 0 <= n -> Z.shiftr a n = a / 2 ^ n.
Proof. apply Z.shiftr_div_pow2. Qed.

Lemma land_ones_mod a n m : 0 <= n -> m = 2 ^ n - 1 -> Z.land a m = a mod 2 ^ n.
Proof.
  intros Hn ->. rewrite <- Z.land_ones by lia. f_equal.
  rewrite Z.ones_equiv. lia.
Qed.

Lemma land_shiftl_small a n b : 0 <= n -> 0 <= b < 2 ^ n -> Z.land (Z.shiftl a n) b = 0.
Proof.
  intros Hn Hb. apply Z.bits_inj'. intros i Hi.
  rewrite Z.land_spec, Z.bits_0. destruct (Z.ltb_spec i n).
  - rewrite Z.shiftl_spec_low by lia. reflexivity.
  - replace (Z.testbit b i) with false; [apply andb_false_r|].
    rewrite <- (Z.mod_small b (2 ^ n)) by lia.
    symmetry. apply Z.mod_pow2_bits_high. lia.
Qed.

Lemma lor_disjoint_add a b : Z.land a b = 0 -> Z.lor a b = a + b.
Proof. intros H. rewrite Z.add_nocarry_lxor by exact H. symmetry. now apply Z.lxor_lor. Qed.

Lemma lor_shiftl_add a n b :
  0 <= n -> 0 <= b < 2 ^ n -> Z.lor (Z.shiftl a n) b = a * 2 ^ n + b.
Proof.
  intros Hn Hb. rewrite <- Z.shiftl_mul_pow2 by lia.
  apply lor_disjoint_add. now apply land_shiftl_small.
Qed.

(** Disjoint bit patterns given as a multiple of [2^n] and a value below it. *)
Lemma lor_add_mul a k n b :
  0 <= n -> a = k * 2 ^ n -> 0 <= b < 2 ^ n -> Z.lor a b = a + b.
Proof.
  intros Hn -> Hb. rewrite <- Z.shiftl_mul_pow2 by lia.
  rewrite lor_shiftl_add by lia. now rewrite Z.shiftl_mul_pow2 by lia.
Qed.

Lemma lor_range w a b : 0 <= w -> 0 <= a < 2 ^ w -> 0 <= b < 2 ^ w -> 0 <= Z.lor a b < 2 ^ w.
Proof.
  intros Hw Ha Hb.
  rewrite <- (Z.mod_small a (2 ^ w)), <- (Z.mod_small b (2 ^ w)) by lia.
  rewrite <- !Z.land_ones, <- Z.land_lor_distr_l, Z.land_ones by lia.
  apply Z.mod_pos_bound. lia.
Qed.

Lemma land_range_r w a b : 0 <= b < 2 ^ w -> 0 <= Z.land a b < 2 ^ w.
Proof.
  intros Hb. split; [apply Z.land_nonneg; lia|].
  apply Z.le_lt_trans with b; [|lia].
  assert (E : b = Z.lor (Z.land a b) (Z.ldiff b a)).
  { apply Z.bits_inj'. intros i _. rewrite Z.lor_spec, Z.land_spec, Z.ldiff_spec.
    destruct (Z.testbit a i), (Z.testbit b i); reflexivity. }
  assert (D : Z.land (Z.land a b) (Z.ldiff b a) = 0).
  { apply Z.bits_inj'. intros i _. rewrite !Z.land_spec, Z.ldiff_spec, Z.bits_0.
    destruct (Z.testbit a i), (Z.testbit b i); reflexivity. }
  rewrite E at 2. rewrite lor_disjoint_add by exact D.
  assert (0 <= Z.ldiff b a) by (apply Z.ldiff_nonneg; lia). lia.
Qed.

(** ** Byte strings *)

Definition is_byte (b : Z) : Prop := 0 <= b < 256.
Definition is_byteb (b : Z) : bool := (0 <=? b) && (b <? 256).
Definition bytes (l : list Z) : Prop := Forall is_byte l.

Definition zlength {A} (l : list A) : Z := Z.of_nat (length l).

Lemma zlength_nonneg {A} (l : list A) : 0 <= zlength l.
Proof. unfold zlength. lia. Qed.

Lemma zlength_app {A} (l m : list A) : zlength (l ++ m) = zlength l + zlength m.
Proof. unfold zlength. rewrite length_app. lia. Qed.

Lemma zlength_cons {A} (a : A) l : zlength (a :: l) = 1 + zlength l.
Proof. unfold zlength. cbn [length]. lia. Qed.

Lemma zlength_nil {A} : zlength (@nil A) = 0.
Proof. reflexivity. Qed.

Lemma zlength_zero_inv {A} (l : list A) : zlength l = 0 -> l = [].
Proof. destruct l; [easy|]. rewrite zlength_cons. pose proof (zlength_nonneg l). lia. Qed.

Lemma bytes_app l m : bytes (l ++ m) <-> bytes l /\ bytes m.
Proof. apply Forall_app. Qed.

Lemma bytes_cons b l : bytes (b :: l) <-> is_byte b /\ bytes l.
Proof. apply Forall_cons_iff. Qed.

Lemma bytes_nil : bytes [].
Proof. constructor. Qed.

Lemma bytes_firstn n l : bytes l -> bytes (firstn n l).
Proof.
  intros H. rewrite <- (firstn_skipn n l) in H. now apply bytes_app in H.
Qed.

Lemma bytes_skipn n l : bytes l -> bytes (skipn n l).
Proof.
  intros H. rewrite <- (firstn_skipn n l) in H. now apply bytes_app in H.
Qed.

(** ** Big-endian integers

    [be_combine] is the value of a big-endian byte string; [be_split n v] is
    the [n]-byte big-endian string of [v mod 2^(8n)]. *)

Definition be_combine (l : list Z) : Z := fold_left (fun acc b => acc * 256 + b) l 0.

Fixpoint be_split (n : nat) (v : Z) : list Z :=
  match n with
  | O => []
  | S n' => be_split n' (v / 256) ++ [v mod 256]
  end.

Lemma be_combine_acc l acc :
  fold_left (fun a b => a * 256 + b) l acc = acc * 256 ^ zlength l + be_combine l.
Proof.
  unfold be_combine. revert acc.
  induction l as [|b l IH]; intros acc; cbn [fold_left].
  - rewrite zlength_nil. cbn. lia.
  - rewrite IH, (IH (0 * 256 + b)), zlength_cons, Z.pow_add_r by (try apply zlength_nonneg; lia).
    ring.
Qed.

Lemma be_combine_app l m : be_combine (l ++ m) = be_combine l * 256 ^ zlength m + be_combine m.
Proof. unfold be_combine. rewrite fold_left_app. apply be_combine_acc. Qed.

Lemma be_combine_cons b l : be_combine (b :: l) = b * 256 ^ zlength l + be_combine l.
Proof. change (b :: l) with ([b] ++ l). rewrite be_combine_app. cbn. ring. Qed.

Lemma be_combine_range l : bytes l -> 0 <= be_combine l < 256 ^ zlength l.
Proof.
  induction l as [|b l IH]; intros Hb; [cbn; lia|].
  apply bytes_cons in Hb as [Hb Hl]. specialize (IH Hl).
  rewrite be_combine_cons, zlength_cons, Z.pow_add_r by (try apply zlength_nonneg; lia).
  red in Hb. nia.
Qed.

Lemma length_be_split n v : length (be_split n v) = n.
Proof.
  revert v. induction n; intros v; cbn [be_split]; [easy|].
  rewrite length_app, IHn. cbn. lia.
Qed.

Lemma zlength_be_split n v : zlength (be_split n v) = Z.of_nat n.
Proof. unfold zlength. now rewrite length_be_split. Qed.

Lemma bytes_be_split n v : bytes (be_split n v).
Proof.
  revert v. induction n; intros v; cbn [be_split]; [constructor|].
  apply bytes_app. split; [apply IHn|]. repeat constructor;
  apply Z.mod_pos_bound; lia.
Qed.

Lemma be_combine_split n v : be_combine (be_split n v) = v mod 256 ^ Z.of_nat n.
Proof.
  revert v. induction n; intros v; cbn [be_split].
  - cbn. now rewrite Z.mod_1_r.
  - rewrite be_combine_app, IHn. cbn [zlength].
    change (zlength [v mod 256]) with 1. change (be_combine [v mod 256]) with (v mod 256).
    replace (Z.of_nat (S n)) with (1 + Z.of_nat n) by lia.
    rewrite Z.pow_add_r by lia. rewrite Z.rem_mul_r by (try apply Z.pow_pos_nonneg; lia).
    change (256 ^ 1) with 256. ring.
Qed.

Lemma be_split_combine l : bytes l -> be_split (length l) (be_combine l) = l.
Proof.
  induction l as [|b l IH] using rev_ind; intros Hb; [easy|].
  apply bytes_app in Hb as [Hl Hb]. apply bytes_cons in Hb as [Hb _].
  rewrite length_app, Nat.add_comm. cbn [length Nat.add be_split].
  rewrite be_combine_app. change (zlength [b]) with 1. change (be_combine [b]) with b.
  change (256 ^ 1) with 256. red in Hb. f_equal.
  - rewrite Z.div_add_l by lia. rewrite Z.div_small, Z.add_0_r by lia. now apply IH.
  - rewrite Z.add_comm, Z.mod_add, Z.mod_small by lia. reflexivity.
Qed.

Lemma be_combine_inj l m :
  bytes l -> bytes m -> length l = length m -> be_combine l = be_combine m -> l = m.
Proof.
  intros Hl Hm E1 E2. rewrite <- (be_split_combine l), <- (be_split_combine m) by easy.
  congruence.
Qed.

(** ** A monad of fallible operations on a cursor

    The C functions return 1 or 0 and advance the structure they read in
    either case, so a failing operation still returns the state it leaves. *)

Definition st (S A : Type) : Type := S -> option A * S.

Definition ret {S A} (a : A) : st S A := fun s => (Some a, s).
Definition fail {S A} : st S A := fun s => (None, s).
Definition bind {S A B} (m : st S A) (k : A -> st S B) : st S B :=
  fun s => match m s with
           | (Some a, s') => k a s'
           | (None, s') => (None, s')
           end.

Declare Scope cxx_scope.
Delimit Scope cxx_scope with cxx.
Notation "'let*' x ':=' m 'in' k" := (bind m (fun x => k))
  (at level 10, x pattern, m at level 100, k at level 200) : cxx_scope.
Notation "m ;;; k" := (bind m (fun _ => k))
  (at level 100, k at level 200, right associativity) : cxx_scope.
Open Scope cxx_scope.

(** [guard b] is the early [return 0] of a condition that must hold. *)
Definition guard {S} (b : bool) : st S unit := if b then ret tt else fail.

(** The same for code without state: [option]. *)
Definition obind {A B} (m : option A) (k : A -> option B) : option B :=
  match m with Some a => k a | None => None end.
Notation "'let?' x ':=' m 'in' k" := (obind m (fun x => k))
  (at level 10, x pattern, m at level 100, k at level 200) : cxx_scope.

Lemma bind_some_inv {S A B} (m : st S A) (k : A -> st S B) s b s' :
  bind m k s = (Some b, s') -> exists a s1, m s = (Some a, s1) /\ k a s1 = (Some b, s').
Proof. unfold bind. destruct (m s) as [[a|] s1]; [eauto|discriminate]. Qed.

Lemma bind_some {S A B} (m : st S A) (k : A -> st S B) s a s1 :
  m s = (Some a, s1) -> bind m k s = k a s1.
Proof. unfold bind. now intros ->. Qed.

Lemma bind_none {S A B} (m : st S A) (k : A -> st S B) s s1 :
  m s = (None, s1) -> bind m k s = (None, s1).
Proof. unfold bind. now intros ->. Qed.

Lemma guard_inv {S} b (s s' : S) u : guard b s = (Some u, s') -> b = true /\ s' = s.
Proof. destruct b; cbn; intros H; inversion H; auto. Qed.

Lemma ret_inv {S A} (x y : A) (s s' : S) : ret x s = (Some y, s') -> y = x /\ s' = s.
Proof. unfold ret. intros H. split; congruence. Qed.

(** ** Automation *)

(** Split a boolean condition of the code into propositions. *)
Ltac bsplit :=
  repeat match goal with
    | H : _ && _ = true |- _ => apply andb_true_iff in H; destruct H
    | H : _ || _ = false |- _ => apply orb_false_iff in H; destruct H
    | H : negb _ = true |- _ => apply negb_true_iff in H
    | H : negb _ = false |- _ => apply negb_false_iff in H
    | H : (_ <=? _) = true |- _ => apply Z.leb_le in H
    | H : (_ <=? _) = false |- _ => apply Z.leb_gt in H
    | H : (_ <? _) = true |- _ => apply Z.ltb_lt in H
    | H : (_ <? _) = false |- _ => apply Z.ltb_ge in H
    | H : (_ =? _) = true |- _ => apply Z.eqb_eq in H
    | H : (_ =? _) = false |- _ => apply Z.eqb_neq in H
    | H : (_ >? _) = true |- _ => rewrite Z.gtb_ltb in H
    | H : (_ >? _) = false |- _ => rewrite Z.gtb_ltb in H
    | H : (_ >=? _) = true |- _ => rewrite Z.geb_leb in H
    | H : (_ >=? _) = false |- _ => rewrite Z.geb_leb in H
    end.

(** Case analysis on every [if] of the goal whose condition is an integer test. *)
Ltac ztest :=
  repeat match goal with
    | |- context [if (?a <=? ?b) then _ else _] => destruct (Z.leb_spec a b); try lia
    | |- context [if (?a <? ?b) then _ else _] => destruct (Z.ltb_spec a b); try lia
    | |- context [if (?a =? ?b) then _ else _] => destruct (Z.eqb_spec a b); try lia
    end.

(** Invert a successful run of a monadic program. *)
Ltac minv H :=
  repeat match type of H with
    | bind _ _ _ = (Some _, _) =>
        let a := fresh "a" in let s := fresh "s" in let E := fresh "E" in
        apply bind_some_inv in H; destruct H as (a & s & E & H)
    end.

(** Decide a property of all bytes by computation. *)
Definition all_bytes (P : Z -> bool) : bool :=
  forallb P (map Z.of_nat (seq 0 256)).

Lemma all_bytes_spec P : all_bytes P = true -> forall b, is_byte b -> P b = true.
Proof.
  intros H b Hb. unfold all_bytes in H. rewrite forallb_forall in H. apply H.
  apply in_map_iff. exists (Z.to_nat b). red in Hb. split; [lia|].
  apply in_seq. lia.
Qed.

Create HintDb bytestr.
#[export] Hint Resolve bytes_nil bytes_be_split bytes_firstn bytes_skipn zlength_nonneg : bytestr.
Create Rewrite HintDb zlen.
#[export] Hint Rewrite @zlength_app @zlength_cons @zlength_nil zlength_be_split : zlen.
