(* ===== verification/CryptoInternal.v ===== *)
(** The helpers of [crypto/internal.h] and [crypto/mem.cc] that the modelled
    components call: constant-time comparison and selection on 64-bit words,
    byte swaps, little- and big-endian loads and stores (on a little-endian
    machine, as the header assumes), bit rotations, carry arithmetic, and the
    locale-independent character classes. [crypto_word_t] is 64 bits wide. *)
From Stdlib Require Import ZArith List Lia Bool.
From S2P Require Import Prelude.
Import ListNotations.
Open Scope Z_scope.

(** ** Constant-time operations *)

Definition CONSTTIME_TRUE_W : Z := 2 ^ 64 - 1.
Definition CONSTTIME_FALSE_W : Z := 0.

Definition lnot64 (a : Z) : Z := u64 (Z.lnot a).
Definition lnot8 (a : Z) : Z := u8 (Z.lnot a).

Definition constant_time_msb_w (a : Z) : Z := u64 (0 - Z.shiftr a 63).

Definition constant_time_lt_w (a b : Z) : Z :=
  constant_time_msb_w (Z.lxor a (Z.lor (Z.lxor a b) (Z.lxor (u64 (a - b)) a))).

Definition constant_time_lt_8 (a b : Z) : Z := u8 (constant_time_lt_w a b).
Definition constant_time_ge_w (a b : Z) : Z := lnot64 (constant_time_lt_w a b).
Definition constant_time_ge_8 (a b : Z) : Z := u8 (constant_time_ge_w a b).
Definition constant_time_is_zero_w (a : Z) : Z :=
  constant_time_msb_w (Z.land (lnot64 a) (u64 (a - 1))).
Definition constant_time_is_zero_8 (a : Z) : Z := u8 (constant_time_is_zero_w a).
Definition constant_time_eq_w (a b : Z) : Z := constant_time_is_zero_w (Z.lxor a b).
Definition constant_time_eq_8 (a b : Z) : Z := u8 (constant_time_eq_w a b).
Definition constant_time_eq_int (a b : Z) : Z := constant_time_eq_w (u64 a) (u64 b).
Definition constant_time_select_w (mask a b : Z) : Z :=
  Z.lor (Z.land mask a) (Z.land (lnot64 mask) b).
Definition constant_time_select_8 (mask a b : Z) : Z :=
  let m := u8 mask in
  Z.lor (Z.land m a) (Z.land (lnot8 m) b).

(** The loop of [constant_time_conditional_memcpy] over [n] bytes. *)
Definition constant_time_conditional_memcpy (dst src : list Z) (mask : Z) : list Z :=
  map (fun '(o, i) => constant_time_select_8 mask i o) (combine dst src).

(** ** Byte swaps, loads and stores *)

Definition CRYPTO_bswap2 (x : Z) : Z := u16 (Z.lor (Z.shiftr x 8) (Z.shiftl x 8)).
Definition CRYPTO_bswap4 (x : Z) : Z :=
  let x := Z.lor (Z.shiftr x 16) (u32 (Z.shiftl x 16)) in
  Z.lor (Z.shiftr (Z.land x 0xff00ff00) 8) (u32 (Z.shiftl (Z.land x 0x00ff00ff) 8)).
Definition CRYPTO_bswap8 (x : Z) : Z :=
  Z.lor (CRYPTO_bswap4 (Z.shiftr x 32)) (u64 (Z.shiftl (CRYPTO_bswap4 (u32 x)) 32)).

(** A [memcpy] into an integer variable on a little-endian machine. *)
Fixpoint le_combine (l : list Z) : Z :=
  match l with
  | [] => 0
  | b :: l' => b + 256 * le_combine l'
  end.

Fixpoint le_split (n : nat) (v : Z) : list Z :=
  match n with
  | O => []
  | S n' => v mod 256 :: le_split n' (v / 256)
  end.

Definition CRYPTO_load_u32_le (p : list Z) : Z := le_combine (firstn 4 p).
Definition CRYPTO_store_u32_le (v : Z) : list Z := le_split 4 v.
Definition CRYPTO_load_u64_le (p : list Z) : Z := le_combine (firstn 8 p).
Definition CRYPTO_store_u64_le (v : Z) : list Z := le_split 8 v.
Definition CRYPTO_load_u16_be (p : list Z) : Z := CRYPTO_bswap2 (le_combine (firstn 2 p)).
Definition CRYPTO_load_u32_be (p : list Z) : Z := CRYPTO_bswap4 (le_combine (firstn 4 p)).
Definition CRYPTO_load_u64_be (p : list Z) : Z := CRYPTO_bswap8 (le_combine (firstn 8 p)).
Definition CRYPTO_store_u64_be (v : Z) : list Z := le_split 8 (CRYPTO_bswap8 v).

(** ** Rotations *)

Definition CRYPTO_rotl_u32 (value shift : Z) : Z :=
  Z.lor (u32 (Z.shiftl value shift)) (Z.shiftr value (Z.land (- shift) 31)).
Definition CRYPTO_rotr_u32 (value shift : Z) : Z :=
  Z.lor (Z.shiftr value shift) (u32 (Z.shiftl value (Z.land (- shift) 31))).
Definition CRYPTO_rotl_u64 (value shift : Z) : Z :=
  Z.lor (u64 (Z.shiftl value shift)) (Z.shiftr value (Z.land (- shift) 63)).

(** ** Carry arithmetic: the 128-bit branch and the portable branch *)

Definition CRYPTO_addc_u64 (x y carry : Z) : Z * Z :=
  let ret := wrap 128 (carry + wrap 128 (x + y)) in
  (u64 ret, u64 (Z.shiftr ret 64)).

Definition CRYPTO_addc_u64_portable (x y carry : Z) : Z * Z :=
  let x := u64 (x + carry) in
  let carry := if x <? carry then 1 else 0 in
  let ret := u64 (x + y) in
  let carry := u64 (carry + (if ret <? x then 1 else 0)) in
  (ret, carry).

Definition CRYPTO_subc_u64 (x y borrow : Z) : Z * Z :=
  let ret := u64 (u64 (x - y) - borrow) in
  (ret, Z.lor (if x <? y then 1 else 0) (Z.land (if x =? y then 1 else 0) borrow)).

(** ** [crypto/mem.cc] *)

Definition CRYPTO_memcmp (a b : list Z) : Z :=
  fold_left (fun x '(p, q) => Z.lor x (Z.lxor p q)) (combine a b) 0.

Definition OPENSSL_isdigit (c : Z) : bool := (c >=? 48) && (c <=? 57).
Definition OPENSSL_isalpha (c : Z) : bool :=
  ((c >=? 97) && (c <=? 122)) || ((c >=? 65) && (c <=? 90)).
Definition OPENSSL_isalnum (c : Z) : bool := OPENSSL_isalpha c || OPENSSL_isdigit c.
Definition OPENSSL_isxdigit (c : Z) : bool :=
  OPENSSL_isdigit c || ((c >=? 97) && (c <=? 102)) || ((c >=? 65) && (c <=? 70)).
Definition OPENSSL_fromxdigit (c : Z) : option Z :=
  if OPENSSL_isdigit c then Some (c - 48)
  else if (97 <=? c) && (c <=? 102) then Some (c - 97 + 10)
  else if (65 <=? c) && (c <=? 70) then Some (c - 65 + 10)
  else None.
Definition OPENSSL_tolower (c : Z) : Z :=
  if (c >=? 65) && (c <=? 90) then c + (97 - 65) else c.

Definition OPENSSL_hash32 (p : list Z) : Z :=
  fold_left (fun h b => u32 (Z.lxor h b * 16777619)) p 2166136261.

(** [memchr]: the index of the first occurrence. *)
Fixpoint OPENSSL_memchr (s : list Z) (c : Z) : option Z :=
  match s with
  | [] => None
  | b :: s' => if b =? c then Some 0
               else match OPENSSL_memchr s' c with Some i => Some (1 + i) | None => None end
  end.

(** [memcmp]: the sign of the first differing byte. *)
Fixpoint OPENSSL_memcmp (a b : list Z) : Z :=
  match a, b with
  | x :: a', y :: b' => if x <? y then -1 else if y <? x then 1 else OPENSSL_memcmp a' b'
  | _, _ => 0
  end.

(** ** Lemmas *)

Lemma testbit63_spec x : 0 <= x < 2 ^ 64 -> Z.testbit x 63 = (2 ^ 63 <=? x).
Proof.
  intros Hx. rewrite Z.testbit_eqb by lia. change (2 ^ 64) with (2 * 2 ^ 63) in Hx.
  destruct (Z.leb_spec (2 ^ 63) x).
  - replace (x / 2 ^ 63) with 1; [reflexivity|].
    apply Z.div_unique with (x - 2 ^ 63); lia.
  - rewrite Z.div_small by lia. reflexivity.
Qed.

Lemma msb_w_testbit a :
  0 <= a < 2 ^ 64 ->
  constant_time_msb_w a = if Z.testbit a 63 then CONSTTIME_TRUE_W else CONSTTIME_FALSE_W.
Proof.
  intros Ha. rewrite testbit63_spec by lia. unfold constant_time_msb_w.
  rewrite shiftr_div by lia. change (2 ^ 64) with (2 * 2 ^ 63) in Ha.
  destruct (Z.leb_spec (2 ^ 63) a).
  - replace (a / 2 ^ 63) with 1; [reflexivity|].
    apply Z.div_unique with (a - 2 ^ 63); lia.
  - rewrite Z.div_small by lia. reflexivity.
Qed.

Lemma lxor_range w a b : 0 <= w -> 0 <= a < 2 ^ w -> 0 <= b < 2 ^ w -> 0 <= Z.lxor a b < 2 ^ w.
Proof.
  intros Hw Ha Hb.
  assert (E : Z.lxor a b = wrap w (Z.lxor a b)).
  { rewrite wrap_land by lia. apply Z.bits_inj'. intros i Hi.
    rewrite Z.land_spec, Z.lxor_spec. destruct (Z.ltb_spec i w).
    - rewrite Z.ones_spec_low by lia. now rewrite andb_true_r.
    - rewrite <- (Z.mod_small a (2 ^ w)), <- (Z.mod_small b (2 ^ w)) by lia.
      rewrite !Z.mod_pow2_bits_high by lia. reflexivity. }
  rewrite E. now apply wrap_range.
Qed.

Lemma u64_sub_testbit a b :
  0 <= a < 2 ^ 64 -> 0 <= b < 2 ^ 64 ->
  u64 (a - b) = if a <? b then a - b + 2 ^ 64 else a - b.
Proof.
  intros. unfold wrap. destruct (Z.ltb_spec a b).
  - symmetry. apply Z.mod_unique with (-1); lia.
  - apply Z.mod_small. lia.
Qed.

Lemma constant_time_lt_w_spec a b :
  0 <= a < 2 ^ 64 -> 0 <= b < 2 ^ 64 ->
  constant_time_lt_w a b = if a <? b then CONSTTIME_TRUE_W else CONSTTIME_FALSE_W.
Proof.
  intros Ha Hb. unfold constant_time_lt_w.
  pose proof (wrap_range 64 (a - b) ltac:(lia)) as Hd.
  rewrite msb_w_testbit.
  2:{ repeat first [apply lxor_range | apply lor_range]; lia. }
  rewrite Z.lxor_spec, Z.lor_spec, !Z.lxor_spec, !testbit63_spec by lia.
  rewrite u64_sub_testbit by lia. change (2 ^ 64) with (2 * 2 ^ 63) in *.
  destruct (Z.ltb_spec a b), (Z.leb_spec (2 ^ 63) a), (Z.leb_spec (2 ^ 63) b);
    cbn [xorb orb]; try lia;
    match goal with |- context [2 ^ 63 <=? ?x] => destruct (Z.leb_spec (2 ^ 63) x) end;
    cbn [xorb orb]; try lia; reflexivity.
Qed.

Lemma constant_time_is_zero_w_spec a :
  0 <= a < 2 ^ 64 ->
  constant_time_is_zero_w a = if a =? 0 then CONSTTIME_TRUE_W else CONSTTIME_FALSE_W.
Proof.
  intros Ha. unfold constant_time_is_zero_w, lnot64.
  pose proof (wrap_range 64 (a - 1) ltac:(lia)). pose proof (wrap_range 64 (Z.lnot a) ltac:(lia)).
  rewrite msb_w_testbit by (apply land_range_r; lia).
  rewrite Z.land_spec. rewrite (testbit63_spec (wrap 64 (a - 1))) by lia.
  rewrite testbit63_spec by lia.
  replace (wrap 64 (Z.lnot a)) with (2 ^ 64 - 1 - a).
  2:{ unfold wrap, Z.lnot. apply Z.mod_unique with (-1); lia. }
  destruct (Z.eqb_spec a 0) as [->|]; [reflexivity|].
  rewrite (wrap_small 64 (a - 1)) by lia. change (2 ^ 64) with (2 * 2 ^ 63) in *.
  destruct (Z.leb_spec (2 ^ 63) (a - 1)), (Z.leb_spec (2 ^ 63) (2 * 2 ^ 63 - 1 - a));
    cbn [andb]; reflexivity || lia.
Qed.

Lemma constant_time_eq_w_spec a b :
  0 <= a < 2 ^ 64 -> 0 <= b < 2 ^ 64 ->
  constant_time_eq_w a b = if a =? b then CONSTTIME_TRUE_W else CONSTTIME_FALSE_W.
Proof.
  intros Ha Hb. unfold constant_time_eq_w.
  rewrite constant_time_is_zero_w_spec by (apply lxor_range; lia).
  destruct (Z.eqb_spec a b) as [->|].
  - now rewrite Z.lxor_nilpotent.
  - destruct (Z.eqb_spec (Z.lxor a b) 0) as [E|]; [|reflexivity].
    apply Z.lxor_eq in E. contradiction.
Qed.

Lemma constant_time_select_8_true a b :
  is_byte a -> is_byte b -> constant_time_select_8 CONSTTIME_TRUE_W a b = a.
Proof.
  intros Ha Hb. unfold constant_time_select_8.
  change (u8 CONSTTIME_TRUE_W) with 255. change (lnot8 255) with 0.
  rewrite Z.land_0_l, Z.lor_0_r, Z.land_comm.
  rewrite (land_ones_mod _ 8) by (reflexivity || lia). apply Z.mod_small. exact Ha.
Qed.

Lemma constant_time_select_8_false a b :
  is_byte a -> is_byte b -> constant_time_select_8 CONSTTIME_FALSE_W a b = b.
Proof.
  intros Ha Hb. unfold constant_time_select_8.
  change (u8 CONSTTIME_FALSE_W) with 0. change (lnot8 0) with 255.
  rewrite Z.land_0_l, Z.lor_0_l, Z.land_comm.
  rewrite (land_ones_mod _ 8) by (reflexivity || lia). apply Z.mod_small. exact Hb.
Qed.

Lemma le_combine_range l : bytes l -> 0 <= le_combine l < 256 ^ zlength l.
Proof.
  induction l as [|b l IH]; intros H; [cbn; lia|].
  apply bytes_cons in H as [Hb Hl]. specialize (IH Hl). cbn [le_combine].
  rewrite zlength_cons, Z.pow_add_r by (try apply zlength_nonneg; lia). red in Hb. lia.
Qed.

Lemma length_le_split n v : length (le_split n v) = n.
Proof. revert v. induction n; intros; cbn; [easy|]. now rewrite IHn. Qed.

Lemma bytes_le_split n v : bytes (le_split n v).
Proof.
  revert v. induction n; intros; cbn [le_split]; [constructor|].
  apply bytes_cons. split; [apply Z.mod_pos_bound; lia|apply IHn].
Qed.

Lemma le_combine_split n v : le_combine (le_split n v) = v mod 256 ^ Z.of_nat n.
Proof.
  revert v. induction n; intros v; cbn [le_split le_combine].
  - cbn. now rewrite Z.mod_1_r.
  - rewrite IHn. replace (Z.of_nat (S n)) with (1 + Z.of_nat n) by lia.
    rewrite Z.pow_add_r by lia. rewrite Z.rem_mul_r by (try apply Z.pow_pos_nonneg; lia).
    reflexivity.
Qed.

Lemma le_split_combine l : bytes l -> le_split (length l) (le_combine l) = l.
Proof.
  induction l as [|b l IH]; intros H; [easy|].
  apply bytes_cons in H as [Hb Hl]. cbn [length le_split le_combine]. red in Hb. f_equal.
  - rewrite Z.mul_comm, Z.mod_add, Z.mod_small by lia. reflexivity.
  - rewrite Z.mul_comm, Z.div_add, Z.div_small, Z.add_0_l by lia. now apply IH.
Qed.

Lemma CRYPTO_addc_u64_spec x y carry :
  0 <= x < 2 ^ 64 -> 0 <= y < 2 ^ 64 -> 0 <= carry <= 1 ->
  let '(sum, c) := CRYPTO_addc_u64 x y carry in
  sum + 2 ^ 64 * c = x + y + carry /\ 0 <= sum < 2 ^ 64 /\ 0 <= c <= 1.
Proof.
  intros Hx Hy Hc. unfold CRYPTO_addc_u64.
  rewrite (wrap_small 128 (x + y)), (wrap_small 128 (carry + (x + y))) by lia.
  rewrite shiftr_div by lia. unfold wrap.
  rewrite (Z.mod_small (_ / _)) by (split; [apply Z.div_pos|apply Z.div_lt_upper_bound]; lia).
  pose proof (Z.div_mod (carry + (x + y)) (2 ^ 64) ltac:(lia)).
  pose proof (Z.mod_pos_bound (carry + (x + y)) (2 ^ 64) ltac:(lia)). nia.
Qed.

Lemma CRYPTO_addc_u64_portable_spec x y carry :
  0 <= x < 2 ^ 64 -> 0 <= y < 2 ^ 64 -> 0 <= carry <= 1 ->
  CRYPTO_addc_u64_portable x y carry = CRYPTO_addc_u64 x y carry.
Proof.
  intros Hx Hy Hc.
  pose proof (CRYPTO_addc_u64_spec x y carry Hx Hy Hc) as S.
  destruct (CRYPTO_addc_u64 x y carry) as [sum c]. destruct S as (S1 & S2 & S3).
  unfold CRYPTO_addc_u64_portable.
  assert (W : forall v, 0 <= v < 2 * 2 ^ 64 ->
              u64 v = if v <? 2 ^ 64 then v else v - 2 ^ 64).
  { intros v Hv. unfold wrap. destruct (Z.ltb_spec v (2 ^ 64)).
    - apply Z.mod_small; lia.
    - symmetry. apply Z.mod_unique with 1; lia. }
  rewrite (W (x + carry)) by lia.
  destruct (Z.ltb_spec (x + carry) (2 ^ 64)).
  - rewrite (W (x + carry + y)) by lia.
    destruct (Z.ltb_spec (x + carry) carry); try lia.
    destruct (Z.ltb_spec (x + carry + y) (2 ^ 64));
      match goal with |- context [if ?p <? ?q then _ else _] => destruct (Z.ltb_spec p q) end;
      try lia; cbn [Z.add]; rewrite ?wrap_small by lia; f_equal; lia.
  - rewrite (W (x + carry - 2 ^ 64 + y)) by lia.
    assert (c = 1) by lia.
    destruct (Z.ltb_spec (x + carry - 2 ^ 64) carry); try lia.
    destruct (Z.ltb_spec (x + carry - 2 ^ 64 + y) (2 ^ 64)); try lia.
    match goal with |- context [if ?p <? ?q then _ else _] => destruct (Z.ltb_spec p q) end; try lia.
    rewrite wrap_small by lia. f_equal; lia.
Qed.

Lemma CRYPTO_subc_u64_spec x y borrow :
  0 <= x < 2 ^ 64 -> 0 <= y < 2 ^ 64 -> 0 <= borrow <= 1 ->
  let '(diff, b) := CRYPTO_subc_u64 x y borrow in
  diff - 2 ^ 64 * b = x - y - borrow /\ 0 <= diff < 2 ^ 64 /\ 0 <= b <= 1.
Proof.
  intros Hx Hy Hb. unfold CRYPTO_subc_u64, wrap. cbv zeta.
  rewrite !Zdiv.Zminus_mod_idemp_l.
  assert (E : (x - y - borrow) mod 2 ^ 64 =
              if x <? y + borrow then x - y - borrow + 2 ^ 64 else x - y - borrow).
  { destruct (Z.ltb_spec x (y + borrow)).
    - symmetry. apply Z.mod_unique with (-1); lia.
    - apply Z.mod_small. lia. }
  rewrite E. assert (borrow = 0 \/ borrow = 1) as [-> | ->] by lia;
  destruct (Z.ltb_spec x y), (Z.eqb_spec x y); cbn [Z.land Z.lor Pos.land Pos.lor Z.of_N];
  match goal with |- context [x <? ?q] => destruct (Z.ltb_spec x q) end; lia.
Qed.

Lemma CRYPTO_memcmp_acc ps acc :
  fold_left (fun x '(p, q) => Z.lor x (Z.lxor p q)) ps acc = 0 <->
  acc = 0 /\ Forall (fun '(p, q) => p = q) ps.
Proof.
  revert acc. induction ps as [|[p q] ps IH]; intros acc; cbn [fold_left].
  - split; [auto|tauto].
  - rewrite IH, Z.lor_eq_0_iff, Z.lxor_eq_0_iff, Forall_cons_iff. tauto.
Qed.

Lemma combine_eq_Forall (a b : list Z) :
  length a = length b -> (Forall (fun '(p, q) => p = q) (combine a b) <-> a = b).
Proof.
  revert b. induction a as [|x a IH]; intros [|y b] H; cbn in *; try lia.
  - split; auto.
  - rewrite Forall_cons_iff, IH by lia. split; [intros [-> ->]; auto|intros E; inversion E; auto].
Qed.
