(* ===== verification/Cbs.v ===== *)
(** The byte-string parser of [crypto/bytestring/cbs.cc].

    A [CBS] is a pointer and a length into constant memory, so it is modelled
    as the list of bytes that are left.  Every [CBS_get_*] function is a
    program of the [st CBS] monad: it returns [None] where the C function
    returns 0, together with the cursor the C function leaves behind (a failing
    function may have consumed part of its input).  Out-parameters are results;
    their value after a failure is not modelled.  [size_t] is 64 bits wide. *)
From Stdlib Require Import ZArith List Lia Bool.
From S2P Require Import Prelude CryptoInternal.
Import ListNotations.
Open Scope Z_scope.

Create Rewrite HintDb cbs.

Definition CBS : Type := list Z.

(** ** ASN.1 tags ([include/openssl/bytestring.h]) *)

Definition CBS_ASN1_TAG_SHIFT : Z := 24.
Definition CBS_ASN1_CONSTRUCTED : Z := Z.shiftl 0x20 CBS_ASN1_TAG_SHIFT.
Definition CBS_ASN1_TAG_NUMBER_MASK : Z := Z.shiftl 1 (5 + CBS_ASN1_TAG_SHIFT) - 1.
Definition CBS_ASN1_BOOLEAN : Z := 0x1.
Definition CBS_ASN1_INTEGER : Z := 0x2.
Definition CBS_ASN1_BITSTRING : Z := 0x3.
Definition CBS_ASN1_OCTETSTRING : Z := 0x4.
Definition CBS_ASN1_OBJECT : Z := 0x6.
Definition CBS_ASN1_SEQUENCE : Z := Z.lor 0x10 CBS_ASN1_CONSTRUCTED.

(** ** Reading bytes and integers *)

Definition CBS_len (cbs : CBS) : Z := zlength cbs.

Definition cbs_get (n : Z) : st CBS (list Z) := fun cbs =>
  if zlength cbs <? n then (None, cbs)
  else (Some (firstn (Z.to_nat n) cbs), skipn (Z.to_nat n) cbs).

Definition CBS_skip (len : Z) : st CBS unit := cbs_get len ;;; ret tt.

Definition CBS_contains_zero_byte (cbs : CBS) : bool :=
  match OPENSSL_memchr cbs 0 with Some _ => true | None => false end.

Definition CBS_mem_equal (cbs data : list Z) : bool :=
  if negb (zlength data =? zlength cbs) then false else CRYPTO_memcmp cbs data =? 0.

(** The loop [result <<= 8; result |= data[i]] on a [uint64_t]. *)
Definition be_fold_u64 (data : list Z) : Z :=
  fold_left (fun result b => Z.lor (u64 (Z.shiftl result 8)) b) data 0.

Definition cbs_get_u (len : Z) : st CBS Z :=
  let* data := cbs_get len in ret (be_fold_u64 data).

Definition CBS_get_u8 : st CBS Z :=
  let* v := cbs_get 1 in ret (hd 0 v).
Definition CBS_get_u16 : st CBS Z := let* v := cbs_get_u 2 in ret (u16 v).
Definition CBS_get_u16le : st CBS Z := let* out := CBS_get_u16 in ret (CRYPTO_bswap2 out).
Definition CBS_get_u24 : st CBS Z := let* v := cbs_get_u 3 in ret (u32 v).
Definition CBS_get_u32 : st CBS Z := let* v := cbs_get_u 4 in ret (u32 v).
Definition CBS_get_u32le : st CBS Z := let* out := CBS_get_u32 in ret (CRYPTO_bswap4 out).
Definition CBS_get_u48 : st CBS Z := cbs_get_u 6.
Definition CBS_get_u64 : st CBS Z := cbs_get_u 8.
Definition CBS_get_u64le : st CBS Z := let* out := cbs_get_u 8 in ret (CRYPTO_bswap8 out).

Definition CBS_get_last_u8 : st CBS Z := fun cbs =>
  if zlength cbs =? 0 then (None, cbs)
  else (Some (last cbs 0), removelast cbs).

Definition CBS_get_bytes (len : Z) : st CBS CBS := cbs_get len.
Definition CBS_copy_bytes (len : Z) : st CBS (list Z) := cbs_get len.

Definition cbs_get_length_prefixed (len_len : Z) : st CBS CBS :=
  let* len := cbs_get_u len_len in CBS_get_bytes len.
Definition CBS_get_u8_length_prefixed : st CBS CBS := cbs_get_length_prefixed 1.
Definition CBS_get_u16_length_prefixed : st CBS CBS := cbs_get_length_prefixed 2.
Definition CBS_get_u24_length_prefixed : st CBS CBS := cbs_get_length_prefixed 3.

Definition CBS_get_until_first (c : Z) : st CBS CBS := fun cbs =>
  match OPENSSL_memchr cbs c with
  | None => (None, cbs)
  | Some split => CBS_get_bytes split cbs
  end.

(** [c && strchr(chars, c)] for a C string [chars] (no embedded zeros). *)
Definition strchr_nonzero (chars : list Z) (c : Z) : bool :=
  negb (c =? 0) && existsb (Z.eqb c) chars.

(** The number of leading bytes on which [f] holds: the [pos] of both scans. *)
Fixpoint scan_while (f : Z -> bool) (l : list Z) : Z :=
  match l with
  | [] => 0
  | c :: l' => if f c then 1 + scan_while f l' else 0
  end.

Definition CBS_get_until_first_of (chars : list Z) : st CBS CBS := fun cbs =>
  let pos := scan_while (fun c => negb (strchr_nonzero chars c)) cbs in
  if pos =? CBS_len cbs then (None, cbs) else CBS_get_bytes pos cbs.

Definition CBS_get_until_first_not_of (chars : list Z) : st CBS CBS := fun cbs =>
  let pos := scan_while (strchr_nonzero chars) cbs in
  if pos =? CBS_len cbs then (None, cbs) else CBS_get_bytes pos cbs.

(** One round per digit; the cursor is past the offending digit on failure. *)
Fixpoint get_u64_decimal_loop (v : Z) (seen_digit : bool) (cbs : CBS) : option (Z * bool) * CBS :=
  match cbs with
  | [] => (Some (v, seen_digit), [])
  | c :: rest =>
      if negb (OPENSSL_isdigit c) then (Some (v, seen_digit), cbs)
      else if ((v =? 0) && seen_digit) || (v >? UINT64_MAX / 10)
              || (u64 (v * 10) >? UINT64_MAX - (c - 48))
      then (None, rest)
      else get_u64_decimal_loop (u64 (v * 10 + (c - 48))) true rest
  end.

Definition CBS_get_u64_decimal : st CBS Z :=
  let* (v, seen_digit) := get_u64_decimal_loop 0 false in
  guard seen_digit ;;; ret v.

(** ** ASN.1 elements *)

Fixpoint parse_base128_loop (v : Z) (cbs : CBS) : option Z * CBS :=
  match cbs with
  | [] => (None, [])
  | b :: rest =>
      if negb (Z.shiftr v (64 - 7) =? 0) then (None, rest)
      else if (v =? 0) && (b =? 0x80) then (None, rest)
      else
        let v := Z.lor (u64 (Z.shiftl v 7)) (Z.land b 0x7f) in
        if negb (Z.land b 0x80 =? 0) then parse_base128_loop v rest
        else (Some v, rest)
  end.

Definition parse_base128_integer : st CBS Z := parse_base128_loop 0.

Definition parse_asn1_tag : st CBS Z :=
  let* tag_byte := CBS_get_u8 in
  let tag := u32 (Z.shiftl (Z.land tag_byte 0xe0) CBS_ASN1_TAG_SHIFT) in
  let* tag_number :=
    (if Z.land tag_byte 0x1f =? 0x1f then
       let* v := parse_base128_integer in
       guard (negb (v >? CBS_ASN1_TAG_NUMBER_MASK) && negb (v <? 0x1f)) ;;;
       ret (u32 v)
     else ret (Z.land tag_byte 0x1f)) in
  let tag := Z.lor tag tag_number in
  guard (negb (Z.land tag (u32 (Z.lnot CBS_ASN1_CONSTRUCTED)) =? 0)) ;;;
  ret tag.

(** What [cbs_get_any_asn1_element] reports of the element it splits off. *)
Record asn1_element := {
  el_out : CBS;
  el_tag : Z;
  el_header_len : Z;
  el_ber_found : bool;
  el_indefinite : bool
}.

(** The length octets: [Some (len, header_len, ber_found, indefinite)], where
    [len] counts the header, or [None] where the code returns 0.  [header] is
    the cursor after the first length octet and [header_len] the bytes before it. *)
Definition asn1_length_octets (ber_ok : bool) (tag length_byte header_len : Z) (header : CBS)
  : option (Z * Z * bool * bool) :=
  if Z.land length_byte 0x80 =? 0 then
    Some (u64 (length_byte + header_len), header_len, false, false)
  else
    let num_bytes := Z.land length_byte 0x7f in
    if ber_ok && negb (Z.land tag CBS_ASN1_CONSTRUCTED =? 0) && (num_bytes =? 0) then
      Some (header_len, header_len, true, true)
    else if (num_bytes =? 0) || (num_bytes >? 4) then None
    else
      match cbs_get_u num_bytes header with
      | (None, _) => None
      | (Some len64, _) =>
          if (len64 <? 128) && negb ber_ok then None
          else if (Z.shiftr len64 ((num_bytes - 1) * 8) =? 0) && negb ber_ok then None
          else
            let ber_found := (len64 <? 128) || (Z.shiftr len64 ((num_bytes - 1) * 8) =? 0) in
            if u64 (len64 + header_len + num_bytes) <? len64 then None
            else Some (u64 (len64 + header_len + num_bytes), u64 (header_len + num_bytes),
                       ber_found, false)
      end.

Definition cbs_get_any_asn1_element (ber_ok : bool) : st CBS asn1_element := fun cbs =>
  match (let* tag := parse_asn1_tag in let* b := CBS_get_u8 in ret (tag, b)) cbs with
  | (None, _) => (None, cbs)
  | (Some (tag, length_byte), header) =>
      let header_len := CBS_len cbs - CBS_len header in
      match asn1_length_octets ber_ok tag length_byte header_len header with
      | None => (None, cbs)
      | Some (len, hlen, ber_found, indefinite) =>
          (let* out := CBS_get_bytes len in
           ret {| el_out := out; el_tag := tag; el_header_len := hlen;
                  el_ber_found := ber_found; el_indefinite := indefinite |}) cbs
      end
  end.

Definition CBS_get_any_asn1_element : st CBS asn1_element := cbs_get_any_asn1_element false.
Definition CBS_get_any_ber_asn1_element : st CBS asn1_element := cbs_get_any_asn1_element true.

(** [CBS_skip(out, header_len)] on the element's own cursor. *)
Definition skip_header (header_len : Z) (out : CBS) : option CBS :=
  match CBS_skip header_len out with (Some _, out') => Some out' | (None, _) => None end.

Definition CBS_get_any_asn1 : st CBS (CBS * Z) :=
  let* el := CBS_get_any_asn1_element in
  match skip_header (el_header_len el) (el_out el) with
  | Some out => ret (out, el_tag el)
  | None => fail
  end.

Definition cbs_get_asn1 (tag_value : Z) (skip : bool) : st CBS CBS :=
  let* el := CBS_get_any_asn1_element in
  guard (el_tag el =? tag_value) ;;;
  if skip then
    match skip_header (el_header_len el) (el_out el) with
    | Some out => ret out
    | None => fail
    end
  else ret (el_out el).

Definition CBS_get_asn1 (tag_value : Z) : st CBS CBS := cbs_get_asn1 tag_value true.
Definition CBS_get_asn1_element (tag_value : Z) : st CBS CBS := cbs_get_asn1 tag_value false.

Definition CBS_peek_asn1_tag (cbs : CBS) (tag_value : Z) : bool :=
  match parse_asn1_tag cbs with
  | (Some actual_tag, _) => tag_value =? actual_tag
  | (None, _) => false
  end.

(** ** INTEGER, BOOLEAN, BIT STRING and OBJECT IDENTIFIER contents *)

(** [Some is_negative] where the contents are a minimal two's-complement integer. *)
Definition CBS_is_valid_asn1_integer (cbs : CBS) : option bool :=
  match CBS_get_u8 cbs with
  | (None, _) => None
  | (Some first_byte, copy) =>
      let is_negative := negb (Z.land first_byte 0x80 =? 0) in
      match CBS_get_u8 copy with
      | (None, _) => Some is_negative
      | (Some second_byte, _) =>
          if ((first_byte =? 0x00) && (Z.land second_byte 0x80 =? 0))
             || ((first_byte =? 0xff) && negb (Z.land second_byte 0x80 =? 0))
          then None else Some is_negative
      end
  end.

Definition CBS_is_unsigned_asn1_integer (cbs : CBS) : bool :=
  match CBS_is_valid_asn1_integer cbs with
  | Some is_negative => negb is_negative
  | None => false
  end.

Fixpoint uint64_loop (out : Z) (data : list Z) : option Z :=
  match data with
  | [] => Some out
  | b :: data' =>
      if negb (Z.shiftr out 56 =? 0) then None
      else uint64_loop (Z.lor (u64 (Z.shiftl out 8)) b) data'
  end.

Definition CBS_get_asn1_uint64_with_tag (tag : Z) : st CBS Z :=
  let* bytes := CBS_get_asn1 tag in
  guard (CBS_is_unsigned_asn1_integer bytes) ;;;
  match uint64_loop 0 bytes with Some out => ret out | None => fail end.
Definition CBS_get_asn1_uint64 : st CBS Z := CBS_get_asn1_uint64_with_tag CBS_ASN1_INTEGER.

(** The two's-complement reading of a 64-bit pattern ([*out] is an [int64_t]). *)
Definition to_int64 (v : Z) : Z := if v <? 2 ^ 63 then v else v - 2 ^ 64.

Definition CBS_get_asn1_int64_with_tag (tag : Z) : st CBS Z :=
  let* bytes := CBS_get_asn1 tag in
  match CBS_is_valid_asn1_integer bytes with
  | None => fail
  | Some is_negative =>
      if CBS_len bytes >? 8 then fail
      else
        let sign_extend :=
          repeat (if is_negative then 0xff else 0) (8 - length bytes) ++ bytes in
        ret (to_int64 (CRYPTO_load_u64_be sign_extend))
  end.
Definition CBS_get_asn1_int64 : st CBS Z := CBS_get_asn1_int64_with_tag CBS_ASN1_INTEGER.

Definition CBS_get_asn1_bool : st CBS bool :=
  let* bytes := CBS_get_asn1 CBS_ASN1_BOOLEAN in
  guard (CBS_len bytes =? 1) ;;;
  let value := hd 0 bytes in
  guard ((value =? 0) || (value =? 0xff)) ;;;
  ret (negb (value =? 0)).

(** [None] when the element is absent ([*out_present] is 0). *)
Definition CBS_get_optional_asn1 (tag : Z) : st CBS (option CBS) := fun cbs =>
  if CBS_peek_asn1_tag cbs tag
  then (let* out := CBS_get_asn1 tag in ret (Some out)) cbs
  else (Some None, cbs).

(** Run a parser on a child cursor that must be consumed whole. *)
Definition parse_whole {A} (p : st CBS A) (child : CBS) : option A :=
  match p child with
  | (Some a, rest) => if CBS_len rest =? 0 then Some a else None
  | (None, _) => None
  end.

Definition CBS_get_optional_asn1_octet_string (tag : Z) : st CBS (CBS * bool) :=
  let* child := CBS_get_optional_asn1 tag in
  match child with
  | Some child =>
      match parse_whole (CBS_get_asn1 CBS_ASN1_OCTETSTRING) child with
      | Some out => ret (out, true)
      | None => fail
      end
  | None => ret ([], false)
  end.

Definition CBS_get_optional_asn1_uint64 (tag default_value : Z) : st CBS Z :=
  let* child := CBS_get_optional_asn1 tag in
  match child with
  | Some child =>
      match parse_whole CBS_get_asn1_uint64 child with Some v => ret v | None => fail end
  | None => ret default_value
  end.

Definition CBS_get_optional_asn1_bool (tag : Z) (default_value : bool) : st CBS bool :=
  let* child := CBS_get_optional_asn1 tag in
  match child with
  | Some child =>
      match CBS_get_asn1 CBS_ASN1_BOOLEAN child with
      | (None, _) => fail
      | (Some child2, child) =>
          if negb (CBS_len child2 =? 1) || negb (CBS_len child =? 0) then fail
          else
            let boolean := hd 0 child2 in
            if boolean =? 0 then ret false
            else if boolean =? 0xff then ret true
            else fail
      end
  | None => ret default_value
  end.

Definition CBS_is_valid_asn1_bitstring (cbs : CBS) : bool :=
  match CBS_get_u8 cbs with
  | (None, _) => false
  | (Some num_unused_bits, rest) =>
      if num_unused_bits >? 7 then false
      else if num_unused_bits =? 0 then true
      else match CBS_get_last_u8 rest with
           | (None, _) => false
           | (Some last, _) => Z.land last (Z.shiftl 1 num_unused_bits - 1) =? 0
           end
  end.

Definition CBS_asn1_bitstring_has_bit (cbs : CBS) (bit : Z) : bool :=
  if negb (CBS_is_valid_asn1_bitstring cbs) then false
  else
    let byte_num := u32 (Z.shiftr bit 3 + 1) in
    let bit_num := 7 - Z.land bit 7 in
    (byte_num <? CBS_len cbs)
    && negb (Z.land (nth (Z.to_nat byte_num) cbs 0) (Z.shiftl 1 bit_num) =? 0).

Fixpoint oid_bytes_valid (prev : Z) (cbs : CBS) : bool :=
  match cbs with
  | [] => Z.land prev 0x80 =? 0
  | v :: copy =>
      if (Z.land prev 0x80 =? 0) && (v =? 0x80) then false else oid_bytes_valid v copy
  end.

Definition CBS_is_valid_asn1_oid (cbs : CBS) : bool :=
  if CBS_len cbs =? 0 then false else oid_bytes_valid 0 cbs.

(** ** Lemmas *)

Lemma cbs_get_app d r : cbs_get (zlength d) (d ++ r) = (Some d, r).
Proof.
  unfold cbs_get. rewrite zlength_app. pose proof (zlength_nonneg r).
  destruct (Z.ltb_spec (zlength d + zlength r) (zlength d)); [lia|].
  unfold zlength. rewrite Nat2Z.id, firstn_app, skipn_app, Nat.sub_diag, firstn_all, skipn_all.
  cbn. now rewrite app_nil_r.
Qed.

Lemma cbs_get_inv n s d r :
  0 <= n -> cbs_get n s = (Some d, r) -> s = d ++ r /\ zlength d = n.
Proof.
  unfold cbs_get. intros Hn. destruct (Z.ltb_spec (zlength s) n); [discriminate|].
  intros [= <- <-]. rewrite firstn_skipn. split; [easy|].
  unfold zlength in *. rewrite length_firstn. lia.
Qed.

Lemma cbs_get_fail n s r : cbs_get n s = (None, r) -> zlength s < n /\ r = s.
Proof.
  unfold cbs_get. destruct (Z.ltb_spec (zlength s) n); intros H1; inversion H1; subst; auto.
Qed.

Lemma CBS_get_u8_cons b s : CBS_get_u8 (b :: s) = (Some b, s).
Proof.
  unfold CBS_get_u8, bind, cbs_get. rewrite zlength_cons. pose proof (zlength_nonneg s).
  destruct (Z.ltb_spec (1 + zlength s) 1); [lia|]. reflexivity.
Qed.

Lemma CBS_get_u8_inv s b r : CBS_get_u8 s = (Some b, r) -> s = b :: r.
Proof. destruct s as [|c s]; [discriminate|]. rewrite CBS_get_u8_cons. now intros [= -> ->]. Qed.

Lemma CBS_get_u8_nil : CBS_get_u8 [] = (None, []).
Proof. reflexivity. Qed.

Lemma CBS_skip_app d r : CBS_skip (zlength d) (d ++ r) = (Some tt, r).
Proof. unfold CBS_skip, bind. now rewrite cbs_get_app. Qed.

Lemma shl8_or v b : 0 <= v < 2 ^ 56 -> is_byte b -> Z.lor (u64 (Z.shiftl v 8)) b = v * 256 + b.
Proof.
  intros Hv Hb. red in Hb. rewrite Z.shiftl_mul_pow2, wrap_small by lia.
  apply (lor_add_mul _ v 8); lia.
Qed.

Lemma be_fold_u64_acc l : forall acc,
  bytes l -> 0 <= acc -> acc * 256 ^ zlength l + be_combine l < 2 ^ 64 ->
  fold_left (fun result b => Z.lor (u64 (Z.shiftl result 8)) b) l acc =
  acc * 256 ^ zlength l + be_combine l.
Proof.
  induction l as [|b l IH]; intros acc Hl Ha Hbound; cbn [fold_left].
  - rewrite zlength_nil. cbn. lia.
  - apply bytes_cons in Hl as [Hb Hl]. pose proof (be_combine_range l Hl).
    rewrite be_combine_cons, zlength_cons, Z.pow_add_r in * by (try apply zlength_nonneg; lia).
    change (256 ^ 1) with 256 in *. pose proof Hb as Hb'. red in Hb'.
    assert (0 < 256 ^ zlength l) by (apply Z.pow_pos_nonneg; try apply zlength_nonneg; lia).
    assert (0 <= acc < 2 ^ 56) by (change (2 ^ 64) with (256 * 2 ^ 56) in *; nia).
    rewrite shl8_or by assumption. rewrite IH; [ring| assumption | lia | ].
    replace ((acc * 256 + b) * 256 ^ zlength l + be_combine l)
      with (acc * (256 * 256 ^ zlength l) + (b * 256 ^ zlength l + be_combine l)) by ring.
    assumption.
Qed.

Lemma be_fold_u64_combine l : bytes l -> zlength l <= 8 -> be_fold_u64 l = be_combine l.
Proof.
  intros Hl Hn. unfold be_fold_u64. rewrite be_fold_u64_acc; try lia; auto.
  rewrite Z.mul_0_l. pose proof (be_combine_range l Hl).
  assert (256 ^ zlength l <= 256 ^ 8) by (apply Z.pow_le_mono_r; lia).
  change (256 ^ 8) with (2 ^ 64) in *. lia.
Qed.

Lemma cbs_get_u_split n v rest :
  (n <= 8)%nat -> 0 <= v < 256 ^ Z.of_nat n ->
  cbs_get_u (Z.of_nat n) (be_split n v ++ rest) = (Some v, rest).
Proof.
  intros Hn Hv. unfold cbs_get_u, bind.
  rewrite <- (zlength_be_split n v), cbs_get_app. unfold ret. do 2 f_equal.
  rewrite be_fold_u64_combine by (auto with bytestr; rewrite zlength_be_split; lia).
  rewrite be_combine_split. now apply Z.mod_small.
Qed.

Lemma cbs_get_u_inv n s v rest :
  0 <= n <= 8 -> bytes s -> cbs_get_u n s = (Some v, rest) ->
  s = be_split (Z.to_nat n) v ++ rest /\ 0 <= v < 256 ^ n.
Proof.
  intros Hn Hs. unfold cbs_get_u. intros H. apply bind_some_inv in H as (d & s1 & H1 & H2).
  inversion H2; subst; clear H2. apply cbs_get_inv in H1 as [-> Hd]; [|lia].
  apply bytes_app in Hs as [Hs _]. rewrite be_fold_u64_combine by (auto; lia).
  pose proof (be_combine_range d Hs) as R. rewrite Hd in R. split; [|exact R].
  f_equal. rewrite <- Hd. unfold zlength. rewrite Nat2Z.id. symmetry. now apply be_split_combine.
Qed.

#[export] Hint Rewrite cbs_get_app CBS_get_u8_cons CBS_skip_app : cbs.
