(* ===== verification/Cbb.v ===== *)
(** The byte-string builder of [crypto/bytestring/cbb.cc].

    In C a builder is a top-level [CBB] that owns a buffer and a chain of
    child [CBB]s, each with a length prefix that is still to be written: a
    [CBB] has at most one open child.  The model keeps the buffer and that
    chain, outermost child first, in one record; a [CBB *] argument becomes
    the depth [d] of the builder it points to (0 is the top-level one, [d] the
    [d]-th element of the chain).  A depth beyond the chain is a child that
    was flushed, whose [base] pointer is null.

    Bytes that C leaves uninitialised have the value [uninit] and an
    allocation of [n] bytes succeeds when [alloc_ok n]: the class [Env] is
    what the builder assumes of its allocator, and every theorem holds for all
    its instances. *)
From Stdlib Require Import ZArith List Lia Bool.
From S2P Require Import Prelude CryptoInternal Cbs.
Import ListNotations.
Open Scope Z_scope.

Class Env := {
  uninit : Z;
  alloc_ok : Z -> bool
}.

Record cbb_buffer := {
  bb_buf : list Z;       (* the first [len] bytes of [buf] *)
  bb_cap : Z;
  bb_can_resize : bool;
  bb_error : bool
}.

Record cbb_child := {
  ch_offset : Z;
  ch_pending_len_len : Z;
  ch_pending_is_asn1 : bool
}.

Record CBB := {
  cbb_base : cbb_buffer;
  cbb_chain : list cbb_child
}.

Definition bb_len (b : cbb_buffer) : Z := zlength (bb_buf b).

Definition set_buf (l : list Z) (b : cbb_buffer) : cbb_buffer :=
  {| bb_buf := l; bb_cap := bb_cap b; bb_can_resize := bb_can_resize b; bb_error := bb_error b |}.
Definition set_cap (c : Z) (b : cbb_buffer) : cbb_buffer :=
  {| bb_buf := bb_buf b; bb_cap := c; bb_can_resize := bb_can_resize b; bb_error := bb_error b |}.
Definition set_error (b : cbb_buffer) : cbb_buffer :=
  {| bb_buf := bb_buf b; bb_cap := bb_cap b; bb_can_resize := bb_can_resize b; bb_error := true |}.

(** [memcpy(buf + off, bs, len)] inside the valid part of the buffer. *)
Definition buf_write (l : list Z) (off : Z) (bs : list Z) : list Z :=
  firstn (Z.to_nat off) l ++ bs ++ skipn (Z.to_nat off + length bs) l.

(** The loop [for (i = n - 1; i < n; i--) { out[i] = v; v >>= 8; }]: the bytes
    it stores and what is left of [v]. *)
Fixpoint store_be (n : nat) (v : Z) : list Z * Z :=
  match n with
  | O => ([], v)
  | S n' => let '(bs, v') := store_be n' (Z.shiftr v 8) in (bs ++ [u8 v], v')
  end.

Section Builder.
Context {E : Env}.

Definition CBB_init (initial_capacity : Z) : option CBB :=
  if (initial_capacity >? 0) && negb (alloc_ok initial_capacity) then None
  else Some {| cbb_base := {| bb_buf := []; bb_cap := initial_capacity;
                              bb_can_resize := true; bb_error := false |};
               cbb_chain := [] |}.

Definition CBB_init_fixed (len : Z) : CBB :=
  {| cbb_base := {| bb_buf := []; bb_cap := len; bb_can_resize := false; bb_error := false |};
     cbb_chain := [] |}.

(** ** The buffer *)

Definition cbb_buffer_reserve (len : Z) : st cbb_buffer unit := fun base =>
  let newlen := u64 (bb_len base + len) in
  if newlen <? bb_len base then (None, set_error base)
  else if newlen >? bb_cap base then
    if negb (bb_can_resize base) then (None, set_error base)
    else
      let newcap := u64 (bb_cap base * 2) in
      let newcap := if (newcap <? bb_cap base) || (newcap <? newlen) then newlen else newcap in
      if alloc_ok newcap then (Some tt, set_cap newcap base) else (None, set_error base)
  else (Some tt, base).

(** The [len] new bytes are uninitialised. *)
Definition cbb_buffer_add (len : Z) : st cbb_buffer unit :=
  cbb_buffer_reserve len ;;;
  fun base => (Some tt, set_buf (bb_buf base ++ repeat uninit (Z.to_nat len)) base).

(** ** Flushing *)

(** The number of length octets and the first of them for ASN.1 contents of
    [len] bytes, with the value the octet loop then stores. *)
Definition asn1_flush_prefix (len : Z) : option (Z * Z * Z) :=
  if len >? 0xfffffffe then None
  else if len >? 0xffffff then Some (5, Z.lor 0x80 4, len)
  else if len >? 0xffff then Some (4, Z.lor 0x80 3, len)
  else if len >? 0xff then Some (3, Z.lor 0x80 2, len)
  else if len >? 0x7f then Some (2, Z.lor 0x80 1, len)
  else Some (1, u8 len, 0).

(** The octet loop of [CBB_flush] and its overflow check. *)
Definition flush_write_len (offset pending_len_len len : Z) : st cbb_buffer unit := fun base =>
  let '(octets, rest) := store_be (Z.to_nat pending_len_len) len in
  let base := set_buf (buf_write (bb_buf base) offset octets) base in
  if negb (rest =? 0) then (None, set_error base) else (Some tt, base).

(** What [CBB_flush] does for one child once its own children are flushed. *)
Definition flush_child (child : cbb_child) : st cbb_buffer unit := fun base =>
  let child_start := u64 (ch_offset child + ch_pending_len_len child) in
  if (child_start <? ch_offset child) || (bb_len base <? child_start)
  then (None, set_error base)
  else
    let len := bb_len base - child_start in
    if ch_pending_is_asn1 child then
      match asn1_flush_prefix len with
      | None => (None, set_error base)
      | Some (len_len, initial_length_byte, len') =>
          let moved :=
            if negb (len_len =? 1) then
              let extra_bytes := len_len - 1 in
              match cbb_buffer_add extra_bytes base with
              | (None, base) => (None, set_error base)
              | (Some _, base) =>
                  (Some tt,
                   set_buf (buf_write (bb_buf base) (child_start + extra_bytes)
                              (firstn (Z.to_nat len') (skipn (Z.to_nat child_start) (bb_buf base))))
                     base)
              end
            else (Some tt, base) in
          match moved with
          | (None, base) => (None, base)
          | (Some _, base) =>
              flush_write_len (ch_offset child + 1) (len_len - 1) len'
                (set_buf (buf_write (bb_buf base) (ch_offset child) [initial_length_byte]) base)
          end
      end
    else flush_write_len (ch_offset child) (ch_pending_len_len child) len base.

(** [CBB_flush] of a builder whose descendants are [cs]. *)
Fixpoint flush_children (cs : list cbb_child) : st cbb_buffer unit := fun base =>
  if bb_error base then (None, base)
  else match cs with
       | [] => (Some tt, base)
       | child :: cs' =>
           match flush_children cs' base with
           | (None, base) => (None, set_error base)
           | (Some _, base) => flush_child child base
           end
       end.

Definition CBB_flush (d : nat) : st CBB unit := fun cbb =>
  if (length (cbb_chain cbb) <? d)%nat || bb_error (cbb_base cbb) then (None, cbb)
  else
    let '(r, base) := flush_children (skipn d (cbb_chain cbb)) (cbb_base cbb) in
    (r, {| cbb_base := base; cbb_chain := firstn d (cbb_chain cbb) |}).

Definition cbb_on_error (d : nat) : st CBB unit := fun cbb =>
  (Some tt, {| cbb_base := set_error (cbb_base cbb); cbb_chain := firstn d (cbb_chain cbb) |}).

(** [m || (cbb_on_error(cbb), return 0)] *)
Definition or_on_error {A} (d : nat) (m : st CBB A) : st CBB A := fun cbb =>
  match m cbb with
  | (Some a, cbb') => (Some a, cbb')
  | (None, cbb') => (None, snd (cbb_on_error d cbb'))
  end.

(** An operation on the shared buffer. *)
Definition on_base {A} (m : st cbb_buffer A) : st CBB A := fun cbb =>
  let '(r, base) := m (cbb_base cbb) in
  (r, {| cbb_base := base; cbb_chain := cbb_chain cbb |}).

(** The bytes handed over; [out_data] is not null where the buffer can be
    resized, and the builder is not used after a successful call. *)
Definition CBB_finish (d : nat) : st CBB (list Z) := fun cbb =>
  if negb (d =? 0)%nat then (None, cbb)
  else (CBB_flush 0 ;;; fun cbb => (Some (bb_buf (cbb_base cbb)), cbb)) cbb.

(** The offset at which the contents of the builder at depth [d] start. *)
Definition cbb_start (d : nat) (cbb : CBB) : Z :=
  match d with
  | O => 0
  | S d' => match nth_error (cbb_chain cbb) d' with
            | Some c => ch_offset c + ch_pending_len_len c
            | None => 0
            end
  end.

Definition CBB_len (d : nat) (cbb : CBB) : Z := bb_len (cbb_base cbb) - cbb_start d cbb.
Definition CBB_data (d : nat) (cbb : CBB) : list Z :=
  skipn (Z.to_nat (cbb_start d cbb)) (bb_buf (cbb_base cbb)).

(** ** Children *)

(** The new child's depth is the result. *)
Definition cbb_add_child (d : nat) (len_len : Z) (is_asn1 : bool) : st CBB nat := fun cbb =>
  let offset := bb_len (cbb_base cbb) in
  (on_base (cbb_buffer_add len_len) ;;;
   fun cbb =>
     (Some (S d),
      {| cbb_base := set_buf (buf_write (bb_buf (cbb_base cbb)) offset
                                (repeat 0 (Z.to_nat len_len))) (cbb_base cbb);
         cbb_chain := cbb_chain cbb ++
           [{| ch_offset := offset; ch_pending_len_len := len_len;
               ch_pending_is_asn1 := is_asn1 |}] |})) cbb.

Definition cbb_add_length_prefixed (d : nat) (len_len : Z) : st CBB nat :=
  CBB_flush d ;;; cbb_add_child d len_len false.
Definition CBB_add_u8_length_prefixed (d : nat) : st CBB nat := cbb_add_length_prefixed d 1.
Definition CBB_add_u16_length_prefixed (d : nat) : st CBB nat := cbb_add_length_prefixed d 2.
Definition CBB_add_u24_length_prefixed (d : nat) : st CBB nat := cbb_add_length_prefixed d 3.

(** ** Bytes and integers *)

Definition CBB_add_space (d : nat) (len : Z) : st CBB unit :=
  CBB_flush d ;;; on_base (cbb_buffer_add len).

(** Store into the last [length bs] bytes, the space just added. *)
Definition fill_space (bs : list Z) : st CBB unit := fun cbb =>
  (Some tt,
   {| cbb_base := set_buf (buf_write (bb_buf (cbb_base cbb))
                             (bb_len (cbb_base cbb) - zlength bs) bs) (cbb_base cbb);
      cbb_chain := cbb_chain cbb |}).

Definition CBB_add_bytes (d : nat) (data : list Z) : st CBB unit :=
  CBB_add_space d (zlength data) ;;; fill_space data.

Definition CBB_add_zeros (d : nat) (len : Z) : st CBB unit :=
  CBB_add_space d len ;;; fill_space (repeat 0 (Z.to_nat len)).

Definition CBB_reserve (d : nat) (len : Z) : st CBB unit :=
  CBB_flush d ;;; on_base (cbb_buffer_reserve len).

(** [written] is what the caller stored in the reserved space. *)
Definition CBB_did_write (d : nat) (written : list Z) : st CBB unit := fun cbb =>
  let base := cbb_base cbb in
  let newlen := u64 (bb_len base + zlength written) in
  if negb (length (cbb_chain cbb) =? d)%nat || (newlen <? bb_len base) || (newlen >? bb_cap base)
  then (None, cbb)
  else (Some tt, {| cbb_base := set_buf (bb_buf base ++ written) base;
                    cbb_chain := cbb_chain cbb |}).

Definition cbb_add_u (d : nat) (v : Z) (len_len : nat) : st CBB unit :=
  CBB_add_space d (Z.of_nat len_len) ;;;
  let '(bs, v') := store_be len_len v in
  fill_space bs ;;;
  if negb (v' =? 0) then (cbb_on_error d ;;; fail) else ret tt.

Definition CBB_add_u8 (d : nat) (value : Z) : st CBB unit := cbb_add_u d value 1.
Definition CBB_add_u16 (d : nat) (value : Z) : st CBB unit := cbb_add_u d value 2.
Definition CBB_add_u16le (d : nat) (value : Z) : st CBB unit := CBB_add_u16 d (CRYPTO_bswap2 value).
Definition CBB_add_u24 (d : nat) (value : Z) : st CBB unit := cbb_add_u d value 3.
Definition CBB_add_u32 (d : nat) (value : Z) : st CBB unit := cbb_add_u d value 4.
Definition CBB_add_u32le (d : nat) (value : Z) : st CBB unit := CBB_add_u32 d (CRYPTO_bswap4 value).
Definition CBB_add_u64 (d : nat) (value : Z) : st CBB unit := cbb_add_u d value 8.
Definition CBB_add_u64le (d : nat) (value : Z) : st CBB unit := CBB_add_u64 d (CRYPTO_bswap8 value).

(** [None] where [BSSL_CHECK] aborts the process. *)
Definition CBB_discard (d : nat) (len : Z) : st CBB unit := fun cbb =>
  if negb (length (cbb_chain cbb) =? d)%nat || negb (len <=? CBB_len d cbb) then (None, cbb)
  else (Some tt,
        {| cbb_base := set_buf (firstn (Z.to_nat (bb_len (cbb_base cbb) - len))
                                  (bb_buf (cbb_base cbb))) (cbb_base cbb);
           cbb_chain := cbb_chain cbb |}).

Definition CBB_discard_child (d : nat) : st CBB unit := fun cbb =>
  match nth_error (cbb_chain cbb) d with
  | None => (Some tt, cbb)
  | Some child =>
      (Some tt,
       {| cbb_base := set_buf (firstn (Z.to_nat (ch_offset child)) (bb_buf (cbb_base cbb)))
                        (cbb_base cbb);
          cbb_chain := firstn d (cbb_chain cbb) |})
  end.

(** ** ASN.1 *)

(** The [len_len] of [add_base128_integer]; a [uint64_t] has at most 10 groups. *)
Fixpoint base128_len (fuel : nat) (copy : Z) : nat :=
  match fuel with
  | O => O
  | S fuel' => if copy >? 0 then S (base128_len fuel' (Z.shiftr copy 7)) else O
  end.

(** The byte for group [i], from the most significant group down. *)
Fixpoint add_base128_groups (d : nat) (v : Z) (i : nat) : st CBB unit :=
  let byte := Z.land (Z.shiftr v (7 * Z.of_nat i)) 0x7f in
  match i with
  | O => CBB_add_u8 d byte
  | S i' => CBB_add_u8 d (Z.lor byte 0x80) ;;; add_base128_groups d v i'
  end.

Definition add_base128_integer (d : nat) (v : Z) : st CBB unit :=
  let len_len := base128_len 10 v in
  let len_len := if (len_len =? 0)%nat then 1%nat else len_len in
  add_base128_groups d v (len_len - 1).

Definition CBB_add_asn1 (d : nat) (tag : Z) : st CBB nat :=
  CBB_flush d ;;;
  let tag_bits := Z.land (Z.shiftr tag CBS_ASN1_TAG_SHIFT) 0xe0 in
  let tag_number := Z.land tag CBS_ASN1_TAG_NUMBER_MASK in
  (if tag_number >=? 0x1f then
     CBB_add_u8 d (Z.lor tag_bits 0x1f) ;;; add_base128_integer d tag_number
   else CBB_add_u8 d (Z.lor tag_bits tag_number)) ;;;
  cbb_add_child d 1 true.

Definition CBB_add_asn1_element (d : nat) (tag : Z) (data : list Z) : st CBB unit :=
  or_on_error d
    (let* child := CBB_add_asn1 d tag in
     CBB_add_bytes child data ;;;
     CBB_flush d).

(** The loop over the eight bytes of [value], most significant first. *)
Fixpoint add_uint64_bytes (child : nat) (bs : list Z) (started : bool) : st CBB bool :=
  match bs with
  | [] => ret started
  | byte :: bs' =>
      if negb started && (byte =? 0) then add_uint64_bytes child bs' false
      else
        (if negb started && negb (Z.land byte 0x80 =? 0) then CBB_add_u8 child 0 else ret tt) ;;;
        CBB_add_u8 child byte ;;;
        add_uint64_bytes child bs' true
  end.

Definition CBB_add_asn1_uint64_with_tag (d : nat) (value tag : Z) : st CBB unit :=
  let* child :=
    or_on_error d
      (let* child := CBB_add_asn1 d tag in
       let* started :=
         add_uint64_bytes child
           (map (fun i => Z.land (Z.shiftr value (8 * (7 - i))) 0xff) [0; 1; 2; 3; 4; 5; 6; 7])
           false in
       (if negb started then CBB_add_u8 child 0 else ret tt) ;;;
       ret child) in
  CBB_flush d.
Definition CBB_add_asn1_uint64 (d : nat) (value : Z) : st CBB unit :=
  CBB_add_asn1_uint64_with_tag d value CBS_ASN1_INTEGER.

(** Skip leading sign-extension bytes: [bs] is big-endian, [bytes[start]] first. *)
Fixpoint skip_sign_bytes (bs : list Z) : list Z :=
  match bs with
  | b :: ((b' :: _) as bs') =>
      if (b =? 0xff) && negb (Z.land b' 0x80 =? 0) then skip_sign_bytes bs' else bs
  | _ => bs
  end.

Fixpoint add_bytes_u8 (child : nat) (bs : list Z) : st CBB unit :=
  match bs with
  | [] => ret tt
  | b :: bs' => CBB_add_u8 child b ;;; add_bytes_u8 child bs'
  end.

Definition CBB_add_asn1_int64_with_tag (d : nat) (value tag : Z) : st CBB unit :=
  if value >=? 0 then CBB_add_asn1_uint64_with_tag d value tag
  else
    let bytes := rev (le_split 8 (u64 value)) in
    or_on_error d
      (let* child := CBB_add_asn1 d tag in
       add_bytes_u8 child (skip_sign_bytes bytes)) ;;;
    CBB_flush d.
Definition CBB_add_asn1_int64 (d : nat) (value : Z) : st CBB unit :=
  CBB_add_asn1_int64_with_tag d value CBS_ASN1_INTEGER.

Definition CBB_add_asn1_octet_string (d : nat) (data : list Z) : st CBB unit :=
  CBB_add_asn1_element d CBS_ASN1_OCTETSTRING data.

Definition CBB_add_asn1_bool (d : nat) (value : bool) : st CBB unit :=
  or_on_error d
    (let* child := CBB_add_asn1 d CBS_ASN1_BOOLEAN in
     CBB_add_u8 child (if value then 0xff else 0) ;;;
     CBB_flush d).

(** ** Object identifiers *)

Definition parse_dotted_decimal : st CBS Z :=
  let* out := CBS_get_u64_decimal in
  fun cbs =>
    match CBS_get_u8 cbs with
    | (None, cbs') => (Some out, cbs')
    | (Some dot, cbs') => (guard ((dot =? 46) && (CBS_len cbs' >? 0)) ;;; ret out) cbs'
    end.

(** The remaining components; each one consumes at least a digit of the text,
    so the text's length is enough fuel. *)
Fixpoint add_oid_components (d : nat) (fuel : nat) (cbs : CBS) : st CBB unit :=
  match fuel with
  | O => ret tt
  | S fuel' =>
      if CBS_len cbs >? 0 then
        match parse_dotted_decimal cbs with
        | (None, _) => fail
        | (Some a, cbs') => add_base128_integer d a ;;; add_oid_components d fuel' cbs'
        end
      else ret tt
  end.

Definition CBB_add_asn1_oid_from_text (d : nat) (text : list Z) : st CBB unit :=
  CBB_flush d ;;;
  match (let* a := parse_dotted_decimal in let* b := parse_dotted_decimal in ret (a, b)) text with
  | (None, _) => fail
  | (Some (a, b), cbs) =>
      guard (negb ((a >? 2) || ((a <? 2) && (b >? 39)) || (b >? UINT64_MAX - 80))) ;;;
      add_base128_integer d (u64 (40 * a + b)) ;;;
      add_oid_components d (length text) cbs
  end.

Definition CBB_add_asn1_relative_oid_from_text (d : nat) (text : list Z) : st CBB unit :=
  CBB_flush d ;;;
  guard (negb (zlength text =? 0)) ;;;
  add_oid_components d (length text) text.

Definition CBB_add_asn1_oid_component (d : nat) (value : Z) : st CBB unit :=
  CBB_flush d ;;; add_base128_integer d value.

(** ** SET OF *)

Definition compare_set_of_element (a b : CBS) : Z :=
  let ret := OPENSSL_memcmp a b in
  if negb (ret =? 0) then ret
  else if zlength a =? zlength b then 0
  else if zlength a <? zlength b then -1 else 1.

(** The elements of the contents, or [None] when they are not DER elements; each
    element has at least two bytes, so the length is enough fuel. *)
Fixpoint parse_elements (fuel : nat) (cbs : CBS) : option (list CBS) :=
  match fuel with
  | O => if CBS_len cbs =? 0 then Some [] else None
  | S fuel' =>
      if CBS_len cbs =? 0 then Some []
      else match CBS_get_any_asn1_element cbs with
           | (None, _) => None
           | (Some el, cbs') =>
               match parse_elements fuel' cbs' with
               | Some els => Some (el_out el :: els)
               | None => None
               end
           end
  end.

(** [qsort] is the C library's: any function that sorts a list of elements by
    the comparison function will do. *)
Variable qsort : (CBS -> CBS -> Z) -> list CBS -> list CBS.

Definition CBB_flush_asn1_set_of (d : nat) : st CBB unit :=
  CBB_flush d ;;;
  fun cbb =>
    let contents := CBB_data d cbb in
    match parse_elements (length contents) contents with
    | None => (None, cbb)
    | Some children =>
        if (length children <? 2)%nat then (Some tt, cbb)
        else if negb (alloc_ok (zlength contents)) || negb (alloc_ok (16 * zlength children))
        then (None, cbb)
        else
          let out := concat (qsort compare_set_of_element children) in
          (Some tt,
           {| cbb_base := set_buf (buf_write (bb_buf (cbb_base cbb)) (cbb_start d cbb) out)
                            (cbb_base cbb);
              cbb_chain := cbb_chain cbb |})
    end.

End Builder.
