(* ===== verification/CbbSpec.v ===== *)
(** What the builder of [Cbb] promises: an abstract builder (the bytes written
    to the top-level builder and, for every open child, the kind of its length
    prefix and the bytes written so far), the representation relation between
    it and the C state, and the refinement of [CBB_flush] and of the writing
    operations. *)
From Stdlib Require Import ZArith List Lia Bool.
From S2P Require Import Prelude CryptoInternal Cbs Cbb.
Import ListNotations.
Open Scope Z_scope.

(** ** The abstract builder *)

Inductive prefix := Fixed (n : nat) | Asn1.

Definition prefix_len (p : prefix) : Z :=
  match p with Fixed n => Z.of_nat n | Asn1 => 1 end.

Definition is_asn1 (p : prefix) : bool := match p with Fixed _ => false | Asn1 => true end.

Definition frame : Type := prefix * list Z.

(** DER length octets (X.690, 10.1) of a length below [2^32]. *)
Definition der_length (len : Z) : list Z :=
  if len <? 0x80 then [len]
  else if len <? 0x100 then 0x81 :: be_split 1 len
  else if len <? 0x10000 then 0x82 :: be_split 2 len
  else if len <? 0x1000000 then 0x83 :: be_split 3 len
  else 0x84 :: be_split 4 len.

Definition encode_len (p : prefix) (len : Z) : option (list Z) :=
  match p with
  | Fixed n => if len <? 256 ^ Z.of_nat n then Some (be_split n len) else None
  | Asn1 => if len <? 0xffffffff then Some (der_length len) else None
  end.

(** The bytes of a chain of open children once every prefix is written. *)
Fixpoint close (open : list frame) : option (list Z) :=
  match open with
  | [] => Some []
  | (p, c) :: rest =>
      let? inner := close rest in
      let? hdr := encode_len p (zlength (c ++ inner)) in
      Some (hdr ++ c ++ inner)
  end.

Record builder := { ab_root : list Z; ab_open : list frame }.

(** Append to the innermost of the first [d] levels. *)
Fixpoint append_at (fs : list frame) (out : list Z) : list frame :=
  match fs with
  | [] => []
  | [(p, c)] => [(p, c ++ out)]
  | f :: fs' => f :: append_at fs' out
  end.

Definition append_builder (a : builder) (out : list Z) : builder :=
  match ab_open a with
  | [] => {| ab_root := ab_root a ++ out; ab_open := [] |}
  | _ => {| ab_root := ab_root a; ab_open := append_at (ab_open a) out |}
  end.

(** [CBB_flush] of the builder at depth [d]. *)
Definition flush_builder (d : nat) (a : builder) : option builder :=
  if (length (ab_open a) <? d)%nat then None else
  let? out := close (skipn d (ab_open a)) in
  Some (append_builder {| ab_root := ab_root a; ab_open := firstn d (ab_open a) |} out).

(** Abstract operations: write bytes, or open a child, at depth [d]. *)
Definition aflush (d : nat) (a : builder) : option (unit * builder) :=
  let? a := flush_builder d a in Some (tt, a).
Definition awrite (d : nat) (bs : list Z) (a : builder) : option (unit * builder) :=
  let? a := flush_builder d a in Some (tt, append_builder a bs).
Definition aopen (d : nat) (p : prefix) (a : builder) : option (nat * builder) :=
  let? a := flush_builder d a in
  Some (S d, {| ab_root := ab_root a; ab_open := ab_open a ++ [(p, [])] |}).
Definition abind {A B} (f : builder -> option (A * builder)) (g : A -> builder -> option (B * builder))
  (a : builder) : option (B * builder) := let? (x, a1) := f a in g x a1.

(** ** Representation *)

(** Until it is flushed a prefix is a run of zero bytes. *)
Definition placeholder (p : prefix) : list Z := repeat 0 (Z.to_nat (prefix_len p)).

Fixpoint flat (open : list frame) : list Z :=
  match open with
  | [] => []
  | (p, c) :: rest => placeholder p ++ c ++ flat rest
  end.

Fixpoint chain_of (off : Z) (open : list frame) : list cbb_child :=
  match open with
  | [] => []
  | (p, c) :: rest =>
      {| ch_offset := off; ch_pending_len_len := prefix_len p; ch_pending_is_asn1 := is_asn1 p |}
      :: chain_of (off + prefix_len p + zlength c) rest
  end.

Definition buf_ok (b : cbb_buffer) : Prop := bb_len b <= bb_cap b < 2 ^ 64.

Definition repr (a : builder) (s : CBB) : Prop :=
  bb_buf (cbb_base s) = ab_root a ++ flat (ab_open a) /\
  cbb_chain s = chain_of (zlength (ab_root a)) (ab_open a) /\
  bb_error (cbb_base s) = false /\
  buf_ok (cbb_base s).

(** There is room for the buffer to reach [total] bytes. *)
Definition room {E : Env} (b : cbb_buffer) (total : Z) : Prop :=
  total <= bb_cap b \/
  (bb_can_resize b = true /\ (forall n, alloc_ok n = true) /\ total < 2 ^ 64).

(** ** Lemmas on the octet loop and on writes into the buffer *)

Lemma store_be_spec n v : store_be n v = (be_split n v, v / 256 ^ Z.of_nat n).
Proof.
  revert v. induction n; intros v; cbn [store_be be_split].
  - cbn. now rewrite Z.div_1_r.
  - rewrite IHn, shiftr_div by lia. f_equal.
    replace (Z.of_nat (S n)) with (1 + Z.of_nat n) by lia.
    rewrite Z.pow_add_r, Z.div_div by (try apply Z.pow_pos_nonneg; lia). reflexivity.
Qed.

Lemma firstn_zlength_app {A} (l m : list A) : firstn (Z.to_nat (zlength l)) (l ++ m) = l.
Proof.
  unfold zlength. rewrite Nat2Z.id, firstn_app, Nat.sub_diag, firstn_all. cbn. apply app_nil_r.
Qed.

Lemma skipn_zlength_app {A} (l m : list A) : skipn (Z.to_nat (zlength l)) (l ++ m) = m.
Proof. unfold zlength. rewrite Nat2Z.id, skipn_app, Nat.sub_diag, skipn_all. reflexivity. Qed.

Lemma buf_write_mid pre old bs rest :
  length old = length bs ->
  buf_write (pre ++ old ++ rest) (zlength pre) bs = pre ++ bs ++ rest.
Proof.
  intros H. unfold buf_write. rewrite firstn_zlength_app. f_equal. f_equal.
  unfold zlength. rewrite Nat2Z.id, <- H, app_assoc, <- length_app, skipn_app, skipn_all.
  now rewrite Nat.sub_diag.
Qed.

Lemma buf_write_tail pre old bs :
  length old = length bs -> buf_write (pre ++ old) (zlength pre) bs = pre ++ bs.
Proof.
  intros H. pose proof (buf_write_mid pre old bs [] H) as W. now rewrite !app_nil_r in W.
Qed.

Lemma zlength_repeat {A} (x : A) n : 0 <= n -> zlength (repeat x (Z.to_nat n)) = n.
Proof. intros. unfold zlength. rewrite repeat_length. lia. Qed.

Lemma zlength_placeholder p : zlength (placeholder p) = prefix_len p.
Proof. apply zlength_repeat. destruct p; cbn; lia. Qed.

Lemma prefix_len_nonneg p : 0 <= prefix_len p.
Proof. destruct p; cbn; lia. Qed.

#[export] Hint Rewrite zlength_placeholder : zlen.

(** ** The buffer operations *)

Section Spec.
Context {E : Env}.

Definition grows (b b' : cbb_buffer) : Prop :=
  bb_can_resize b' = bb_can_resize b /\ bb_cap b <= bb_cap b' /\
  (bb_can_resize b = false -> bb_cap b' = bb_cap b).

Lemma grows_refl b : grows b b.
Proof. repeat split; lia. Qed.

Lemma grows_set_buf l b b' : grows b b' -> grows b (set_buf l b').
Proof. intros H. exact H. Qed.

Lemma grows_set_error b b' : grows b b' -> grows b (set_error b').
Proof. intros H. exact H. Qed.

Lemma grows_trans a b c : grows a b -> grows b c -> grows a c.
Proof. intros (? & ? & ?) (? & ? & ?). repeat split; [congruence|lia|]. intros. rewrite H4 by congruence. auto. Qed.

Lemma room_grows b b' t : grows b b' -> room b t -> room b' t.
Proof.
  intros (Hr & Hc & _) [H|(H1 & H2 & H3)]; [left; lia|]. right. rewrite Hr. auto.
Qed.

Lemma room_le b t t' : room b t -> t' <= t -> room b t'.
Proof. intros [H|(H1 & H2 & H3)] L; [left; lia|right; repeat split; auto; lia]. Qed.

Lemma reserve_spec n b :
  buf_ok b -> 0 <= n < 2 ^ 64 ->
  match cbb_buffer_reserve n b with
  | (Some _, b') =>
      bb_buf b' = bb_buf b /\ bb_error b' = bb_error b /\ grows b b' /\
      bb_len b + n <= bb_cap b' < 2 ^ 64
  | (None, b') =>
      bb_buf b' = bb_buf b /\ bb_error b' = true /\ grows b b' /\ buf_ok b' /\
      ~ room b (bb_len b + n)
  end.
Proof.
  unfold buf_ok, bb_len, cbb_buffer_reserve, room. intros Hb Hn.
  pose proof (zlength_nonneg (bb_buf b)) as Hl.
  assert (W : forall v, 0 <= v < 2 ^ 65 -> u64 v = if v <? 2 ^ 64 then v else v - 2 ^ 64).
  { intros v Hv. unfold wrap. destruct (Z.ltb_spec v (2 ^ 64)).
    - apply Z.mod_small; lia.
    - symmetry. apply Z.mod_unique with 1; lia. }
  unfold bb_len. rewrite !W by lia.
  destruct (Z.ltb_spec (zlength (bb_buf b) + n) (2 ^ 64)) as [Hs|Hs].
  2:{ destruct (Z.ltb_spec (zlength (bb_buf b) + n - 2 ^ 64) (zlength (bb_buf b))); [|lia].
      cbn. unfold grows. cbn. repeat split; lia. }
  destruct (Z.ltb_spec (zlength (bb_buf b) + n) (zlength (bb_buf b))); [lia|].
  rewrite Z.gtb_ltb. destruct (Z.ltb_spec (bb_cap b) (zlength (bb_buf b) + n)).
  2:{ unfold grows. repeat split; lia. }
  destruct (bb_can_resize b) eqn:R; cbn [negb].
  2:{ unfold grows. cbn. repeat split; lia || congruence. }
  set (newcap := if _ || _ then _ else _).
  assert (Hnc : zlength (bb_buf b) + n <= newcap < 2 ^ 64 /\ bb_cap b <= newcap).
  { unfold newcap. destruct (Z.ltb_spec (bb_cap b * 2) (2 ^ 64));
    match goal with |- context [(?x <? ?y) || (?x <? ?z)] =>
      destruct (Z.ltb_spec x y), (Z.ltb_spec x z) end; cbn [orb]; lia. }
  unfold grows. destruct (alloc_ok newcap) eqn:A; cbn.
  - repeat split; lia || congruence.
  - repeat split; try lia; try congruence. intros [|(_ & Hall & _)]; [lia|]. congruence.
Qed.

Lemma add_spec n b :
  buf_ok b -> 0 <= n < 2 ^ 64 ->
  match cbb_buffer_add n b with
  | (Some _, b') =>
      bb_buf b' = bb_buf b ++ repeat uninit (Z.to_nat n) /\ bb_error b' = bb_error b /\
      grows b b' /\ buf_ok b'
  | (None, b') =>
      bb_buf b' = bb_buf b /\ bb_error b' = true /\ grows b b' /\ buf_ok b' /\
      ~ room b (bb_len b + n)
  end.
Proof.
  intros Hb Hn. pose proof (reserve_spec n b Hb Hn) as R. unfold cbb_buffer_add, bind.
  destruct (cbb_buffer_reserve n b) as [[u|] b']; [|exact R].
  destruct R as (R1 & R2 & R3 & R5). cbn. rewrite R1.
  split; [reflexivity|]. split; [exact R2|]. split; [exact R3|].
  unfold buf_ok, bb_len in *. cbn. rewrite zlength_app, zlength_repeat by lia. lia.
Qed.

(** ** Flushing one child *)

Definition child_of (off : Z) (p : prefix) : cbb_child :=
  {| ch_offset := off; ch_pending_len_len := prefix_len p; ch_pending_is_asn1 := is_asn1 p |}.

(** The outcome of flushing a child with prefix [p] and contents [body] that
    starts after [pre]. *)
Definition flushed (b : cbb_buffer) (pre : list Z) (out : option (list Z))
    (res : option unit * cbb_buffer) : Prop :=
  let '(r, b') := res in
  grows b b' /\ buf_ok b' /\
  match r with
  | Some _ => exists o, out = Some o /\ bb_buf b' = pre ++ o /\ bb_error b' = false
  | None => bb_error b' = true /\ forall o, out = Some o -> ~ room b (zlength pre + zlength o)
  end.

Lemma flush_write_len_spec b pre ph rest n len :
  bb_buf b = pre ++ ph ++ rest -> length ph = n -> 0 <= len ->
  flush_write_len (zlength pre) (Z.of_nat n) len b =
  if len <? 256 ^ Z.of_nat n then (Some tt, set_buf (pre ++ be_split n len ++ rest) b)
  else (None, set_error (set_buf (pre ++ be_split n len ++ rest) b)).
Proof.
  intros Hb Hp Hl. unfold flush_write_len. rewrite Nat2Z.id, store_be_spec, Hb.
  rewrite buf_write_mid by (rewrite length_be_split; exact Hp).
  assert (0 < 256 ^ Z.of_nat n) by (apply Z.pow_pos_nonneg; lia).
  destruct (Z.ltb_spec len (256 ^ Z.of_nat n)).
  - rewrite Z.div_small by lia. reflexivity.
  - assert (1 <= len / 256 ^ Z.of_nat n) by (apply Z.div_le_lower_bound; lia).
    destruct (Z.eqb_spec (len / 256 ^ Z.of_nat n) 0); [lia|]. reflexivity.
Qed.

Lemma flush_fixed_spec b pre ph body n :
  bb_buf b = pre ++ ph ++ body -> length ph = n -> bb_error b = false -> buf_ok b ->
  flushed b pre (let? hdr := encode_len (Fixed n) (zlength body) in Some (hdr ++ body))
    (flush_child (child_of (zlength pre) (Fixed n)) b).
Proof.
  intros Hb Hp He Hok. unfold flush_child, child_of. cbn [ch_offset ch_pending_len_len
    ch_pending_is_asn1 is_asn1 prefix_len].
  pose proof (zlength_nonneg pre). pose proof (zlength_nonneg body).
  assert (Hlen : bb_len b = zlength pre + Z.of_nat n + zlength body).
  { unfold bb_len. rewrite Hb, !zlength_app. unfold zlength at 2. lia. }
  destruct Hok as [Hok1 Hok2].
  rewrite (wrap_small 64 (zlength pre + Z.of_nat n)) by lia.
  destruct (Z.ltb_spec (zlength pre + Z.of_nat n) (zlength pre)); [lia|].
  destruct (Z.ltb_spec (bb_len b) (zlength pre + Z.of_nat n)); [lia|]. cbn [orb].
  replace (bb_len b - (zlength pre + Z.of_nat n)) with (zlength body) by lia.
  rewrite (flush_write_len_spec b pre ph body) by (assumption || lia).
  assert (Hsz : zlength (pre ++ be_split n (zlength body) ++ body) = bb_len b).
  { autorewrite with zlen. lia. }
  cbn [encode_len]. destruct (Z.ltb_spec (zlength body) (256 ^ Z.of_nat n)); cbn [obind flushed].
  - split; [exact (grows_refl b)|]. split; [unfold buf_ok, bb_len; cbn; rewrite Hsz; lia|].
    eexists. split; [reflexivity|]. split; [reflexivity|exact He].
  - split; [exact (grows_refl b)|]. split; [unfold buf_ok, bb_len; cbn; rewrite Hsz; lia|].
    split; [reflexivity|discriminate].
Qed.

Lemma asn1_flush_prefix_spec len :
  0 <= len ->
  match asn1_flush_prefix len with
  | None => 0xffffffff <= len
  | Some (len_len, b0, len') =>
      len < 0xffffffff /\ 1 <= len_len <= 5 /\
      der_length len = b0 :: be_split (Z.to_nat (len_len - 1)) len' /\
      0 <= len' < 256 ^ (len_len - 1) /\ (len_len <> 1 -> len' = len)
  end.
Proof.
  intros Hl. unfold asn1_flush_prefix, der_length. rewrite !Z.gtb_ltb.
  ztest; repeat split; try lia. rewrite wrap_small by lia. reflexivity.
Qed.

(** Moving the contents along makes a gap of [extra] bytes before them. *)
Lemma memmove_gap pp body extra :
  0 <= extra ->
  let l := (pp ++ body) ++ repeat uninit (Z.to_nat extra) in
  exists gap, length gap = Z.to_nat extra /\
  buf_write l (zlength pp + extra)
    (firstn (Z.to_nat (zlength body)) (skipn (Z.to_nat (zlength pp)) l)) = pp ++ gap ++ body.
Proof.
  intros He l. set (junk := repeat uninit (Z.to_nat extra)) in l.
  exists (firstn (Z.to_nat extra) (body ++ junk)). split.
  - rewrite length_firstn, length_app. unfold junk. rewrite repeat_length. lia.
  - unfold l. rewrite <- app_assoc, skipn_zlength_app, firstn_zlength_app. unfold buf_write.
    replace (Z.to_nat (zlength pp + extra)) with (length pp + Z.to_nat extra)%nat
      by (unfold zlength; lia).
    rewrite firstn_app_2, <- app_assoc. f_equal. f_equal.
    rewrite skipn_all2; [apply app_nil_r|].
    rewrite !length_app. unfold junk. rewrite repeat_length. lia.
Qed.

(** The ASN.1 arm of [flush_child] after the contents were moved. *)
Lemma flush_asn1_write b pre gap body b0 n nz len' :
  nz = Z.of_nat n -> bb_buf b = pre ++ (0 :: gap) ++ body -> length gap = n -> 0 <= len' < 256 ^ Z.of_nat n ->
  flush_write_len (zlength pre + 1) nz len'
    (set_buf (buf_write (bb_buf b) (zlength pre) [b0]) b) =
  (Some tt, set_buf (pre ++ (b0 :: be_split n len') ++ body) b).
Proof.
  intros -> Hb Hg Hl. rewrite Hb. change ((0 :: gap) ++ body) with ([0] ++ gap ++ body).
  rewrite buf_write_mid by reflexivity.
  replace (zlength pre + 1) with (zlength (pre ++ [b0])) by (autorewrite with zlen; lia).
  rewrite (flush_write_len_spec _ (pre ++ [b0]) gap body n).
  - destruct (Z.ltb_spec len' (256 ^ Z.of_nat n)); [|lia].
    rewrite <- app_assoc. reflexivity.
  - cbn. now rewrite <- app_assoc.
  - exact Hg.
  - lia.
Qed.

Lemma flush_asn1_spec b pre body :
  bb_buf b = pre ++ [0] ++ body -> bb_error b = false -> buf_ok b ->
  flushed b pre (let? hdr := encode_len Asn1 (zlength body) in Some (hdr ++ body))
    (flush_child (child_of (zlength pre) Asn1) b).
Proof.
  intros Hb He Hok. pose proof Hok as [Hok1 Hok2]. unfold flush_child, child_of.
  cbn [ch_offset ch_pending_len_len ch_pending_is_asn1 is_asn1 prefix_len].
  pose proof (zlength_nonneg pre). pose proof (zlength_nonneg body).
  assert (Hlen : bb_len b = zlength pre + 1 + zlength body).
  { unfold bb_len. rewrite Hb. autorewrite with zlen. lia. }
  rewrite (wrap_small 64 (zlength pre + 1)) by lia.
  destruct (Z.ltb_spec (zlength pre + 1) (zlength pre)); [lia|].
  destruct (Z.ltb_spec (bb_len b) (zlength pre + 1)); [lia|]. cbn [orb].
  replace (bb_len b - (zlength pre + 1)) with (zlength body) by lia.
  pose proof (asn1_flush_prefix_spec (zlength body) ltac:(lia)) as P.
  cbn [encode_len]. destruct (asn1_flush_prefix (zlength body)) as [[[len_len b0] len']|].
  2:{ destruct (Z.ltb_spec (zlength body) 0xffffffff); [lia|]. cbn.
      split; [apply grows_set_error, grows_refl|]. split; [exact Hok|].
      split; [reflexivity|discriminate]. }
  destruct P as (P1 & P2 & P3 & P4 & P5).
  destruct (Z.ltb_spec (zlength body) 0xffffffff); [|lia]. cbn [obind]. rewrite P3.
  destruct (Z.eqb_spec len_len 1) as [->|Hne]; cbn [negb].
  - rewrite (flush_asn1_write b pre [] body b0 0) by (exact Hb || reflexivity || exact P4).
    cbn [flushed]. split; [exact (grows_refl b)|]. split.
    { unfold buf_ok, bb_len. cbn. autorewrite with zlen. lia. }
    eexists. split; [reflexivity|]. split; [reflexivity|exact He].
  - rewrite (P5 Hne) in *. set (extra := len_len - 1) in *.
    assert (Hx : 1 <= extra <= 4) by (unfold extra; lia).
    clearbody extra.
    pose proof (add_spec extra b Hok ltac:(lia)) as A.
    destruct (cbb_buffer_add extra b) as [[u|] b1].
    + destruct A as (A1 & A2 & A3 & A4). rewrite A1, Hb, (app_assoc pre [0] body).
      destruct (memmove_gap (pre ++ [0]) body extra ltac:(lia)) as (gap & G1 & G2).
      replace (zlength (pre ++ [0])) with (zlength pre + 1) in G2
        by (autorewrite with zlen; lia).
      rewrite G2.
      rewrite (flush_asn1_write _ pre gap body b0 (Z.to_nat extra)) ; [|lia|..].
      * cbn [flushed]. split; [exact A3|]. split.
        { unfold buf_ok, bb_len in *. rewrite A1 in A4. cbn. rewrite Hb in *.
          autorewrite with zlen in *. rewrite zlength_repeat in A4 by lia. lia. }
        eexists. split; [reflexivity|]. split; [reflexivity|]. cbn. congruence.
      * cbn. now rewrite <- app_assoc.
      * exact G1.
      * rewrite Z2Nat.id by lia. exact P4.
    + destruct A as (A1 & A2 & A3 & A4 & A5). cbn [flushed].
      split; [exact A3|]. split; [exact A4|]. split; [reflexivity|].
      intros o [= <-] R. apply A5. eapply room_le; [exact R|].
      autorewrite with zlen. lia.
Qed.


(** ** Flushing a chain *)

Lemma zlength_flat_cons p c rest :
  zlength (flat ((p, c) :: rest)) = prefix_len p + zlength c + zlength (flat rest).
Proof. cbn [flat]. autorewrite with zlen. lia. Qed.

Lemma encode_len_length p len hdr : encode_len p len = Some hdr -> prefix_len p <= zlength hdr.
Proof.
  destruct p; cbn [encode_len prefix_len].
  - destruct (_ <? _); intros [= <-]. rewrite zlength_be_split. lia.
  - destruct (_ <? _); intros [= <-]. unfold der_length.
    ztest; autorewrite with zlen; lia.
Qed.

Lemma flush_child_spec b pre p body :
  bb_buf b = pre ++ placeholder p ++ body -> bb_error b = false -> buf_ok b ->
  flushed b pre (let? hdr := encode_len p (zlength body) in Some (hdr ++ body))
    (flush_child (child_of (zlength pre) p) b).
Proof.
  destruct p as [n|]; intros Hb He Hok.
  - eapply flush_fixed_spec; eauto. unfold placeholder. rewrite repeat_length. cbn. lia.
  - now apply flush_asn1_spec.
Qed.

Lemma flush_children_spec cs : forall pre b,
  bb_buf b = pre ++ flat cs -> bb_error b = false -> buf_ok b ->
  flushed b pre (close cs) (flush_children (chain_of (zlength pre) cs) b).
Proof.
  induction cs as [|[p c] rest IH]; intros pre b Hb He Hok; cbn [chain_of flush_children close];
    rewrite He.
  - cbn [flushed]. split; [apply grows_refl|]. split; [exact Hok|]. exists []. auto.
  - assert (Hb' : bb_buf b = (pre ++ placeholder p ++ c) ++ flat rest)
      by (rewrite Hb; cbn [flat]; rewrite <- !app_assoc; reflexivity).
    specialize (IH _ _ Hb' He Hok).
    replace (zlength (pre ++ placeholder p ++ c)) with (zlength pre + prefix_len p + zlength c)
      in IH by (autorewrite with zlen; lia).
    destruct (flush_children _ b) as [[u|] b1]; cbn [flushed] in IH.
    + destruct IH as (G & Hok1 & inner & -> & Hb1 & He1). cbn [obind].
      rewrite <- !app_assoc in Hb1.
      pose proof (flush_child_spec b1 pre p (c ++ inner) Hb1 He1 Hok1) as F.
      change {| ch_offset := zlength pre; ch_pending_len_len := prefix_len p;
                ch_pending_is_asn1 := is_asn1 p |} with (child_of (zlength pre) p).
      destruct (flush_child _ b1) as [[v|] b2]; cbn [flushed] in F |- *;
        destruct F as (G2 & Hok2 & F).
      * split; [eapply grows_trans; eauto|]. split; [exact Hok2|exact F].
      * split; [eapply grows_trans; eauto|]. split; [exact Hok2|].
        split; [apply F|]. intros o Ho R. apply (proj2 F o Ho). eapply room_grows; eauto.
    + destruct IH as (G & Hok1 & He1 & R1). cbn [flushed].
      split; [exact G|]. split; [exact Hok1|]. split; [reflexivity|].
      intros o Ho R. destruct (close rest) as [inner|]; [|discriminate]. cbn [obind] in Ho.
      destruct (encode_len p (zlength (c ++ inner))) as [hdr|] eqn:Eh; [|discriminate].
      cbn [obind] in Ho. injection Ho as <-. apply (R1 inner eq_refl).
      pose proof (encode_len_length _ _ _ Eh).
      eapply room_le; [exact R|]. autorewrite with zlen. lia.
Qed.


(** ** Refinement *)

Definition size (a : builder) : Z := zlength (ab_root a ++ flat (ab_open a)).

(** [m] implements the abstract operation [f]: a success is a step of [f], and
    [m] fails only when [f] does or when the buffer cannot hold the result. *)
Definition refines {A} (m : st CBB A) (f : builder -> option (A * builder)) : Prop :=
  forall a s, repr a s ->
  match m s with
  | (Some x, s') => exists a', f a = Some (x, a') /\ repr a' s' /\ grows (cbb_base s) (cbb_base s')
  | (None, _) => forall x a', f a = Some (x, a') -> ~ room (cbb_base s) (size a')
  end.

(** Abstract operations only add bytes. *)
Definition monotone {A} (f : builder -> option (A * builder)) : Prop :=
  forall a x a', f a = Some (x, a') -> size a <= size a'.

Lemma refines_ret {A} (x : A) : refines (ret x) (fun a => Some (x, a)).
Proof. intros a s H. exists a. repeat split; try apply H; apply grows_refl || lia. Qed.

Lemma refines_fail {A} : refines (@fail CBB A) (fun _ => None).
Proof. intros a s H. discriminate. Qed.

Lemma refines_bind {A B} (m : st CBB A) f (k : A -> st CBB B) g :
  refines m f -> (forall x, refines (k x) (g x)) -> (forall x, monotone (g x)) ->
  refines (bind m k) (abind f g).
Proof.
  intros Hm Hk Hg a s Hr. unfold bind, abind. specialize (Hm a s Hr).
  destruct (m s) as [[x|] s1].
  - destruct Hm as (a1 & -> & Hr1 & G1). cbn [obind]. specialize (Hk x a1 s1 Hr1).
    destruct (k x s1) as [[y|] s2].
    + destruct Hk as (a2 & Ha2 & Hr2 & G2). exists a2. repeat split; try apply Hr2; auto;
      eapply grows_trans; eauto.
    + intros y a2 Ha2 R. eapply Hk; eauto. eapply room_grows; eauto.
  - intros y a2 Ha2 R. destruct (f a) as [[x a1]|] eqn:Ef; [|discriminate]. cbn [obind] in Ha2.
    eapply Hm; eauto. eapply room_le; [exact R|]. eapply Hg; eauto.
Qed.

Lemma refines_ext {A} (m : st CBB A) f g : refines m f -> (forall a, f a = g a) -> refines m g.
Proof. intros H Hfg a s Hr. specialize (H a s Hr). now rewrite <- Hfg. Qed.

Lemma refines_if {A} (b : bool) (m1 m2 : st CBB A) f1 f2 :
  refines m1 f1 -> refines m2 f2 ->
  refines (if b then m1 else m2) (fun a => if b then f1 a else f2 a).
Proof. now destruct b. Qed.

Lemma refines_or_on_error {A} d (m : st CBB A) f : refines m f -> refines (or_on_error d m) f.
Proof.
  intros H a s Hr. specialize (H a s Hr). unfold or_on_error.
  destruct (m s) as [[x|] s']; exact H.
Qed.

(** *** Structure of chains *)

Lemma flat_app fs gs : flat (fs ++ gs) = flat fs ++ flat gs.
Proof.
  induction fs as [|[p c] fs IH]; [reflexivity|]. cbn [app flat]. now rewrite IH, <- !app_assoc.
Qed.

Lemma chain_of_app off fs gs :
  chain_of off (fs ++ gs) = chain_of off fs ++ chain_of (off + zlength (flat fs)) gs.
Proof.
  revert off. induction fs as [|[p c] fs IH]; intros off; cbn [app chain_of flat].
  - rewrite zlength_nil. now rewrite Z.add_0_r.
  - rewrite IH. do 3 f_equal. autorewrite with zlen. lia.
Qed.

Lemma length_chain_of off fs : length (chain_of off fs) = length fs.
Proof. revert off. induction fs as [|[p c] fs IH]; intros; cbn; [easy|]. now rewrite IH. Qed.

Lemma append_at_snoc fs p c out : append_at (fs ++ [(p, c)]) out = fs ++ [(p, c ++ out)].
Proof.
  induction fs as [|f fs IH]; [reflexivity|]. cbn [app append_at].
  destruct f, fs; cbn [app] in *; now rewrite ?IH.
Qed.

Lemma flat_append_at fs out : fs <> [] -> flat (append_at fs out) = flat fs ++ out.
Proof.
  intros H. destruct (exists_last H) as (fs' & [p c] & ->).
  rewrite append_at_snoc, !flat_app. cbn [flat]. now rewrite <- ?app_assoc, ?app_nil_r.
Qed.

Lemma chain_of_append_at off fs out : chain_of off (append_at fs out) = chain_of off fs.
Proof.
  destruct fs as [|f fs]; [reflexivity|].
  destruct (@exists_last _ (f :: fs) ltac:(discriminate)) as (fs' & [p c] & ->).
  now rewrite append_at_snoc, !chain_of_app.
Qed.

Lemma length_append_at fs out : length (append_at fs out) = length fs.
Proof.
  destruct fs as [|f fs]; [reflexivity|].
  destruct (@exists_last _ (f :: fs) ltac:(discriminate)) as (fs' & [p c] & ->).
  now rewrite append_at_snoc, !length_app.
Qed.

Lemma append_builder_flat a out :
  ab_root (append_builder a out) ++ flat (ab_open (append_builder a out)) =
  (ab_root a ++ flat (ab_open a)) ++ out.
Proof.
  destruct a as [r fs]. unfold append_builder. cbn [ab_open ab_root]. destruct fs as [|f fs].
  - cbn. now rewrite !app_nil_r.
  - cbn [ab_open ab_root]. rewrite flat_append_at by discriminate. apply app_assoc.
Qed.

Lemma append_builder_chain a out :
  chain_of (zlength (ab_root (append_builder a out))) (ab_open (append_builder a out)) =
  chain_of (zlength (ab_root a)) (ab_open a).
Proof.
  destruct a as [r fs]. unfold append_builder. cbn [ab_open ab_root]. destruct fs as [|f fs].
  - reflexivity.
  - cbn [ab_open ab_root]. apply chain_of_append_at.
Qed.

Lemma append_builder_depth a out :
  length (ab_open (append_builder a out)) = length (ab_open a).
Proof.
  destruct a as [r fs]. unfold append_builder. cbn. destruct fs; [reflexivity|].
  cbn [ab_open]. apply length_append_at.
Qed.

Lemma size_append a out : size (append_builder a out) = size a + zlength out.
Proof. unfold size. rewrite append_builder_flat. apply zlength_app. Qed.

Lemma flush_builder_depth d a a' : flush_builder d a = Some a' -> length (ab_open a') = d.
Proof.
  unfold flush_builder. destruct (Nat.ltb_spec (length (ab_open a)) d); [discriminate|].
  destruct (close _); cbn; [|discriminate]. intros [= <-].
  rewrite append_builder_depth. cbn. rewrite length_firstn. lia.
Qed.

Lemma close_size fs out : close fs = Some out -> zlength (flat fs) <= zlength out.
Proof.
  revert out. induction fs as [|[p c] fs IH]; intros out; cbn [close].
  - intros [= <-]. reflexivity.
  - destruct (close fs) as [inner|]; [|discriminate]. cbn [obind].
    destruct (encode_len _ _) as [hdr|] eqn:Eh; [|discriminate]. cbn [obind]. intros [= <-].
    specialize (IH _ eq_refl). apply encode_len_length in Eh.
    rewrite zlength_flat_cons, !zlength_app. lia.
Qed.

Lemma flush_builder_size d a a' : flush_builder d a = Some a' -> size a <= size a'.
Proof.
  unfold flush_builder. destruct (_ <? _)%nat; [discriminate|].
  destruct (close _) as [out|] eqn:C; cbn; [|discriminate]. intros [= <-].
  rewrite size_append. apply close_size in C. unfold size. cbn [ab_root ab_open].
  rewrite <- (firstn_skipn d (ab_open a)) at 1. rewrite flat_app, !zlength_app. lia.
Qed.

(** *** [CBB_flush] refines [flush_builder] *)

Lemma repr_flush_inv a s d :
  repr a s -> (d <= length (ab_open a))%nat ->
  skipn d (cbb_chain s) =
    chain_of (zlength (ab_root a ++ flat (firstn d (ab_open a)))) (skipn d (ab_open a)) /\
  firstn d (cbb_chain s) = chain_of (zlength (ab_root a)) (firstn d (ab_open a)).
Proof.
  intros (_ & Hc & _) Hd.
  assert (Hs : cbb_chain s =
    chain_of (zlength (ab_root a)) (firstn d (ab_open a)) ++
    chain_of (zlength (ab_root a) + zlength (flat (firstn d (ab_open a)))) (skipn d (ab_open a))).
  { rewrite Hc, <- chain_of_app, firstn_skipn. reflexivity. }
  assert (L : length (chain_of (zlength (ab_root a)) (firstn d (ab_open a))) = d)
    by (rewrite length_chain_of, length_firstn; lia).
  rewrite Hs. split.
  - rewrite skipn_app, L, Nat.sub_diag, skipn_all2 by lia. cbn. now rewrite zlength_app.
  - rewrite firstn_app, L, Nat.sub_diag, firstn_all2 by lia. cbn. apply app_nil_r.
Qed.

Lemma CBB_flush_refines d : refines (CBB_flush d) (aflush d).
Proof.
  intros a s Hr. pose proof Hr as (Hb & Hc & He & Hok).
  unfold CBB_flush, aflush, flush_builder. rewrite Hc, He, length_chain_of.
  destruct (Nat.ltb_spec (length (ab_open a)) d); cbn [orb obind]; [discriminate|].
  destruct (repr_flush_inv a s d Hr) as [H1 H2]; [lia|]. rewrite <- Hc, H1, H2.
  set (pre := ab_root a ++ flat (firstn d (ab_open a))) in *.
  assert (Hb' : bb_buf (cbb_base s) = pre ++ flat (skipn d (ab_open a))).
  { rewrite Hb. unfold pre. rewrite <- app_assoc, <- flat_app, firstn_skipn. reflexivity. }
  pose proof (flush_children_spec (skipn d (ab_open a)) pre (cbb_base s) Hb' He Hok) as F.
  destruct (flush_children _ _) as [[u|] b']; cbn [flushed] in F; destruct F as (G & Hok' & F).
  - destruct F as (out & -> & Hbuf & Herr). destruct u. cbn [obind]. eexists. split; [reflexivity|].
    split; [|exact G]. split; [|split; [|split]]; auto.
    + rewrite append_builder_flat. exact Hbuf.
    + now rewrite append_builder_chain.
  - destruct F as [Herr F]. intros x a' Ha'. destruct (close _) as [out|]; [|discriminate].
    cbn [obind] in Ha'. injection Ha' as <- <-. rewrite size_append. apply (F out eq_refl).
Qed.

(** *** Writes *)

Lemma fill_space_app (s : CBB) pre bs :
  bb_buf (cbb_base s) = pre ++ repeat uninit (length bs) ->
  fill_space bs s = (Some tt, {| cbb_base := set_buf (pre ++ bs) (cbb_base s);
                                 cbb_chain := cbb_chain s |}).
Proof.
  intros H. unfold fill_space. do 3 f_equal. unfold bb_len. rewrite H, zlength_app.
  replace (zlength pre + zlength (repeat uninit (length bs)) - zlength bs) with (zlength pre)
    by (unfold zlength; rewrite repeat_length; lia).
  apply buf_write_tail. apply repeat_length.
Qed.

(** Appending to a builder without open children below it. *)
Lemma append_refines bs :
  zlength bs < 2 ^ 64 ->
  refines (on_base (cbb_buffer_add (zlength bs)) ;;; fill_space bs)
    (fun a => Some (tt, append_builder a bs)).
Proof.
  intros Hbs a s Hr. pose proof Hr as (Hb & Hc & He & Hok). unfold bind, on_base.
  pose proof (zlength_nonneg bs).
  pose proof (add_spec (zlength bs) (cbb_base s) Hok ltac:(lia)) as A.
  destruct (cbb_buffer_add _ _) as [[u|] b1].
  - destruct A as (A1 & A2 & A3 & A4).
    rewrite (fill_space_app _ (bb_buf (cbb_base s))).
    2:{ cbn. rewrite A1. unfold zlength. now rewrite Nat2Z.id. }
    eexists. split; [reflexivity|]. split; [|exact A3].
    split; [|split; [|split]]; cbn [cbb_base cbb_chain set_buf bb_buf bb_error].
    + now rewrite append_builder_flat, Hb.
    + now rewrite append_builder_chain.
    + congruence.
    + unfold buf_ok, bb_len in *. cbn. rewrite A1 in A4. rewrite zlength_app in *.
      rewrite zlength_repeat in A4 by lia. exact A4.
  - destruct A as (A1 & A2 & A3 & A4 & A5). intros x a' [= <- <-] R. apply A5.
    rewrite size_append in R. unfold size in R. rewrite <- Hb in R. exact R.
Qed.

Lemma awrite_abind d bs a :
  awrite d bs a = abind (aflush d) (fun _ a => Some (tt, append_builder a bs)) a.
Proof. unfold awrite, abind, aflush. destruct (flush_builder d a); reflexivity. Qed.

Lemma monotone_append bs : monotone (fun a => Some (tt, append_builder a bs)).
Proof. intros a x a' [= <- <-]. rewrite size_append. pose proof (zlength_nonneg bs). lia. Qed.

Lemma monotone_awrite d bs : monotone (awrite d bs).
Proof.
  intros a x a'. unfold awrite. destruct (flush_builder d a) as [a1|] eqn:F; [|discriminate].
  cbn. intros [= <- <-]. apply flush_builder_size in F. rewrite size_append.
  pose proof (zlength_nonneg bs). lia.
Qed.

Lemma monotone_aflush d : monotone (aflush d).
Proof.
  intros a x a'. unfold aflush. destruct (flush_builder d a) as [a1|] eqn:F; [|discriminate].
  cbn. intros [= <- <-]. now apply flush_builder_size in F.
Qed.

Lemma bind_assoc {S A B C} (m : st S A) (f : A -> st S B) (g : B -> st S C) s :
  bind (bind m f) g s = bind m (fun x => bind (f x) g) s.
Proof. unfold bind. destruct (m s) as [[x|] s1]; reflexivity. Qed.

Lemma refines_eq {A} (m m' : st CBB A) f :
  (forall s, m s = m' s) -> refines m' f -> refines m f.
Proof. intros H H' a s Hr. rewrite H. now apply H'. Qed.

Lemma CBB_add_bytes_refines d data :
  zlength data < 2 ^ 64 -> refines (CBB_add_bytes d data) (awrite d data).
Proof.
  intros H. eapply refines_ext; [|intros a; symmetry; apply awrite_abind].
  unfold CBB_add_bytes, CBB_add_space. eapply refines_eq; [intros s; apply bind_assoc|].
  apply refines_bind; [apply CBB_flush_refines| |]; intros _.
  - now apply append_refines.
  - apply monotone_append.
Qed.

Lemma cbb_add_u_refines d v n :
  0 <= v -> Z.of_nat n < 2 ^ 64 ->
  refines (cbb_add_u d v n)
    (fun a => if v <? 256 ^ Z.of_nat n then awrite d (be_split n v) a else None).
Proof.
  intros Hv Hn. unfold cbb_add_u. rewrite store_be_spec.
  assert (0 < 256 ^ Z.of_nat n) by (apply Z.pow_pos_nonneg; lia).
  assert (W : refines (CBB_add_bytes d (be_split n v)) (awrite d (be_split n v)))
    by (apply CBB_add_bytes_refines; rewrite zlength_be_split; lia).
  unfold CBB_add_bytes in W. rewrite zlength_be_split in W.
  destruct (Z.ltb_spec v (256 ^ Z.of_nat n)).
  - rewrite Z.div_small by lia. cbn [Z.eqb negb].
    eapply refines_eq; [|exact W]. intros s. unfold bind.
    destruct (CBB_add_space d (Z.of_nat n) s) as [[u|] s1]; [|reflexivity].
    cbn. reflexivity.
  - assert (1 <= v / 256 ^ Z.of_nat n) by (apply Z.div_le_lower_bound; lia).
    destruct (Z.eqb_spec (v / 256 ^ Z.of_nat n) 0); [lia|]. cbn [negb].
    intros a s Hr. unfold bind.
    destruct (CBB_add_space d (Z.of_nat n) s) as [[u|] s1]; [|discriminate]. cbn. discriminate.
Qed.

Lemma CBB_add_u8_refines d v :
  is_byte v -> refines (CBB_add_u8 d v) (awrite d [v]).
Proof.
  intros Hv. red in Hv. eapply refines_ext; [apply cbb_add_u_refines; lia|].
  intros a. change (256 ^ Z.of_nat 1) with 256. destruct (Z.ltb_spec v 256); [|lia].
  cbn [be_split app]. now rewrite Z.mod_small by lia.
Qed.

(** *** Children *)

Lemma add_child_refines d p :
  prefix_len p < 2 ^ 64 ->
  refines (cbb_add_child d (prefix_len p) (is_asn1 p))
    (fun a => Some (S d, {| ab_root := ab_root a; ab_open := ab_open a ++ [(p, [])] |})).
Proof.
  intros Hp a s Hr. pose proof Hr as (Hb & Hc & He & Hok). pose proof (prefix_len_nonneg p).
  unfold cbb_add_child, bind, on_base.
  pose proof (add_spec (prefix_len p) (cbb_base s) Hok ltac:(lia)) as A.
  assert (F : flat (ab_open a ++ [(p, [])]) = flat (ab_open a) ++ placeholder p).
  { rewrite flat_app. cbn. now rewrite app_nil_r. }
  destruct (cbb_buffer_add _ _) as [[u|] b1].
  - destruct A as (A1 & A2 & A3 & A4). cbn [cbb_base cbb_chain].
    eexists. split; [reflexivity|]. split; [|exact A3]. unfold bb_len at 1.
    rewrite A1, buf_write_tail by (rewrite !repeat_length; reflexivity).
    split; [|split; [|split]]; cbn [cbb_base cbb_chain ab_root ab_open set_buf bb_buf bb_error].
    + rewrite F, app_assoc, <- Hb. reflexivity.
    + rewrite Hc, chain_of_app. cbn [chain_of]. do 3 f_equal.
      unfold bb_len. rewrite Hb. apply zlength_app.
    + congruence.
    + unfold buf_ok, bb_len in *. cbn. rewrite A1 in A4. rewrite zlength_app in *.
      rewrite zlength_repeat in * by lia. exact A4.
  - destruct A as (A1 & A2 & A3 & A4 & A5). intros x a' [= <- <-] R. apply A5.
    unfold size in R. cbn [ab_root ab_open] in R. rewrite F, app_assoc, zlength_app, <- Hb in R.
    now rewrite zlength_placeholder in R.
Qed.

Lemma monotone_open d p :
  monotone (fun a => Some (S d, {| ab_root := ab_root a; ab_open := ab_open a ++ [(p, [])] |})).
Proof.
  intros a x a' [= <- <-]. unfold size. cbn [ab_root ab_open].
  rewrite flat_app, !zlength_app. pose proof (zlength_nonneg (flat [(p, [])])). lia.
Qed.

Lemma monotone_aopen d p : monotone (aopen d p).
Proof.
  intros a x a'. unfold aopen. destruct (flush_builder d a) as [a1|] eqn:F; [|discriminate].
  cbn [obind]. intros H. apply flush_builder_size in F. etransitivity; [exact F|].
  injection H as <- <-. now eapply (monotone_open d p a1).
Qed.

Lemma aopen_abind d p a :
  aopen d p a = abind (aflush d) (fun _ a =>
    Some (S d, {| ab_root := ab_root a; ab_open := ab_open a ++ [(p, [])] |})) a.
Proof. unfold aopen, abind, aflush. destruct (flush_builder d a); reflexivity. Qed.

Lemma add_length_prefixed_refines d n :
  Z.of_nat n < 2 ^ 64 ->
  refines (cbb_add_length_prefixed d (Z.of_nat n)) (aopen d (Fixed n)).
Proof.
  intros Hn. eapply refines_ext; [|intros a; symmetry; apply aopen_abind].
  apply refines_bind; [apply CBB_flush_refines| |]; intros _.
  - exact (add_child_refines d (Fixed n) Hn).
  - apply monotone_open.
Qed.

End Spec.

Create HintDb cbb.
#[export] Hint Resolve refines_ret refines_fail CBB_flush_refines CBB_add_bytes_refines
  CBB_add_u8_refines monotone_awrite monotone_aflush monotone_aopen : cbb.
