(* ===== verification/Asn1.v ===== *)
(** DER encodings: what [CBB_add_asn1] and its callers write, what
    [CBS_get_any_asn1_element] and its callers accept, and the round trips
    between the two. *)
From Stdlib Require Import ZArith List Lia Bool.
From S2P Require Import Prelude CryptoInternal Cbs Cbb CbbSpec.
Import ListNotations.
Open Scope Z_scope.

(** ** Reference encodings *)

(** The base-128 groups [i], [i-1], ..., 0 of [v], high bit set on all but the last. *)
Fixpoint base128_groups (i : nat) (v : Z) : list Z :=
  let g := (v / 128 ^ Z.of_nat i) mod 128 in
  match i with
  | O => [g]
  | S i' => (128 + g) :: base128_groups i' v
  end.

(** The index of the most significant group. *)
Definition base128_top (v : Z) : nat := (Nat.max 1 (base128_len 10 v) - 1)%nat.

Definition base128 (v : Z) : list Z := base128_groups (base128_top v) v.

(** Identifier octets (X.690, 8.1.2). *)
Definition der_tag (tag : Z) : list Z :=
  let tag_bits := tag / 2 ^ 29 * 32 in
  let tag_number := tag mod 2 ^ 29 in
  if tag_number <? 31 then [tag_bits + tag_number]
  else (tag_bits + 31) :: base128 tag_number.

Definition der_header (tag len : Z) : list Z := der_tag tag ++ der_length len.

(** A tag value the library represents: 32 bits, not universal 0. *)
Definition valid_tag (tag : Z) : Prop :=
  0 <= tag < 2 ^ 32 /\ Z.land tag (u32 (Z.lnot CBS_ASN1_CONSTRUCTED)) <> 0.

(** ** Arithmetic of single bytes *)

Lemma land_0x80 b : is_byte b -> (Z.land b 0x80 =? 0) = (b <? 128).
Proof.
  intros Hb. apply eqb_prop.
  exact (all_bytes_spec (fun b => Bool.eqb (Z.land b 0x80 =? 0) (b <? 128)) eq_refl b Hb).
Qed.

Lemma land_0x7f b : Z.land b 0x7f = b mod 128.
Proof. now apply (land_ones_mod b 7). Qed.

Lemma lor_0x80 g : 0 <= g < 128 -> Z.lor g 0x80 = 128 + g.
Proof.
  intros Hg. rewrite Z.lor_comm. apply (lor_add_mul 128 1 7); lia.
Qed.

Lemma shl7_or v b : 0 <= v < 2 ^ 57 -> Z.lor (u64 (Z.shiftl v 7)) (Z.land b 0x7f) = v * 128 + b mod 128.
Proof.
  intros Hv. rewrite land_0x7f. pose proof (Z.mod_pos_bound b 128 ltac:(lia)).
  rewrite Z.shiftl_mul_pow2, wrap_small by lia.
  apply (lor_add_mul _ v 7); lia.
Qed.

(** ** Base-128 integers *)

Lemma div128_step v i : v / 128 ^ Z.of_nat (S i) = v / 128 ^ Z.of_nat i / 128.
Proof.
  replace (Z.of_nat (S i)) with (Z.of_nat i + 1) by lia.
  rewrite Z.pow_add_r, <- Z.div_div by (try apply Z.pow_pos_nonneg; lia). reflexivity.
Qed.

Lemma div128_split v i :
  v / 128 ^ Z.of_nat i = v / 128 ^ Z.of_nat (S i) * 128 + (v / 128 ^ Z.of_nat i) mod 128.
Proof. rewrite div128_step. pose proof (Z.div_mod (v / 128 ^ Z.of_nat i) 128). lia. Qed.

Lemma div128_range v i : 0 <= v < 2 ^ 64 -> 0 <= v / 128 ^ Z.of_nat (S i) < 2 ^ 57.
Proof.
  intros Hv. rewrite div128_step. assert (0 < 128 ^ Z.of_nat i) by (apply Z.pow_pos_nonneg; lia).
  assert (0 <= v / 128 ^ Z.of_nat i) by (apply Z.div_pos; lia).
  assert (v / 128 ^ Z.of_nat i <= v) by (apply Z.div_le_upper_bound; nia).
  split; [apply Z.div_pos; lia|]. apply Z.div_lt_upper_bound; lia.
Qed.

Lemma div128_mono v i : 0 <= v -> v / 128 ^ Z.of_nat i = 0 -> v / 128 ^ Z.of_nat (S i) = 0.
Proof. intros Hv H. rewrite div128_step, H. reflexivity. Qed.

Lemma parse_groups v rest : 0 <= v < 2 ^ 64 -> forall i,
  (i = O \/ v / 128 ^ Z.of_nat i <> 0) ->
  parse_base128_loop (v / 128 ^ Z.of_nat (S i)) (base128_groups i v ++ rest) = (Some v, rest).
Proof.
  intros Hv. induction i as [|i IH]; intros Hi.
  - cbn [base128_groups app parse_base128_loop].
    pose proof (div128_range v 0 Hv). change (64 - 7) with 57.
    rewrite shiftr_div, (Z.div_small _ (2 ^ 57)) by lia. cbn [Z.eqb negb].
    change (128 ^ Z.of_nat 0) with 1. rewrite Z.div_1_r.
    pose proof (Z.mod_pos_bound v 128 ltac:(lia)).
    destruct (Z.eqb_spec (v mod 128) 128); [lia|]. rewrite andb_false_r.
    rewrite shl7_or by lia. rewrite land_0x80 by (red; lia).
    destruct (Z.ltb_spec (v mod 128) 128); [|lia]. cbn [negb].
    rewrite Z.mod_mod by lia. do 2 f_equal.
    change (128 ^ Z.of_nat 1) with 128. pose proof (Z.div_mod v 128). lia.
  - destruct Hi as [Hi|Hi]; [discriminate|].
    cbn [base128_groups app parse_base128_loop].
    pose proof (div128_range v (S i) Hv). change (64 - 7) with 57.
    rewrite shiftr_div, (Z.div_small _ (2 ^ 57)) by lia. cbn [Z.eqb negb].
    set (g := (v / 128 ^ Z.of_nat (S i)) mod 128).
    pose proof (Z.mod_pos_bound (v / 128 ^ Z.of_nat (S i)) 128 ltac:(lia)) as Hg. fold g in Hg.
    pose proof (div128_split v (S i)) as Hs. fold g in Hs.
    replace ((v / 128 ^ Z.of_nat (S (S i)) =? 0) && (128 + g =? 128)) with false.
    2:{ symmetry. apply andb_false_iff.
        destruct (Z.eqb_spec (v / 128 ^ Z.of_nat (S (S i))) 0) as [E|]; [right|now left].
        apply Z.eqb_neq. rewrite E in Hs. lia. }
    rewrite shl7_or by lia. rewrite land_0x80 by (red; lia).
    destruct (Z.ltb_spec (128 + g) 128); [lia|]. cbn [negb].
    replace ((128 + g) mod 128) with g
      by (rewrite <- (Z.mul_1_l 128) at 1; rewrite Z.add_comm, Z.mod_add, Z.mod_small; lia).
    rewrite <- Hs. apply IH. right. intros E. apply Hi. apply div128_mono; lia || exact E.
Qed.

Lemma base128_len_spec fuel v :
  0 <= v < 128 ^ Z.of_nat fuel ->
  let n := base128_len fuel v in
  v / 128 ^ Z.of_nat n = 0 /\ (n <> O -> v / 128 ^ (Z.of_nat n - 1) <> 0).
Proof.
  revert v. induction fuel as [|fuel IH]; intros v Hv; cbn [base128_len].
  - cbn in *. rewrite Z.div_1_r. lia.
  - rewrite Z.gtb_ltb. destruct (Z.ltb_spec 0 v).
    + rewrite shiftr_div by lia. change (2 ^ 7) with 128.
      replace (Z.of_nat (S fuel)) with (1 + Z.of_nat fuel) in Hv by lia.
      rewrite Z.pow_add_r in Hv by lia.
      destruct (IH (v / 128)) as [I1 I2].
      { split; [apply Z.div_pos; lia|apply Z.div_lt_upper_bound; lia]. }
      set (n := base128_len fuel (v / 128)) in *. cbn zeta. split.
      * replace (Z.of_nat (S n)) with (1 + Z.of_nat n) by lia.
        rewrite Z.pow_add_r, <- Z.div_div by (try apply Z.pow_pos_nonneg; lia). exact I1.
      * intros _. replace (Z.of_nat (S n) - 1) with (Z.of_nat n) by lia.
        destruct n as [|m]; [cbn; rewrite Z.div_1_r; lia|].
        replace (Z.of_nat (S m)) with (1 + (Z.of_nat (S m) - 1)) by lia.
        rewrite Z.pow_add_r, <- Z.div_div by (try apply Z.pow_pos_nonneg; lia).
        apply I2. discriminate.
    + cbn. rewrite Z.div_1_r. split; [lia|congruence].
Qed.

Lemma base128_top_spec v :
  0 <= v < 2 ^ 64 ->
  v / 128 ^ Z.of_nat (S (base128_top v)) = 0 /\
  (base128_top v = O \/ v / 128 ^ Z.of_nat (base128_top v) <> 0).
Proof.
  intros Hv. destruct (base128_len_spec 10 v ltac:(cbn; lia)) as [H1 H2].
  unfold base128_top. set (n := base128_len 10 v) in *. cbn zeta in *.
  destruct n as [|m].
  - cbn [Nat.max Nat.sub]. split; [|now left]. apply div128_mono; [lia|exact H1].
  - replace (Nat.max 1 (S m) - 1)%nat with m by lia. split; [exact H1|]. right.
    replace (Z.of_nat m) with (Z.of_nat (S m) - 1) by lia. now apply H2.
Qed.

Lemma parse_base128 v rest :
  0 <= v < 2 ^ 64 -> parse_base128_integer (base128 v ++ rest) = (Some v, rest).
Proof.
  intros Hv. destruct (base128_top_spec v Hv) as [H1 H2].
  unfold parse_base128_integer, base128. rewrite <- H1 at 1. now apply parse_groups.
Qed.

Lemma parse_loop_inv s : forall acc v rest,
  bytes s -> 0 <= acc -> parse_base128_loop acc s = (Some v, rest) ->
  exists i, s = base128_groups i v ++ rest /\ v / 128 ^ Z.of_nat (S i) = acc /\
            (acc <> 0 \/ i = O \/ v / 128 ^ Z.of_nat i <> 0) /\ 0 <= v < 2 ^ 64.
Proof.
  induction s as [|b s IH]; intros acc v rest Hs Hacc; cbn [parse_base128_loop]; [discriminate|].
  apply bytes_cons in Hs as [Hb Hs]. change (64 - 7) with 57. rewrite shiftr_div by lia.
  destruct (Z.eqb_spec (acc / 2 ^ 57) 0) as [E57|]; cbn [negb]; [|discriminate].
  assert (Ha : 0 <= acc < 2 ^ 57).
  { split; [lia|]. pose proof (Z.div_mod acc (2 ^ 57) ltac:(lia)).
    pose proof (Z.mod_pos_bound acc (2 ^ 57) ltac:(lia)). lia. }
  destruct ((acc =? 0) && (b =? 0x80)) eqn:Emin; [discriminate|].
  rewrite shl7_or, land_0x80 by assumption. pose proof (Z.mod_pos_bound b 128 ltac:(lia)).
  red in Hb. destruct (Z.ltb_spec b 128) as [Hlt|Hge]; cbn [negb].
  - intros [= <- <-]. exists O. cbn [base128_groups app]. change (128 ^ Z.of_nat 0) with 1.
    rewrite Z.div_1_r, (Z.mod_small b) by lia. change (128 ^ Z.of_nat 1) with 128.
    assert (E1 : (acc * 128 + b) mod 128 = b) by (symmetry; apply Z.mod_unique with acc; lia).
    assert (E2 : (acc * 128 + b) / 128 = acc) by (symmetry; apply Z.div_unique with b; lia).
    rewrite E1, E2. repeat split; auto; lia.
  - intros H1. assert (Hn : 0 <= acc * 128 + b mod 128) by lia.
    destruct (IH _ _ _ Hs Hn H1) as (i & -> & Hd & Hnz & Hv).
    assert (Hbm : b mod 128 = b - 128).
    { symmetry. apply Z.mod_unique with 1; lia. }
    assert (Hd' : v / 128 ^ Z.of_nat (S (S i)) = acc).
    { rewrite div128_step, Hd, Z.div_add_l, Z.div_small by lia. lia. }
    assert (Hg : (v / 128 ^ Z.of_nat (S i)) mod 128 = b - 128).
    { rewrite Hd, Z.add_comm, Z.mod_add, Z.mod_mod by lia. exact Hbm. }
    exists (S i). cbn [base128_groups app]. rewrite Hg.
    split; [f_equal; lia|]. split; [exact Hd'|]. split; [|exact Hv].
    apply andb_false_iff in Emin as [En|En]; [left; now apply Z.eqb_neq|].
    right. right. apply Z.eqb_neq in En. rewrite Hd. lia.
Qed.

Lemma base128_top_unique v i :
  0 <= v < 2 ^ 64 -> v / 128 ^ Z.of_nat (S i) = 0 -> (i = O \/ v / 128 ^ Z.of_nat i <> 0) ->
  i = base128_top v.
Proof.
  intros Hv H1 H2. destruct (base128_top_spec v Hv) as [T1 T2].
  assert (M : forall a b, (a <= b)%nat -> v / 128 ^ Z.of_nat a = 0 -> v / 128 ^ Z.of_nat b = 0).
  { induction 1; auto. intros. apply div128_mono; auto; lia. }
  destruct (Nat.lt_trichotomy i (base128_top v)) as [L|[L|L]]; [|exact L|].
  - destruct T2 as [T2|T2]; [lia|]. exfalso. apply T2. apply (M (S i)); auto.
  - destruct H2 as [H2|H2]; [lia|]. exfalso. apply H2. apply (M (S (base128_top v))); auto.
Qed.

Lemma parse_base128_inv s v rest :
  bytes s -> parse_base128_integer s = (Some v, rest) -> s = base128 v ++ rest /\ 0 <= v < 2 ^ 64.
Proof.
  intros Hs H. destruct (parse_loop_inv s 0 v rest Hs ltac:(lia) H) as (i & -> & H1 & H2 & Hv).
  destruct H2 as [H2|H2]; [lia|]. rewrite (base128_top_unique v i Hv H1 H2) at 1. auto.
Qed.

Lemma bytes_base128_groups i v : bytes (base128_groups i v).
Proof.
  induction i; cbn [base128_groups]; repeat constructor; auto;
  pose proof (Z.mod_pos_bound (v / 128 ^ Z.of_nat 0) 128 ltac:(lia));
  try pose proof (Z.mod_pos_bound (v / 128 ^ Z.of_nat (S i)) 128 ltac:(lia)); lia.
Qed.

(** ** Tags *)

Lemma land_0xe0 b : is_byte b -> Z.land b 0xe0 = b / 32 * 32.
Proof.
  intros Hb. apply Z.eqb_eq.
  exact (all_bytes_spec (fun b => Z.land b 0xe0 =? b / 32 * 32) eq_refl b Hb).
Qed.

Lemma land_0x1f b : Z.land b 0x1f = b mod 32.
Proof. now apply (land_ones_mod b 5). Qed.

Lemma tag_join k n :
  0 <= k < 8 -> 0 <= n < 2 ^ 29 ->
  Z.lor (u32 (Z.shiftl (k * 32) CBS_ASN1_TAG_SHIFT)) n = k * 2 ^ 29 + n.
Proof.
  intros Hk Hn. unfold CBS_ASN1_TAG_SHIFT. rewrite Z.shiftl_mul_pow2 by lia.
  rewrite wrap_small by lia. replace (k * 32 * 2 ^ 24) with (k * 2 ^ 29) by lia.
  apply (lor_add_mul _ k 29); lia.
Qed.

Lemma tag_parts tag :
  0 <= tag < 2 ^ 32 ->
  0 <= tag / 2 ^ 29 < 8 /\ 0 <= tag mod 2 ^ 29 < 2 ^ 29 /\ tag = tag / 2 ^ 29 * 2 ^ 29 + tag mod 2 ^ 29.
Proof.
  intros H. pose proof (Z.div_mod tag (2 ^ 29) ltac:(lia)).
  pose proof (Z.mod_pos_bound tag (2 ^ 29) ltac:(lia)).
  assert (0 <= tag / 2 ^ 29 < 8) by (split; [apply Z.div_pos|apply Z.div_lt_upper_bound]; lia). lia.
Qed.

Lemma split_byte k n : 0 <= k < 8 -> 0 <= n < 32 -> (k * 32 + n) / 32 = k /\ (k * 32 + n) mod 32 = n.
Proof.
  intros. split.
  - rewrite Z.div_add_l, Z.div_small by lia. lia.
  - rewrite Z.add_comm, Z.mod_add, Z.mod_small by lia. lia.
Qed.

Lemma parse_der_tag tag rest :
  valid_tag tag -> parse_asn1_tag (der_tag tag ++ rest) = (Some tag, rest).
Proof.
  intros [Ht Hnz]. destruct (tag_parts tag Ht) as (Hk & Hn & Etag).
  unfold parse_asn1_tag, der_tag. set (k := tag / 2 ^ 29) in *. set (n := tag mod 2 ^ 29) in *.
  assert (G : (Z.land (k * 2 ^ 29 + n) (u32 (Z.lnot CBS_ASN1_CONSTRUCTED)) =? 0) = false)
    by (apply Z.eqb_neq; rewrite <- Etag; exact Hnz).
  destruct (Z.ltb_spec n 31) as [Hlow|Hhigh]; cbn [app]; unfold bind at 1;
    rewrite CBS_get_u8_cons.
  - destruct (split_byte k n) as [D M]; try lia.
    rewrite land_0xe0, land_0x1f, D, M by (red; lia).
    destruct (Z.eqb_spec n 0x1f); [lia|].
    cbn [bind ret]. unfold bind, ret. rewrite tag_join by lia. rewrite G, <- Etag. reflexivity.
  - destruct (split_byte k 31) as [D M]; try lia.
    rewrite land_0xe0, land_0x1f, D, M by (red; lia). cbn [Z.eqb Pos.eqb].
    unfold bind. rewrite parse_base128 by lia.
    change CBS_ASN1_TAG_NUMBER_MASK with (2 ^ 29 - 1). rewrite Z.gtb_ltb.
    destruct (Z.ltb_spec (2 ^ 29 - 1) n); [lia|]. destruct (Z.ltb_spec n 0x1f); [lia|].
    cbn [negb andb guard ret]. unfold ret. rewrite (wrap_small 32 n) by lia.
    rewrite tag_join by lia. rewrite G, <- Etag. reflexivity.
Qed.

(** The tag parser accepts only the canonical identifier octets. *)
Lemma parse_asn1_tag_inv s tag rest :
  bytes s -> parse_asn1_tag s = (Some tag, rest) -> s = der_tag tag ++ rest /\ valid_tag tag.
Proof.
  intros Hs H. unfold parse_asn1_tag in H. minv H. rename E0 into En, E1 into Eg. apply CBS_get_u8_inv in E as ->.
  apply bytes_cons in Hs as [Hb Hs]. rewrite land_0xe0, land_0x1f in * by exact Hb.
  pose proof Hb as Hb'. red in Hb'. pose proof (Z.div_mod a 32 ltac:(lia)) as Da.
  pose proof (Z.mod_pos_bound a 32 ltac:(lia)) as Ma.
  assert (Hk : 0 <= a / 32 < 8) by (split; [apply Z.div_pos|apply Z.div_lt_upper_bound]; lia).
  assert (Hnum : 0 <= a0 < 2 ^ 29 /\
                 a :: s0 = (if a0 <? 31 then [a / 32 * 32 + a0] else a / 32 * 32 + 31 :: base128 a0) ++ s1).
  { destruct (Z.eqb_spec (a mod 32) 31) as [E31|].
    - apply bind_some_inv in En as (v & s3 & Ev & En).
      apply bind_some_inv in En as (u & s4 & Er & En).
      apply guard_inv in Er as [Er ->]. bsplit. inversion En; subst.
      apply (parse_base128_inv _ _ _ Hs) in Ev as [-> Hv].
      change CBS_ASN1_TAG_NUMBER_MASK with (2 ^ 29 - 1) in *. rewrite wrap_small by lia.
      split; [lia|]. destruct (Z.ltb_spec v 31); [lia|]. cbn [app]. f_equal. lia.
    - inversion En; subst. split; [lia|]. destruct (Z.ltb_spec (a mod 32) 31); [|lia].
      cbn [app]. f_equal. lia. }
  destruct Hnum as [Hn Es]. apply guard_inv in Eg as [Eg ->].
  apply ret_inv in H as [-> ->]. clear En.
  rewrite (tag_join (a / 32) a0 Hk Hn) in *. bsplit. rewrite Es.
  assert (D : (a / 32 * 2 ^ 29 + a0) / 2 ^ 29 = a / 32) by (symmetry; apply Z.div_unique with a0; lia).
  assert (M : (a / 32 * 2 ^ 29 + a0) mod 2 ^ 29 = a0) by (symmetry; apply Z.mod_unique with (a / 32); lia).
  split; [|split; [lia|assumption]]. f_equal. unfold der_tag. now rewrite D, M.
Qed.

(** ** Elements *)

Lemma zlength_base128_groups i v : zlength (base128_groups i v) = Z.of_nat i + 1.
Proof.
  induction i; cbn [base128_groups]; rewrite zlength_cons, ?IHi, ?zlength_nil; lia.
Qed.

Lemma base128_len_le fuel v : (base128_len fuel v <= fuel)%nat.
Proof.
  revert v. induction fuel as [|fuel IH]; intros v; cbn [base128_len]; [lia|].
  specialize (IH (Z.shiftr v 7)). destruct (v >? 0); lia.
Qed.

Lemma zlength_base128 v : 1 <= zlength (base128 v) <= 10.
Proof.
  unfold base128. rewrite zlength_base128_groups. unfold base128_top.
  pose proof (base128_len_le 10 v). lia.
Qed.

Lemma zlength_der_tag_range tag : 1 <= zlength (der_tag tag) <= 12.
Proof.
  unfold der_tag. destruct (_ <? 31); autorewrite with zlen; [lia|].
  pose proof (zlength_base128 (tag mod 2 ^ 29)). lia.
Qed.

Lemma zlength_der_length_range len : 0 <= len -> 1 <= zlength (der_length len) <= 5.
Proof. intros H. unfold der_length. ztest; autorewrite with zlen; lia. Qed.

(** The long form: [n] length octets after the first. *)
Lemma long_form n len header_len rest tag :
  (1 <= n <= 4)%nat -> 128 <= len -> 256 ^ (Z.of_nat n - 1) <= len < 256 ^ Z.of_nat n ->
  0 <= header_len <= 100 ->
  asn1_length_octets false tag (0x80 + Z.of_nat n) header_len (be_split n len ++ rest) =
  Some (len + header_len + Z.of_nat n, header_len + Z.of_nat n, false, false).
Proof.
  intros Hn Hl Hr Hh. unfold asn1_length_octets. rewrite land_0x80, land_0x7f by (red; lia).
  destruct (Z.ltb_spec (0x80 + Z.of_nat n) 128); [lia|].
  replace ((128 + Z.of_nat n) mod 128) with (Z.of_nat n)
    by (apply Z.mod_unique with 1; lia).
  rewrite Z.gtb_ltb. destruct (Z.eqb_spec (Z.of_nat n) 0); [lia|].
  destruct (Z.ltb_spec 4 (Z.of_nat n)); [lia|]. cbn [andb orb].
  assert (256 ^ Z.of_nat n <= 256 ^ 4) by (apply Z.pow_le_mono_r; lia).
  change (256 ^ 4) with (2 ^ 32) in *.
  assert (0 < 256 ^ (Z.of_nat n - 1)) by (apply Z.pow_pos_nonneg; lia).
  rewrite cbs_get_u_split by lia. destruct (Z.ltb_spec len 128); [lia|]. cbn [andb].
  rewrite shiftr_div by lia. replace (2 ^ ((Z.of_nat n - 1) * 8)) with (256 ^ (Z.of_nat n - 1)).
  2:{ rewrite Z.mul_comm, Z.pow_mul_r by lia. reflexivity. }
  assert (1 <= len / 256 ^ (Z.of_nat n - 1)) by (apply Z.div_le_lower_bound; lia).
  destruct (Z.eqb_spec (len / 256 ^ (Z.of_nat n - 1)) 0); [lia|]. cbn [andb].
  rewrite !wrap_small by lia. destruct (Z.ltb_spec (len + header_len + Z.of_nat n) len); [lia|].
  reflexivity.
Qed.

Lemma asn1_length_der len header_len rest tag :
  0 <= len < 2 ^ 32 -> 0 <= header_len <= 100 ->
  exists b0 more, der_length len = b0 :: more /\ is_byte b0 /\
  asn1_length_octets false tag b0 header_len (more ++ rest) =
  Some (len + header_len + zlength more, header_len + zlength more, false, false).
Proof.
  intros Hl Hh. unfold der_length. ztest; do 2 eexists; (split; [reflexivity|]);
    rewrite ?zlength_be_split.
  1:{ split; [red; lia|]. unfold asn1_length_octets. rewrite land_0x80 by (red; lia).
      destruct (Z.ltb_spec len 128); [|lia]. rewrite wrap_small by lia.
      rewrite zlength_nil, !Z.add_0_r. reflexivity. }
  all: split; [red; lia|].
  1: apply (long_form 1); lia || (cbn; lia).
  1: apply (long_form 2); lia || (cbn; lia).
  1: apply (long_form 3); lia || (cbn; lia).
  1: apply (long_form 4); lia || (cbn; lia).
Qed.

Definition whole_element (tag : Z) (body : list Z) : list Z := der_header tag (zlength body) ++ body.

Lemma get_element_der tag body rest :
  valid_tag tag -> zlength body < 2 ^ 32 ->
  CBS_get_any_asn1_element (whole_element tag body ++ rest) =
  (Some {| el_out := whole_element tag body; el_tag := tag;
           el_header_len := zlength (der_header tag (zlength body));
           el_ber_found := false; el_indefinite := false |}, rest).
Proof.
  intros Ht Hl. pose proof (zlength_nonneg body). pose proof (zlength_der_tag_range tag) as Rt.
  unfold CBS_get_any_asn1_element, cbs_get_any_asn1_element.
  destruct (asn1_length_der (zlength body) (zlength (der_tag tag) + 1) (body ++ rest) tag)
    as (b0 & more & El & Hb0 & Elen); [lia|lia|].
  assert (Es : whole_element tag body ++ rest = der_tag tag ++ b0 :: (more ++ body ++ rest)).
  { unfold whole_element, der_header. rewrite El, <- !app_assoc. reflexivity. }
  rewrite Es at 1. unfold bind at 1 2. rewrite parse_der_tag, CBS_get_u8_cons by exact Ht.
  unfold ret. cbv beta iota.
  replace (CBS_len (whole_element tag body ++ rest) - CBS_len (more ++ body ++ rest))
    with (zlength (der_tag tag) + 1)
    by (rewrite Es; unfold CBS_len; autorewrite with zlen; lia).
  rewrite Elen. unfold bind, CBS_get_bytes.
  assert (Eh : zlength (der_header tag (zlength body)) = zlength (der_tag tag) + 1 + zlength more).
  { unfold der_header. rewrite El. autorewrite with zlen. lia. }
  replace (zlength body + (zlength (der_tag tag) + 1) + zlength more)
    with (zlength (whole_element tag body))
    by (unfold whole_element; rewrite zlength_app, Eh; lia).
  rewrite cbs_get_app. unfold ret. do 3 f_equal. lia.
Qed.

Lemma CBS_get_asn1_der tag body rest :
  valid_tag tag -> zlength body < 2 ^ 32 ->
  CBS_get_asn1 tag (whole_element tag body ++ rest) = (Some body, rest).
Proof.
  intros Ht Hl. unfold CBS_get_asn1, cbs_get_asn1, bind.
  rewrite get_element_der by assumption. cbn [el_tag el_header_len el_out].
  rewrite Z.eqb_refl. cbn [guard ret]. unfold skip_header, whole_element, ret.
  now rewrite CBS_skip_app.
Qed.

(** ** The parser accepts only canonical elements *)

Lemma der_length_long n len :
  (1 <= n <= 4)%nat -> 128 <= len -> 256 ^ (Z.of_nat n - 1) <= len < 256 ^ Z.of_nat n ->
  der_length len = (0x80 + Z.of_nat n) :: be_split n len.
Proof.
  intros Hn Hl Hr. unfold der_length.
  assert (n = 1 \/ n = 2 \/ n = 3 \/ n = 4)%nat as [-> | [-> | [-> | ->]]] by lia;
    cbn -[be_split] in Hr; ztest; reflexivity.
Qed.

Lemma asn1_length_inv tag b0 hl header r :
  is_byte b0 -> bytes header -> 0 <= hl <= 100 ->
  asn1_length_octets false tag b0 hl header = Some r ->
  exists len more header', header = more ++ header' /\ der_length len = b0 :: more /\
    0 <= len < 2 ^ 32 /\ r = (len + hl + zlength more, hl + zlength more, false, false).
Proof.
  intros Hb Hh Hhl. unfold asn1_length_octets. rewrite land_0x80, land_0x7f by exact Hb. red in Hb.
  destruct (Z.ltb_spec b0 128).
  - intros [= <-]. exists b0, [], header. rewrite wrap_small by lia.
    split; [reflexivity|]. split; [|split; [lia|rewrite zlength_nil, !Z.add_0_r; reflexivity]].
    unfold der_length. destruct (Z.ltb_spec b0 0x80); [reflexivity|lia].
  - replace (b0 mod 128) with (b0 - 128) by (apply Z.mod_unique with 1; lia).
    set (n := b0 - 128). cbn [andb]. destruct ((n =? 0) || (n >? 4)) eqn:En; [discriminate|].
    bsplit. destruct (cbs_get_u n header) as [[len|] header'] eqn:Eu; [|discriminate].
    apply cbs_get_u_inv in Eu as [-> Hlen]; [|lia|exact Hh]. cbn [negb]. rewrite !andb_true_r.
    destruct (Z.ltb_spec len 128); [discriminate|].
    rewrite shiftr_div by lia. replace (2 ^ ((n - 1) * 8)) with (256 ^ (n - 1)).
    2:{ rewrite Z.mul_comm, Z.pow_mul_r by lia. reflexivity. }
    assert (0 < 256 ^ (n - 1)) by (apply Z.pow_pos_nonneg; lia).
    destruct (Z.eqb_spec (len / 256 ^ (n - 1)) 0) as [|Hnz]; [discriminate|].
    assert (256 ^ n <= 256 ^ 4) by (apply Z.pow_le_mono_r; lia). change (256 ^ 4) with (2 ^ 32) in *.
    rewrite !wrap_small by lia. destruct (Z.ltb_spec (len + hl + n) len); [discriminate|].
    cbn [orb]. intros [= <-]. exists len, (be_split (Z.to_nat n) len), header'.
    rewrite zlength_be_split, Z2Nat.id by lia. split; [reflexivity|]. split.
    + rewrite (der_length_long (Z.to_nat n)); rewrite ?Z2Nat.id; try lia.
      * f_equal. lia.
      * split; [|lia]. destruct (Z.lt_ge_cases len (256 ^ (n - 1))) as [C|C]; [|exact C].
        rewrite Z.div_small in Hnz by lia. congruence.
    + split; [lia|reflexivity].
Qed.

Lemma get_element_inv s el rest :
  bytes s -> CBS_get_any_asn1_element s = (Some el, rest) ->
  exists body, s = whole_element (el_tag el) body ++ rest /\
    el_out el = whole_element (el_tag el) body /\
    el_header_len el = zlength (der_header (el_tag el) (zlength body)) /\
    valid_tag (el_tag el) /\ zlength body < 2 ^ 32.
Proof.
  intros Hs. unfold CBS_get_any_asn1_element, cbs_get_any_asn1_element.
  match goal with |- match ?m with _ => _ end = _ -> _ =>
    destruct m as [[[tag b0]|] header] eqn:Eh; [|discriminate] end.
  apply bind_some_inv in Eh as (tag' & s1 & Et & Eh).
  apply bind_some_inv in Eh as (b0' & s2 & Eb & Eh). apply ret_inv in Eh as [[= -> ->] ->].
  apply (parse_asn1_tag_inv _ _ _ Hs) in Et as [-> Ht]. apply CBS_get_u8_inv in Eb as ->.
  apply bytes_app in Hs as [_ Hs]. apply bytes_cons in Hs as [Hb Hs].
  pose proof (zlength_der_tag_range tag') as Rt.
  replace (CBS_len (der_tag tag' ++ b0' :: s2) - CBS_len s2) with (zlength (der_tag tag') + 1)
    by (unfold CBS_len; autorewrite with zlen; lia).
  destruct (asn1_length_octets _ _ _ _ _) as [r|] eqn:El; [|discriminate].
  apply asn1_length_inv in El as (len & more & header' & -> & El & Hlen & ->); [|assumption..|lia].
  intros H. apply bind_some_inv in H as (out & s3 & Eo & H). apply ret_inv in H as [-> ->].
  cbn [el_tag el_out el_header_len].
  pose proof (zlength_nonneg more).
  apply cbs_get_inv in Eo as [Eo Hout]; [|lia].
  set (hdr := der_tag tag' ++ der_length len).
  assert (Eh : hdr ++ header' = out ++ s3).
  { rewrite <- Eo. unfold hdr. rewrite El, <- !app_assoc. reflexivity. }
  assert (Lh : zlength hdr = zlength (der_tag tag') + 1 + zlength more).
  { unfold hdr. rewrite El. autorewrite with zlen. lia. }
  apply app_eq_app in Eh as (body & [[E1 E2]|[E1 E2]]).
  - assert (body = []).
    { apply zlength_zero_inv. pose proof (zlength_nonneg body). subst hdr. rewrite E1, zlength_app in *. lia. }
    subst body. rewrite app_nil_r in E1. assert (len = 0) by (rewrite E1 in Lh; lia). subst len.
    exists []. unfold whole_element, der_header. rewrite zlength_nil, app_nil_r. fold hdr.
    rewrite E1. split; [rewrite Eo; reflexivity|]. split; [reflexivity|].
    split; [rewrite <- E1; lia|]. split; [exact Ht|lia].
  - assert (Lb : zlength body = len) by (rewrite E1, zlength_app in Hout; lia).
    exists body. unfold whole_element, der_header. rewrite Lb. fold hdr. rewrite <- E1.
    repeat split; try apply Ht; try lia. exact Eo.
Qed.
