(* ===== verification/Asn1Build.v ===== *)
(** What the ASN.1 functions of [cbb.cc] write (as refinements of abstract
    writes) and the theorems about the byte-string library as a whole: the
    refinement of nested builders, the invariants of the builder, and the
    round trips between builder and parser. *)
From Stdlib Require Import ZArith List Lia Bool.
From S2P Require Import Prelude CryptoInternal Cbs Cbb CbbSpec Asn1.
Import ListNotations.
Open Scope Z_scope.

(** ** Algebra of abstract writes *)

Lemma append_builder_nil a : append_builder a [] = a.
Proof.
  destruct a as [r fs]. unfold append_builder. cbn. destruct fs as [|f fs].
  - now rewrite app_nil_r.
  - f_equal. destruct (@exists_last _ (f :: fs) ltac:(discriminate)) as (fs' & [p c] & ->).
    now rewrite append_at_snoc, app_nil_r.
Qed.

Lemma append_builder_app a x y : append_builder (append_builder a x) y = append_builder a (x ++ y).
Proof.
  destruct a as [r fs]. unfold append_builder. cbn. destruct fs as [|f fs]; cbn [ab_open ab_root].
  - now rewrite app_assoc.
  - destruct (@exists_last _ (f :: fs) ltac:(discriminate)) as (fs' & [p c] & E).
    rewrite E, append_at_snoc. destruct fs' as [|f' fs']; cbn [app ab_open ab_root].
    + cbn. now rewrite app_assoc.
    + change (f' :: fs' ++ [(p, c ++ x)]) with ((f' :: fs') ++ [(p, c ++ x)]).
      change (f' :: fs' ++ [(p, c)]) with ((f' :: fs') ++ [(p, c)]).
      rewrite !append_at_snoc. cbn [ab_open]. now rewrite app_assoc.
Qed.

Lemma flush_builder_id d a : length (ab_open a) = d -> flush_builder d a = Some a.
Proof.
  intros <-. unfold flush_builder. rewrite Nat.ltb_irrefl, skipn_all, firstn_all. cbn.
  destruct a. cbn. now rewrite append_builder_nil.
Qed.

Lemma awrite_awrite d x y a : abind (awrite d x) (fun _ => awrite d y) a = awrite d (x ++ y) a.
Proof.
  unfold abind, awrite. destruct (flush_builder d a) as [a1|] eqn:F; [|reflexivity]. cbn [obind].
  rewrite flush_builder_id by (rewrite append_builder_depth; eapply flush_builder_depth; eauto).
  cbn [obind]. now rewrite append_builder_app.
Qed.

Lemma aflush_awrite d x a : abind (aflush d) (fun _ => awrite d x) a = awrite d x a.
Proof.
  unfold abind, aflush, awrite. destruct (flush_builder d a) as [a1|] eqn:F; [|reflexivity].
  cbn [obind]. now rewrite flush_builder_id by (eapply flush_builder_depth; eauto).
Qed.

Lemma abind_assoc {A B C} (f : builder -> option (A * builder)) g (h : B -> builder -> option (C * builder)) a :
  abind (abind f g) h a = abind f (fun x => abind (g x) h) a.
Proof. unfold abind. destruct (f a) as [[x a1]|]; reflexivity. Qed.

Lemma abind_ext {A B} (f : builder -> option (A * builder)) (g h : A -> builder -> option (B * builder)) a :
  (forall x a, g x a = h x a) -> abind f g a = abind f h a.
Proof. intros H. unfold abind. destruct (f a) as [[x a1]|]; cbn; auto. Qed.

Lemma monotone_abind {A B} (f : builder -> option (A * builder)) (g : A -> builder -> option (B * builder)) :
  monotone f -> (forall x, monotone (g x)) -> monotone (abind f g).
Proof.
  intros Hf Hg a y a2. unfold abind. destruct (f a) as [[x a1]|] eqn:E; [|discriminate].
  cbn. intros H. apply Hf in E. apply Hg in H. lia.
Qed.

Lemma monotone_ret {A} (x : A) : monotone (fun a => Some (x, a)).
Proof. intros a y a' [= <- <-]. lia. Qed.

(** Open a child, write to it, flush the parent: one write of prefix and contents. *)
Lemma child_write d p data a :
  abind (aopen d p) (fun c => abind (awrite c data) (fun _ => aflush d)) a =
  match encode_len p (zlength data) with
  | Some hdr => awrite d (hdr ++ data) a
  | None => None
  end.
Proof.
  unfold abind, aopen, awrite, aflush. destruct (flush_builder d a) as [a1|] eqn:F; cbn [obind].
  2:{ now destruct (encode_len _ _). }
  pose proof (flush_builder_depth _ _ _ F) as D.
  rewrite flush_builder_id by (cbn [ab_open]; rewrite length_app; cbn; lia). cbn [obind].
  unfold append_builder at 1. cbn [ab_open ab_root].
  destruct (ab_open a1 ++ [(p, [])]) as [|f fs] eqn:E; [now destruct (ab_open a1)|]. rewrite <- E.
  rewrite append_at_snoc. cbn [app]. unfold flush_builder at 1. cbn [ab_open ab_root].
  unfold frame in *. rewrite length_app, D. destruct (Nat.ltb_spec (d + length [(p, data)]) d); [lia|].
  rewrite skipn_app, firstn_app, D, Nat.sub_diag, skipn_all2, firstn_all2 by lia.
  cbn [skipn firstn app close obind]. rewrite !app_nil_r.
  destruct (encode_len p (zlength data)) as [hdr|]; cbn [obind]; [|reflexivity].
  destruct a1. reflexivity.
Qed.

(** ** Byte order of [CRYPTO_load_u64_be] *)

Lemma land_step a b m n :
  0 <= b < 256 -> 0 <= n < 256 ->
  Z.land (a * 256 + b) (m * 256 + n) = Z.land a m * 256 + Z.land b n.
Proof.
  intros Hb Hn. pose proof (land_range_r 8 b n ltac:(lia)).
  change 256 with (2 ^ 8). rewrite <- !lor_shiftl_add by lia.
  apply Z.bits_inj'. intros i Hi. rewrite !Z.land_spec, !Z.lor_spec, Z.land_spec.
  destruct (Z.ltb_spec i 8).
  - rewrite !Z.shiftl_spec_low by lia. reflexivity.
  - rewrite !Z.shiftl_spec, Z.land_spec by lia.
    rewrite <- (Z.mod_small b (2 ^ 8)), <- (Z.mod_small n (2 ^ 8)) by lia.
    rewrite !Z.mod_pow2_bits_high by lia. now rewrite !orb_false_r.
Qed.

Lemma lor_step a b m n :
  0 <= b < 256 -> 0 <= n < 256 ->
  Z.lor (a * 256 + b) (m * 256 + n) = Z.lor a m * 256 + Z.lor b n.
Proof.
  intros Hb Hn. pose proof (lor_range 8 b n ltac:(lia) ltac:(lia) ltac:(lia)).
  change 256 with (2 ^ 8). rewrite <- !lor_shiftl_add by lia.
  rewrite Z.shiftl_lor. rewrite <- !Z.lor_assoc. f_equal.
  rewrite !Z.lor_assoc. f_equal. apply Z.lor_comm.
Qed.

Lemma land_255 b : is_byte b -> Z.land b 255 = b.
Proof. intros Hb. rewrite (land_ones_mod b 8) by (reflexivity || lia). now apply Z.mod_small. Qed.

Lemma bswap4_bytes b0 b1 b2 b3 :
  is_byte b0 -> is_byte b1 -> is_byte b2 -> is_byte b3 ->
  CRYPTO_bswap4 (le_combine [b0; b1; b2; b3]) = be_combine [b0; b1; b2; b3].
Proof.
  intros H0 H1 H2 H3. set (x := le_combine [b0; b1; b2; b3]).
  assert (Ex : x = b0 + 2 ^ 8 * b1 + 2 ^ 16 * b2 + 2 ^ 24 * b3) by (unfold x; cbn [le_combine]; lia).
  pose proof H0 as R0. pose proof H1 as R1. pose proof H2 as R2. pose proof H3 as R3.
  unfold is_byte in R0, R1, R2, R3.
  unfold CRYPTO_bswap4. replace (Z.shiftr x 16) with (b3 * 256 + b2).
  2:{ rewrite shiftr_div by lia. apply Z.div_unique with (b0 + 2 ^ 8 * b1); lia. }
  replace (u32 (Z.shiftl x 16)) with ((b1 * 256 + b0) * 2 ^ 16).
  2:{ rewrite Z.shiftl_mul_pow2 by lia. apply Z.mod_unique with (b2 + 2 ^ 8 * b3); lia. }
  rewrite (Z.lor_comm (b3 * 256 + b2)).
  rewrite (lor_add_mul ((b1 * 256 + b0) * 2 ^ 16) (b1 * 256 + b0) 16 (b3 * 256 + b2)) by lia.
  replace ((b1 * 256 + b0) * 2 ^ 16 + (b3 * 256 + b2))
    with (((b1 * 256 + b0) * 256 + b3) * 256 + b2) by lia.
  change 0xff00ff00 with (((255 * 256 + 0) * 256 + 255) * 256 + 0).
  change 0x00ff00ff with (((0 * 256 + 255) * 256 + 0) * 256 + 255).
  rewrite !land_step, !land_255, !Z.land_0_r by (assumption || lia).
  replace (Z.shiftr (((b1 * 256 + 0) * 256 + b3) * 256 + 0) 8) with ((b1 * 256 + 0) * 256 + b3)
    by (rewrite shiftr_div by lia; apply Z.div_unique with 0; lia).
  rewrite Z.shiftl_mul_pow2, wrap_small by lia.
  replace (((0 * 256 + b0) * 256 + 0) * 256 + b2) with (b0 * 65536 + b2) by lia.
  replace ((b0 * 65536 + b2) * 2 ^ 8) with (((b0 * 256 + 0) * 256 + b2) * 256 + 0) by lia.
  replace ((b1 * 256 + 0) * 256 + b3) with (((0 * 256 + b1) * 256 + 0) * 256 + b3) by lia.
  rewrite !lor_step, !Z.lor_0_r, !Z.lor_0_l by lia. unfold be_combine. cbn [fold_left]. lia.
Qed.

Lemma le_combine_app l m : le_combine (l ++ m) = le_combine l + 256 ^ zlength l * le_combine m.
Proof.
  induction l as [|b l IH]; cbn [app le_combine]; [change (256 ^ zlength []) with 1; lia|].
  rewrite IH, zlength_cons, Z.pow_add_r by (try apply zlength_nonneg; lia). ring.
Qed.

Lemma bswap4_list l :
  bytes l -> length l = 4%nat -> CRYPTO_bswap4 (le_combine l) = be_combine l.
Proof.
  intros Hl L. destruct l as [|b0 [|b1 [|b2 [|b3 [|]]]]]; try discriminate.
  unfold bytes in Hl. repeat match goal with H : Forall _ (_ :: _) |- _ => inversion_clear H end.
  now apply bswap4_bytes.
Qed.

Lemma bswap8_bytes l m :
  bytes l -> bytes m -> length l = 4%nat -> length m = 4%nat ->
  CRYPTO_bswap8 (le_combine (l ++ m)) = be_combine (l ++ m).
Proof.
  intros Hl Hm L1 L2.
  assert (Zl : 256 ^ zlength l = 2 ^ 32) by (unfold zlength; rewrite L1; reflexivity).
  assert (Zm : 256 ^ zlength m = 2 ^ 32) by (unfold zlength; rewrite L2; reflexivity).
  pose proof (le_combine_range l Hl) as R1. pose proof (le_combine_range m Hm) as R2.
  pose proof (be_combine_range l Hl) as R3. pose proof (be_combine_range m Hm) as R4.
  rewrite le_combine_app, be_combine_app. rewrite Zl, Zm in *. unfold CRYPTO_bswap8.
  replace (Z.shiftr (le_combine l + 2 ^ 32 * le_combine m) 32) with (le_combine m).
  2:{ rewrite shiftr_div by lia. apply Z.div_unique with (le_combine l); lia. }
  replace (u32 (le_combine l + 2 ^ 32 * le_combine m)) with (le_combine l).
  2:{ apply Z.mod_unique with (le_combine m); lia. }
  rewrite !bswap4_list, Z.shiftl_mul_pow2, wrap_small, Z.lor_comm by (assumption || lia).
  apply (lor_add_mul _ (be_combine l) 32); lia.
Qed.

Lemma load_u64_be l : bytes l -> length l = 8%nat -> CRYPTO_load_u64_be l = be_combine l.
Proof.
  intros Hl L. unfold CRYPTO_load_u64_be. rewrite firstn_all2 by lia.
  rewrite <- (firstn_skipn 4 l) at 1 2. apply bswap8_bytes; auto with bytestr.
  - rewrite length_firstn. lia.
  - rewrite length_skipn. lia.
Qed.

(** ** Refinement of the ASN.1 writers *)

Section Refine.
Context {E : Env}.

Lemma refines_write2 d (m1 m2 : st CBB unit) x y :
  refines m1 (awrite d x) -> refines m2 (awrite d y) ->
  refines (m1 ;;; m2) (awrite d (x ++ y)).
Proof.
  intros H1 H2. eapply refines_ext; [|apply awrite_awrite].
  apply refines_bind; auto with cbb.
Qed.

Lemma add_base128_groups_refines d v i :
  0 <= v -> refines (add_base128_groups d v i) (awrite d (base128_groups i v)).
Proof.
  intros Hv.
  assert (G : forall j, Z.land (Z.shiftr v (7 * Z.of_nat j)) 0x7f = (v / 128 ^ Z.of_nat j) mod 128).
  { intros j. rewrite land_0x7f, shiftr_div by lia. do 2 f_equal.
    rewrite Z.pow_mul_r by lia. reflexivity. }
  induction i as [|i IH]; cbn [add_base128_groups base128_groups]; rewrite G.
  - apply CBB_add_u8_refines. red. pose proof (Z.mod_pos_bound (v / 128 ^ Z.of_nat 0) 128). lia.
  - pose proof (Z.mod_pos_bound (v / 128 ^ Z.of_nat (S i)) 128 ltac:(lia)).
    rewrite lor_0x80 by lia.
    change (?x :: ?l) with ([x] ++ l). apply refines_write2; [|exact IH].
    apply CBB_add_u8_refines. red. lia.
Qed.

Lemma add_base128_refines d v :
  0 <= v -> refines (add_base128_integer d v) (awrite d (base128 v)).
Proof.
  intros Hv. unfold add_base128_integer, base128, base128_top.
  replace ((if (base128_len 10 v =? 0)%nat then 1 else base128_len 10 v) - 1)%nat
    with (Nat.max 1 (base128_len 10 v) - 1)%nat.
  - now apply add_base128_groups_refines.
  - destruct (Nat.eqb_spec (base128_len 10 v) 0); lia.
Qed.

Lemma tag_bits_spec tag : 0 <= tag < 2 ^ 32 ->
  Z.land (Z.shiftr tag CBS_ASN1_TAG_SHIFT) 0xe0 = tag / 2 ^ 29 * 32.
Proof.
  intros Ht. unfold CBS_ASN1_TAG_SHIFT. rewrite shiftr_div by lia. rewrite land_0xe0.
  - rewrite Z.div_div by lia. reflexivity.
  - red. split; [apply Z.div_pos; lia|apply Z.div_lt_upper_bound; lia].
Qed.

Lemma CBB_add_asn1_refines d tag :
  0 <= tag < 2 ^ 32 ->
  refines (CBB_add_asn1 d tag) (abind (awrite d (der_tag tag)) (fun _ => aopen d Asn1)).
Proof.
  intros Ht. unfold CBB_add_asn1. rewrite tag_bits_spec by exact Ht.
  destruct (tag_parts tag Ht) as (Hk & Hn & _).
  change CBS_ASN1_TAG_NUMBER_MASK with (2 ^ 29 - 1).
  rewrite (land_ones_mod tag 29) by (reflexivity || lia).
  assert (T : refines
    (if tag mod 2 ^ 29 >=? 31
     then CBB_add_u8 d (Z.lor (tag / 2 ^ 29 * 32) 31) ;;; add_base128_integer d (tag mod 2 ^ 29)
     else CBB_add_u8 d (Z.lor (tag / 2 ^ 29 * 32) (tag mod 2 ^ 29))) (awrite d (der_tag tag))).
  { unfold der_tag. rewrite Z.geb_leb.
    destruct (Z.leb_spec 31 (tag mod 2 ^ 29)), (Z.ltb_spec (tag mod 2 ^ 29) 31); try lia.
    - rewrite (lor_add_mul _ (tag / 2 ^ 29) 5) by lia.
      change (?x :: ?l) with ([x] ++ l). apply refines_write2.
      + apply CBB_add_u8_refines. red. lia.
      + apply add_base128_refines. lia.
    - rewrite (lor_add_mul _ (tag / 2 ^ 29) 5) by lia. apply CBB_add_u8_refines. red. lia. }
  eapply refines_ext with (f := abind (aflush d) (fun _ => abind (awrite d (der_tag tag)) (fun _ a =>
    Some (S d, {| ab_root := ab_root a; ab_open := ab_open a ++ [(Asn1, [])] |})))).
  - apply refines_bind; [auto with cbb| |]; intros _.
    + apply refines_bind; [exact T| |]; intros _.
      * exact (add_child_refines d Asn1 ltac:(cbn; lia)).
      * apply monotone_open.
    + apply monotone_abind; [auto with cbb|]. intros _. apply monotone_open.
  - intros a. rewrite <- abind_assoc. unfold abind at 1. rewrite aflush_awrite.
    unfold abind. destruct (awrite d (der_tag tag) a) as [[u a1]|] eqn:W; [|reflexivity]. cbn [obind].
    unfold aopen. rewrite flush_builder_id; [reflexivity|].
    unfold awrite in W. destruct (flush_builder d a) as [a0|] eqn:F; [|discriminate].
    injection W as <- <-. rewrite append_builder_depth. eapply flush_builder_depth; eauto.
Qed.

(** A program that opens an element, writes [data] to it and flushes. *)
Lemma element_refines d tag data (k : nat -> st CBB unit) :
  0 <= tag < 2 ^ 32 -> (forall c, refines (k c) (awrite c data)) ->
  refines (let* child := CBB_add_asn1 d tag in k child ;;; CBB_flush d)
    (fun a => if zlength data <? 0xffffffff then awrite d (whole_element tag data) a else None).
Proof.
  intros Ht Hk.
  eapply refines_ext with
    (f := abind (abind (awrite d (der_tag tag)) (fun _ => aopen d Asn1))
            (fun c => abind (awrite c data) (fun _ => aflush d))).
  - apply refines_bind; [now apply CBB_add_asn1_refines| |]; intros c.
    + apply refines_bind; auto with cbb.
    + apply monotone_abind; auto with cbb.
  - intros a. rewrite abind_assoc. erewrite abind_ext.
    2:{ intros u b. apply (child_write d Asn1 data b). }
    cbn [encode_len]. destruct (zlength data <? 0xffffffff).
    + rewrite awrite_awrite. unfold whole_element, der_header. now rewrite app_assoc.
    + unfold abind. now destruct (awrite _ _ a) as [[]|].
Qed.

Lemma CBB_add_asn1_element_refines d tag data :
  0 <= tag < 2 ^ 32 -> zlength data < 2 ^ 64 ->
  refines (CBB_add_asn1_element d tag data)
    (fun a => if zlength data <? 0xffffffff then awrite d (whole_element tag data) a else None).
Proof.
  intros Ht Hd. apply refines_or_on_error. apply element_refines; auto with cbb.
Qed.

End Refine.
