(* ===== verification/Asn1Int.v ===== *)
(** INTEGER and BOOLEAN contents: what [CBB_add_asn1_uint64],
    [CBB_add_asn1_int64] and [CBB_add_asn1_bool] write, and that the parser
    reads the same value back. *)
From Stdlib Require Import ZArith List Lia Bool.
From S2P Require Import Prelude CryptoInternal Cbs Cbb CbbSpec Asn1 Asn1Build.
Import ListNotations.
Open Scope Z_scope.

(** ** Unsigned contents *)

(** Minimal unsigned contents of a big-endian byte string: leading zeros
    dropped, a zero octet put in front when the top bit is set or nothing is left. *)
Fixpoint uint_content (bs : list Z) : list Z :=
  match bs with
  | [] => [0]
  | b :: bs' =>
      if b =? 0 then uint_content bs'
      else if b <? 128 then bs else 0 :: bs
  end.

Lemma be_combine_zero l : be_combine (0 :: l) = be_combine l.
Proof. rewrite be_combine_cons. lia. Qed.

Lemma uint_content_spec bs :
  bytes bs ->
  bytes (uint_content bs) /\ be_combine (uint_content bs) = be_combine bs /\
  CBS_is_unsigned_asn1_integer (uint_content bs) = true /\
  zlength (uint_content bs) <= zlength bs + 1.
Proof.
  induction bs as [|b bs IH]; intros Hb; cbn [uint_content].
  - split; [apply bytes_cons; split; [red; lia|constructor]|].
    split; [reflexivity|]. split; [reflexivity|cbn; lia].
  - pose proof Hb as Hall. apply bytes_cons in Hb as [Hb Hbs]. red in Hb.
    destruct (Z.eqb_spec b 0) as [->|Hnz].
    + destruct (IH Hbs) as (I1 & I2 & I3 & I4). rewrite be_combine_zero, zlength_cons.
      repeat split; auto; lia.
    + assert (V : forall l, bytes (b :: l) ->
                CBS_is_unsigned_asn1_integer (if b <? 128 then b :: l else 0 :: b :: l) = true).
      { intros l _. unfold CBS_is_unsigned_asn1_integer, CBS_is_valid_asn1_integer.
        destruct (Z.ltb_spec b 128).
        - rewrite CBS_get_u8_cons, land_0x80 by (red; lia). destruct (Z.ltb_spec b 128); [|lia].
          destruct (Z.eqb_spec b 0); [lia|]. destruct (Z.eqb_spec b 255); [lia|].
          destruct (CBS_get_u8 l) as [[c|] r]; reflexivity.
        - rewrite !CBS_get_u8_cons, land_0x80 by (red; lia). destruct (Z.ltb_spec b 128); [lia|].
          reflexivity. }
      specialize (V bs Hall). destruct (b <? 128).
      * repeat split; auto; lia.
      * rewrite be_combine_zero, zlength_cons. repeat split; auto; try lia.
        apply bytes_cons. split; [red; lia|exact Hall].
Qed.

Lemma uint64_loop_spec l : forall acc,
  bytes l -> 0 <= acc -> acc * 256 ^ zlength l + be_combine l < 2 ^ 64 ->
  uint64_loop acc l = Some (acc * 256 ^ zlength l + be_combine l).
Proof.
  induction l as [|b l IH]; intros acc Hl Ha Hbound; cbn [uint64_loop].
  - cbn. f_equal. change (256 ^ zlength []) with 1. lia.
  - apply bytes_cons in Hl as [Hb Hl]. pose proof (be_combine_range l Hl).
    rewrite be_combine_cons, zlength_cons, Z.pow_add_r in * by (try apply zlength_nonneg; lia).
    change (256 ^ 1) with 256 in *. pose proof Hb as Hb'. red in Hb'.
    assert (0 < 256 ^ zlength l) by (apply Z.pow_pos_nonneg; try apply zlength_nonneg; lia).
    assert (0 <= acc < 2 ^ 56) by (change (2 ^ 64) with (256 * 2 ^ 56) in *; nia).
    rewrite shiftr_div, Z.div_small by lia. cbn [Z.eqb negb].
    rewrite shl8_or by assumption. rewrite IH; [f_equal; ring| assumption | lia | ].
    replace ((acc * 256 + b) * 256 ^ zlength l + be_combine l)
      with (acc * (256 * 256 ^ zlength l) + (b * 256 ^ zlength l + be_combine l)) by ring.
    assumption.
Qed.

Lemma hd_be_split8 v : 0 <= v < 2 ^ 64 -> hd 0 (be_split 8 v) = v / 2 ^ 56.
Proof.
  intros Hv. cbn [be_split app hd]. rewrite !Z.div_div by lia.
  change (256 * (256 * (256 * (256 * (256 * (256 * 256)))))) with (2 ^ 56).
  apply Z.mod_small. split; [apply Z.div_pos|apply Z.div_lt_upper_bound]; lia.
Qed.

(** ** Signed contents *)

Lemma skip_sign_bytes_cons b b' l :
  skip_sign_bytes (b :: b' :: l) =
  if (b =? 0xff) && negb (Z.land b' 0x80 =? 0) then skip_sign_bytes (b' :: l) else b :: b' :: l.
Proof. reflexivity. Qed.

Lemma skip_sign_bytes_spec l :
  bytes l -> l <> [] -> 128 <= hd 0 l ->
  exists n, l = repeat 0xff n ++ skip_sign_bytes l /\
    skip_sign_bytes l <> [] /\ 128 <= hd 0 (skip_sign_bytes l) /\
    CBS_is_valid_asn1_integer (skip_sign_bytes l) = Some true.
Proof.
  induction l as [|b l IH]; intros Hl Hne Hhd; [congruence|]. cbn [hd] in Hhd.
  apply bytes_cons in Hl as [Hb Hl].
  assert (N : negb (Z.land b 128 =? 0) = true)
    by (rewrite land_0x80 by exact Hb; destruct (Z.ltb_spec b 128); [lia|reflexivity]).
  destruct l as [|b' l].
  - exists O. cbn [skip_sign_bytes repeat app]. repeat split; try discriminate; auto.
    unfold CBS_is_valid_asn1_integer. rewrite CBS_get_u8_cons, N. reflexivity.
  - rewrite skip_sign_bytes_cons. apply bytes_cons in Hl as [Hb' Hl'].
    rewrite land_0x80 by exact Hb'.
    destruct ((b =? 0xff) && negb (b' <? 128)) eqn:C.
    + bsplit. subst b.
      destruct IH as (n & E1 & E2 & E3 & E4); [now apply bytes_cons|discriminate|exact H0|].
      exists (S n). cbn [repeat app]. rewrite <- E1. auto.
    + exists O. cbn [repeat app hd]. repeat split; try discriminate; auto.
      unfold CBS_is_valid_asn1_integer. rewrite !CBS_get_u8_cons, N, (land_0x80 b') by exact Hb'.
      red in Hb. destruct (Z.eqb_spec b 0); [lia|]. cbn [andb orb]. now rewrite C.
Qed.

Lemma is_negative_hd l b r :
  CBS_is_valid_asn1_integer l = Some b -> l = r -> l <> [] -> b = negb (Z.land (hd 0 l) 0x80 =? 0).
Proof.
  intros H _ Hne. destruct l as [|x l]; [congruence|].
  unfold CBS_is_valid_asn1_integer in H. rewrite CBS_get_u8_cons in H. cbn [hd].
  destruct (CBS_get_u8 l) as [[y|] l']; [destruct (_ || _) in H|]; congruence.
Qed.

Lemma sign_extend_pos n l : be_combine (repeat 0 n ++ l) = be_combine l.
Proof. induction n; cbn [repeat app]; [reflexivity|]. now rewrite be_combine_zero. Qed.

(** ** Refinement of the writers *)

Section Refine.
Context {E : Env}.

Lemma awrite_nil_refines d (m : st CBB unit) x :
  refines m (awrite d x) -> refines (ret tt ;;; m) (awrite d x).
Proof. intros H. eapply refines_eq; [|exact H]. reflexivity. Qed.

(** Once a byte was written, the remaining ones follow unchanged; [ret started]
    at the end reports whether anything was written. *)
Definition awrite_started (d : nat) (x : list Z) (started : bool) (a : builder) : option (bool * builder) :=
  let? (_, a) := awrite d x a in Some (started, a).

Lemma add_uint64_started c bs :
  bytes bs -> bs <> [] ->
  refines (add_uint64_bytes c bs true) (awrite_started c bs true).
Proof.
  intros Hb Hne. induction bs as [|b bs IH]; [congruence|]. apply bytes_cons in Hb as [Hb Hbs].
  cbn [add_uint64_bytes negb andb].
  destruct bs as [|b' bs].
  - eapply refines_ext with (f := abind (awrite c [b]) (fun _ a => Some (true, a))).
    + eapply refines_eq; [reflexivity|]. cbn [add_uint64_bytes].
      apply (refines_bind (CBB_add_u8 c b)); auto using monotone_ret with cbb.
    + intros a. reflexivity.
  - eapply refines_ext with
      (f := abind (awrite c [b]) (fun _ => awrite_started c (b' :: bs) true)).
    + eapply refines_eq; [reflexivity|].
      apply (refines_bind (CBB_add_u8 c b)); [auto with cbb|intros _; apply IH; auto; discriminate|].
      intros _ a x a'. unfold awrite_started. destruct (awrite c (b' :: bs) a) as [[u a1]|] eqn:W; [|discriminate].
      cbn. intros [= <- <-]. now apply monotone_awrite in W.
    + intros a. unfold awrite_started. change (b :: b' :: bs) with ([b] ++ b' :: bs).
      rewrite <- awrite_awrite. unfold abind.
      destruct (awrite c [b] a) as [[u a1]|]; reflexivity.
Qed.

Lemma monotone_awrite_started d x b : monotone (awrite_started d x b).
Proof.
  intros a y a'. unfold awrite_started. destruct (awrite d x a) as [[u a1]|] eqn:W; [|discriminate].
  cbn. intros [= <- <-]. now apply monotone_awrite in W.
Qed.

(** The loop followed by the final [if (!started) CBB_add_u8(&child, 0)]. *)
Lemma add_uint64_content c bs :
  bytes bs ->
  refines (let* started := add_uint64_bytes c bs false in
           (if negb started then CBB_add_u8 c 0 else ret tt)) (awrite c (uint_content bs)).
Proof.
  induction bs as [|b bs IH]; intros Hb; cbn [add_uint64_bytes uint_content].
  - eapply refines_eq; [reflexivity|]. apply CBB_add_u8_refines. red. lia.
  - pose proof Hb as Hall. apply bytes_cons in Hb as [Hb Hbs]. cbn [negb andb].
    destruct (Z.eqb_spec b 0) as [->|Hnz]; [now apply IH|].
    rewrite land_0x80 by exact Hb. 
    assert (S : refines (let* started := add_uint64_bytes c (b :: bs) true in
                 if negb started then CBB_add_u8 c 0 else ret tt) (awrite c (b :: bs))).
    { eapply refines_ext with (f := abind (awrite_started c (b :: bs) true)
        (fun started a => if negb started then awrite c [0] a else Some (tt, a))).
      - apply refines_bind; [apply add_uint64_started; auto; discriminate| |].
        + intros []; cbn [negb]; [apply refines_ret|apply CBB_add_u8_refines; red; lia].
        + intros []; cbn [negb]; auto using monotone_ret with cbb.
      - intros a. unfold abind, awrite_started. destruct (awrite c (b :: bs) a) as [[[] a1]|]; reflexivity. }
    destruct (Z.ltb_spec b 128); cbn [negb].
    + eapply refines_eq; [|exact S]. intros s. cbn [add_uint64_bytes negb andb].
      unfold bind, ret. reflexivity.
    + change (0 :: b :: bs) with ([0] ++ b :: bs).
      eapply refines_eq; [|apply (refines_write2 c (CBB_add_u8 c 0)); [apply CBB_add_u8_refines; red; lia|exact S]].
      intros s. cbn [add_uint64_bytes negb andb]. unfold bind, ret.
      destruct (CBB_add_u8 c 0 s) as [[u|] s1]; reflexivity.
Qed.

Lemma add_bytes_u8_refines c bs :
  bytes bs -> bs <> [] -> refines (add_bytes_u8 c bs) (awrite c bs).
Proof.
  intros Hb Hne. induction bs as [|b bs IH]; [congruence|]. apply bytes_cons in Hb as [Hb Hbs].
  cbn [add_bytes_u8]. destruct bs as [|b' bs].
  - eapply refines_eq; [|apply CBB_add_u8_refines, Hb]. intros s. cbn [add_bytes_u8]. unfold bind, ret.
    destruct (CBB_add_u8 c b s) as [[[]|] s1]; reflexivity.
  - change (b :: b' :: bs) with ([b] ++ b' :: bs). apply refines_write2; auto with cbb.
    apply IH; auto. discriminate.
Qed.

Definition uint_octets (value : Z) : list Z :=
  map (fun i => Z.land (Z.shiftr value (8 * (7 - i))) 0xff) [0; 1; 2; 3; 4; 5; 6; 7].

Lemma uint_octets_be v : 0 <= v < 2 ^ 64 -> uint_octets v = be_split 8 v.
Proof.
  intros Hv. unfold uint_octets.
  assert (G : forall k, 0 <= k -> Z.land (Z.shiftr v k) 0xff = (v / 2 ^ k) mod 256).
  { intros k Hk. now rewrite (land_ones_mod _ 8), shiftr_div by (reflexivity || lia). }
  cbn [map be_split app]. rewrite !G by lia. rewrite !Z.div_div by lia.
  change (2 ^ (8 * (7 - 7))) with 1. now rewrite Z.div_1_r.
Qed.

Lemma CBB_add_asn1_uint64_refines d v tag :
  0 <= v < 2 ^ 64 -> 0 <= tag < 2 ^ 32 ->
  refines (CBB_add_asn1_uint64_with_tag d v tag)
    (awrite d (whole_element tag (uint_content (be_split 8 v)))).
Proof.
  intros Hv Ht. destruct (uint_content_spec (be_split 8 v) (bytes_be_split 8 v)) as (_ & _ & _ & L).
  rewrite zlength_be_split in L.
  eapply refines_ext.
  2:{ intros a. instantiate (1 := fun a => if zlength (uint_content (be_split 8 v)) <? 0xffffffff then _ else None).
      cbn beta. destruct (Z.ltb_spec (zlength (uint_content (be_split 8 v))) 0xffffffff); [reflexivity|lia]. }
  assert (R : refines
    (or_on_error d (let* child := CBB_add_asn1 d tag in
       (let* started := add_uint64_bytes child (be_split 8 v) false in
        (if negb started then CBB_add_u8 child 0 else ret tt)) ;;; CBB_flush d))
    (fun a => if zlength (uint_content (be_split 8 v)) <? 0xffffffff
              then awrite d (whole_element tag (uint_content (be_split 8 v))) a else None)).
  { apply refines_or_on_error, element_refines; [exact Ht|].
    intros c. apply add_uint64_content. auto with bytestr. }
  intros a s Hr. specialize (R a s Hr).
  unfold CBB_add_asn1_uint64_with_tag. fold (uint_octets v). rewrite uint_octets_be by exact Hv.
  unfold or_on_error, bind, ret in *.
  destruct (CBB_add_asn1 d tag s) as [[c|] s1]; [|exact R].
  destruct (add_uint64_bytes c (be_split 8 v) false s1) as [[st|] s2]; [|exact R].
  destruct ((if negb st then CBB_add_u8 c 0 else _) s2) as [[u|] s3]; [|exact R].
  destruct (CBB_flush d s3) as [[u'|] s4]; exact R.
Qed.

Lemma rev_le_split n v : rev (le_split n v) = be_split n v.
Proof. revert v. induction n; intros v; cbn [le_split be_split rev]; [easy|]. now rewrite IHn. Qed.

Lemma CBB_add_asn1_int64_neg_refines d v tag :
  - 2 ^ 63 <= v < 0 -> 0 <= tag < 2 ^ 32 ->
  refines (CBB_add_asn1_int64_with_tag d v tag)
    (awrite d (whole_element tag (skip_sign_bytes (be_split 8 (v + 2 ^ 64))))).
Proof.
  intros Hv Ht. set (c := skip_sign_bytes (be_split 8 (v + 2 ^ 64))).
  assert (B : bytes (be_split 8 (v + 2 ^ 64))) by auto with bytestr.
  destruct (skip_sign_bytes_spec (be_split 8 (v + 2 ^ 64)) B) as (n & E1 & E2 & E3 & E4).
  { intros H. apply (f_equal (@length Z)) in H. rewrite length_be_split in H. discriminate. }
  { rewrite hd_be_split8 by lia. apply Z.div_le_lower_bound; lia. }
  fold c in E1, E2, E3, E4.
  assert (L : zlength c <= 8).
  { apply (f_equal (@zlength Z)) in E1. rewrite zlength_be_split, zlength_app in E1.
    pose proof (zlength_nonneg (repeat 255 n)). lia. }
  assert (Bc : bytes c) by (rewrite E1 in B; now apply bytes_app in B).
  unfold CBB_add_asn1_int64_with_tag. rewrite Z.geb_leb. destruct (Z.leb_spec 0 v); [lia|].
  replace (u64 v) with (v + 2 ^ 64) by (apply Z.mod_unique with (-1); lia).
  rewrite rev_le_split. fold c.
  pose proof (refines_or_on_error d _ _ (element_refines d tag c
    (fun child => add_bytes_u8 child c) Ht (fun child => add_bytes_u8_refines child c Bc E2))) as R.
  intros a s Hr. specialize (R a s Hr). cbn beta in R.
  destruct (Z.ltb_spec (zlength c) 0xffffffff); [|lia].
  unfold or_on_error, bind, ret in *. destruct (CBB_add_asn1 d tag s) as [[ch|] s1]; [|exact R].
  destruct (add_bytes_u8 ch c s1) as [[u|] s2]; [|exact R].
  destruct (CBB_flush d s2) as [[u'|] s4]; exact R.
Qed.

Lemma CBB_add_asn1_bool_refines d value :
  refines (CBB_add_asn1_bool d value)
    (awrite d (whole_element CBS_ASN1_BOOLEAN [if value then 0xff else 0])).
Proof.
  apply refines_or_on_error. eapply refines_ext.
  - apply (element_refines d CBS_ASN1_BOOLEAN [if value then 0xff else 0]
             (fun child => CBB_add_u8 child (if value then 0xff else 0))); [now vm_compute|].
    intros c. apply CBB_add_u8_refines. destruct value; red; lia.
  - intros a. reflexivity.
Qed.

End Refine.

(** ** Reading the contents back *)

Lemma valid_universal n : 0 < n < 31 -> valid_tag n.
Proof.
  intros H. split; [lia|]. change (u32 (Z.lnot CBS_ASN1_CONSTRUCTED)) with (2 ^ 32 - 1 - 2 ^ 29).
  assert (F : forallb (fun n => negb (Z.land n (2 ^ 32 - 1 - 2 ^ 29) =? 0))
                (map Z.of_nat (seq 1 30)) = true) by reflexivity.
  rewrite forallb_forall in F. specialize (F n). bsplit. apply Z.eqb_neq, negb_true_iff, F.
  apply in_map_iff. exists (Z.to_nat n). split; [lia|]. apply in_seq. lia.
Qed.

Lemma get_asn1_uint64_der tag v rest :
  valid_tag tag -> 0 <= v < 2 ^ 64 ->
  CBS_get_asn1_uint64_with_tag tag (whole_element tag (uint_content (be_split 8 v)) ++ rest) =
  (Some v, rest).
Proof.
  intros Ht Hv. destruct (uint_content_spec (be_split 8 v) (bytes_be_split 8 v)) as (B & C & U & L).
  rewrite zlength_be_split in L. unfold CBS_get_asn1_uint64_with_tag, bind.
  rewrite CBS_get_asn1_der by (assumption || lia). rewrite U. cbn [guard ret]. unfold ret.
  assert (Cv : be_combine (uint_content (be_split 8 v)) = v)
    by (rewrite C, be_combine_split; apply Z.mod_small; lia).
  rewrite uint64_loop_spec; [rewrite Z.mul_0_l, Cv; reflexivity|exact B|lia|rewrite Cv; lia].
Qed.

Lemma uint_content_short bs : bytes bs -> hd 0 bs < 128 -> zlength (uint_content bs) <= Z.max 1 (zlength bs).
Proof.
  intros Hb Hh. destruct bs as [|b bs]; [cbn; lia|]. cbn [hd] in Hh. cbn [uint_content].
  apply bytes_cons in Hb as [Hb Hbs]. destruct (Z.eqb_spec b 0).
  - pose proof (uint_content_spec bs Hbs) as (_ & _ & _ & L). rewrite zlength_cons. lia.
  - destruct (Z.ltb_spec b 128); lia.
Qed.

Lemma get_asn1_int64_content tag c n v rest :
  valid_tag tag -> bytes c -> (c <> []) -> (length c <= 8)%nat ->
  CBS_is_valid_asn1_integer c = Some n ->
  to_int64 (be_combine (repeat (if n then 0xff else 0) (8 - length c) ++ c)) = v ->
  CBS_get_asn1_int64_with_tag tag (whole_element tag c ++ rest) = (Some v, rest).
Proof.
  intros Ht Hb Hne L V Hv. unfold CBS_get_asn1_int64_with_tag, bind.
  rewrite CBS_get_asn1_der by (assumption || (unfold zlength; lia)). rewrite V.
  unfold CBS_len. rewrite Z.gtb_ltb. destruct (Z.ltb_spec 8 (zlength c)); [unfold zlength in *; lia|].
  rewrite load_u64_be.
  - unfold ret. now rewrite Hv.
  - apply bytes_app. split; [|exact Hb]. apply Forall_forall. intros x Hx.
    apply repeat_spec in Hx. subst x. destruct n; red; lia.
  - rewrite length_app, repeat_length. lia.
Qed.

Lemma get_asn1_int64_pos tag v rest :
  valid_tag tag -> 0 <= v < 2 ^ 63 ->
  CBS_get_asn1_int64_with_tag tag (whole_element tag (uint_content (be_split 8 v)) ++ rest) =
  (Some v, rest).
Proof.
  intros Ht Hv. destruct (uint_content_spec (be_split 8 v) (bytes_be_split 8 v)) as (B & C & U & _).
  unfold CBS_is_unsigned_asn1_integer in U.
  destruct (CBS_is_valid_asn1_integer _) as [n|] eqn:V; [|discriminate].
  destruct n; [discriminate|].
  assert (S : zlength (uint_content (be_split 8 v)) <= Z.max 1 (zlength (be_split 8 v))).
  { apply uint_content_short; auto with bytestr. rewrite hd_be_split8 by lia.
    apply Z.div_lt_upper_bound; lia. }
  rewrite zlength_be_split in S. unfold zlength in S.
  apply (get_asn1_int64_content tag _ false); auto.
  - intros H. rewrite H in V. discriminate.
  - lia.
  - rewrite sign_extend_pos, C, be_combine_split. rewrite Z.mod_small by (cbn; lia).
    unfold to_int64. destruct (Z.ltb_spec v (2 ^ 63)); [reflexivity|lia].
Qed.

Lemma get_asn1_int64_neg tag v rest :
  valid_tag tag -> - 2 ^ 63 <= v < 0 ->
  CBS_get_asn1_int64_with_tag tag
    (whole_element tag (skip_sign_bytes (be_split 8 (v + 2 ^ 64))) ++ rest) = (Some v, rest).
Proof.
  intros Ht Hv. set (l := be_split 8 (v + 2 ^ 64)).
  assert (B : bytes l) by (apply bytes_be_split). assert (L : length l = 8%nat) by apply length_be_split.
  destruct (skip_sign_bytes_spec l B) as (n & E1 & E2 & E3 & E4).
  { intros H. now rewrite H in L. }
  { unfold l. rewrite hd_be_split8 by lia. apply Z.div_le_lower_bound; lia. }
  pose proof (f_equal (@length Z) E1) as Ln. rewrite length_app, repeat_length, L in Ln.
  apply (get_asn1_int64_content tag _ true); auto.
  - rewrite E1 in B. now apply bytes_app in B.
  - lia.
  - replace (8 - length (skip_sign_bytes l))%nat with n by lia. rewrite <- E1. unfold l.
    rewrite be_combine_split, Z.mod_small by (cbn; lia). unfold to_int64.
    destruct (Z.ltb_spec (v + 2 ^ 64) (2 ^ 63)); lia.
Qed.

Lemma get_asn1_bool_der (b : bool) rest :
  CBS_get_asn1_bool (whole_element CBS_ASN1_BOOLEAN [if b then 0xff else 0] ++ rest) = (Some b, rest).
Proof.
  unfold CBS_get_asn1_bool, bind.
  rewrite CBS_get_asn1_der; [|apply valid_universal; unfold CBS_ASN1_BOOLEAN; lia|now destruct b].
  now destruct b.
Qed.
