(* ===== verification/CbbSafety.v ===== *)
(** Memory safety of the builder: whatever calls are made on it, in whatever
    order and whether or not they fail, the bytes written stay inside the
    buffer's capacity, a fixed buffer keeps its capacity, and a builder that
    is not in its error state represents an abstract builder. *)
From Stdlib Require Import ZArith List Lia Bool.
From S2P Require Import Prelude CryptoInternal Cbs Cbb CbbSpec Asn1 Asn1Build.
Import ListNotations.
Open Scope Z_scope.

Definition wf (s : CBB) : Prop :=
  buf_ok (cbb_base s) /\ (bb_error (cbb_base s) = true \/ exists a, repr a s).

Section Safety.
Context {E : Env}.

Definition safe {A} (m : st CBB A) : Prop :=
  forall s, wf s -> wf (snd (m s)) /\ grows (cbb_base s) (cbb_base (snd (m s))).

Lemma safe_ret {A} (x : A) : safe (ret x).
Proof. intros s H. split; [exact H|apply grows_refl]. Qed.

Lemma safe_fail {A} : safe (@fail CBB A).
Proof. intros s H. split; [exact H|apply grows_refl]. Qed.

Lemma safe_guard b : safe (@guard CBB b).
Proof. destruct b; [apply safe_ret|apply safe_fail]. Qed.

Lemma safe_bind {A B} (m : st CBB A) (k : A -> st CBB B) :
  safe m -> (forall x, safe (k x)) -> safe (bind m k).
Proof.
  intros Hm Hk s H. unfold bind. destruct (Hm s H) as [W G]. destruct (m s) as [[x|] s1]; cbn in *.
  - destruct (Hk x s1 W) as [W2 G2]. split; [exact W2|eapply grows_trans; eauto].
  - auto.
Qed.

Lemma safe_eq {A} (m m' : st CBB A) : (forall s, m s = m' s) -> safe m' -> safe m.
Proof. intros H S s W. rewrite H. now apply S. Qed.

Lemma safe_on_error d : safe (cbb_on_error d).
Proof. intros s [H _]. cbn. split; [split; [exact H|now left]|exact (grows_refl _)]. Qed.

Lemma safe_or_on_error {A} d (m : st CBB A) : safe m -> safe (or_on_error d m).
Proof.
  intros Hm s H. unfold or_on_error. destruct (Hm s H) as [W G].
  destruct (m s) as [[x|] s1]; cbn in *; [auto|].
  destruct W as [W _]. split; [split; [exact W|now left]|exact G].
Qed.

Lemma safe_flush d : safe (CBB_flush d).
Proof.
  intros s [Hok He]. unfold CBB_flush.
  destruct ((length (cbb_chain s) <? d)%nat || bb_error (cbb_base s)) eqn:C; cbn.
  { split; [split; assumption|apply grows_refl]. }
  bsplit. destruct He as [He|[a Hr]]; [congruence|].
  pose proof (CBB_flush_refines d a s Hr) as R. unfold CBB_flush in R.
  assert (L : (d <= length (ab_open a))%nat).
  { destruct Hr as (_ & Hc & _). rewrite Hc, length_chain_of in H. apply Nat.ltb_ge in H. exact H. }
  rewrite H, H0 in R. cbn [orb] in R.
  destruct (repr_flush_inv a s d Hr L) as [H1 _]. rewrite H1 in *.
  destruct Hr as (Hb & Hc & He & _).
  assert (Hb' : bb_buf (cbb_base s) =
                (ab_root a ++ flat (firstn d (ab_open a))) ++ flat (skipn d (ab_open a))).
  { rewrite Hb, <- app_assoc, <- flat_app, firstn_skipn. reflexivity. }
  pose proof (flush_children_spec _ _ _ Hb' He Hok) as F.
  destruct (flush_children _ _) as [[u|] b']; cbn [flushed snd cbb_base] in *;
    destruct F as (G & Hok' & F).
  - split; [|exact G]. split; [exact Hok'|]. right. destruct R as (a' & _ & R & _). eauto.
  - split; [|exact G]. split; [exact Hok'|]. left. apply F.
Qed.

(** [on_base] of the two buffer operations. *)
Lemma safe_reserve n : 0 <= n < 2 ^ 64 -> safe (on_base (cbb_buffer_reserve n)).
Proof.
  intros Hn s [Hok He]. unfold on_base. pose proof (reserve_spec n (cbb_base s) Hok Hn) as R.
  destruct (cbb_buffer_reserve n (cbb_base s)) as [[u|] b']; cbn [snd cbb_base].
  - destruct R as (R1 & R2 & R3 & R4). split; [|exact R3].
    assert (Hok' : buf_ok b') by (unfold buf_ok, bb_len in *; rewrite R1; lia).
    split; [exact Hok'|]. cbn [cbb_base]. rewrite R2. destruct He as [He|(a & Hr)]; [now left|right].
    exists a. destruct Hr as (Q1 & Q2 & Q3 & _). repeat split; cbn; try congruence; apply Hok'.
  - destruct R as (R1 & R2 & R3 & R4 & _). split; [|exact R3]. split; [exact R4|now left].
Qed.

Lemma safe_append bs :
  zlength bs < 2 ^ 64 -> safe (on_base (cbb_buffer_add (zlength bs)) ;;; fill_space bs).
Proof.
  intros Hbs s [Hok He]. pose proof (zlength_nonneg bs). unfold bind, on_base.
  pose proof (add_spec (zlength bs) (cbb_base s) Hok ltac:(lia)) as A.
  destruct (cbb_buffer_add _ _) as [[u|] b1].
  2:{ destruct A as (A1 & A2 & A3 & A4 & _). cbn. split; [|exact A3]. split; [exact A4|now left]. }
  destruct A as (A1 & A2 & A3 & A4).
  rewrite (fill_space_app _ (bb_buf (cbb_base s))).
  2:{ cbn. rewrite A1. unfold zlength. now rewrite Nat2Z.id. }
  cbn [snd cbb_base cbb_chain]. split; [|exact A3].
  assert (Hok' : buf_ok (set_buf (bb_buf (cbb_base s) ++ bs) b1)).
  { unfold buf_ok, bb_len in *. cbn. rewrite A1 in A4. rewrite zlength_app in *.
    rewrite zlength_repeat in A4 by lia. exact A4. }
  split; [exact Hok'|]. cbn [cbb_base set_buf bb_error]. rewrite A2.
  destruct He as [He|(a & Hr)]; [now left|right]. exists (append_builder a bs).
  destruct Hr as (Q1 & Q2 & Q3 & _). split; [|split; [|split]]; cbn; auto.
  - now rewrite append_builder_flat, Q1.
  - now rewrite append_builder_chain.
  - congruence.
Qed.

Lemma safe_add n : 0 <= n < 2 ^ 64 -> safe (on_base (cbb_buffer_add n)).
Proof.
  intros Hn s W. pose proof (safe_append (repeat uninit (Z.to_nat n))) as S.
  rewrite zlength_repeat in S by lia. specialize (S ltac:(lia) s W).
  destruct W as [Hok _]. unfold bind, on_base in *.
  pose proof (add_spec n (cbb_base s) Hok Hn) as A.
  destruct (cbb_buffer_add n (cbb_base s)) as [[u|] b1]; [|exact S].
  destruct A as (A1 & _). rewrite (fill_space_app _ (bb_buf (cbb_base s))) in S.
  2:{ cbn. now rewrite A1, repeat_length. }
  cbn [snd cbb_base cbb_chain] in *. rewrite <- A1 in S.
  replace (set_buf (bb_buf b1) b1) with b1 in S by now destruct b1. exact S.
Qed.

Lemma safe_add_child d p : prefix_len p < 2 ^ 64 -> safe (cbb_add_child d (prefix_len p) (is_asn1 p)).
Proof.
  intros Hp s W. pose proof (prefix_len_nonneg p).
  pose proof W as [Hok [He|(a & Hr)]].
  - unfold cbb_add_child, bind, on_base.
    pose proof (add_spec (prefix_len p) (cbb_base s) Hok ltac:(lia)) as A.
    destruct (cbb_buffer_add _ _) as [[u|] b1]; cbn [snd cbb_base cbb_chain].
    + destruct A as (A1 & A2 & A3 & A4). split; [|exact A3]. split.
      * unfold buf_ok, bb_len in *. cbn. rewrite A1 in *.
        rewrite buf_write_tail by (rewrite !repeat_length; reflexivity).
        rewrite zlength_app, zlength_repeat in * by lia. exact A4.
      * left. cbn. congruence.
    + destruct A as (A1 & A2 & A3 & A4 & _). split; [|exact A3]. split; [exact A4|now left].
  - pose proof (add_child_refines d p Hp a s Hr) as R. unfold cbb_add_child in *.
    unfold bind, on_base in *.
    pose proof (add_spec (prefix_len p) (cbb_base s) Hok ltac:(lia)) as A.
    destruct (cbb_buffer_add _ _) as [[u|] b1]; cbn [snd cbb_base cbb_chain] in *.
    + destruct R as (a' & _ & R & G). split; [|exact G]. split; [apply R|right; eauto].
    + destruct A as (A1 & A2 & A3 & A4 & _). split; [|exact A3]. split; [exact A4|now left].
Qed.

Lemma safe_add_bytes d data : zlength data < 2 ^ 64 -> safe (CBB_add_bytes d data).
Proof.
  intros H. eapply safe_eq; [intros s; apply bind_assoc|].
  apply safe_bind; [apply safe_flush|]. intros _. now apply safe_append.
Qed.

Lemma safe_add_space d n : 0 <= n < 2 ^ 64 -> safe (CBB_add_space d n).
Proof. intros H. apply safe_bind; [apply safe_flush|]. intros _. now apply safe_add. Qed.

Lemma safe_add_u d v n : Z.of_nat n < 2 ^ 64 -> safe (cbb_add_u d v n).
Proof.
  intros Hn. unfold cbb_add_u. rewrite store_be_spec.
  assert (S : safe (CBB_add_bytes d (be_split n v)))
    by (apply safe_add_bytes; rewrite zlength_be_split; lia).
  unfold CBB_add_bytes in S. rewrite zlength_be_split in S.
  eapply safe_eq with (m' := (CBB_add_space d (Z.of_nat n) ;;; fill_space (be_split n v)) ;;; _).
  - intros s. symmetry. apply bind_assoc.
  - apply safe_bind; [exact S|]. intros _. destruct (negb _); [|apply safe_ret].
    apply safe_bind; [apply safe_on_error|]. intros _. apply safe_fail.
Qed.

Lemma safe_length_prefixed d n : Z.of_nat n < 2 ^ 64 -> safe (cbb_add_length_prefixed d (Z.of_nat n)).
Proof.
  intros Hn. apply safe_bind; [apply safe_flush|]. intros _. exact (safe_add_child d (Fixed n) Hn).
Qed.

Lemma safe_base128 d v : safe (add_base128_integer d v).
Proof.
  unfold add_base128_integer. set (i := (_ - 1)%nat). clearbody i.
  induction i as [|i IH]; cbn [add_base128_groups].
  - apply safe_add_u. lia.
  - apply safe_bind; [apply safe_add_u; lia|]. intros _. exact IH.
Qed.

Lemma safe_asn1 d tag : safe (CBB_add_asn1 d tag).
Proof.
  apply safe_bind; [apply safe_flush|]. intros _. apply safe_bind.
  - destruct (_ >=? _); [apply safe_bind; [apply safe_add_u; lia|intros _; apply safe_base128]|].
    apply safe_add_u. lia.
  - intros _. exact (safe_add_child d Asn1 ltac:(cbn; lia)).
Qed.

Lemma safe_asn1_element d tag data : zlength data < 2 ^ 64 -> safe (CBB_add_asn1_element d tag data).
Proof.
  intros H. apply safe_or_on_error. apply safe_bind; [apply safe_asn1|]. intros c.
  apply safe_bind; [now apply safe_add_bytes|]. intros _. apply safe_flush.
Qed.

Lemma safe_uint64_bytes c bs b : safe (add_uint64_bytes c bs b).
Proof.
  revert b. induction bs as [|x bs IH]; intros b; cbn [add_uint64_bytes]; [apply safe_ret|].
  destruct (negb b && (x =? 0)); [apply IH|]. apply safe_bind.
  - destruct (negb b && _); [apply safe_add_u; lia|apply safe_ret].
  - intros _. apply safe_bind; [apply safe_add_u; lia|]. intros _. apply IH.
Qed.

Lemma safe_uint64 d v tag : safe (CBB_add_asn1_uint64_with_tag d v tag).
Proof.
  apply safe_bind; [apply safe_or_on_error|intros _; apply safe_flush].
  apply safe_bind; [apply safe_asn1|]. intros c.
  apply safe_bind; [apply safe_uint64_bytes|]. intros b.
  apply safe_bind; [destruct (negb b); [apply safe_add_u; lia|apply safe_ret]|].
  intros _. apply safe_ret.
Qed.

Lemma safe_int64 d v tag : safe (CBB_add_asn1_int64_with_tag d v tag).
Proof.
  unfold CBB_add_asn1_int64_with_tag. destruct (v >=? 0); [apply safe_uint64|].
  apply safe_bind; [|intros _; apply safe_flush]. apply safe_or_on_error.
  apply safe_bind; [apply safe_asn1|]. intros c.
  induction (skip_sign_bytes _) as [|x bs IH]; cbn [add_bytes_u8]; [apply safe_ret|].
  apply safe_bind; [apply safe_add_u; lia|]. intros _. exact IH.
Qed.

Lemma safe_oid_components d fuel cbs : safe (add_oid_components d fuel cbs).
Proof.
  revert cbs. induction fuel as [|fuel IH]; intros cbs; cbn [add_oid_components]; [apply safe_ret|].
  destruct (_ >? 0); [|apply safe_ret]. destruct (parse_dotted_decimal cbs) as [[v|] cbs'].
  - apply safe_bind; [apply safe_base128|]. intros _. apply IH.
  - apply safe_fail.
Qed.

Lemma safe_oid_from_text d text : safe (CBB_add_asn1_oid_from_text d text).
Proof.
  apply safe_bind; [apply safe_flush|]. intros _.
  match goal with |- safe (match ?m with _ => _ end) => destruct m as [[[a b]|] cbs] end;
    [|apply safe_fail].
  apply safe_bind; [apply safe_guard|]. intros _.
  apply safe_bind; [apply safe_base128|]. intros _. apply safe_oid_components.
Qed.

Lemma safe_did_write d w : zlength w < 2 ^ 64 -> safe (CBB_did_write d w).
Proof.
  intros Hw s W. unfold CBB_did_write. destruct (_ || _) eqn:C; [split; [exact W|apply grows_refl]|].
  bsplit. destruct W as [Hok He]. pose proof (zlength_nonneg w).
  pose proof (zlength_nonneg (bb_buf (cbb_base s))). unfold buf_ok, bb_len in *.
  assert (Hs : zlength (bb_buf (cbb_base s)) + zlength w <= bb_cap (cbb_base s)).
  { destruct (Z.lt_ge_cases (zlength (bb_buf (cbb_base s)) + zlength w) (2 ^ 64)) as [L|L].
    - rewrite wrap_small in * by lia. lia.
    - unfold wrap in H1. replace ((zlength (bb_buf (cbb_base s)) + zlength w) mod 2 ^ 64)
        with (zlength (bb_buf (cbb_base s)) + zlength w - 2 ^ 64) in H1
        by (apply Z.mod_unique with 1; lia). lia. }
  cbn [snd cbb_base]. split; [|exact (grows_refl _)]. split.
  { unfold buf_ok, bb_len. cbn. rewrite zlength_app. lia. }
  cbn [cbb_base set_buf bb_error]. destruct He as [He|(a & Hr)]; [now left|right].
  exists (append_builder a w). destruct Hr as (Q1 & Q2 & Q3 & _).
  split; [|split; [|split]]; cbn; auto.
  - now rewrite append_builder_flat, Q1.
  - now rewrite append_builder_chain.
  - unfold buf_ok, bb_len. cbn. rewrite zlength_app. lia.
Qed.

Lemma safe_discard_child d : safe (CBB_discard_child d).
Proof.
  intros s W. unfold CBB_discard_child.
  destruct (nth_error (cbb_chain s) d) as [c|] eqn:N; [|split; [exact W|apply grows_refl]].
  destruct W as [Hok He]. cbn [snd cbb_base]. split; [|exact (grows_refl _)].
  assert (Hok' : forall n, buf_ok (set_buf (firstn n (bb_buf (cbb_base s))) (cbb_base s))).
  { intros n. unfold buf_ok, bb_len, zlength in *. cbn. rewrite length_firstn. lia. }
  split; [apply Hok'|]. cbn [cbb_base set_buf bb_error].
  destruct He as [He|(a & Hr)]; [now left|right].
  assert (L : (d <= length (ab_open a))%nat).
  { destruct Hr as (_ & Hc & _). rewrite Hc in N. pose proof (nth_error_Some (chain_of (zlength (ab_root a)) (ab_open a)) d) as X.
    rewrite N, length_chain_of in X. assert (d < length (ab_open a))%nat by (apply X; discriminate). lia. }
  exists {| ab_root := ab_root a; ab_open := firstn d (ab_open a) |}.
  destruct (repr_flush_inv a s d Hr L) as [H1 H2]. destruct Hr as (Q1 & Q2 & Q3 & _).
  assert (Off : ch_offset c = zlength (ab_root a ++ flat (firstn d (ab_open a)))).
  { pose proof (nth_error_skipn d (cbb_chain s) 0) as X. rewrite Nat.add_0_r, N, H1 in X.
    destruct (skipn d (ab_open a)) as [|[p b] fs]; [discriminate|]. cbn [nth_error chain_of] in X.
    injection X as <-. reflexivity. }
  split; [|split; [|split]]; cbn [cbb_base cbb_chain set_buf bb_buf bb_error ab_root ab_open]; auto.
  - rewrite Off, Q1. rewrite <- (firstn_skipn d (ab_open a)) at 2.
    rewrite flat_app, app_assoc. apply firstn_zlength_app.
Qed.

Lemma safe_discard d n : 0 <= n -> safe (CBB_discard d n).
Proof.
  intros Hn s W. unfold CBB_discard. destruct (_ || _) eqn:C; [split; [exact W|apply grows_refl]|].
  bsplit. apply Nat.eqb_eq in H. destruct W as [Hok He].
  cbn [snd cbb_base]. split; [|exact (grows_refl _)].
  assert (Hok' : forall n, buf_ok (set_buf (firstn n (bb_buf (cbb_base s))) (cbb_base s))).
  { intros m. unfold buf_ok, bb_len, zlength in *. cbn. rewrite length_firstn. lia. }
  split; [apply Hok'|]. cbn [cbb_base set_buf bb_error].
  destruct He as [He|(a & Hr)]; [now left|right].
  destruct Hr as (Q1 & Q2 & Q3 & _).
  assert (Cut : forall pre c, bb_buf (cbb_base s) = pre ++ c -> cbb_start d s = zlength pre ->
            firstn (Z.to_nat (bb_len (cbb_base s) - n)) (bb_buf (cbb_base s)) =
            pre ++ firstn (Z.to_nat (zlength c - n)) c).
  { intros pre c Eb Es. unfold CBB_len, bb_len in *. rewrite Eb, Es, zlength_app in *.
    replace (Z.to_nat (zlength pre + zlength c - n)) with (length pre + Z.to_nat (zlength c - n))%nat
      by (unfold zlength in *; lia).
    apply firstn_app_2. }
  destruct (ab_open a) as [|f fs] eqn:Eo.
  - exists {| ab_root := firstn (Z.to_nat (zlength (ab_root a) - n)) (ab_root a); ab_open := [] |}.
    cbn in Q2. rewrite Q2 in H. cbn in H. subst d. cbn [flat] in Q1. rewrite app_nil_r in Q1.
    split; [|split; [|split]]; cbn [cbb_base cbb_chain set_buf bb_buf bb_error ab_root ab_open flat]; auto.
    + rewrite (Cut [] (ab_root a)) by (assumption || reflexivity). now rewrite app_nil_r.
  - destruct (@exists_last _ (f :: fs) ltac:(discriminate)) as (gs & [p c] & E1). rewrite E1 in *.
    exists {| ab_root := ab_root a; ab_open := gs ++ [(p, firstn (Z.to_nat (zlength c - n)) c)] |}.
    rewrite flat_app in Q1. cbn [flat] in Q1. rewrite app_nil_r in Q1.
    rewrite chain_of_app in Q2. cbn [chain_of] in Q2.
    assert (Ed : d = S (length gs)) by (rewrite <- H, Q2, length_app, length_chain_of; cbn; lia).
    split; [|split; [|split]]; cbn [cbb_base cbb_chain set_buf bb_buf bb_error ab_root ab_open]; auto.
    + rewrite (Cut (ab_root a ++ flat gs ++ placeholder p) c).
      * rewrite flat_app. cbn [flat]. now rewrite app_nil_r, <- !app_assoc.
      * rewrite Q1, <- !app_assoc. reflexivity.
      * unfold cbb_start. rewrite Ed, Q2.
        rewrite nth_error_app2 by (rewrite length_chain_of; lia).
        rewrite length_chain_of, Nat.sub_diag. cbn. autorewrite with zlen. lia.
    + rewrite chain_of_app. exact Q2.
Qed.

End Safety.
