(* ===== verification/Bytestring.v ===== *)
(** The contracts of the byte-string library ([crypto/bytestring]): what a
    caller of the parser [Cbs] and of the builder [Cbb] relies on. *)
From Stdlib Require Import ZArith List Lia Bool Permutation.
From S2P Require Import Prelude CryptoInternal Cbs Cbb CbbSpec Asn1 Asn1Build Asn1Int CbbSafety.
Import ListNotations.
Open Scope Z_scope.

(** ** Whole builds *)

Section Build.
Context {E : Env}.

(** [CBB_init], some calls, [CBB_finish]: what most callers do. *)
Definition build {A} (cap : Z) (m : st CBB A) : option (list Z) :=
  match CBB_init cap with
  | None => None
  | Some s => fst ((m ;;; CBB_finish 0) s)
  end.

Lemma fresh_repr cap : 0 <= cap < 2 ^ 64 ->
  repr {| ab_root := []; ab_open := [] |}
    {| cbb_base := {| bb_buf := []; bb_cap := cap; bb_can_resize := true; bb_error := false |};
       cbb_chain := [] |}.
Proof. intros H. repeat split; cbn; lia. Qed.

(** Finishing a builder that represents [a]. *)
Lemma finish_repr a s :
  repr a s ->
  match fst (CBB_finish 0 s) with
  | Some out => exists o, close (ab_open a) = Some o /\ out = ab_root a ++ o
  | None => forall o, close (ab_open a) = Some o ->
            ~ room (cbb_base s) (zlength (ab_root a ++ o))
  end.
Proof.
  intros Hr. unfold CBB_finish. cbn [Nat.eqb negb]. unfold bind.
  pose proof (CBB_flush_refines 0 a s Hr) as F. unfold aflush, flush_builder in F.
  cbn [Nat.ltb Nat.leb skipn firstn] in F.
  destruct (CBB_flush 0 s) as [[u|] s']; cbn [fst].
  - destruct F as (a' & Ha & (Hb & _) & _). destruct (close (ab_open a)) as [o|]; [|discriminate].
    cbn [obind] in Ha. injection Ha as _ <-. exists o. split; [reflexivity|].
    rewrite Hb. unfold append_builder. cbn. now rewrite app_nil_r.
  - intros o Ho. rewrite Ho in F. cbn [obind] in F. specialize (F tt _ eq_refl).
    rewrite size_append in F. unfold size in F. cbn [ab_root ab_open flat] in F.
    rewrite app_nil_r in F. now rewrite zlength_app.
Qed.

Lemma build_repr {A} cap (m : st CBB A) f :
  0 <= cap < 2 ^ 64 -> refines m f -> (forall n, alloc_ok n = true) ->
  match f {| ab_root := []; ab_open := [] |} with
  | None => build cap m = None
  | Some (_, a) =>
      forall o, close (ab_open a) = Some o -> zlength (ab_root a ++ o) < 2 ^ 64 ->
      size a < 2 ^ 64 -> build cap m = Some (ab_root a ++ o)
  end.
Proof.
  intros Hc Hm Ha. unfold build, CBB_init. rewrite Ha, andb_false_r.
  pose proof (Hm _ _ (fresh_repr cap Hc)) as R. unfold bind.
  destruct (m _) as [[x|] s1]; cbn [cbb_base] in R.
  - destruct R as (a & -> & Hr & G & _). intros o Ho L _.
    pose proof (finish_repr a s1 Hr) as F.
    destruct (fst (CBB_finish 0 s1)) as [out|].
    + destruct F as (o' & Ho' & ->). congruence.
    + exfalso. apply (F o Ho). right. split; [exact G|split; [exact Ha|lia]].
  - destruct (f _) as [[x a]|]; [|reflexivity]. intros o Ho L Ls. exfalso.
    apply (R x a eq_refl). right. repeat split; [exact Ha|lia].
Qed.

(** Operations that amount to one write of [bs]. *)
Lemma build_write cap (m : st CBB unit) bs :
  0 <= cap < 2 ^ 64 -> refines m (awrite 0 bs) -> (forall n, alloc_ok n = true) ->
  zlength bs < 2 ^ 64 -> build cap m = Some bs.
Proof.
  intros Hc Hm Ha Hb. pose proof (build_repr cap m _ Hc Hm Ha) as B. cbn in B.
  specialize (B [] eq_refl). rewrite app_nil_r in B. unfold size in B. cbn in B.
  rewrite app_nil_r in B. auto.
Qed.

(** ** Nested children *)

(** C40: [CBB_finish] closes every open child, innermost first: if the abstract
    builder's children can all be closed, the output is the top-level bytes
    followed by every child behind the length prefix that its final contents
    require (the ASN.1 lengths in minimal form, the contents moved to make room
    for them); if some child's contents do not fit its prefix, it fails. *)
Theorem CBB_finish_nested a s :
  repr a s -> bb_can_resize (cbb_base s) = true -> (forall n, alloc_ok n = true) ->
  match close (ab_open a) with
  | Some o => zlength (ab_root a ++ o) < 2 ^ 64 -> fst (CBB_finish 0 s) = Some (ab_root a ++ o)
  | None => fst (CBB_finish 0 s) = None
  end.
Proof.
  intros Hr Hres Ha. pose proof (finish_repr a s Hr) as F.
  destruct (close (ab_open a)) as [o|]; destruct (fst (CBB_finish 0 s)) as [out|].
  - intros _. destruct F as (o' & [= <-] & ->). reflexivity.
  - intros L. exfalso. apply (F o eq_refl). right. auto.
  - destruct F as (o' & [=] & _).
  - reflexivity.
Qed.

(** ** Length-prefixed contents *)

Definition length_prefixed (len_len : Z) (data : list Z) : st CBB unit :=
  let* child := cbb_add_length_prefixed 0 len_len in CBB_add_bytes child data ;;; CBB_flush 0.

Lemma length_prefixed_refines n data :
  Z.of_nat n < 2 ^ 64 -> zlength data < 2 ^ 64 ->
  refines (length_prefixed (Z.of_nat n) data)
    (fun a => match encode_len (Fixed n) (zlength data) with
              | Some hdr => awrite 0 (hdr ++ data) a
              | None => None
              end).
Proof.
  intros Hn Hd. eapply refines_ext; [|apply child_write].
  apply refines_bind; [now apply add_length_prefixed_refines| |]; intros c.
  - apply refines_bind; auto with cbb.
  - apply monotone_abind; auto with cbb.
Qed.

(** data written behind an [n]-byte length prefix ([n] up to 3, as in
    [CBB_add_u8/u16/u24_length_prefixed]) is read back by the matching
    [CBS_get_*_length_prefixed], for any bytes that follow; contents that do
    not fit the prefix make the builder fail. *)
Theorem length_prefixed_roundtrip n data rest :
  (1 <= n <= 3)%nat -> zlength data < 2 ^ 63 -> (forall k, alloc_ok k = true) ->
  match build 0 (length_prefixed (Z.of_nat n) data) with
  | Some out => zlength data < 256 ^ Z.of_nat n /\
                cbs_get_length_prefixed (Z.of_nat n) (out ++ rest) = (Some data, rest)
  | None => 256 ^ Z.of_nat n <= zlength data
  end.
Proof.
  intros Hn Hd Ha. pose proof (zlength_nonneg data).
  assert (R : refines (length_prefixed (Z.of_nat n) data) _)
    by (apply length_prefixed_refines; lia).
  destruct (Z.ltb_spec (zlength data) (256 ^ Z.of_nat n)) as [L|L]; cbn [encode_len] in R.
  - apply Z.ltb_lt in L as L'. rewrite L' in R.
    rewrite (build_write 0 _ (be_split n (zlength data) ++ data)); try assumption; try lia.
    2:{ autorewrite with zlen. lia. }
    split; [exact L|]. unfold cbs_get_length_prefixed, bind.
    rewrite <- app_assoc, cbs_get_u_split by lia. apply cbs_get_app.
  - apply Z.ltb_ge in L as L'. rewrite L' in R.
    pose proof (build_repr 0 _ _ ltac:(lia) R Ha) as B. cbv beta iota in B. now rewrite B.
Qed.

(** ** DER elements and integers *)

Lemma zlength_whole_element tag body : zlength body < 2 ^ 32 -> zlength (whole_element tag body) < 2 ^ 33.
Proof.
  intros H. unfold whole_element, der_header. autorewrite with zlen.
  pose proof (zlength_der_tag_range tag). pose proof (zlength_nonneg body).
  pose proof (zlength_der_length_range (zlength body)). lia.
Qed.

Lemma build_element tag body :
  valid_tag tag -> zlength body < 0xffffffff -> (forall k, alloc_ok k = true) ->
  build 0 (CBB_add_asn1_element 0 tag body) = Some (whole_element tag body).
Proof.
  intros Ht Hb Ha. pose proof (zlength_whole_element tag body ltac:(lia)).
  apply build_write; try assumption; try lia.
  eapply refines_ext; [apply CBB_add_asn1_element_refines; [apply Ht|lia]|].
  intros a. cbv beta. destruct (Z.ltb_spec (zlength body) 0xffffffff); [reflexivity|lia].
Qed.

(** an element built with [CBB_add_asn1_element] under any tag number the
    library represents, long-form tags included, is parsed back to the same
    contents by [CBS_get_asn1], and the bytes after it are left in place. *)
Theorem asn1_element_roundtrip tag body rest :
  valid_tag tag -> zlength body < 0xffffffff -> (forall k, alloc_ok k = true) ->
  exists out, build 0 (CBB_add_asn1_element 0 tag body) = Some out /\
              CBS_get_asn1 tag (out ++ rest) = (Some body, rest).
Proof.
  intros Ht Hb Ha. exists (whole_element tag body). split.
  - now apply build_element.
  - apply CBS_get_asn1_der; [exact Ht|lia].
Qed.

(** DER parsing is canonical: when [CBS_get_any_asn1] accepts a string, the
    part it consumed is exactly what [CBB_add_asn1_element] writes for the tag
    and contents it returned, so no two encodings parse to the same element. *)
Theorem asn1_parse_canonical s tag body rest :
  bytes s -> CBS_get_any_asn1 s = (Some (body, tag), rest) ->
  zlength body < 0xffffffff -> (forall k, alloc_ok k = true) ->
  exists out, build 0 (CBB_add_asn1_element 0 tag body) = Some out /\ s = out ++ rest.
Proof.
  intros Hs H Hb Ha. unfold CBS_get_any_asn1 in H. apply bind_some_inv in H as (el & s1 & He & H).
  destruct (get_element_inv s el s1 Hs He) as (body' & -> & Eo & Eh & Hv & Hl).
  rewrite Eo, Eh in H. unfold skip_header, whole_element in H. rewrite CBS_skip_app in H.
  apply ret_inv in H as [[= -> ->] ->].
  exists (whole_element (el_tag el) body'). split; [|reflexivity].
  now apply build_element.
Qed.

Lemma zlength_skip_sign_bytes l : zlength (skip_sign_bytes l) <= zlength l.
Proof.
  induction l as [|b l IH]; [reflexivity|]. destruct l as [|b' l]; [reflexivity|].
  rewrite skip_sign_bytes_cons. destruct (_ && _); [|reflexivity].
  rewrite (zlength_cons b). lia.
Qed.

(** The INTEGER contents the builder writes for an [int64_t]. *)
Definition int64_content (v : Z) : list Z :=
  if v >=? 0 then uint_content (be_split 8 v) else skip_sign_bytes (be_split 8 (v + 2 ^ 64)).

Lemma build_int64 v :
  - 2 ^ 63 <= v < 2 ^ 63 -> (forall k, alloc_ok k = true) ->
  zlength (int64_content v) < 2 ^ 32 ->
  build 0 (CBB_add_asn1_int64 0 v) = Some (whole_element CBS_ASN1_INTEGER (int64_content v)).
Proof.
  intros Hv Ha Hl. pose proof (zlength_whole_element CBS_ASN1_INTEGER _ Hl).
  apply build_write; try assumption; try lia. unfold int64_content, CBB_add_asn1_int64.
  destruct (Z.geb_spec v 0).
  - unfold CBB_add_asn1_int64_with_tag. destruct (Z.geb_spec v 0); [|lia].
    apply CBB_add_asn1_uint64_refines; unfold CBS_ASN1_INTEGER; lia.
  - apply CBB_add_asn1_int64_neg_refines; unfold CBS_ASN1_INTEGER; lia.
Qed.

Lemma zlength_uint_content v : zlength (uint_content (be_split 8 v)) <= 9.
Proof.
  destruct (uint_content_spec (be_split 8 v) ltac:(auto with bytestr)) as (_ & _ & _ & H).
  rewrite zlength_be_split in H. lia.
Qed.

(** every [uint64_t] survives [CBB_add_asn1_uint64] followed by
    [CBS_get_asn1_uint64]. *)
Theorem asn1_uint64_roundtrip v rest :
  0 <= v < 2 ^ 64 -> (forall k, alloc_ok k = true) ->
  exists out, build 0 (CBB_add_asn1_uint64 0 v) = Some out /\
              CBS_get_asn1_uint64 (out ++ rest) = (Some v, rest).
Proof.
  intros Hv Ha. exists (whole_element CBS_ASN1_INTEGER (uint_content (be_split 8 v))). split.
  - pose proof (zlength_uint_content v).
    pose proof (zlength_whole_element CBS_ASN1_INTEGER (uint_content (be_split 8 v)) ltac:(lia)).
    apply build_write; try assumption; try lia. apply CBB_add_asn1_uint64_refines; unfold CBS_ASN1_INTEGER; lia.
  - apply get_asn1_uint64_der; [apply valid_universal; unfold CBS_ASN1_INTEGER; lia|exact Hv].
Qed.

(** every [int64_t], [INT64_MIN] included, survives [CBB_add_asn1_int64]
    followed by [CBS_get_asn1_int64]. *)
Theorem asn1_int64_roundtrip v rest :
  - 2 ^ 63 <= v < 2 ^ 63 -> (forall k, alloc_ok k = true) ->
  exists out, build 0 (CBB_add_asn1_int64 0 v) = Some out /\
              CBS_get_asn1_int64 (out ++ rest) = (Some v, rest).
Proof.
  intros Hv Ha. assert (T : valid_tag CBS_ASN1_INTEGER) by (apply valid_universal; unfold CBS_ASN1_INTEGER; lia).
  exists (whole_element CBS_ASN1_INTEGER (int64_content v)). split.
  - apply build_int64; try assumption. unfold int64_content. destruct (v >=? 0).
    + pose proof (zlength_uint_content v). lia.
    + enough (zlength (skip_sign_bytes (be_split 8 (v + 2 ^ 64))) <= 8) by lia.
      change 8 with (Z.of_nat 8). rewrite <- (zlength_be_split 8 (v + 2 ^ 64)).
      apply zlength_skip_sign_bytes.
  - unfold int64_content. destruct (Z.geb_spec v 0).
    + apply get_asn1_int64_pos; [exact T|lia].
    + apply get_asn1_int64_neg; [exact T|lia].
Qed.

End Build.

(** ** Any sequence of builder calls *)

(** The calls of the C API on a builder, with their arguments; [d] says which
    builder of the chain the [CBB *] points to. *)
Inductive cbb_call :=
| Flush (d : nat)
| AddBytes (d : nat) (data : list Z)
| AddSpace (d : nat) (len : Z)
| AddZeros (d : nat) (len : Z)
| Reserve (d : nat) (len : Z)
| DidWrite (d : nat) (written : list Z)
| AddU (d : nat) (v : Z) (n : nat)
| AddLengthPrefixed (d : nat) (n : nat)
| AddAsn1 (d : nat) (tag : Z)
| AddElement (d : nat) (tag : Z) (data : list Z)
| AddUint64 (d : nat) (v tag : Z)
| AddInt64 (d : nat) (v tag : Z)
| AddBool (d : nat) (v : bool)
| AddOid (d : nat) (text : list Z)
| AddRelativeOid (d : nat) (text : list Z)
| AddOidComponent (d : nat) (v : Z)
| Discard (d : nat) (len : Z)
| DiscardChild (d : nat).

Definition done {A} (m : st CBB A) : st CBB unit := m ;;; ret tt.

Section Calls.
Context {E : Env}.

Definition run_call (c : cbb_call) : st CBB unit :=
  match c with
  | Flush d => CBB_flush d
  | AddBytes d data => CBB_add_bytes d data
  | AddSpace d len => CBB_add_space d len
  | AddZeros d len => CBB_add_zeros d len
  | Reserve d len => CBB_reserve d len
  | DidWrite d written => CBB_did_write d written
  | AddU d v n => cbb_add_u d v n
  | AddLengthPrefixed d n => done (cbb_add_length_prefixed d (Z.of_nat n))
  | AddAsn1 d tag => done (CBB_add_asn1 d tag)
  | AddElement d tag data => CBB_add_asn1_element d tag data
  | AddUint64 d v tag => CBB_add_asn1_uint64_with_tag d v tag
  | AddInt64 d v tag => CBB_add_asn1_int64_with_tag d v tag
  | AddBool d v => CBB_add_asn1_bool d v
  | AddOid d text => CBB_add_asn1_oid_from_text d text
  | AddRelativeOid d text => CBB_add_asn1_relative_oid_from_text d text
  | AddOidComponent d v => CBB_add_asn1_oid_component d v
  | Discard d len => CBB_discard d len
  | DiscardChild d => CBB_discard_child d
  end.

(** Run the calls one after the other, whether or not they fail. *)
Definition run_calls (calls : list cbb_call) (s : CBB) : CBB :=
  fold_left (fun s c => snd (run_call c s)) calls s.

(** Lengths are [size_t] values. *)
Definition sized (c : cbb_call) : Prop :=
  match c with
  | AddBytes _ data | AddElement _ _ data | DidWrite _ data => zlength data < 2 ^ 64
  | AddSpace _ len | AddZeros _ len | Reserve _ len | Discard _ len => 0 <= len < 2 ^ 64
  | AddU _ _ n | AddLengthPrefixed _ n => Z.of_nat n < 2 ^ 64
  | _ => True
  end.

Lemma safe_done {A} (m : st CBB A) : safe m -> safe (done m).
Proof. intros H. apply safe_bind; [exact H|]. intros _. apply safe_ret. Qed.

Lemma add_zeros_bytes d len : 0 <= len ->
  CBB_add_zeros d len = CBB_add_bytes d (repeat 0 (Z.to_nat len)).
Proof. intros H. unfold CBB_add_zeros, CBB_add_bytes. now rewrite zlength_repeat by exact H. Qed.

Lemma run_call_safe c : sized c -> safe (run_call c).
Proof.
  intros H; destruct c; cbn [run_call sized] in *.
  - apply safe_flush.
  - now apply safe_add_bytes.
  - now apply safe_add_space.
  - rewrite add_zeros_bytes by lia. apply safe_add_bytes. rewrite zlength_repeat; lia.
  - apply safe_bind; [apply safe_flush|]. intros _. now apply safe_reserve.
  - now apply safe_did_write.
  - now apply safe_add_u.
  - apply safe_done. now apply safe_length_prefixed.
  - apply safe_done. apply safe_asn1.
  - now apply safe_asn1_element.
  - apply safe_uint64.
  - apply safe_int64.
  - apply safe_or_on_error. apply safe_bind; [apply safe_asn1|]. intros c.
    apply safe_bind; [apply safe_add_u; lia|]. intros _. apply safe_flush.
  - apply safe_oid_from_text.
  - apply safe_bind; [apply safe_flush|]. intros _. apply safe_bind; [apply safe_guard|].
    intros _. apply safe_oid_components.
  - apply safe_bind; [apply safe_flush|]. intros _. apply safe_base128.
  - apply safe_discard. lia.
  - apply safe_discard_child.
Qed.

Lemma run_calls_safe calls s : Forall sized calls -> wf s ->
  wf (run_calls calls s) /\ grows (cbb_base s) (cbb_base (run_calls calls s)).
Proof.
  intros H. revert s. induction H as [|c calls Hc _ IH]; intros s W; cbn.
  - split; [exact W|apply grows_refl].
  - destruct (run_call_safe c Hc s W) as [W1 G1]. destruct (IH _ W1) as [W2 G2].
    split; [exact W2|eapply grows_trans; eauto].
Qed.

(** no sequence of builder calls writes outside a caller's fixed buffer:
    whatever the calls, their arguments and the depths they are made on, and
    whether or not they fail, the bytes written stay within the length given
    to [CBB_init_fixed] and the capacity is never changed. *)
Theorem CBB_fixed_never_overflows len calls :
  0 <= len < 2 ^ 64 -> Forall sized calls ->
  bb_len (cbb_base (run_calls calls (CBB_init_fixed len))) <= len /\
  bb_cap (cbb_base (run_calls calls (CBB_init_fixed len))) = len.
Proof.
  intros Hl Hs.
  assert (W : wf (CBB_init_fixed len)).
  { split; [split; cbn; lia|]. right. exists {| ab_root := []; ab_open := [] |}.
    repeat split; cbn; lia. }
  destruct (run_calls_safe calls _ Hs W) as [[[W1 _] _] (_ & _ & G)].
  specialize (G eq_refl). cbn in G. lia.
Qed.

(** *** The sticky error *)

Definition failed (s : CBB) : Prop := bb_error (cbb_base s) = true.

(** On a failed builder [m] fails without touching the buffer. *)
Definition stuck {A} (m : st CBB A) : Prop :=
  forall s, failed s -> fst (m s) = None /\ cbb_base (snd (m s)) = cbb_base s.

Lemma stuck_flush d : stuck (CBB_flush d).
Proof. intros s H. unfold CBB_flush. rewrite H, orb_true_r. auto. Qed.

Lemma stuck_bind {A B} (m : st CBB A) (k : A -> st CBB B) : stuck m -> stuck (bind m k).
Proof.
  intros H s F. unfold bind. specialize (H s F). destruct (m s) as [[x|] s'].
  - destruct H; discriminate.
  - split; [reflexivity|apply H].
Qed.

Lemma set_error_id b : bb_error b = true -> set_error b = b.
Proof. destruct b. cbn. now intros ->. Qed.

Lemma stuck_or_on_error {A} d (m : st CBB A) : stuck m -> stuck (or_on_error d m).
Proof.
  intros H s F. unfold or_on_error. specialize (H s F). destruct (m s) as [[x|] s'].
  - destruct H; discriminate.
  - cbn in *. destruct H as [_ H]. rewrite H. split; [reflexivity|]. now apply set_error_id.
Qed.

Lemma stuck_add_u d v n : stuck (cbb_add_u d v n).
Proof. apply stuck_bind, stuck_bind, stuck_flush. Qed.

(** Calls that write through [CBB_flush]; the others only move the end of the buffer. *)
Definition writes (c : cbb_call) : bool :=
  match c with DidWrite _ _ | Discard _ _ | DiscardChild _ => false | _ => true end.

Lemma run_call_stuck c : writes c = true -> stuck (run_call c).
Proof.
  destruct c; intros H; cbn [run_call writes] in *; try discriminate; unfold done;
    repeat first [apply stuck_flush | apply stuck_or_on_error | apply stuck_add_u | apply stuck_bind].
  unfold CBB_add_asn1_int64_with_tag. destruct (v >=? 0);
    repeat first [apply stuck_flush | apply stuck_or_on_error | apply stuck_bind].
Qed.

Lemma run_call_sticky c s : failed s -> failed (snd (run_call c s)).
Proof.
  intros F. destruct (writes c) eqn:W.
  - unfold failed. now rewrite (proj2 (run_call_stuck c W s F)).
  - destruct c; try discriminate; cbn [run_call].
    + unfold CBB_did_write. destruct (_ || _); exact F.
    + unfold CBB_discard. destruct (_ || _); exact F.
    + unfold CBB_discard_child. destruct (nth_error _ _); exact F.
Qed.

(** errors are sticky: once an operation has failed for want of memory,
    space or length-prefix room, every later writing call fails and leaves the
    buffer as it is, and [CBB_finish] returns no output whatever calls are made
    in between, so callers need only check the last result. *)
Theorem CBB_error_sticky s calls c :
  failed s -> writes c = true ->
  fst (run_call c (run_calls calls s)) = None /\
  cbb_base (snd (run_call c (run_calls calls s))) = cbb_base (run_calls calls s) /\
  fst (CBB_finish 0 (run_calls calls s)) = None.
Proof.
  intros F W.
  assert (F' : failed (run_calls calls s)).
  { revert s F. induction calls as [|c' calls IH]; intros s F; [exact F|].
    apply IH. now apply run_call_sticky. }
  destruct (run_call_stuck c W _ F') as [H1 H2]. repeat split; auto.
  unfold CBB_finish. cbn [Nat.eqb negb]. apply (stuck_bind (CBB_flush 0)); [apply stuck_flush|exact F'].
Qed.

End Calls.

(** ** Concrete runs *)

#[local] Instance demo_env : Env := { uninit := 0xaa; alloc_ok := fun _ => true }.

(** A SEQUENCE with an open one-byte-length child. *)
Definition demo_builder : builder :=
  {| ab_root := [0x30]; ab_open := [(Asn1, [5]); (Fixed 1, [6; 7])] |}.
Definition demo_state : CBB :=
  run_calls [AddAsn1 0 CBS_ASN1_SEQUENCE; AddU 1 5 1; AddLengthPrefixed 1 1; AddBytes 2 [6; 7]]
    {| cbb_base := {| bb_buf := []; bb_cap := 0; bb_can_resize := true; bb_error := false |};
       cbb_chain := [] |}.

Lemma CBB_finish_nested_witness : fst (CBB_finish 0 demo_state) = Some [0x30; 4; 5; 2; 6; 7].
Proof.
  assert (R : repr demo_builder demo_state) by (vm_compute; repeat split; discriminate).
  exact (CBB_finish_nested demo_builder demo_state R eq_refl (fun _ => eq_refl) eq_refl).
Defined.

Lemma length_prefixed_roundtrip_witness :
  build 0 (length_prefixed 2 [7; 8; 9]) = Some [0; 3; 7; 8; 9] /\
  cbs_get_length_prefixed 2 [0; 3; 7; 8; 9; 1] = (Some [7; 8; 9], [1]).
Proof.
  pose proof (length_prefixed_roundtrip 2 [7; 8; 9] [1] ltac:(lia) eq_refl (fun _ => eq_refl)) as H.
  split; [reflexivity|exact (proj2 H)].
Defined.

Lemma asn1_element_roundtrip_witness :
  exists out, build 0 (CBB_add_asn1_element 0 0x80000064 [1; 2]) = Some out /\
              CBS_get_asn1 0x80000064 (out ++ [9]) = (Some [1; 2], [9]).
Proof.
  apply (asn1_element_roundtrip 0x80000064 [1; 2] [9]).
  - split; [lia|discriminate].
  - reflexivity.
  - reflexivity.
Defined.

Lemma asn1_parse_canonical_witness :
  exists out, build 0 (CBB_add_asn1_element 0 CBS_ASN1_SEQUENCE [5; 6]) = Some out /\
              [0x30; 2; 5; 6; 7] = out ++ [7].
Proof.
  apply (asn1_parse_canonical [0x30; 2; 5; 6; 7] CBS_ASN1_SEQUENCE [5; 6] [7]).
  - repeat constructor; lia.
  - reflexivity.
  - reflexivity.
  - reflexivity.
Defined.

Lemma asn1_uint64_roundtrip_witness :
  exists out, build 0 (CBB_add_asn1_uint64 0 UINT64_MAX) = Some out /\
              CBS_get_asn1_uint64 (out ++ [1]) = (Some UINT64_MAX, [1]).
Proof. apply (asn1_uint64_roundtrip UINT64_MAX [1]); [unfold UINT64_MAX; lia|reflexivity]. Defined.

Lemma asn1_int64_roundtrip_witness :
  exists out, build 0 (CBB_add_asn1_int64 0 (- 2 ^ 63)) = Some out /\
              CBS_get_asn1_int64 (out ++ [1]) = (Some (- 2 ^ 63), [1]).
Proof. apply (asn1_int64_roundtrip (- 2 ^ 63) [1]); [lia|reflexivity]. Defined.

Lemma CBB_fixed_never_overflows_witness :
  bb_len (cbb_base (run_calls [AddAsn1 0 0x10; AddU 1 300 2; AddBytes 1 [1; 2; 3]] (CBB_init_fixed 5))) <= 5 /\
  bb_cap (cbb_base (run_calls [AddAsn1 0 0x10; AddU 1 300 2; AddBytes 1 [1; 2; 3]] (CBB_init_fixed 5))) = 5.
Proof.
  apply (CBB_fixed_never_overflows 5 [AddAsn1 0 0x10; AddU 1 300 2; AddBytes 1 [1; 2; 3]]); [lia|].
  repeat constructor; cbn; lia.
Defined.

(** A write that does not fit the two bytes, then more calls. *)
Lemma CBB_error_sticky_witness :
  let s := snd (CBB_add_bytes 0 [1; 2; 3] (CBB_init_fixed 2)) in
  failed s /\ fst (CBB_finish 0 (run_calls [Flush 0; DiscardChild 0] s)) = None.
Proof.
  split; [reflexivity|].
  apply (CBB_error_sticky (snd (CBB_add_bytes 0 [1; 2; 3] (CBB_init_fixed 2)))
           [Flush 0; DiscardChild 0] (Flush 0)); reflexivity.
Defined.
