(* ===== verification/SetOf.v ===== *)
(** DER SET OF: the order [CBB_flush_asn1_set_of] sorts by and the canonicality
    of what it writes.  [qsort] is the C library's and stays a parameter. *)
From Stdlib Require Import ZArith List Lia Bool Permutation Sorted.
From S2P Require Import Prelude CryptoInternal Cbs Cbb CbbSpec Asn1.
Import ListNotations.
Open Scope Z_scope.

(** ** [compare_set_of_element] is the lexicographic order *)

Fixpoint lex (a b : list Z) : Z :=
  match a, b with
  | [], [] => 0
  | [], _ :: _ => -1
  | _ :: _, [] => 1
  | x :: a', y :: b' => if x <? y then -1 else if y <? x then 1 else lex a' b'
  end.

Lemma compare_is_lex a b : compare_set_of_element a b = lex a b.
Proof.
  unfold compare_set_of_element. revert b. induction a as [|x a IH]; intros [|y b];
    cbn [OPENSSL_memcmp lex]; try reflexivity.
  destruct (x <? y); [reflexivity|]. destruct (y <? x); [reflexivity|].
    rewrite <- IH, !zlength_cons. destruct (negb _); [reflexivity|].
    destruct (Z.eqb_spec (zlength a) (zlength b)), (Z.eqb_spec (1 + zlength a) (1 + zlength b)); try lia.
    destruct (Z.ltb_spec (zlength a) (zlength b)), (Z.ltb_spec (1 + zlength a) (1 + zlength b)); lia.
Qed.

Lemma lex_antisym a : forall b, lex b a = - lex a b.
Proof. induction a as [|x a IH]; intros [|y b]; cbn [lex]; ztest; auto. Qed.

Lemma lex_eq a : forall b, lex a b = 0 -> a = b.
Proof.
  induction a as [|x a IH]; intros [|y b]; cbn [lex]; ztest; try discriminate; auto.
  intros Heq. f_equal; [lia|auto].
Qed.

Lemma lex_trans a : forall b c, lex a b <= 0 -> lex b c <= 0 -> lex a c <= 0.
Proof.
  induction a as [|x a IH]; intros [|y b] [|z c]; cbn [lex]; ztest; try lia. apply IH.
Qed.

(** ** What the C library's [qsort] promises (C11 7.22.5.2): for a comparison
    function that orders the elements it permutes them into that order. *)

Definition orders (cmp : CBS -> CBS -> Z) : Prop :=
  (forall x y, cmp x y <= 0 \/ cmp y x <= 0) /\
  (forall x y z, cmp x y <= 0 -> cmp y z <= 0 -> cmp x z <= 0).

Definition sorts (qsort : (CBS -> CBS -> Z) -> list CBS -> list CBS) : Prop :=
  forall cmp l, orders cmp ->
  Permutation l (qsort cmp l) /\ Sorted (fun x y => cmp x y <= 0) (qsort cmp l).

Lemma compare_orders : orders compare_set_of_element.
Proof.
  split; intros; rewrite !compare_is_lex in *.
  - pose proof (lex_antisym x y). lia.
  - eapply lex_trans; eauto.
Qed.

(** Sorted lists of the same elements are equal. *)
Lemma sorted_unique (l m : list CBS) :
  let le x y := compare_set_of_element x y <= 0 in
  Permutation l m -> Sorted le l -> Sorted le m -> l = m.
Proof.
  intros le. assert (T : forall x y z, le x y -> le y z -> le x z) by apply compare_orders.
  assert (A : forall x y, le x y -> le y x -> x = y).
  { intros x y H1 H2. unfold le in *. rewrite compare_is_lex in *. apply lex_eq.
    pose proof (lex_antisym x y). lia. }
  revert m. induction l as [|x l IH]; intros m P Sl Sm.
  - now apply Permutation_nil in P.
  - destruct m as [|y m]; [now apply Permutation_sym, Permutation_nil in P|].
    apply Sorted_StronglySorted in Sl, Sm; [|exact T|exact T].
    apply StronglySorted_inv in Sl as [Sl Fl]. apply StronglySorted_inv in Sm as [Sm Fm].
    rewrite Forall_forall in Fl, Fm.
    assert (E : x = y).
    { assert (In y (x :: l)) as [->|Iy] by (eapply Permutation_in; [symmetry; exact P|now left]); auto.
      assert (In x (y :: m)) as [->|Ix] by (eapply Permutation_in; [exact P|now left]); auto. }
    subst y. f_equal. apply IH; [eapply Permutation_cons_inv; exact P|now apply StronglySorted_Sorted..].
Qed.

(** ** The elements of the contents *)

Definition der_element (e : list Z) : Prop :=
  exists tag body, valid_tag tag /\ zlength body < 2 ^ 32 /\ e = whole_element tag body.

Lemma der_element_nonempty e : der_element e -> 1 <= zlength e.
Proof.
  intros (tag & body & _ & _ & ->). unfold whole_element, der_header. autorewrite with zlen.
  pose proof (zlength_der_tag_range tag). pose proof (zlength_nonneg body).
  pose proof (zlength_nonneg (der_length (zlength body))). lia.
Qed.

Lemma parse_elements_concat els : Forall der_element els -> forall fuel,
  (length els <= fuel)%nat -> parse_elements fuel (concat els) = Some els.
Proof.
  induction 1 as [|e els He _ IH]; intros fuel Hf; [now destruct fuel|].
  destruct fuel as [|fuel]; cbn [length] in Hf; [lia|]. cbn [parse_elements concat].
  pose proof (der_element_nonempty e He). pose proof (zlength_nonneg (concat els)).
  unfold CBS_len. rewrite zlength_app. destruct (Z.eqb_spec (zlength e + zlength (concat els)) 0); [lia|].
  destruct He as (tag & body & Hv & Hl & ->). rewrite get_element_der by assumption.
  cbn [el_out]. rewrite IH by lia. reflexivity.
Qed.

Lemma length_concat_elements els : Forall der_element els -> (length els <= length (concat els))%nat.
Proof.
  induction 1 as [|e els He _ IH]; [reflexivity|]. cbn. rewrite length_app.
  apply der_element_nonempty in He. unfold zlength in He. lia.
Qed.

Lemma zlength_concat_perm (l m : list (list Z)) : Permutation l m -> zlength (concat l) = zlength (concat m).
Proof. induction 1; cbn; rewrite ?zlength_app; lia. Qed.

Section SetOf.
Context {E : Env}.
Variable qsort : (CBS -> CBS -> Z) -> list CBS -> list CBS.
Hypothesis qsort_sorts : sorts qsort.
Hypothesis alloc : forall n, alloc_ok n = true.

(** A builder at depth [d] with no open child, whose contents are [els]. *)
Definition holds_elements (d : nat) (s : CBB) (els : list (list Z)) : Prop :=
  length (cbb_chain s) = d /\ bb_error (cbb_base s) = false /\
  0 <= cbb_start d s <= bb_len (cbb_base s) /\
  CBB_data d s = concat els /\ Forall der_element els.

Lemma flush_no_children d s :
  length (cbb_chain s) = d -> bb_error (cbb_base s) = false -> CBB_flush d s = (Some tt, s).
Proof.
  intros Hd He. unfold CBB_flush. rewrite Hd, He, Nat.ltb_irrefl. cbn [orb].
  rewrite <- Hd, skipn_all, firstn_all. cbn [flush_children]. rewrite He. now destruct s.
Qed.

(** Overwriting the contents with as many bytes. *)
Lemma data_overwrite d s out :
  0 <= cbb_start d s <= bb_len (cbb_base s) -> length out = length (CBB_data d s) ->
  let s' := {| cbb_base := set_buf (buf_write (bb_buf (cbb_base s)) (cbb_start d s) out) (cbb_base s);
               cbb_chain := cbb_chain s |} in
  CBB_data d s' = out /\
  firstn (Z.to_nat (cbb_start d s)) (bb_buf (cbb_base s')) =
  firstn (Z.to_nat (cbb_start d s)) (bb_buf (cbb_base s)).
Proof.
  intros Hs Hl. unfold CBB_data, bb_len, zlength in *. cbn. set (n := Z.to_nat (cbb_start d s)) in *.
  assert (Es : cbb_start d {| cbb_base := set_buf (buf_write (bb_buf (cbb_base s)) (cbb_start d s) out)
    (cbb_base s); cbb_chain := cbb_chain s |} = cbb_start d s) by reflexivity.
  rewrite Es. fold n. unfold buf_write. fold n.
  assert (Ln : length (firstn n (bb_buf (cbb_base s))) = n) by (rewrite length_firstn; lia).
  rewrite length_skipn in Hl. rewrite (skipn_all2 (n := n + length out)) by lia. rewrite app_nil_r.
  split.
  - rewrite skipn_app, Ln, Nat.sub_diag, skipn_all2 by lia. reflexivity.
  - rewrite firstn_app, Ln, Nat.sub_diag. cbn. rewrite app_nil_r, firstn_all2 by lia. reflexivity.
Qed.

Lemma set_of_result d s els :
  holds_elements d s els ->
  exists s', CBB_flush_asn1_set_of qsort d s = (Some tt, s') /\
    CBB_data d s' = concat (qsort compare_set_of_element els) /\
    firstn (Z.to_nat (cbb_start d s)) (bb_buf (cbb_base s')) =
    firstn (Z.to_nat (cbb_start d s)) (bb_buf (cbb_base s)).
Proof.
  intros (Hd & He & Hs & Hc & Hf). unfold CBB_flush_asn1_set_of, bind.
  rewrite flush_no_children by assumption. rewrite Hc.
  rewrite parse_elements_concat by (auto using length_concat_elements).
  destruct (qsort_sorts compare_set_of_element els compare_orders) as [P _].
  unfold CBS in *. destruct (Nat.ltb_spec (length els) 2).
  - exists s. repeat split; auto. rewrite Hc. f_equal.
    destruct els as [|e [|e' els]]; cbn [length] in *; [| |lia].
    + apply Permutation_nil in P. now rewrite P.
    + apply Permutation_length_1_inv in P. now rewrite P.
  - rewrite !alloc. cbn [negb orb]. eexists. split; [reflexivity|].
    apply data_overwrite; [exact Hs|]. rewrite Hc.
    pose proof (zlength_concat_perm _ _ P). unfold zlength in *. lia.
Qed.

(** SET OF encodings are canonical: two builders whose elements are the
    same up to order hold, after [CBB_flush_asn1_set_of], the same contents: a
    permutation of the elements in ascending order.  The bytes before the
    contents are kept. *)
Theorem set_of_canonical d1 d2 s1 s2 els1 els2 :
  holds_elements d1 s1 els1 -> holds_elements d2 s2 els2 -> Permutation els1 els2 ->
  exists s1' s2' sorted,
    CBB_flush_asn1_set_of qsort d1 s1 = (Some tt, s1') /\
    CBB_flush_asn1_set_of qsort d2 s2 = (Some tt, s2') /\
    CBB_data d1 s1' = concat sorted /\ CBB_data d2 s2' = concat sorted /\
    Permutation els1 sorted /\ Sorted (fun x y => lex x y <= 0) sorted /\
    firstn (Z.to_nat (cbb_start d1 s1)) (bb_buf (cbb_base s1')) =
    firstn (Z.to_nat (cbb_start d1 s1)) (bb_buf (cbb_base s1)).
Proof.
  intros H1 H2 P. destruct (set_of_result d1 s1 els1 H1) as (s1' & F1 & D1 & K1).
  destruct (set_of_result d2 s2 els2 H2) as (s2' & F2 & D2 & _).
  destruct (qsort_sorts compare_set_of_element els1 compare_orders) as [P1 S1].
  destruct (qsort_sorts compare_set_of_element els2 compare_orders) as [P2 S2].
  exists s1', s2', (qsort compare_set_of_element els1). repeat split; auto.
  - rewrite D2. f_equal. apply sorted_unique; auto. now rewrite <- P1, <- P2, P.
  - clear - S1. induction S1 as [|x l S1 IH H]; constructor; [exact IH|].
    destruct H as [|y l H]; constructor. now rewrite <- compare_is_lex.
Qed.

End SetOf.

(** ** A concrete [qsort]: insertion sort *)

Fixpoint insert_by (cmp : CBS -> CBS -> Z) (x : CBS) (l : list CBS) : list CBS :=
  match l with
  | [] => [x]
  | y :: l' => if cmp x y <=? 0 then x :: l else y :: insert_by cmp x l'
  end.
Definition insertion_sort (cmp : CBS -> CBS -> Z) (l : list CBS) : list CBS :=
  fold_right (insert_by cmp) [] l.

Lemma insert_by_perm cmp x l : Permutation (x :: l) (insert_by cmp x l).
Proof.
  induction l as [|y l IH]; cbn; [reflexivity|]. destruct (_ <=? 0); [reflexivity|].
  now rewrite perm_swap, IH.
Qed.

Lemma insert_by_sorted cmp x l :
  orders cmp -> Sorted (fun a b => cmp a b <= 0) l -> Sorted (fun a b => cmp a b <= 0) (insert_by cmp x l).
Proof.
  intros [T _]. induction 1 as [|y l S IH H]; cbn; [repeat constructor|].
  destruct (Z.leb_spec (cmp x y) 0); [repeat constructor; auto|].
  constructor; [exact IH|]. assert (cmp y x <= 0) by (destruct (T x y); lia).
  destruct H as [|z l H]; cbn; [now constructor|]. destruct (_ <=? 0); now constructor.
Qed.

Lemma insertion_sort_sorts : sorts insertion_sort.
Proof.
  intros cmp l H. induction l as [|x l [P S]]; cbn; [split; constructor|]. split.
  - now rewrite <- insert_by_perm, <- P.
  - now apply insert_by_sorted.
Qed.

#[local] Instance set_demo_env : Env := { uninit := 0; alloc_ok := fun _ => true }.

Definition demo_set (l : list Z) : CBB :=
  {| cbb_base := {| bb_buf := l; bb_cap := 100; bb_can_resize := true; bb_error := false |};
     cbb_chain := [] |}.

Lemma set_of_canonical_witness :
  exists s1' s2' sorted,
    CBB_flush_asn1_set_of insertion_sort 0 (demo_set [2; 1; 9; 2; 1; 5]) = (Some tt, s1') /\
    CBB_flush_asn1_set_of insertion_sort 0 (demo_set [2; 1; 5; 2; 1; 9]) = (Some tt, s2') /\
    CBB_data 0 s1' = concat sorted /\ CBB_data 0 s2' = concat sorted /\
    Permutation [[2; 1; 9]; [2; 1; 5]] sorted /\ Sorted (fun x y => lex x y <= 0) sorted /\
    firstn 0 (bb_buf (cbb_base s1')) = [].
Proof.
  assert (D : forall n, der_element [2; 1; n]).
  { intros n. exists 2, [n]. repeat split; discriminate. }
  apply (@set_of_canonical set_demo_env insertion_sort insertion_sort_sorts (fun _ => eq_refl) 0 0
           (demo_set [2; 1; 9; 2; 1; 5]) (demo_set [2; 1; 5; 2; 1; 9])
           [[2; 1; 9]; [2; 1; 5]] [[2; 1; 5]; [2; 1; 9]]).
  - repeat split; cbn; auto; discriminate.
  - repeat split; cbn; auto; discriminate.
  - apply perm_swap.
Defined.
