(* ===== verification/OidText.v ===== *)
(** Object identifiers as text: [CBS_asn1_oid_to_text], [add_decimal] and the
    relative form of [crypto/bytestring/cbs.cc], and their round trip with
    [CBB_add_asn1_oid_from_text] of [Cbb]. *)
From Stdlib Require Import ZArith List Lia Bool.
From S2P Require Import Prelude CryptoInternal Cbs Cbb CbbSpec Asn1 Asn1Build Bytestring.
Import ListNotations.
Open Scope Z_scope.

(** [snprintf] with [PRIu64]; a [uint64_t] has at most 20 digits. *)
Fixpoint decimal_digits (fuel : nat) (v : Z) : list Z :=
  match fuel with
  | O => [48 + v mod 10]
  | S fuel' => if v <? 10 then [48 + v] else decimal_digits fuel' (v / 10) ++ [48 + v mod 10]
  end.
Definition decimal (v : Z) : list Z := decimal_digits 20 v.

Section ToText.
Context {E : Env}.

Definition add_decimal (d : nat) (v : Z) : st CBB unit := CBB_add_bytes d (decimal v).

(** The loop over the remaining components; every round consumes a byte. *)
Fixpoint add_dotted (fuel : nat) (copy : CBS) : st CBB unit :=
  match fuel with
  | O => ret tt
  | S fuel' =>
      if CBS_len copy =? 0 then ret tt
      else match parse_base128_integer copy with
           | (None, _) => fail
           | (Some v, copy') => CBB_add_u8 0 46 ;;; add_decimal 0 v ;;; add_dotted fuel' copy'
           end
  end.

(** The text ends with a zero byte; [None] is a null pointer. *)
Definition CBS_asn1_oid_to_text (cbs : CBS) : option (list Z) :=
  match CBB_init 32 with
  | None => None
  | Some cbb =>
      fst ((match parse_base128_integer cbs with
            | (None, _) => fail
            | (Some v, copy) =>
                (if v >=? 80 then CBB_add_bytes 0 [50; 46] ;;; add_decimal 0 (v - 80)
                 else add_decimal 0 (v / 40) ;;; CBB_add_u8 0 46 ;;; add_decimal 0 (v mod 40)) ;;;
                add_dotted (length cbs) copy
            end ;;;
            CBB_add_u8 0 0 ;;; CBB_finish 0) cbb)
  end.

Definition CBS_asn1_relative_oid_to_text (cbs : CBS) : option (list Z) :=
  match CBB_init 32 with
  | None => None
  | Some cbb =>
      fst ((match parse_base128_integer cbs with
            | (None, _) => fail
            | (Some v, copy) => add_decimal 0 v ;;; add_dotted (length cbs) copy
            end ;;;
            CBB_add_u8 0 0 ;;; CBB_finish 0) cbb)
  end.

(** ** Decimal numbers *)

Definition stops (rest : list Z) : Prop := match rest with [] => True | c :: _ => OPENSSL_isdigit c = false end.

Lemma isdigit_offset k : 0 <= k < 10 -> OPENSSL_isdigit (48 + k) = true.
Proof. intros H. unfold OPENSSL_isdigit. rewrite Z.geb_leb.
  apply andb_true_intro. split; apply Z.leb_le; lia. Qed.

Lemma decimal_step v c seen rest :
  0 <= c < 10 -> 0 <= v -> v * 10 + c < 2 ^ 64 -> (v = 0 -> seen = false) ->
  get_u64_decimal_loop v seen ((48 + c) :: rest) = get_u64_decimal_loop (v * 10 + c) true rest.
Proof.
  intros Hc Hv Hm Hs. cbn [get_u64_decimal_loop]. rewrite isdigit_offset by exact Hc. cbn [negb].
  replace (48 + c - 48) with c by lia. rewrite !wrap_small by lia.
  rewrite !Z.gtb_ltb. unfold UINT64_MAX.
  assert (v <= (2 ^ 64 - 1) / 10) by (apply Z.div_le_lower_bound; lia).
  destruct (Z.eqb_spec v 0) as [->|]; [rewrite Hs by reflexivity|]; cbn [andb orb];
    match goal with |- context [(?a <? ?b) || (?e <? ?f)] =>
      destruct (Z.ltb_spec a b), (Z.ltb_spec e f) end; cbn [orb]; try lia; reflexivity.
Qed.

Lemma decimal_digits_parse fuel : forall v rest,
  0 <= v < 10 ^ Z.of_nat (S fuel) -> v < 2 ^ 64 ->
  get_u64_decimal_loop 0 false (decimal_digits fuel v ++ rest) = get_u64_decimal_loop v true rest.
Proof.
  induction fuel as [|fuel IH]; intros v rest Hv Hm; cbn [decimal_digits].
  - change (10 ^ Z.of_nat 1) with 10 in Hv. rewrite Z.mod_small by lia.
    cbn [app]. rewrite decimal_step by (lia || auto). reflexivity.
  - destruct (Z.ltb_spec v 10).
    + cbn [app]. rewrite decimal_step by (lia || auto). reflexivity.
    + pose proof (Z.div_mod v 10 ltac:(lia)) as D. pose proof (Z.mod_pos_bound v 10 ltac:(lia)).
      assert (1 <= v / 10) by (apply Z.div_le_lower_bound; lia).
      replace (Z.of_nat (S (S fuel))) with (Z.of_nat (S fuel) + 1) in Hv by lia.
      rewrite Z.pow_add_r in Hv by lia.
      rewrite <- app_assoc, IH by (try split; try apply Z.div_lt_upper_bound; lia).
      cbn [app]. rewrite decimal_step by lia. f_equal. lia.
Qed.

Lemma get_u64_decimal v rest :
  0 <= v < 2 ^ 64 -> stops rest -> CBS_get_u64_decimal (decimal v ++ rest) = (Some v, rest).
Proof.
  intros Hv Hr. unfold CBS_get_u64_decimal, bind, decimal. rewrite decimal_digits_parse.
  - destruct rest as [|c rest]; cbn [get_u64_decimal_loop]; [reflexivity|].
    cbn [stops] in Hr. rewrite Hr. reflexivity.
  - change (10 ^ Z.of_nat 21) with (10 ^ 21). lia.
  - lia.
Qed.

Lemma parse_dotted_last v : 0 <= v < 2 ^ 64 -> parse_dotted_decimal (decimal v) = (Some v, []).
Proof.
  intros Hv. unfold parse_dotted_decimal, bind. rewrite <- (app_nil_r (decimal v)).
  rewrite get_u64_decimal by (exact Hv || exact I). reflexivity.
Qed.

Lemma parse_dotted_more v t : 0 <= v < 2 ^ 64 -> t <> [] ->
  parse_dotted_decimal (decimal v ++ 46 :: t) = (Some v, t).
Proof.
  intros Hv Ht. unfold parse_dotted_decimal, bind.
  rewrite get_u64_decimal by (exact Hv || reflexivity). rewrite CBS_get_u8_cons.
  unfold CBS_len. destruct t as [|c t]; [congruence|]. rewrite zlength_cons.
  pose proof (zlength_nonneg t). rewrite Z.gtb_ltb. destruct (Z.ltb_spec 0 (1 + zlength t)); [|lia].
  reflexivity.
Qed.

(** ** Dotted text and base-128 components *)

Fixpoint dotted (v : Z) (vs : list Z) : list Z :=
  match vs with
  | [] => decimal v
  | v' :: vs' => decimal v ++ 46 :: dotted v' vs'
  end.
Definition components (vs : list Z) : list Z := concat (map base128 vs).
Definition u64s (vs : list Z) : Prop := Forall (fun v => 0 <= v < 2 ^ 64) vs.

Lemma decimal_length fuel v : (1 <= length (decimal_digits fuel v) <= S fuel)%nat.
Proof.
  revert v. induction fuel as [|fuel IH]; intros v; cbn [decimal_digits]; [cbn; lia|].
  destruct (v <? 10); [cbn; lia|]. rewrite length_app. specialize (IH (v / 10)). cbn. lia.
Qed.

Lemma decimal_nonempty v : decimal v <> [].
Proof. pose proof (decimal_length 20 v). unfold decimal. destruct decimal_digits; cbn in *; [lia|easy]. Qed.

Lemma dotted_length v vs : (length vs < length (dotted v vs))%nat.
Proof.
  revert v. induction vs as [|v' vs IH]; intros v; cbn [dotted length].
  - pose proof (decimal_nonempty v). destruct (decimal v); cbn in *; [congruence|lia].
  - rewrite length_app. cbn. specialize (IH v'). lia.
Qed.

Lemma dotted_nonempty v vs : dotted v vs <> [].
Proof. pose proof (dotted_length v vs). destruct (dotted v vs); cbn in *; [lia|easy]. Qed.

Lemma parse_dotted v v' vs : 0 <= v < 2 ^ 64 ->
  parse_dotted_decimal (dotted v (v' :: vs)) = (Some v, dotted v' vs).
Proof. intros H. cbn [dotted]. apply parse_dotted_more; [exact H|apply dotted_nonempty]. Qed.

(** Text to components. *)
Lemma add_oid_components_refines vs : forall v fuel,
  u64s (v :: vs) -> (length vs < fuel)%nat ->
  refines (add_oid_components 0 fuel (dotted v vs)) (awrite 0 (components (v :: vs))).
Proof.
  induction vs as [|v' vs IH]; intros v fuel Hu Hf; destruct fuel as [|fuel]; try (cbn in Hf; lia);
    apply Forall_cons_iff in Hu as [Hv Hu]; cbn [add_oid_components]; unfold CBS_len;
    rewrite Z.gtb_ltb; pose proof (dotted_length v) as L.
  - specialize (L []). destruct (Z.ltb_spec 0 (zlength (dotted v []))); [|unfold zlength in *; cbn in *; lia].
    cbn [dotted]. rewrite parse_dotted_last by exact Hv. unfold components. cbn [map concat].
    rewrite app_nil_r. eapply refines_ext.
    { apply refines_bind with (g := fun _ a => Some (tt, a)).
      - apply add_base128_refines. lia.
      - intros _. destruct fuel; apply refines_ret.
      - intros _. apply monotone_ret. }
    intros a. unfold abind, awrite. now destruct (flush_builder 0 a).
  - specialize (L (v' :: vs)). cbn [length] in *.
    destruct (Z.ltb_spec 0 (zlength (dotted v (v' :: vs)))); [|unfold zlength in *; lia].
    rewrite parse_dotted by exact Hv. unfold components in *. rewrite map_cons, concat_cons.
    apply refines_write2; [apply add_base128_refines; lia|]. apply IH; [exact Hu|lia].
Qed.

(** Components to text. *)
Definition dot_text (vs : list Z) : list Z := concat (map (fun v => 46 :: decimal v) vs).

Lemma dotted_dot_text v vs : dotted v vs = decimal v ++ dot_text vs.
Proof.
  revert v. induction vs as [|v' vs IH]; intros v; cbn [dotted]; unfold dot_text; cbn [map concat].
  - now rewrite app_nil_r.
  - rewrite IH. reflexivity.
Qed.

Lemma add_decimal_refines v : refines (add_decimal 0 v) (awrite 0 (decimal v)).
Proof.
  apply CBB_add_bytes_refines. pose proof (decimal_length 20 v). unfold decimal, zlength. lia.
Qed.

(** The components of a string, or the loop fails. *)
Lemma add_dotted_components fuel : forall copy,
  bytes copy -> (length copy <= fuel)%nat ->
  (exists vs, u64s vs /\ copy = components vs) \/ (forall s, fst (add_dotted fuel copy s) = None).
Proof.
  induction fuel as [|fuel IH]; intros copy Hb Hl.
  - left. exists []. destruct copy; cbn in *; [|lia]. split; [constructor|reflexivity].
  - cbn [add_dotted]. unfold CBS_len. destruct (Z.eqb_spec (zlength copy) 0) as [Z0|Z0].
    { left. exists []. destruct copy; [|unfold zlength in Z0; cbn in Z0; lia].
      split; [constructor|reflexivity]. }
    destruct (parse_base128_integer copy) as [[v|] copy'] eqn:P; [|right; reflexivity].
    destruct (parse_base128_inv copy v copy' Hb P) as [-> Hv].
    apply Forall_app in Hb as [_ Hb]. rewrite length_app in Hl.
    pose proof (zlength_base128 v) as Lv. unfold zlength in Lv.
    destruct (IH copy' Hb ltac:(lia)) as [(vs & Hu & ->)|F].
    + left. exists (v :: vs). split; [now constructor|reflexivity].
    + right. intros s. unfold bind. destruct (CBB_add_u8 0 46 s) as [[?|] s1]; [|reflexivity].
      destruct (add_decimal 0 v s1) as [[?|] s2]; [apply F|reflexivity].
Qed.

Lemma refines_seq_assoc (m1 m2 k : st CBB unit) f :
  refines (m1 ;;; (m2 ;;; k)) f -> refines ((m1 ;;; m2) ;;; k) f.
Proof. intros H. eapply refines_eq; [intros s; apply bind_assoc|exact H]. Qed.

Lemma refines_guard_true (k : st CBB unit) f : refines k f -> refines (guard true ;;; k) f.
Proof. intros H. eapply refines_eq; [|exact H]. intros s. reflexivity. Qed.

Lemma add_dotted_refines vs : forall fuel (k : st CBB unit) y,
  u64s vs -> (length (components vs) <= fuel)%nat -> refines k (awrite 0 y) ->
  refines (add_dotted fuel (components vs) ;;; k) (awrite 0 (dot_text vs ++ y)).
Proof.
  induction vs as [|v vs IH]; intros fuel k y Hu Hf Hk.
  - eapply refines_eq; [|exact Hk]. intros s. destruct fuel; reflexivity.
  - apply Forall_cons_iff in Hu as [Hv Hu]. unfold components in *. cbn [map concat] in *.
    rewrite length_app in Hf. pose proof (zlength_base128 v) as Lv. unfold zlength in Lv.
    destruct fuel as [|fuel]; [lia|]. cbn [add_dotted]. unfold CBS_len.
    destruct (Z.eqb_spec (zlength (base128 v ++ concat (map base128 vs))) 0) as [Z0|_].
    { unfold zlength in Z0. rewrite length_app in Z0. lia. }
    rewrite parse_base128 by exact Hv.
    change (dot_text (v :: vs)) with ([46] ++ decimal v ++ dot_text vs). rewrite <- !app_assoc.
    apply refines_seq_assoc, refines_write2; [apply CBB_add_u8_refines; red; lia|].
    apply refines_seq_assoc, refines_write2; [apply add_decimal_refines|]. apply IH; [exact Hu|lia|exact Hk].
Qed.

(** The first two arcs and the number that encodes them. *)
Definition first_arcs (v : Z) : Z * Z := if v >=? 80 then (2, v - 80) else (v / 40, v mod 40).

Definition first_text (v : Z) : list Z :=
  let '(a, b) := first_arcs v in decimal a ++ 46 :: decimal b.

Lemma first_text_refines v (k : st CBB unit) y :
  refines k (awrite 0 y) ->
  refines ((if v >=? 80 then CBB_add_bytes 0 [50; 46] ;;; add_decimal 0 (v - 80)
            else add_decimal 0 (v / 40) ;;; CBB_add_u8 0 46 ;;; add_decimal 0 (v mod 40)) ;;; k)
    (awrite 0 (first_text v ++ y)).
Proof.
  intros Hk. apply refines_write2; [|exact Hk]. unfold first_text, first_arcs. destruct (v >=? 80).
  - change (decimal 2 ++ 46 :: decimal (v - 80)) with ([50; 46] ++ decimal (v - 80)).
    apply refines_write2; [apply CBB_add_bytes_refines; reflexivity|apply add_decimal_refines].
  - apply refines_write2; [apply add_decimal_refines|].
    change (46 :: decimal (v mod 40)) with ([46] ++ decimal (v mod 40)).
    apply refines_write2; [apply CBB_add_u8_refines; red; lia|apply add_decimal_refines].
Qed.

Lemma build_write_inv cap (m : st CBB unit) bs out s :
  0 <= cap < 2 ^ 64 -> CBB_init cap = Some s -> refines m (awrite 0 bs) ->
  fst ((m ;;; CBB_finish 0) s) = Some out -> out = bs.
Proof.
  intros Hc Hi Hm. unfold CBB_init in Hi. destruct (_ && _); [discriminate|]. injection Hi as <-.
  pose proof (Hm _ _ (fresh_repr cap Hc)) as R. unfold bind.
  destruct (m _) as [[x|] s1]; [|discriminate]. destruct R as (a & Ha & Hr & _).
  cbn in Ha. injection Ha as _ <-. pose proof (finish_repr _ s1 Hr) as F.
  intros H. rewrite H in F. destruct F as (o & Ho & ->). cbn in Ho. injection Ho as <-.
  cbn. now rewrite app_nil_r.
Qed.

Lemma first_arcs_spec v : 0 <= v < 2 ^ 64 ->
  let '(a, b) := first_arcs v in
  0 <= a <= 2 /\ 0 <= b <= UINT64_MAX - 80 /\ (a < 2 -> b <= 39) /\ 40 * a + b = v.
Proof.
  intros Hv. unfold first_arcs, UINT64_MAX. destruct (Z.geb_spec v 80); [lia|].
  pose proof (Z.div_mod v 40 ltac:(lia)). pose proof (Z.mod_pos_bound v 40 ltac:(lia)).
  assert (0 <= v / 40 < 2) by (split; [apply Z.div_pos|apply Z.div_lt_upper_bound]; lia). lia.
Qed.

(** Text to bytes for a whole identifier. *)
Lemma oid_from_text_refines v vs :
  u64s (v :: vs) ->
  refines (CBB_add_asn1_oid_from_text 0 (first_text v ++ dot_text vs))
    (awrite 0 (components (v :: vs))).
Proof.
  intros Hu. apply Forall_cons_iff in Hu as [Hv Hu]. pose proof (first_arcs_spec v Hv) as A.
  unfold first_text. destruct (first_arcs v) as [a b]. destruct A as (Ha & Hb & Hab & Ev).
  rewrite <- app_assoc. cbn [app]. rewrite <- dotted_dot_text.
  eapply refines_ext; [|apply aflush_awrite]. unfold CBB_add_asn1_oid_from_text.
  apply refines_bind; [apply CBB_flush_refines| |intros _; apply monotone_awrite]. intros _.
  unfold UINT64_MAX in *. unfold bind at 1. rewrite parse_dotted_more by (lia || apply dotted_nonempty).
  assert (P : parse_dotted_decimal (dotted b vs) =
              (Some b, match vs with [] => [] | v' :: vs' => dotted v' vs' end)).
  { destruct vs; [apply parse_dotted_last|apply parse_dotted]; lia. }
  unfold bind at 1. rewrite P. unfold ret at 1. rewrite !Z.gtb_ltb.
  destruct (Z.ltb_spec 2 a); [lia|]. destruct (Z.ltb_spec (2 ^ 64 - 1 - 80) b); [lia|].
  assert (G : (a <? 2) && (39 <? b) = false)
    by (destruct (Z.ltb_spec a 2), (Z.ltb_spec 39 b); cbn; lia || reflexivity).
  rewrite G. cbn [orb negb]. apply refines_guard_true.
  rewrite Ev, wrap_small by lia. change (components (v :: vs)) with (base128 v ++ components vs).
  destruct vs as [|v' vs].
  - unfold components. cbn [map concat]. eapply refines_ext.
    { apply refines_bind with (g := fun _ a => Some (tt, a)).
      - apply add_base128_refines. lia.
      - intros _. destruct (length _); apply refines_ret.
      - intros _. apply monotone_ret. }
    intros x. rewrite app_nil_r. unfold abind, awrite. now destruct (flush_builder 0 x).
  - apply refines_write2; [apply add_base128_refines; lia|].
    apply add_oid_components_refines; [exact Hu|]. rewrite length_app. cbn [length].
    pose proof (dotted_length b (v' :: vs)). cbn [length] in *. lia.
Qed.

(** an OBJECT IDENTIFIER that [CBS_asn1_oid_to_text] can print is
    reproduced, byte for byte, when [CBB_add_asn1_oid_from_text] reads the text
    back (the terminating zero left out). *)
Theorem oid_text_roundtrip oid text :
  bytes oid -> zlength oid < 2 ^ 32 -> (forall k, alloc_ok k = true) ->
  CBS_asn1_oid_to_text oid = Some text ->
  exists t, text = t ++ [0] /\ build 0 (CBB_add_asn1_oid_from_text 0 t) = Some oid.
Proof.
  intros Hb Hl Ha H. unfold CBS_asn1_oid_to_text in H.
  destruct (CBB_init 32) as [s|] eqn:I; [|discriminate].
  destruct (parse_base128_integer oid) as [[v|] copy] eqn:P; [|discriminate].
  destruct (parse_base128_inv oid v copy Hb P) as [-> Hv].
  apply Forall_app in Hb as [_ Hb].
  assert (Lc : (length copy <= length (base128 v ++ copy))%nat) by (rewrite length_app; lia).
  destruct (add_dotted_components _ copy Hb Lc) as [(vs & Hu & ->)|F].
  2:{ exfalso. unfold bind at 1 2 in H. revert H.
      match goal with |- context [match ?m s with _ => _ end] => destruct (m s) as [[?|] s1] end.
      - specialize (F s1). destruct (add_dotted _ _ s1) as [[?|] s2]; cbn in *; discriminate.
      - discriminate. }
  exists (first_text v ++ dot_text vs). split.
  - match type of H with fst ((?X ;;; _) s) = _ =>
      apply (build_write_inv 32 (X ;;; CBB_add_u8 0 0) _ text s); [lia|exact I| |now rewrite bind_assoc] end.
    rewrite <- app_assoc. apply refines_seq_assoc, first_text_refines. apply add_dotted_refines; [exact Hu|exact Lc|].
    apply CBB_add_u8_refines. red. lia.
  - apply build_write; try assumption; try lia. apply oid_from_text_refines. now constructor.
Qed.

End ToText.

#[local] Instance oid_demo_env : Env := { uninit := 0; alloc_ok := fun _ => true }.

(** 1.2.840 *)
Lemma oid_text_roundtrip_witness :
  exists t, [49; 46; 50; 46; 56; 52; 48; 0] = t ++ [0] /\
            build 0 (CBB_add_asn1_oid_from_text 0 t) = Some [0x2a; 0x86; 0x48].
Proof.
  apply (oid_text_roundtrip [0x2a; 0x86; 0x48] [49; 46; 50; 46; 56; 52; 48; 0]).
  - repeat constructor; lia.
  - reflexivity.
  - reflexivity.
  - vm_compute. reflexivity.
Defined.
