(* ===== verification/Unicode.v ===== *)
(** Code points in UTF-8, Latin-1, UCS-2 and UTF-32:
    [crypto/bytestring/unicode.cc]. *)
From Stdlib Require Import ZArith List Lia Bool.
From S2P Require Import Prelude CryptoInternal Cbs Cbb CbbSpec Asn1 Asn1Build Bytestring.
Import ListNotations.
Open Scope Z_scope.

Definition is_valid_code_point (v : Z) : bool :=
  negb ((v >? 0x10ffff) || (Z.land v 0xfffe =? 0xfffe)
        || ((v >=? 0xfdd0) && (v <=? 0xfdef))
        || ((v >=? 0xd800) && (v <=? 0xdfff))).

Definition BOTTOM_BITS (n : Z) : Z := u8 (Z.shiftl 1 n - 1).
Definition TOP_BITS (n : Z) : Z := u8 (Z.lnot (BOTTOM_BITS (8 - n))).

(** The loop over the [len] continuation bytes. *)
Fixpoint utf8_continuation (len : nat) (v : Z) : st CBS Z :=
  match len with
  | O => ret v
  | S len' =>
      let* c := CBS_get_u8 in
      guard (Z.land c (TOP_BITS 2) =? TOP_BITS 1) ;;;
      utf8_continuation len' (Z.lor (u32 (Z.shiftl v 6)) (Z.land c (BOTTOM_BITS 6)))
  end.

Definition CBS_get_utf8 : st CBS Z :=
  let* c := CBS_get_u8 in
  if c <=? 0x7f then ret c
  else
    let finish (v : Z) (len : nat) (lower_bound : Z) : st CBS Z :=
      let* v := utf8_continuation len v in
      guard (is_valid_code_point v && negb (v <? lower_bound)) ;;; ret v in
    if Z.land c (TOP_BITS 3) =? TOP_BITS 2 then finish (Z.land c (BOTTOM_BITS 5)) 1%nat 0x80
    else if Z.land c (TOP_BITS 4) =? TOP_BITS 3 then finish (Z.land c (BOTTOM_BITS 4)) 2%nat 0x800
    else if Z.land c (TOP_BITS 5) =? TOP_BITS 4 then finish (Z.land c (BOTTOM_BITS 3)) 3%nat 0x10000
    else fail.

Definition CBS_get_latin1 : st CBS Z := CBS_get_u8.
Definition CBS_get_ucs2_be : st CBS Z :=
  let* c := CBS_get_u16 in guard (is_valid_code_point c) ;;; ret c.
Definition CBS_get_utf32_be : st CBS Z :=
  let* c := CBS_get_u32 in guard (is_valid_code_point c) ;;; ret c.

Definition CBB_get_utf8_len (u : Z) : Z :=
  if u <=? 0x7f then 1 else if u <=? 0x7ff then 2 else if u <=? 0xffff then 3 else 4.

Section Add.
Context {E : Env}.

Definition CBB_add_utf8 (d : nat) (u : Z) : st CBB unit :=
  if negb (is_valid_code_point u) then fail
  else if u <=? 0x7f then CBB_add_u8 d (u8 u)
  else if u <=? 0x7ff then
    CBB_add_u8 d (u8 (Z.lor (TOP_BITS 2) (Z.shiftr u 6))) ;;;
    CBB_add_u8 d (u8 (Z.lor (TOP_BITS 1) (Z.land u (BOTTOM_BITS 6))))
  else if u <=? 0xffff then
    CBB_add_u8 d (u8 (Z.lor (TOP_BITS 3) (Z.shiftr u 12))) ;;;
    CBB_add_u8 d (u8 (Z.lor (TOP_BITS 1) (Z.land (Z.shiftr u 6) (BOTTOM_BITS 6)))) ;;;
    CBB_add_u8 d (u8 (Z.lor (TOP_BITS 1) (Z.land u (BOTTOM_BITS 6))))
  else if u <=? 0x10ffff then
    CBB_add_u8 d (u8 (Z.lor (TOP_BITS 4) (Z.shiftr u 18))) ;;;
    CBB_add_u8 d (u8 (Z.lor (TOP_BITS 1) (Z.land (Z.shiftr u 12) (BOTTOM_BITS 6)))) ;;;
    CBB_add_u8 d (u8 (Z.lor (TOP_BITS 1) (Z.land (Z.shiftr u 6) (BOTTOM_BITS 6)))) ;;;
    CBB_add_u8 d (u8 (Z.lor (TOP_BITS 1) (Z.land u (BOTTOM_BITS 6))))
  else fail.

Definition CBB_add_latin1 (d : nat) (u : Z) : st CBB unit :=
  guard (u <=? 0xff) ;;; CBB_add_u8 d (u8 u).
Definition CBB_add_ucs2_be (d : nat) (u : Z) : st CBB unit :=
  guard ((u <=? 0xffff) && is_valid_code_point u) ;;; CBB_add_u16 d (u16 u).
Definition CBB_add_utf32_be (d : nat) (u : Z) : st CBB unit :=
  guard (is_valid_code_point u) ;;; CBB_add_u32 d u.

End Add.

(** ** The encoding (Unicode 15.0, table 3-6) *)

Definition utf8 (u : Z) : list Z :=
  let low k := 0x80 + (u / 64 ^ k) mod 64 in
  if u <? 0x80 then [u]
  else if u <? 0x800 then [0xc0 + u / 64; low 0]
  else if u <? 0x10000 then [0xe0 + u / 64 ^ 2; low 1; low 0]
  else [0xf0 + u / 64 ^ 3; low 2; low 1; low 0].

Lemma valid_range u : 0 <= u -> is_valid_code_point u = true -> 0 <= u <= 0x10ffff.
Proof. unfold is_valid_code_point. intros. bsplit. lia. Qed.

Lemma zlength_utf8 u : zlength (utf8 u) = CBB_get_utf8_len u.
Proof. unfold utf8, CBB_get_utf8_len. ztest; reflexivity. Qed.

(** *** Encoding *)

Lemma low_byte u k n : 0 <= u -> 0 <= k -> n = 6 * k ->
  u8 (Z.lor (TOP_BITS 1) (Z.land (Z.shiftr u n) (BOTTOM_BITS 6))) = 0x80 + (u / 64 ^ k) mod 64.
Proof.
  intros Hu Hk ->. change (TOP_BITS 1) with 128. change (BOTTOM_BITS 6) with 63.
  rewrite (land_ones_mod _ 6) by (reflexivity || lia). rewrite shiftr_div by lia.
  replace (2 ^ (6 * k)) with (64 ^ k) by (rewrite Z.pow_mul_r by lia; reflexivity).
  change (2 ^ 6) with 64. pose proof (Z.mod_pos_bound (u / 64 ^ k) 64 ltac:(lia)).
  rewrite (lor_add_mul 128 2 6) by lia. apply wrap_small. lia.
Qed.

Lemma low_byte0 u : 0 <= u ->
  u8 (Z.lor (TOP_BITS 1) (Z.land u (BOTTOM_BITS 6))) = 0x80 + (u / 64 ^ 0) mod 64.
Proof. intros H. rewrite <- (low_byte u 0 0) by lia. now rewrite Z.shiftr_0_r. Qed.

(** The first byte: a marker that is a multiple of [2^n] and the top bits. *)
Lemma lead_byte u marker c n k sh :
  sh = 6 * k -> 0 <= n -> marker = c * 2 ^ n -> 0 <= k -> 0 <= u / 64 ^ k < 2 ^ n -> 0 <= marker -> marker + 2 ^ n <= 256 ->
  u8 (Z.lor marker (Z.shiftr u sh)) = marker + u / 64 ^ k.
Proof.
  intros -> Hn -> Hk Hu Hm Hc. rewrite shiftr_div by lia.
  replace (2 ^ (6 * k)) with (64 ^ k) by (rewrite Z.pow_mul_r by lia; reflexivity).
  rewrite (lor_add_mul _ c n) by lia. apply wrap_small. lia.
Qed.

Section Encode.
Context {E : Env}.

Lemma CBB_add_utf8_refines d u :
  0 <= u -> is_valid_code_point u = true -> refines (CBB_add_utf8 d u) (awrite d (utf8 u)).
Proof.
  intros H0 Hv. pose proof (valid_range u H0 Hv) as Hr. unfold CBB_add_utf8, utf8. rewrite Hv.
  cbn [negb].
  assert (D : forall k, 0 <= k -> 0 <= u / 64 ^ k)
    by (intros; apply Z.div_pos; [lia|apply Z.pow_pos_nonneg; lia]).
  assert (U : forall k m, 0 <= k -> u < 64 ^ k * m -> u / 64 ^ k < m)
    by (intros; apply Z.div_lt_upper_bound; [apply Z.pow_pos_nonneg; lia|lia]).
  assert (L : forall k, is_byte (128 + (u / 64 ^ k) mod 64))
    by (intros k; red; pose proof (Z.mod_pos_bound (u / 64 ^ k) 64 ltac:(lia)); lia).
  change (TOP_BITS 2) with 0xc0. change (TOP_BITS 3) with 0xe0. change (TOP_BITS 4) with 0xf0.
  destruct (Z.leb_spec u 0x7f), (Z.ltb_spec u 0x80); try lia.
  { rewrite wrap_small by lia. apply CBB_add_u8_refines. red. lia. }
  rewrite (low_byte u 1 6), (low_byte u 2 12), low_byte0 by lia.
  destruct (Z.leb_spec u 0x7ff), (Z.ltb_spec u 0x800); try lia.
  { specialize (D 1 ltac:(lia)). specialize (U 1 32 ltac:(lia) ltac:(lia)).
    rewrite (lead_byte u 0xc0 6 5 1 6) by lia. rewrite Z.pow_1_r in *.
    apply (refines_write2 d _ _ [_] [_]); apply CBB_add_u8_refines; [red; lia|apply L]. }
  destruct (Z.leb_spec u 0xffff), (Z.ltb_spec u 0x10000); try lia.
  { specialize (D 2 ltac:(lia)). specialize (U 2 16 ltac:(lia) ltac:(lia)).
    rewrite (lead_byte u 0xe0 14 4 2 12) by lia.
    apply (refines_write2 d _ _ [_] [_; _]); [apply CBB_add_u8_refines; red; lia|].
    apply (refines_write2 d _ _ [_] [_]); apply CBB_add_u8_refines; apply L. }
  destruct (Z.leb_spec u 0x10ffff); try lia.
  specialize (D 3 ltac:(lia)). specialize (U 3 8 ltac:(lia) ltac:(lia)).
  rewrite (lead_byte u 0xf0 30 3 3 18) by lia.
  apply (refines_write2 d _ _ [_] [_; _; _]); [apply CBB_add_u8_refines; red; lia|].
  apply (refines_write2 d _ _ [_] [_; _]); [apply CBB_add_u8_refines; apply L|].
  apply (refines_write2 d _ _ [_] [_]); apply CBB_add_u8_refines; apply L.
Qed.

End Encode.

(** *** Decoding *)

Lemma lead_class c : is_byte c ->
  (Z.land c (TOP_BITS 3) =? TOP_BITS 2) = ((192 <=? c) && (c <? 224)) /\
  (Z.land c (TOP_BITS 4) =? TOP_BITS 3) = ((224 <=? c) && (c <? 240)) /\
  (Z.land c (TOP_BITS 5) =? TOP_BITS 4) = ((240 <=? c) && (c <? 248)) /\
  (Z.land c (TOP_BITS 2) =? TOP_BITS 1) = ((128 <=? c) && (c <? 192)).
Proof.
  intros Hc.
  pose proof (all_bytes_spec (fun c =>
    Bool.eqb (Z.land c (TOP_BITS 3) =? TOP_BITS 2) ((192 <=? c) && (c <? 224)) &&
    Bool.eqb (Z.land c (TOP_BITS 4) =? TOP_BITS 3) ((224 <=? c) && (c <? 240)) &&
    Bool.eqb (Z.land c (TOP_BITS 5) =? TOP_BITS 4) ((240 <=? c) && (c <? 248)) &&
    Bool.eqb (Z.land c (TOP_BITS 2) =? TOP_BITS 1) ((128 <=? c) && (c <? 192))) eq_refl c Hc) as H.
  apply andb_true_iff in H as [H H4]. apply andb_true_iff in H as [H H3].
  apply andb_true_iff in H as [H1 H2]. repeat split; now apply Bool.eqb_prop.
Qed.

Lemma continuation_or v c : 0 <= v < 2 ^ 26 ->
  Z.lor (u32 (Z.shiftl v 6)) (Z.land c (BOTTOM_BITS 6)) = v * 64 + c mod 64.
Proof.
  intros Hv. change (BOTTOM_BITS 6) with 63. rewrite (land_ones_mod _ 6) by (reflexivity || lia).
  rewrite Z.shiftl_mul_pow2, wrap_small by lia. change (2 ^ 6) with 64.
  pose proof (Z.mod_pos_bound c 64 ltac:(lia)). apply (lor_add_mul _ v 6); lia.
Qed.

(** One continuation byte, both ways. *)
Lemma continuation_step len v x s : 0 <= v < 2 ^ 26 -> 0 <= x < 64 ->
  utf8_continuation (S len) v ((0x80 + x) :: s) = utf8_continuation len (v * 64 + x) s.
Proof.
  intros Hv Hx. cbn [utf8_continuation]. unfold bind at 1. rewrite CBS_get_u8_cons.
  destruct (lead_class (0x80 + x) ltac:(red; lia)) as (_ & _ & _ & ->).
  assert (B : (128 <=? 128 + x) && (128 + x <? 192) = true)
    by (apply andb_true_iff; split; [apply Z.leb_le|apply Z.ltb_lt]; lia).
  rewrite B. unfold bind, guard, ret. rewrite continuation_or by exact Hv. f_equal.
  replace ((128 + x) mod 64) with x; [reflexivity|]. apply Z.mod_unique with 2; lia.
Qed.

Lemma continuation_inv len v s w rest :
  bytes s -> 0 <= v < 2 ^ 26 -> utf8_continuation (S len) v s = (Some w, rest) ->
  exists x s', s = (0x80 + x) :: s' /\ 0 <= x < 64 /\ bytes s' /\
    utf8_continuation len (v * 64 + x) s' = (Some w, rest).
Proof.
  intros Hs Hv H. cbn [utf8_continuation] in H. apply bind_some_inv in H as (c & s1 & Hc & H).
  apply CBS_get_u8_inv in Hc. subst s. apply bytes_cons in Hs as [Hc Hs].
  apply bind_some_inv in H as (u & s2 & G & H). apply guard_inv in G as [G ->].
  destruct (lead_class c Hc) as (_ & _ & _ & E4). rewrite E4 in G. bsplit.
  rewrite continuation_or in H by exact Hv. exists (c - 128), s1.
  replace (c - 128) with (c mod 64); [|symmetry; apply Z.mod_unique with 2; lia].
  replace (0x80 + c mod 64) with c; [|rewrite (Z.mod_eq c 64) by lia;
    replace (c / 64) with 2 by (apply Z.div_unique with (c - 128); lia); lia].
  repeat split; auto; apply Z.mod_pos_bound; lia.
Qed.

(** The lead byte selects the arm: the number of continuation bytes and the
    least value that needs them. *)
Lemma get_utf8_lead c s : is_byte c -> 0x7f < c ->
  CBS_get_utf8 (c :: s) =
  (let finish v len lower := (let* v := utf8_continuation len v in
     guard (is_valid_code_point v && negb (v <? lower)) ;;; ret v) s in
   if c <? 192 then (None, s)
   else if c <? 224 then finish (c - 192) 1%nat 0x80
   else if c <? 240 then finish (c - 224) 2%nat 0x800
   else if c <? 248 then finish (c - 240) 3%nat 0x10000
   else (None, s)).
Proof.
  intros Hc Hb. unfold CBS_get_utf8. unfold bind at 1. rewrite CBS_get_u8_cons.
  destruct (Z.leb_spec c 0x7f); [lia|]. destruct (lead_class c Hc) as (-> & -> & -> & _).
  red in Hc. change (BOTTOM_BITS 5) with 31. change (BOTTOM_BITS 4) with 15.
  change (BOTTOM_BITS 3) with 7.
  rewrite (land_ones_mod c 5), (land_ones_mod c 4), (land_ones_mod c 3) by (reflexivity || lia).
  destruct (Z.ltb_spec c 192), (Z.leb_spec 192 c), (Z.ltb_spec c 224), (Z.leb_spec 224 c),
    (Z.ltb_spec c 240), (Z.leb_spec 240 c), (Z.ltb_spec c 248); cbn [andb]; try lia; try reflexivity.
  - now replace (c mod 2 ^ 5) with (c - 192) by (apply Z.mod_unique with 6; lia).
  - now replace (c mod 2 ^ 4) with (c - 224) by (apply Z.mod_unique with 14; lia).
  - now replace (c mod 2 ^ 3) with (c - 240) by (apply Z.mod_unique with 30; lia).
Qed.

Lemma div64_split u k : 0 <= k ->
  u / 64 ^ k = u / 64 ^ (k + 1) * 64 + (u / 64 ^ k) mod 64 /\ 0 <= (u / 64 ^ k) mod 64 < 64.
Proof.
  intros Hk. rewrite Z.pow_add_r, <- Z.div_div by (try apply Z.pow_pos_nonneg; lia).
  change (64 ^ 1) with 64. pose proof (Z.div_mod (u / 64 ^ k) 64 ltac:(lia)).
  pose proof (Z.mod_pos_bound (u / 64 ^ k) 64 ltac:(lia)). lia.
Qed.

Lemma CBS_get_utf8_utf8 u rest :
  0 <= u -> is_valid_code_point u = true -> CBS_get_utf8 (utf8 u ++ rest) = (Some u, rest).
Proof.
  intros H0 Hv. pose proof (valid_range u H0 Hv) as Hr. unfold utf8.
  destruct (div64_split u 0 ltac:(lia)) as [S0 M0]. destruct (div64_split u 1 ltac:(lia)) as [S1 M1].
  destruct (div64_split u 2 ltac:(lia)) as [S2 M2].
  change (0 + 1) with 1 in S0. change (1 + 1) with 2 in S1. change (2 + 1) with 3 in S2.
  change (64 ^ 0) with 1 in *. rewrite Z.div_1_r in *.
  change (64 ^ 1) with 64 in *.
  assert (D : 0 <= u / 64 ^ 3) by (apply Z.div_pos; lia).
  destruct (Z.ltb_spec u 0x80).
  { cbn [app]. unfold CBS_get_utf8, bind. rewrite CBS_get_u8_cons.
    destruct (Z.leb_spec u 0x7f); [reflexivity|lia]. }
  destruct (Z.ltb_spec u 0x800); [|destruct (Z.ltb_spec u 0x10000)]; cbn [app];
    rewrite get_utf8_lead by (first [red; lia | lia]); ztest; unfold bind at 1;
    [replace (0xc0 + u / 64 - 192) with (u / 64) by lia
    |replace (0xe0 + u / 64 ^ 2 - 224) with (u / 64 ^ 2) by lia
    |replace (0xf0 + u / 64 ^ 3 - 240) with (u / 64 ^ 3) by lia];
    repeat (rewrite continuation_step by lia; rewrite <- ?S2, <- ?S1, <- ?S0);
    unfold utf8_continuation, bind, ret; rewrite Hv;
    match goal with |- context [u <? ?lb] => destruct (Z.ltb_spec u lb); [lia|reflexivity] end.
Qed.

Lemma utf8_pieces q x : 0 <= x < 64 -> (q * 64 + x) / 64 = q /\ (q * 64 + x) mod 64 = x.
Proof.
  intros Hx. split.
  - symmetry. apply Z.div_unique with x; lia.
  - symmetry. apply Z.mod_unique with q; lia.
Qed.

Lemma CBS_get_utf8_inv s u rest :
  bytes s -> CBS_get_utf8 s = (Some u, rest) ->
  s = utf8 u ++ rest /\ is_valid_code_point u = true /\ 0 <= u.
Proof.
  intros Hs H. destruct s as [|c s]; [discriminate|]. apply bytes_cons in Hs as [Hc Hs].
  destruct (Z.leb_spec c 0x7f) as [L|L].
  { unfold CBS_get_utf8, bind in H. rewrite CBS_get_u8_cons in H.
    destruct (Z.leb_spec c 0x7f); [|lia]. apply ret_inv in H as [-> ->]. red in Hc.
    unfold utf8. destruct (Z.ltb_spec c 0x80); [|lia]. repeat split; [|lia].
    pose proof (all_bytes_spec (fun c => implb (c <? 128) (is_valid_code_point c)) eq_refl c Hc) as X.
    cbv beta in X. destruct (Z.ltb_spec c 128); [exact X|lia]. }
  rewrite get_utf8_lead in H by (assumption || lia). cbv zeta in H. red in Hc. revert H. ztest;
    try discriminate; intros R; apply bind_some_inv in R as (v & s1 & Hcont & R);
    apply bind_some_inv in R as (z & s2 & G & R); apply guard_inv in G as [G ->];
    apply ret_inv in R as [-> ->]; bsplit.
  - apply continuation_inv in Hcont as (x & s' & -> & Hx & Hb & Hcont); [|assumption|lia].
    apply ret_inv in Hcont as [-> ->]. destruct (utf8_pieces (c - 192) x Hx) as [P1 P2].
    split; [|split; [assumption|lia]]. unfold utf8. ztest. change (64 ^ 0) with 1. rewrite Z.div_1_r, P1, P2.
    cbn [app]. f_equal. lia.
  - apply continuation_inv in Hcont as (x & s' & -> & Hx & Hb & Hcont); [|assumption|lia].
    apply continuation_inv in Hcont as (y & s'' & -> & Hy & Hb' & Hcont); [|assumption|lia].
    apply ret_inv in Hcont as [-> ->]. destruct (utf8_pieces (c - 224) x Hx) as [P1 P2].
    destruct (utf8_pieces ((c - 224) * 64 + x) y Hy) as [Q1 Q2].
    split; [|split; [assumption|lia]]. unfold utf8. ztest. change (64 ^ 2) with (64 * 64).
    rewrite <- Z.div_div by lia. change (64 ^ 0) with 1. change (64 ^ 1) with 64.
    rewrite Z.div_1_r, Q1, P1, Q2, P2. cbn [app]. f_equal. lia.
  - apply continuation_inv in Hcont as (x & s' & -> & Hx & Hb & Hcont); [|assumption|lia].
    apply continuation_inv in Hcont as (y & s'' & -> & Hy & Hb' & Hcont); [|assumption|lia].
    apply continuation_inv in Hcont as (w & s3 & -> & Hw & Hb3 & Hcont); [|assumption|lia].
    apply ret_inv in Hcont as [-> ->]. destruct (utf8_pieces (c - 240) x Hx) as [P1 P2].
    destruct (utf8_pieces ((c - 240) * 64 + x) y Hy) as [Q1 Q2].
    destruct (utf8_pieces (((c - 240) * 64 + x) * 64 + y) w Hw) as [R1 R2].
    split; [|split; [assumption|lia]]. unfold utf8. ztest.
    change (64 ^ 3) with (64 * (64 * 64)). change (64 ^ 2) with (64 * 64).
    rewrite <- !Z.div_div by lia. change (64 ^ 0) with 1. change (64 ^ 1) with 64.
    rewrite Z.div_1_r, R1, Q1, P1, R2, Q2, P2. cbn [app]. f_equal. lia.
Qed.

Section Claims.
Context {E : Env}.
Hypothesis alloc : forall n, alloc_ok n = true.

Lemma build_utf8 u : 0 <= u -> is_valid_code_point u = true -> build 0 (CBB_add_utf8 0 u) = Some (utf8 u).
Proof.
  intros H0 Hv. apply build_write; try assumption; try lia.
  - now apply CBB_add_utf8_refines.
  - rewrite zlength_utf8. unfold CBB_get_utf8_len. ztest; lia.
Qed.

(** [CBB_add_utf8] writes exactly the code points that may be
    interchanged, in [CBB_get_utf8_len] bytes, and [CBS_get_utf8] reads each
    one back, leaving the bytes after it; for any other value it fails. *)
Theorem utf8_roundtrip u rest :
  0 <= u < 2 ^ 32 ->
  match build 0 (CBB_add_utf8 0 u) with
  | Some out => is_valid_code_point u = true /\ zlength out = CBB_get_utf8_len u /\
                CBS_get_utf8 (out ++ rest) = (Some u, rest)
  | None => is_valid_code_point u = false
  end.
Proof.
  intros Hu. destruct (is_valid_code_point u) eqn:V.
  - rewrite build_utf8 by (assumption || lia). repeat split; [apply zlength_utf8|].
    apply CBS_get_utf8_utf8; [lia|exact V].
  - pose proof (build_repr 0 (CBB_add_utf8 0 u) (fun _ => None) ltac:(lia)) as B.
    rewrite B; [reflexivity| |exact alloc]. unfold CBB_add_utf8. rewrite V. apply refines_fail.
Qed.

(** UTF-8 decoding is canonical: every string [CBS_get_utf8] accepts
    starts with the one encoding that [CBB_add_utf8] writes, so overlong forms,
    surrogates and noncharacters are all rejected. *)
Theorem utf8_canonical s u rest :
  bytes s -> CBS_get_utf8 s = (Some u, rest) ->
  exists out, build 0 (CBB_add_utf8 0 u) = Some out /\ s = out ++ rest.
Proof.
  intros Hs H. destruct (CBS_get_utf8_inv s u rest Hs H) as (-> & Hv & H0).
  exists (utf8 u). split; [now apply build_utf8|reflexivity].
Qed.

End Claims.

#[local] Instance utf8_demo_env : Env := { uninit := 0; alloc_ok := fun _ => true }.

(** U+20AC and U+1F600. *)
Lemma utf8_roundtrip_witness :
  build 0 (CBB_add_utf8 0 0x20ac) = Some [0xe2; 0x82; 0xac] /\
  CBS_get_utf8 [0xe2; 0x82; 0xac; 0x41] = (Some 0x20ac, [0x41]).
Proof.
  pose proof (@utf8_roundtrip utf8_demo_env (fun _ => eq_refl) 0x20ac [0x41] ltac:(lia)) as H.
  assert (Bu : build 0 (CBB_add_utf8 0 0x20ac) = Some [0xe2; 0x82; 0xac]) by (vm_compute; reflexivity).
  rewrite Bu in H. split; [exact Bu|apply H].
Defined.

Lemma utf8_canonical_witness :
  exists out, build 0 (CBB_add_utf8 0 0x1f600) = Some out /\
              [0xf0; 0x9f; 0x98; 0x80; 7] = out ++ [7].
Proof.
  apply (@utf8_canonical utf8_demo_env (fun _ => eq_refl) [0xf0; 0x9f; 0x98; 0x80; 7] 0x1f600 [7]).
  - repeat constructor; lia.
  - vm_compute. reflexivity.
Defined.
