(* ===== verification/Base64.v ===== *)
(** Base64: [crypto/base64/base64.cc].  The constant-time alphabet, the block
    encoder and decoder, and the streaming encoder and decoder with their
    context. *)
From Stdlib Require Import ZArith List Lia Bool.
From S2P Require Import Prelude CryptoInternal.
Import ListNotations.
Open Scope Z_scope.

(** ** The alphabet *)

Definition constant_time_lt_args_8 (a b : Z) : Z := u8 (constant_time_msb_w (u64 (a - b))).
Definition constant_time_in_range_8 (a min max : Z) : Z :=
  constant_time_lt_args_8 (u8 (a - min)) (u8 (max - min + 1)).

Definition conv_bin2ascii (a : Z) : Z :=
  let a := Z.land a 0x3f in
  let ret := constant_time_select_8 (constant_time_eq_8 a 62) 43 47 in
  let ret := constant_time_select_8 (constant_time_lt_args_8 a 62) (u8 (a - 52 + 48)) ret in
  let ret := constant_time_select_8 (constant_time_lt_args_8 a 52) (u8 (a - 26 + 97)) ret in
  constant_time_select_8 (constant_time_lt_args_8 a 26) (u8 (a + 65)) ret.

Definition base64_ascii_to_bin (a : Z) : Z :=
  let is_upper := constant_time_in_range_8 a 65 90 in
  let is_lower := constant_time_in_range_8 a 97 122 in
  let is_digit := constant_time_in_range_8 a 48 57 in
  let is_plus := constant_time_eq_8 a 43 in
  let is_slash := constant_time_eq_8 a 47 in
  let is_equals := constant_time_eq_8 a 61 in
  let ret := Z.land is_upper (u8 (a - 65)) in
  let ret := Z.lor ret (Z.land is_lower (u8 (a - 97 + 26))) in
  let ret := Z.lor ret (Z.land is_digit (u8 (a - 48 + 52))) in
  let ret := Z.lor ret (Z.land is_plus 62) in
  let ret := Z.lor ret (Z.land is_slash 63) in
  let is_valid := Z.lor (Z.lor (Z.lor (Z.lor (Z.lor is_upper is_lower) is_digit) is_plus) is_slash)
                    is_equals in
  Z.lor ret (lnot8 is_valid).

(** ** Blocks *)

(** The characters stored at [dst]; the terminating zero is left out. *)
Fixpoint EVP_EncodeBlock (src : list Z) : list Z :=
  match src with
  | [] => []
  | s0 :: s1 :: s2 :: src' =>
      let l := Z.lor (Z.lor (Z.shiftl s0 16) (Z.shiftl s1 8)) s2 in
      conv_bin2ascii (u8 (Z.shiftr l 18)) :: conv_bin2ascii (u8 (Z.shiftr l 12)) ::
      conv_bin2ascii (u8 (Z.shiftr l 6)) :: conv_bin2ascii (u8 l) :: EVP_EncodeBlock src'
  | [s0; s1] =>
      let l := Z.lor (Z.shiftl s0 16) (Z.shiftl s1 8) in
      [conv_bin2ascii (u8 (Z.shiftr l 18)); conv_bin2ascii (u8 (Z.shiftr l 12));
       conv_bin2ascii (u8 (Z.shiftr l 6)); 61]
  | [s0] =>
      let l := Z.shiftl s0 16 in
      [conv_bin2ascii (u8 (Z.shiftr l 18)); conv_bin2ascii (u8 (Z.shiftr l 12)); 61; 61]
  end.

Definition EVP_EncodedLength (len : Z) : option Z :=
  if u64 (len + 2) <? len then None
  else
    let len := u64 (len + 2) / 3 in
    if negb (Z.shiftr (u64 (Z.shiftl len 2)) 2 =? len) then None
    else
      let len := u64 (Z.shiftl len 2) in
      if u64 (len + 1) <? len then None else Some (u64 (len + 1)).

Definition EVP_DecodedLength (len : Z) : option Z :=
  if negb (len mod 4 =? 0) then None else Some (len / 4 * 3).

Definition base64_decode_quad (in0 in1 in2 in3 : Z) : option (list Z) :=
  let a := base64_ascii_to_bin in0 in
  let b := base64_ascii_to_bin in1 in
  let c := base64_ascii_to_bin in2 in
  let d := base64_ascii_to_bin in3 in
  if (a =? 0xff) || (b =? 0xff) || (c =? 0xff) || (d =? 0xff) then None
  else
    let v := Z.lor (Z.lor (Z.lor (Z.shiftl a 18) (Z.shiftl b 12)) (Z.shiftl c 6)) d in
    let bit (x : bool) := if x then 1 else 0 in
    let padding_pattern :=
      Z.lor (Z.lor (Z.lor (Z.shiftl (bit (in0 =? 61)) 3) (Z.shiftl (bit (in1 =? 61)) 2))
               (Z.shiftl (bit (in2 =? 61)) 1)) (bit (in3 =? 61)) in
    if padding_pattern =? 0 then Some [u8 (Z.shiftr v 16); u8 (Z.shiftr v 8); u8 v]
    else if padding_pattern =? 1 then Some [u8 (Z.shiftr v 16); u8 (Z.shiftr v 8)]
    else if padding_pattern =? 3 then Some [u8 (Z.shiftr v 16)]
    else None.

(** The loop of [EVP_DecodeBase64]; a quad that yields fewer than three bytes
    must be the last. *)
Fixpoint decode_quads (inp : list Z) : option (list Z) :=
  match inp with
  | i0 :: i1 :: i2 :: i3 :: inp' =>
      let? out := base64_decode_quad i0 i1 i2 i3 in
      if negb (zlength out =? 3) && negb (zlength inp' =? 0) then None
      else let? rest := decode_quads inp' in Some (out ++ rest)
  | _ => Some []
  end.

Definition EVP_DecodeBase64 (max_out : Z) (inp : list Z) : option (list Z) :=
  if negb (zlength inp mod 4 =? 0) then None
  else
    let? max_len := EVP_DecodedLength (zlength inp) in
    if max_out <? max_len then None else decode_quads inp.

Definition is_space_or_tab (c : Z) : bool := (c =? 32) || (c =? 9).
Definition is_base64_space (c : Z) : bool := is_space_or_tab c || (c =? 13) || (c =? 10).

Fixpoint trim_start (f : Z -> bool) (l : list Z) : list Z :=
  match l with
  | c :: l' => if f c then trim_start f l' else l
  | [] => []
  end.

Definition EVP_DecodeBlock (src : list Z) : option (list Z) :=
  let src := trim_start is_space_or_tab src in
  let src := rev (trim_start is_base64_space (rev src)) in
  let? dst_len := EVP_DecodedLength (zlength src) in
  if dst_len >? INT_MAX then None
  else
    let? dst := EVP_DecodeBase64 dst_len src in
    Some (dst ++ repeat 0 (Z.to_nat ((3 - zlength dst mod 3) mod 3))).

(** ** Streaming *)

(** [ctx_data] is the first [data_used] bytes of [data]. *)
Record EVP_ENCODE_CTX := {
  ctx_data : list Z;
  ctx_eof_seen : bool;
  ctx_error_encountered : bool
}.

Definition EVP_EncodeInit : EVP_ENCODE_CTX :=
  {| ctx_data := []; ctx_eof_seen := false; ctx_error_encountered := false |}.
Definition EVP_DecodeInit : EVP_ENCODE_CTX := EVP_EncodeInit.

Definition set_data (d : list Z) (ctx : EVP_ENCODE_CTX) : EVP_ENCODE_CTX :=
  {| ctx_data := d; ctx_eof_seen := ctx_eof_seen ctx;
     ctx_error_encountered := ctx_error_encountered ctx |}.

Definition sizeof_data : Z := 48.

(** The [while (in_len >= sizeof(ctx->data))] loop: what it stored, [total]
    ([None] when it overflowed) and the input that is left.  Each round takes
    48 bytes, so the input's length is enough fuel. *)
Fixpoint encode_blocks (fuel : nat) (inp : list Z) (out : list Z) (total : Z)
  : list Z * option Z * list Z :=
  match fuel with
  | O => (out, Some total, inp)
  | S fuel' =>
      if zlength inp >=? sizeof_data then
        let encoded := EVP_EncodeBlock (firstn 48 inp) in
        let inp := skipn 48 inp in
        let out := out ++ encoded ++ [10] in
        if u64 (total + zlength encoded + 1) <? total then (out, None, inp)
        else encode_blocks fuel' inp out (u64 (total + zlength encoded + 1))
      else (out, Some total, inp)
  end.

(** The new context, the bytes stored at [out] and [*out_len]. *)
Definition EVP_EncodeUpdate (ctx : EVP_ENCODE_CTX) (inp : list Z) : EVP_ENCODE_CTX * list Z * Z :=
  let data := ctx_data ctx in
  if zlength inp =? 0 then (ctx, [], 0)
  else if sizeof_data - zlength data >? zlength inp then (set_data (data ++ inp) ctx, [], 0)
  else
    let '(ctx1, out, total, inp) :=
      if negb (zlength data =? 0) then
        let todo := Z.to_nat (sizeof_data - zlength data) in
        let encoded := EVP_EncodeBlock (data ++ firstn todo inp) in
        (set_data [] ctx, encoded ++ [10], zlength encoded + 1, skipn todo inp)
      else (ctx, [], 0, inp) in
    match encode_blocks (length inp) inp out total with
    | (out, None, _) => (ctx1, out, 0)
    | (out, Some total, inp) =>
        (set_data inp ctx1, out, if total >? INT_MAX then 0 else total)
    end.

Definition EVP_EncodeFinal (ctx : EVP_ENCODE_CTX) : EVP_ENCODE_CTX * list Z * Z :=
  if zlength (ctx_data ctx) =? 0 then (ctx, [], 0)
  else
    let out := EVP_EncodeBlock (ctx_data ctx) ++ [10] in
    (set_data [] ctx, out, zlength out).

Definition set_decode_error (ctx : EVP_ENCODE_CTX) : EVP_ENCODE_CTX :=
  {| ctx_data := ctx_data ctx; ctx_eof_seen := ctx_eof_seen ctx; ctx_error_encountered := true |}.

(** One character of [EVP_DecodeUpdate]; [None] in the result is [return -1]. *)
Definition decode_char (ctx : EVP_ENCODE_CTX) (c : Z) : option (list Z) * EVP_ENCODE_CTX :=
  if is_base64_space c then (Some [], ctx)
  else if ctx_eof_seen ctx then (None, set_decode_error ctx)
  else
    let ctx := set_data (ctx_data ctx ++ [c]) ctx in
    match ctx_data ctx with
    | [d0; d1; d2; d3] =>
        match base64_decode_quad d0 d1 d2 d3 with
        | None => (None, set_decode_error ctx)
        | Some out =>
            (Some out,
             {| ctx_data := [];
                ctx_eof_seen := ctx_eof_seen ctx || (zlength out <? 3);
                ctx_error_encountered := ctx_error_encountered ctx |})
        end
    | _ => (Some [], ctx)
    end.

Fixpoint decode_chars (ctx : EVP_ENCODE_CTX) (inp out : list Z) : option (list Z) * EVP_ENCODE_CTX :=
  match inp with
  | [] => (Some out, ctx)
  | c :: inp' =>
      match decode_char ctx c with
      | (None, ctx') => (None, ctx')
      | (Some o, ctx') => decode_chars ctx' inp' (out ++ o)
      end
  end.

(** The return value (-1, 0 or 1), the bytes stored and the new context. *)
Definition EVP_DecodeUpdate (ctx : EVP_ENCODE_CTX) (inp : list Z) : Z * list Z * EVP_ENCODE_CTX :=
  if ctx_error_encountered ctx then (-1, [], ctx)
  else match decode_chars ctx inp [] with
       | (None, ctx') => (-1, [], ctx')
       | (Some out, ctx') =>
           if zlength out >? INT_MAX then (-1, [], set_decode_error ctx')
           else (if ctx_eof_seen ctx' then 0 else 1, out, ctx')
       end.

Definition EVP_DecodeFinal (ctx : EVP_ENCODE_CTX) : Z :=
  if ctx_error_encountered ctx || negb (zlength (ctx_data ctx) =? 0) then -1 else 1.

(** ** The alphabet as a table (RFC 4648, table 1) *)

Definition alphabet : list Z :=
  map (fun i => Z.of_nat i + 65) (seq 0 26) ++ map (fun i => Z.of_nat i + 97) (seq 0 26) ++
  map (fun i => Z.of_nat i + 48) (seq 0 10) ++ [43; 47].

(** The position of [c] in the table. *)
Fixpoint position (c : Z) (l : list Z) (i : Z) : option Z :=
  match l with
  | [] => None
  | x :: l' => if c =? x then Some i else position c l' (i + 1)
  end.

Definition from_alphabet (c : Z) : Z :=
  match position c alphabet 0 with
  | Some i => i
  | None => if c =? 61 then 0 else 0xff
  end.

(** the branch-free conversions are the table: for every byte,
    [conv_bin2ascii] returns the character of RFC 4648 for its low six bits, and
    [base64_ascii_to_bin] the position of the character, 0 for the padding
    character and 0xff for every byte outside the alphabet. *)
Theorem base64_constant_time_table a :
  is_byte a ->
  conv_bin2ascii a = nth (Z.to_nat (a mod 64)) alphabet 0 /\ base64_ascii_to_bin a = from_alphabet a.
Proof.
  intros Ha.
  pose proof (all_bytes_spec (fun a => (conv_bin2ascii a =? nth (Z.to_nat (a mod 64)) alphabet 0) &&
    (base64_ascii_to_bin a =? from_alphabet a)) ltac:(vm_compute; reflexivity) a Ha) as H.
  cbv beta in H. bsplit. auto.
Qed.

(** What the decoder needs to know of an encoded character. *)
Lemma conv_char w :
  let c := conv_bin2ascii (u8 w) in
  base64_ascii_to_bin c = w mod 64 /\ (c =? 61) = false /\ is_base64_space c = false.
Proof.
  pose proof (all_bytes_spec (fun a =>
    (base64_ascii_to_bin (conv_bin2ascii a) =? a mod 64) && negb (conv_bin2ascii a =? 61) &&
    negb (is_base64_space (conv_bin2ascii a))) ltac:(vm_compute; reflexivity)
    (u8 w) (wrap_range 8 w ltac:(lia))) as H.
  cbv beta in H. apply andb_true_iff in H as [H H3]. apply andb_true_iff in H as [H1 H2].
  apply Z.eqb_eq in H1. apply negb_true_iff in H2, H3. repeat split; [|exact H2|exact H3].
  rewrite H1. unfold wrap. apply Z.mod_mod_divide. exists 4. reflexivity.
Qed.

Lemma shift_or3 x y z : is_byte y -> is_byte z ->
  Z.lor (Z.lor (Z.shiftl x 16) (Z.shiftl y 8)) z = x * 2 ^ 16 + y * 2 ^ 8 + z.
Proof.
  unfold is_byte. intros Hy Hz. rewrite !Z.shiftl_mul_pow2 by lia.
  rewrite (lor_add_mul (x * 2 ^ 16) x 16) by lia.
  apply (lor_add_mul _ (x * 2 ^ 8 + y) 8); lia.
Qed.

Lemma shift_or4 a b c d : 0 <= b < 64 -> 0 <= c < 64 -> 0 <= d < 64 ->
  Z.lor (Z.lor (Z.lor (Z.shiftl a 18) (Z.shiftl b 12)) (Z.shiftl c 6)) d =
  a * 2 ^ 18 + b * 2 ^ 12 + c * 2 ^ 6 + d.
Proof.
  intros Hb Hc Hd. rewrite !Z.shiftl_mul_pow2 by lia.
  rewrite (lor_add_mul (a * 2 ^ 18) a 18) by lia.
  rewrite (lor_add_mul (a * 2 ^ 18 + b * 2 ^ 12) (a * 2 ^ 6 + b) 12) by lia.
  apply (lor_add_mul _ (a * 2 ^ 12 + b * 2 ^ 6 + c) 6); lia.
Qed.

(** The four sextets of a 24-bit word. *)
Lemma sextets l : 0 <= l < 2 ^ 24 ->
  (l / 2 ^ 18) mod 64 * 2 ^ 18 + (l / 2 ^ 12) mod 64 * 2 ^ 12 + (l / 2 ^ 6) mod 64 * 2 ^ 6 + l mod 64 = l.
Proof.
  intros Hl. change (2 ^ 18) with (64 * (64 * 64)). change (2 ^ 12) with (64 * 64). change (2 ^ 6) with 64.
  rewrite <- !Z.div_div by lia.
  pose proof (Z.div_mod l 64 ltac:(lia)). pose proof (Z.div_mod (l / 64) 64 ltac:(lia)).
  pose proof (Z.div_mod (l / 64 / 64) 64 ltac:(lia)).
  rewrite (Z.mod_small (l / 64 / 64 / 64)); [lia|].
  pose proof (Z.mod_pos_bound l 64 ltac:(lia)). pose proof (Z.mod_pos_bound (l / 64) 64 ltac:(lia)).
  pose proof (Z.mod_pos_bound (l / 64 / 64) 64 ltac:(lia)). lia.
Qed.

(** The bytes of a 24-bit word. *)
Lemma word_bytes x y z : is_byte x -> is_byte y -> is_byte z ->
  let l := x * 2 ^ 16 + y * 2 ^ 8 + z in
  u8 (Z.shiftr l 16) = x /\ u8 (Z.shiftr l 8) = y /\ u8 l = z /\ 0 <= l < 2 ^ 24.
Proof.
  intros Hx Hy Hz l. red in Hx, Hy, Hz. rewrite !shiftr_div by lia. unfold wrap. change (2 ^ 8) with 256.
  assert (E1 : l / 2 ^ 16 = x) by (symmetry; apply Z.div_unique with (y * 2 ^ 8 + z); unfold l; lia).
  assert (E2 : l / 256 = x * 256 + y) by (symmetry; apply Z.div_unique with z; unfold l; lia).
  rewrite E1, E2. unfold l. repeat split; try lia; symmetry.
  - apply Z.mod_unique with 0; lia.
  - apply Z.mod_unique with x; lia.
  - apply Z.mod_unique with (x * 256 + y); lia.
Qed.

Lemma mod64_not_ff w : (w mod 64 =? 0xff) = false.
Proof. apply Z.eqb_neq. pose proof (Z.mod_pos_bound w 64 ltac:(lia)). lia. Qed.

Lemma decode_quad_3 x y z : is_byte x -> is_byte y -> is_byte z ->
  let l := Z.lor (Z.lor (Z.shiftl x 16) (Z.shiftl y 8)) z in
  base64_decode_quad (conv_bin2ascii (u8 (Z.shiftr l 18))) (conv_bin2ascii (u8 (Z.shiftr l 12)))
    (conv_bin2ascii (u8 (Z.shiftr l 6))) (conv_bin2ascii (u8 l)) = Some [x; y; z].
Proof.
  intros Hx Hy Hz. cbv zeta. rewrite shift_or3 by assumption.
  destruct (word_bytes x y z Hx Hy Hz) as (W1 & W2 & W3 & W4). cbv zeta in *.
  set (l := x * 2 ^ 16 + y * 2 ^ 8 + z) in *. unfold base64_decode_quad.
  destruct (conv_char (Z.shiftr l 18)) as (-> & -> & _). destruct (conv_char (Z.shiftr l 12)) as (-> & -> & _).
  destruct (conv_char (Z.shiftr l 6)) as (-> & -> & _). destruct (conv_char l) as (-> & -> & _).
  rewrite !mod64_not_ff. cbn [orb].
  rewrite shift_or4 by (apply Z.mod_pos_bound; lia). rewrite !(shiftr_div _ 18), !(shiftr_div _ 12),
    !(shiftr_div _ 6) by lia. rewrite sextets by exact W4. cbn [Z.shiftl Z.lor Z.eqb].
  now rewrite W1, W2, W3.
Qed.

Lemma decode_quad_2 x y : is_byte x -> is_byte y ->
  let l := Z.lor (Z.shiftl x 16) (Z.shiftl y 8) in
  base64_decode_quad (conv_bin2ascii (u8 (Z.shiftr l 18))) (conv_bin2ascii (u8 (Z.shiftr l 12)))
    (conv_bin2ascii (u8 (Z.shiftr l 6))) 61 = Some [x; y].
Proof.
  intros Hx Hy. cbv zeta. rewrite <- (Z.lor_0_r (Z.lor (Z.shiftl x 16) (Z.shiftl y 8))).
  rewrite shift_or3 by (assumption || (red; lia)).
  destruct (word_bytes x y 0 Hx Hy ltac:(red; lia)) as (W1 & W2 & W3 & W4). cbv zeta in *.
  set (l := x * 2 ^ 16 + y * 2 ^ 8 + 0) in *. unfold base64_decode_quad.
  destruct (conv_char (Z.shiftr l 18)) as (-> & -> & _). destruct (conv_char (Z.shiftr l 12)) as (-> & -> & _).
  destruct (conv_char (Z.shiftr l 6)) as (-> & -> & _).
  assert (L0 : base64_ascii_to_bin 61 = l mod 64).
  { change (base64_ascii_to_bin 61) with 0. apply Z.mod_unique with (x * 2 ^ 10 + y * 2 ^ 2); unfold l; lia. }
  rewrite L0.
  rewrite !mod64_not_ff. cbn [orb].
  rewrite shift_or4 by (apply Z.mod_pos_bound; lia). rewrite !(shiftr_div _ 18), !(shiftr_div _ 12),
    !(shiftr_div _ 6) by lia. rewrite sextets by exact W4. cbn [Z.shiftl Z.lor Z.eqb].
  now rewrite W1, W2.
Qed.

Lemma decode_quad_1 x : is_byte x ->
  let l := Z.shiftl x 16 in
  base64_decode_quad (conv_bin2ascii (u8 (Z.shiftr l 18))) (conv_bin2ascii (u8 (Z.shiftr l 12))) 61 61
  = Some [x].
Proof.
  intros Hx. cbv zeta.
  destruct (word_bytes x 0 0 Hx ltac:(red; lia) ltac:(red; lia)) as (W1 & _ & _ & W4). cbv zeta in *.
  replace (Z.shiftl x 16) with (x * 2 ^ 16 + 0 * 2 ^ 8 + 0) by (rewrite Z.shiftl_mul_pow2; lia).
  set (l := x * 2 ^ 16 + 0 * 2 ^ 8 + 0) in *.
  unfold base64_decode_quad.
  destruct (conv_char (Z.shiftr l 18)) as (-> & -> & _). destruct (conv_char (Z.shiftr l 12)) as (-> & -> & _).
  assert (L0 : l mod 64 = 0) by (symmetry; apply Z.mod_unique with (x * 2 ^ 10); unfold l; lia).
  assert (L6 : (l / 2 ^ 6) mod 64 = 0).
  { replace (l / 2 ^ 6) with (x * 2 ^ 10) by (apply Z.div_unique with 0; unfold l; lia).
    symmetry. apply Z.mod_unique with (x * 2 ^ 4); lia. }
  change (base64_ascii_to_bin 61) with 0. rewrite !mod64_not_ff. cbn [orb Z.eqb].
  pose proof (sextets l W4) as S. rewrite L0, L6 in S.
  rewrite shift_or4 by (try apply Z.mod_pos_bound; lia). rewrite !(shiftr_div _ 18), !(shiftr_div _ 12) by lia.
  rewrite S. cbn [Z.shiftl Z.lor Z.eqb]. now rewrite W1.
Qed.

(** ** Whole strings *)

(** Induction three bytes at a time. *)
Lemma triple_ind (P : list Z -> Prop) :
  P [] -> (forall x, P [x]) -> (forall x y, P [x; y]) ->
  (forall x y z l, P l -> P (x :: y :: z :: l)) -> forall l, P l.
Proof.
  intros H0 H1 H2 H3 l. assert (H : P l /\ (forall x, P (x :: l)) /\ (forall x y, P (x :: y :: l))); [|apply H].
  induction l as [|a l (I1 & I2 & I3)]; auto.
Qed.

Lemma zlength_EncodeBlock src : zlength (EVP_EncodeBlock src) = (zlength src + 2) / 3 * 4.
Proof.
  induction src using triple_ind; try reflexivity.
  cbn [EVP_EncodeBlock]. rewrite !zlength_cons, IHsrc.
  replace (1 + (1 + (1 + zlength src)) + 2) with (1 * 3 + (zlength src + 2)) by lia.
  rewrite Z.div_add_l by lia. lia.
Qed.

Lemma decode_encode_block src : bytes src -> decode_quads (EVP_EncodeBlock src) = Some src.
Proof.
  induction src as [|x|x y|x y z src IH] using triple_ind; intros H.
  - reflexivity.
  - apply bytes_cons in H as [Hx _]. cbn [EVP_EncodeBlock decode_quads].
    rewrite decode_quad_1 by exact Hx. reflexivity.
  - apply bytes_cons in H as [Hx H]. apply bytes_cons in H as [Hy _]. cbn [EVP_EncodeBlock decode_quads].
    rewrite decode_quad_2 by assumption. reflexivity.
  - apply bytes_cons in H as [Hx H]. apply bytes_cons in H as [Hy H]. apply bytes_cons in H as [Hz H].
    cbn [EVP_EncodeBlock decode_quads]. rewrite decode_quad_3 by assumption. cbn [obind].
    change (zlength [x; y; z]) with 3. cbn [Z.eqb Pos.eqb negb andb]. now rewrite IH.
Qed.

(** base64 round trip: decoding the encoding of any byte string gives it
    back, given an output buffer of the size [EVP_DecodedLength] asks for. *)
Theorem base64_roundtrip src max_out :
  bytes src -> (zlength src + 2) / 3 * 3 <= max_out ->
  EVP_DecodeBase64 max_out (EVP_EncodeBlock src) = Some src.
Proof.
  intros Hs Hm. unfold EVP_DecodeBase64, EVP_DecodedLength. rewrite zlength_EncodeBlock.
  rewrite Z.mod_mul by lia. cbn [Z.eqb negb obind]. rewrite Z.div_mul by lia.
  destruct (Z.ltb_spec max_out ((zlength src + 2) / 3 * 3)); [lia|]. now apply decode_encode_block.
Qed.

(** [EVP_EncodedLength] is exact: it returns the length of the encoding
    plus its terminating zero whenever that fits a [size_t], and fails
    otherwise; no intermediate step overflows unnoticed. *)
Theorem EncodedLength_exact src :
  zlength src < 2 ^ 64 ->
  EVP_EncodedLength (zlength src) =
  (if zlength (EVP_EncodeBlock src) + 1 <? 2 ^ 64 then Some (zlength (EVP_EncodeBlock src) + 1) else None).
Proof.
  intros Hl. rewrite zlength_EncodeBlock. set (n := zlength src) in *.
  assert (0 <= n) by apply zlength_nonneg. unfold EVP_EncodedLength.
  destruct (Z.lt_ge_cases (n + 2) (2 ^ 64)) as [Hs|Hs].
  2:{ unfold wrap at 1. replace ((n + 2) mod 2 ^ 64) with (n + 2 - 2 ^ 64) by (apply Z.mod_unique with 1; lia).
      destruct (Z.ltb_spec (n + 2 - 2 ^ 64) n); [|lia].
      assert ((2 ^ 64) / 3 <= (n + 2) / 3) by (apply Z.div_le_mono; lia).
      change (2 ^ 64 / 3) with 6148914691236517205 in *. ztest; reflexivity. }
  rewrite (wrap_small 64 (n + 2)) by lia. destruct (Z.ltb_spec (n + 2) n); [lia|].
  set (q := (n + 2) / 3). assert (Hq : 0 <= q < 2 ^ 63)
    by (split; [apply Z.div_pos|apply Z.div_lt_upper_bound]; lia).
  rewrite Z.shiftl_mul_pow2 by lia. change (2 ^ 2) with 4. unfold wrap at 1.
  destruct (Z.lt_ge_cases (q * 4) (2 ^ 64)) as [Hq4|Hq4].
  - rewrite Z.mod_small by lia. rewrite shiftr_div, Z.div_mul by lia. rewrite Z.eqb_refl. cbn [negb].
    rewrite (wrap_small 64 (q * 4)) by lia.
    destruct (Z.eq_dec (q * 4 + 1) (2 ^ 64)); [lia|]. rewrite wrap_small by lia. ztest; reflexivity.
  - assert (E : Z.shiftr ((q * 4) mod 2 ^ 64) 2 <> q).
    { rewrite shiftr_div by lia. pose proof (Z.mod_pos_bound (q * 4) (2 ^ 64) ltac:(lia)).
      assert ((q * 4) mod 2 ^ 64 / 2 ^ 2 < 2 ^ 62) by (apply Z.div_lt_upper_bound; lia). lia. }
    destruct (Z.eqb_spec (Z.shiftr ((q * 4) mod 2 ^ 64) 2) q); [contradiction|]. cbn [negb].
    ztest. reflexivity.
Qed.

(** ** Streaming *)

(** A caller's view: feed the chunks, keep [*out_len] bytes of each call. *)
Fixpoint encode_updates (ctx : EVP_ENCODE_CTX) (chunks : list (list Z)) : list Z :=
  match chunks with
  | [] => let '(_, out, out_len) := EVP_EncodeFinal ctx in firstn (Z.to_nat out_len) out
  | c :: chunks' =>
      let '(ctx', out, out_len) := EVP_EncodeUpdate ctx c in
      firstn (Z.to_nat out_len) out ++ encode_updates ctx' chunks'
  end.
Definition encode_stream (chunks : list (list Z)) : list Z := encode_updates EVP_EncodeInit chunks.

Fixpoint decode_updates (ctx : EVP_ENCODE_CTX) (chunks : list (list Z)) : option (list Z) :=
  match chunks with
  | [] => if EVP_DecodeFinal ctx =? -1 then None else Some []
  | c :: chunks' =>
      let '(r, out, ctx') := EVP_DecodeUpdate ctx c in
      if r =? -1 then None else let? rest := decode_updates ctx' chunks' in Some (out ++ rest)
  end.
Definition decode_stream (chunks : list (list Z)) : option (list Z) := decode_updates EVP_DecodeInit chunks.

(** The reference: lines of 48 bytes, each encoded and ended by a newline. *)
Definition line (b : list Z) : list Z := EVP_EncodeBlock b ++ [10].
Definition text_of (blocks : list (list Z)) : list Z := concat (map line blocks).
Fixpoint lines (fuel : nat) (src : list Z) : list Z :=
  match fuel with
  | O => []
  | S fuel' => match src with [] => [] | _ => line (firstn 48 src) ++ lines fuel' (skipn 48 src) end
  end.
Definition pem_lines (src : list Z) : list Z := lines (length src) src.

Definition full (blocks : list (list Z)) : Prop := Forall (fun b => length b = 48%nat) blocks.
Definition tail_line (d : list Z) : list Z := match d with [] => [] | _ => line d end.

Lemma length_line b : length b = 48%nat -> zlength (line b) = 65.
Proof. intros H. unfold line. rewrite zlength_app, zlength_EncodeBlock. unfold zlength. rewrite H. reflexivity. Qed.

Lemma zlength_text blocks : full blocks -> zlength (text_of blocks) = 65 * zlength blocks.
Proof.
  induction 1 as [|b blocks Hb _ IH]; [reflexivity|]. unfold text_of in *. cbn [map concat].
  rewrite zlength_app, length_line, IH, zlength_cons by exact Hb. lia.
Qed.

Lemma zlength_full blocks : full blocks -> zlength (concat blocks) = 48 * zlength blocks.
Proof.
  induction 1 as [|b blocks Hb _ IH]; [reflexivity|]. cbn [concat].
  rewrite zlength_app, IH, zlength_cons. unfold zlength at 1. lia.
Qed.

Lemma split48 (inp : list Z) : (48 <= length inp)%nat ->
  length (firstn 48 inp) = 48%nat /\ length (skipn 48 inp) = (length inp - 48)%nat.
Proof. intros H. rewrite length_firstn, length_skipn. lia. Qed.

Lemma lines_blocks blocks d : full blocks -> (length d < 48)%nat -> forall fuel,
  (length (concat blocks ++ d) <= fuel)%nat -> lines fuel (concat blocks ++ d) = text_of blocks ++ tail_line d.
Proof.
  intros Hb Hd. induction Hb as [|b blocks Hb _ IH]; intros fuel Hf; cbn [concat app] in *.
  - destruct d as [|x d]; [now destruct fuel|]. destruct fuel as [|fuel]; [cbn in Hf; lia|].
    cbn [lines tail_line]. rewrite firstn_all2, skipn_all2 by lia.
    replace (lines fuel []) with (@nil Z) by now destruct fuel. unfold text_of. cbn. now rewrite app_nil_r.
  - rewrite <- app_assoc in *. rewrite length_app in Hf. destruct fuel as [|fuel]; [lia|].
    cbn [lines]. destruct (b ++ concat blocks ++ d) as [|y r] eqn:Er.
    { apply (f_equal (@length Z)) in Er. rewrite length_app in Er. cbn in Er. lia. }
    rewrite <- Er, firstn_app, skipn_app, Hb, Nat.sub_diag. rewrite firstn_all2, skipn_all2 by lia.
    cbn [firstn skipn app]. rewrite app_nil_r, IH by lia. unfold text_of. cbn [map concat].
    now rewrite app_assoc.
Qed.

(** The block loop. *)
Lemma encode_blocks_spec fuel : forall inp out total,
  (length inp <= fuel)%nat -> 0 <= total -> total + 2 * zlength inp + 100 < 2 ^ 64 ->
  exists blocks rest, encode_blocks fuel inp out total =
      (out ++ text_of blocks, Some (total + zlength (text_of blocks)), rest) /\
    inp = concat blocks ++ rest /\ full blocks /\ (length rest < 48)%nat.
Proof.
  induction fuel as [|fuel IH]; intros inp out total Hf Ht Hb; cbn [encode_blocks].
  - exists [], inp. unfold text_of. cbn. rewrite app_nil_r, Z.add_0_r. repeat split; [constructor|].
    destruct inp; cbn in *; lia.
  - rewrite Z.geb_leb. unfold sizeof_data. destruct (Z.leb_spec 48 (zlength inp)) as [L|L].
    2:{ exists [], inp. unfold text_of. cbn. rewrite app_nil_r, Z.add_0_r. repeat split; [constructor|].
        unfold zlength in L. lia. }
    assert (L' : (48 <= length inp)%nat) by (unfold zlength in L; lia).
    destruct (split48 inp L') as [S1 S2]. pose proof (length_line _ S1) as Ll. unfold line in Ll.
    rewrite zlength_app in Ll. change (zlength [10]) with 1 in Ll.
    replace (zlength (EVP_EncodeBlock (firstn 48 inp))) with 64 by lia.
    rewrite wrap_small by lia. destruct (Z.ltb_spec (total + 64 + 1) total); [lia|].
    destruct (IH (skipn 48 inp) (out ++ EVP_EncodeBlock (firstn 48 inp) ++ [10]) (total + 64 + 1))
      as (blocks & rest & -> & Ei & Hfu & Hr); [lia|lia|unfold zlength in *; rewrite S2; lia|].
    exists (firstn 48 inp :: blocks), rest. unfold text_of in *. cbn [map concat]. repeat split.
    + rewrite zlength_app, (length_line _ S1). unfold line. rewrite <- !app_assoc.
      do 3 f_equal. lia.
    + rewrite <- app_assoc, <- Ei. symmetry. apply firstn_skipn.
    + now constructor.
    + exact Hr.
Qed.

(** One call: whole lines out, fewer than 48 bytes kept. *)
Lemma EncodeUpdate_spec ctx inp :
  (length (ctx_data ctx) < 48)%nat -> zlength inp < 2 ^ 30 ->
  exists blocks rest, EVP_EncodeUpdate ctx inp = (set_data rest ctx, text_of blocks, zlength (text_of blocks)) /\
    ctx_data ctx ++ inp = concat blocks ++ rest /\ full blocks /\ (length rest < 48)%nat.
Proof.
  intros Hd Hi. unfold EVP_EncodeUpdate, sizeof_data. rewrite !Z.gtb_ltb.
  pose proof (zlength_nonneg inp). destruct (Z.eqb_spec (zlength inp) 0) as [Z0|Z0].
  { apply zlength_zero_inv in Z0. subst inp. exists [], (ctx_data ctx). rewrite app_nil_r.
    repeat split; [now destruct ctx|constructor|exact Hd]. }
  destruct (Z.ltb_spec (zlength inp) (48 - zlength (ctx_data ctx))) as [L|L].
  { exists [], (ctx_data ctx ++ inp). repeat split; [constructor|]. unfold zlength in L.
    rewrite length_app. lia. }
  set (todo := Z.to_nat (48 - zlength (ctx_data ctx))).
  assert (Hto : (todo + length (ctx_data ctx) = 48)%nat) by (unfold todo, zlength; lia).
  assert (Hle : (todo <= length inp)%nat) by (unfold zlength in L; lia).
  destruct (Z.eqb_spec (zlength (ctx_data ctx)) 0) as [D0|D0]; cbn [negb].
  - apply zlength_zero_inv in D0. rewrite D0.
    destruct (encode_blocks_spec (length inp) inp [] 0) as (blocks & rest & -> & Ei & Hfu & Hr); [lia|lia|lia|].
    exists blocks, rest. cbn [app]. pose proof (zlength_text _ Hfu) as T. pose proof (zlength_full _ Hfu) as F.
    pose proof (f_equal zlength Ei) as Ez. rewrite zlength_app in Ez. pose proof (zlength_nonneg rest).
    rewrite Z.gtb_ltb. destruct (Z.ltb_spec INT_MAX (0 + zlength (text_of blocks))); [unfold INT_MAX in *; lia|].
    repeat split; auto.
  - set (b0 := ctx_data ctx ++ firstn todo inp).
    assert (Hb0 : length b0 = 48%nat) by (unfold b0; rewrite length_app, length_firstn; lia).
    pose proof (length_line b0 Hb0) as L0. unfold line in L0. rewrite zlength_app in L0.
    change (zlength [10]) with 1 in L0. replace (zlength (EVP_EncodeBlock b0)) with 64 by lia.
    assert (Ls : zlength (skipn todo inp) <= zlength inp) by (unfold zlength; rewrite length_skipn; lia).
    destruct (encode_blocks_spec (length (skipn todo inp)) (skipn todo inp) (EVP_EncodeBlock b0 ++ [10]) (64 + 1))
      as (blocks & rest & -> & Ei & Hfu & Hr); [lia|lia|lia|].
    exists (b0 :: blocks), rest. pose proof (zlength_text _ Hfu) as T. pose proof (zlength_full _ Hfu) as F.
    pose proof (f_equal zlength Ei) as Ez. rewrite zlength_app in Ez. pose proof (zlength_nonneg rest).
    rewrite Z.gtb_ltb. destruct (Z.ltb_spec INT_MAX (64 + 1 + zlength (text_of blocks))); [unfold INT_MAX in *; lia|].
    unfold text_of in *. cbn [map concat]. repeat split; auto.
    + unfold line at 2. rewrite zlength_app, (length_line b0 Hb0). repeat f_equal.
    + rewrite <- app_assoc, <- Ei. unfold b0. rewrite <- app_assoc. f_equal. symmetry. apply firstn_skipn.
    + now constructor.
Qed.

Definition small (n : Z) (c : list Z) : Prop := zlength c < n.

Lemma set_data_data d ctx : ctx_data (set_data d ctx) = d.
Proof. reflexivity. Qed.

Lemma encode_updates_spec chunks : Forall (small (2 ^ 30)) chunks -> forall ctx,
  (length (ctx_data ctx) < 48)%nat ->
  exists blocks d, encode_updates ctx chunks = text_of blocks ++ tail_line d /\
    ctx_data ctx ++ concat chunks = concat blocks ++ d /\ full blocks /\ (length d < 48)%nat.
Proof.
  induction 1 as [|c chunks Hc _ IH]; intros ctx Hd; cbn [encode_updates concat].
  - exists [], (ctx_data ctx). rewrite app_nil_r. repeat split; [|constructor|exact Hd].
    unfold EVP_EncodeFinal, tail_line. destruct (ctx_data ctx) as [|x d]; [reflexivity|].
    rewrite zlength_cons. pose proof (zlength_nonneg d).
    destruct (Z.eqb_spec (1 + zlength d) 0); [lia|]. unfold zlength at 1. rewrite Nat2Z.id.
    apply firstn_all.
  - destruct (EncodeUpdate_spec ctx c Hd Hc) as (b1 & d1 & -> & E1 & F1 & L1).
    destruct (IH (set_data d1 ctx) L1) as (b2 & d2 & -> & E2 & F2 & L2). cbn [set_data ctx_data] in E2.
    exists (b1 ++ b2), d2. repeat split; [| |now apply Forall_app|exact L2].
    + unfold zlength. rewrite Nat2Z.id, firstn_all. unfold text_of.
      now rewrite map_app, concat_app, <- app_assoc.
    + rewrite app_assoc, E1, <- app_assoc, E2, concat_app, app_assoc. reflexivity.
Qed.

(** the streaming encoder does not depend on how the input is cut up: for
    any chunks of less than 2^30 bytes each, [EVP_EncodeUpdate]s and
    [EVP_EncodeFinal] together produce the input in lines of 48 bytes, each
    encoded and followed by a newline. *)
Theorem encode_stream_lines chunks :
  Forall (small (2 ^ 30)) chunks -> encode_stream chunks = pem_lines (concat chunks).
Proof.
  intros H. destruct (encode_updates_spec chunks H EVP_EncodeInit) as (blocks & d & E & E' & F & L);
    [cbn; lia|].
  unfold encode_stream, pem_lines. cbn [EVP_EncodeInit ctx_data app] in E'. rewrite E, E'.
  symmetry. now apply lines_blocks.
Qed.

(** *** Decoding *)

Definition at_quad (eof : bool) : EVP_ENCODE_CTX :=
  {| ctx_data := []; ctx_eof_seen := eof; ctx_error_encountered := false |}.

Lemma quad_step c0 c1 c2 c3 o rest out :
  is_base64_space c0 = false -> is_base64_space c1 = false -> is_base64_space c2 = false ->
  is_base64_space c3 = false -> base64_decode_quad c0 c1 c2 c3 = Some o ->
  decode_chars (at_quad false) (c0 :: c1 :: c2 :: c3 :: rest) out =
  decode_chars (at_quad (zlength o <? 3)) rest (out ++ o).
Proof.
  intros H0 H1 H2 H3 Hq. cbn [decode_chars]. unfold decode_char at 1. rewrite H0.
  cbn [at_quad ctx_eof_seen ctx_data set_data app ctx_error_encountered]. unfold decode_char at 1. rewrite H1.
  cbn [at_quad ctx_eof_seen ctx_data set_data app ctx_error_encountered]. unfold decode_char at 1. rewrite H2.
  cbn [at_quad ctx_eof_seen ctx_data set_data app ctx_error_encountered]. unfold decode_char at 1. rewrite H3.
  cbn [at_quad ctx_eof_seen ctx_data set_data app ctx_error_encountered]. rewrite Hq, !app_nil_r. reflexivity.
Qed.

Lemma decode_chars_block src rest out : bytes src ->
  decode_chars (at_quad false) (EVP_EncodeBlock src ++ rest) out =
  decode_chars (at_quad (negb (zlength src mod 3 =? 0))) rest (out ++ src).
Proof.
  revert out. induction src as [|x|x y|x y z src IH] using triple_ind; intros out H.
  - cbn. now rewrite app_nil_r.
  - apply bytes_cons in H as [Hx _]. cbn [EVP_EncodeBlock app].
    rewrite (quad_step _ _ _ _ [x]); try apply conv_char; try reflexivity. now apply decode_quad_1.
  - apply bytes_cons in H as [Hx H]. apply bytes_cons in H as [Hy _]. cbn [EVP_EncodeBlock app].
    rewrite (quad_step _ _ _ _ [x; y]); try apply conv_char; try reflexivity. now apply decode_quad_2.
  - apply bytes_cons in H as [Hx H]. apply bytes_cons in H as [Hy H]. apply bytes_cons in H as [Hz H].
    cbn [EVP_EncodeBlock app]. rewrite (quad_step _ _ _ _ [x; y; z]); try apply conv_char; [|now apply decode_quad_3].
    change (zlength [x; y; z] <? 3) with false. rewrite IH by exact H. rewrite <- app_assoc. cbn [app].
    rewrite !zlength_cons. replace (1 + (1 + (1 + zlength src))) with (zlength src + 1 * 3) by lia.
    now rewrite Z.mod_add by lia.
Qed.

Lemma decode_newline eof rest out :
  decode_chars (at_quad eof) (10 :: rest) out = decode_chars (at_quad eof) rest out.
Proof. cbn [decode_chars]. unfold decode_char. cbn. now rewrite app_nil_r. Qed.

Lemma decode_chars_lines blocks d out : bytes (concat blocks ++ d) -> full blocks ->
  exists eof, decode_chars (at_quad false) (text_of blocks ++ tail_line d) out =
              (Some (out ++ concat blocks ++ d), at_quad eof).
Proof.
  intros Hb Hf. revert out. induction Hf as [|b blocks L _ IH]; intros out; cbn [concat] in *.
  - unfold text_of. cbn [map concat app] in *. destruct d as [|x d]; [exists false; cbn; now rewrite app_nil_r|].
    unfold tail_line, line. rewrite decode_chars_block by exact Hb. rewrite decode_newline.
    eexists. reflexivity.
  - rewrite <- app_assoc in Hb. apply bytes_app in Hb as [Hb Hr].
    unfold text_of in *. cbn [map concat]. unfold line at 1. rewrite <- !app_assoc.
    rewrite decode_chars_block by exact Hb.
    replace (negb (zlength b mod 3 =? 0)) with false by (unfold zlength; rewrite L; reflexivity).
    cbn [app]. rewrite decode_newline. destruct (IH Hr (out ++ b)) as [eof ->]. exists eof.
    now rewrite <- app_assoc.
Qed.

Lemma decode_chars_app a b : forall ctx out,
  decode_chars ctx (a ++ b) out =
  match decode_chars ctx a out with
  | (Some o, ctx') => decode_chars ctx' b o
  | (None, ctx') => (None, ctx')
  end.
Proof.
  induction a as [|c a IH]; intros ctx out; cbn [app decode_chars]; [reflexivity|].
  destruct (decode_char ctx c) as [[o|] ctx']; [apply IH|reflexivity].
Qed.

Lemma decode_chars_out ctx inp : forall out,
  decode_chars ctx inp out =
  match decode_chars ctx inp [] with
  | (Some o, ctx') => (Some (out ++ o), ctx')
  | (None, ctx') => (None, ctx')
  end.
Proof.
  revert ctx. induction inp as [|c inp IH]; intros ctx out; cbn [decode_chars].
  - now rewrite app_nil_r.
  - destruct (decode_char ctx c) as [[o|] ctx']; [|reflexivity]. cbn [app].
    rewrite IH, (IH ctx' o). destruct (decode_chars ctx' inp []) as [[o'|] c2]; [|reflexivity].
    now rewrite app_assoc.
Qed.

Lemma decode_quad_len i0 i1 i2 i3 o : base64_decode_quad i0 i1 i2 i3 = Some o -> zlength o <= 3.
Proof.
  unfold base64_decode_quad. destruct (_ || _); [discriminate|]. cbv zeta.
  generalize (Z.lor (Z.lor (Z.lor (Z.shiftl (base64_ascii_to_bin i0) 18)
    (Z.shiftl (base64_ascii_to_bin i1) 12)) (Z.shiftl (base64_ascii_to_bin i2) 6)) (base64_ascii_to_bin i3)).
  intros v. destruct (_ =? 0); [intros H; injection H as <-; reflexivity || (cbn; lia)|].
  destruct (_ =? 1); [intros H; injection H as <-; cbn; lia|].
  destruct (_ =? 3); [intros H; injection H as <-; cbn; lia|discriminate].
Qed.

Lemma decode_char_len ctx c o ctx' : decode_char ctx c = (Some o, ctx') -> zlength o <= 3.
Proof.
  unfold decode_char. destruct (is_base64_space c); [intros H; injection H as <- _; cbn; lia|].
  destruct (ctx_eof_seen ctx); [discriminate|].
  destruct (ctx_data _) as [|d0 [|d1 [|d2 [|d3 [|? ?]]]]];
    [| | | |destruct (base64_decode_quad d0 d1 d2 d3) as [q|] eqn:Q; [|discriminate]|];
    intros H; injection H as <- _; try (cbn; lia). now apply decode_quad_len in Q.
Qed.

Lemma decode_chars_len inp : forall ctx o ctx',
  decode_chars ctx inp [] = (Some o, ctx') -> zlength o <= 3 * zlength inp.
Proof.
  induction inp as [|c inp IH]; intros ctx o ctx'; cbn [decode_chars].
  - intros [= <- _]. cbn. lia.
  - destruct (decode_char ctx c) as [[o1|] c1] eqn:D; [|discriminate]. cbn [app].
    rewrite decode_chars_out. destruct (decode_chars c1 inp []) as [[o2|] c2] eqn:D2; [|discriminate].
    intros [= <- _]. apply decode_char_len in D. apply IH in D2. rewrite zlength_app, zlength_cons. lia.
Qed.

Lemma decode_chars_error inp : forall ctx out o ctx',
  ctx_error_encountered ctx = false -> decode_chars ctx inp out = (Some o, ctx') ->
  ctx_error_encountered ctx' = false.
Proof.
  induction inp as [|c inp IH]; intros ctx out o ctx' He; cbn [decode_chars]; [now intros [= _ <-]|].
  destruct (decode_char ctx c) as [[o1|] c1] eqn:D; [|discriminate]. apply IH. revert D.
  unfold decode_char. destruct (is_base64_space c); [now intros [= _ <-]|].
  destruct (ctx_eof_seen ctx); [discriminate|].
  destruct (ctx_data _) as [|d0 [|d1 [|d2 [|d3 [|? ?]]]]];
    [| | | |destruct (base64_decode_quad d0 d1 d2 d3); [|discriminate]|];
    intros H; injection H as _ <-; exact He.
Qed.

(** Chunks of text are decoded as their concatenation is. *)
Lemma decode_updates_spec chunks : Forall (small (2 ^ 29)) chunks -> forall ctx o ctx',
  ctx_error_encountered ctx = false -> decode_chars ctx (concat chunks) [] = (Some o, ctx') ->
  ctx_data ctx' = [] -> decode_updates ctx chunks = Some o.
Proof.
  induction 1 as [|c chunks Hc _ IH]; intros ctx o ctx' He H Hd; cbn [concat decode_updates] in *.
  - injection H as <- <-. unfold EVP_DecodeFinal. now rewrite He, Hd.
  - rewrite decode_chars_app in H. unfold EVP_DecodeUpdate. rewrite He.
    destruct (decode_chars ctx c []) as [[o1|] c1] eqn:D; [|discriminate].
    rewrite decode_chars_out in H. destruct (decode_chars c1 (concat chunks) []) as [[o2|] c2] eqn:D2; [|discriminate].
    injection H as <- <-. pose proof (decode_chars_len _ _ _ _ D). red in Hc. rewrite Z.gtb_ltb.
    unfold INT_MAX. destruct (Z.ltb_spec (2 ^ 31 - 1) (zlength o1)); [lia|].
    apply decode_chars_error in D; [|exact He]. rewrite (IH c1 o2 c2 D D2 Hd).
    destruct (ctx_eof_seen c1); reflexivity.
Qed.

(** streaming round trip: whatever chunks the encoder was fed and whatever
    chunks its output is fed to the decoder in, the decoder returns the
    original bytes, with no error and nothing left over. *)
Theorem stream_roundtrip chunks texts :
  bytes (concat chunks) -> Forall (small (2 ^ 30)) chunks -> Forall (small (2 ^ 29)) texts ->
  concat texts = encode_stream chunks -> decode_stream texts = Some (concat chunks).
Proof.
  intros Hb Hc Ht E. destruct (encode_updates_spec chunks Hc EVP_EncodeInit) as (blocks & d & E1 & E2 & F & L);
    [cbn; lia|].
  cbn [EVP_EncodeInit ctx_data app] in E2. unfold encode_stream in E. rewrite E1 in E. rewrite E2 in *.
  destruct (decode_chars_lines blocks d [] Hb F) as [eof D]. rewrite <- E in D.
  rewrite app_nil_l in D. change (decode_stream texts) with (decode_updates (at_quad false) texts).
  eapply decode_updates_spec; [exact Ht|reflexivity|exact D|reflexivity].
Qed.

(** ** Concrete runs *)

Lemma base64_constant_time_table_witness : conv_bin2ascii 62 = 43 /\ base64_ascii_to_bin 62 = 0xff.
Proof.
  pose proof (base64_constant_time_table 62 ltac:(red; lia)) as [H1 H2].
  rewrite H1, H2. split; reflexivity.
Defined.

Lemma base64_roundtrip_witness : EVP_DecodeBase64 6 (EVP_EncodeBlock [77; 97; 110; 255]) = Some [77; 97; 110; 255].
Proof. apply base64_roundtrip; [repeat constructor; lia|cbn; lia]. Defined.

Lemma EncodedLength_exact_witness : EVP_EncodedLength (zlength [1; 2; 3; 4]) = Some 9.
Proof. rewrite EncodedLength_exact; reflexivity. Defined.

Definition demo_chunks : list (list Z) := [repeat 65 20; repeat 66 40; [1; 2; 3]].

Lemma encode_stream_lines_witness : encode_stream demo_chunks = pem_lines (concat demo_chunks).
Proof. apply encode_stream_lines. repeat constructor. Defined.

Lemma stream_roundtrip_witness :
  decode_stream [firstn 30 (encode_stream demo_chunks); skipn 30 (encode_stream demo_chunks)] =
  Some (concat demo_chunks).
Proof.
  apply (stream_roundtrip demo_chunks).
  - repeat constructor; lia.
  - repeat constructor.
  - repeat constructor.
  - cbn [concat]. rewrite app_nil_r. apply firstn_skipn.
Defined.
