(* ===== verification/PosixTime.v ===== *)
(** Calendar time: [crypto/asn1/posix_time.cc], which converts between POSIX
    seconds and UTC dates of the years 0 to 9999.  All quantities fit an
    [int64_t] (the static assertions of the file), so they are plain integers;
    [/] and [%] truncate toward zero. *)
From Stdlib Require Import ZArith List Lia Bool.
From S2P Require Import Prelude.
Import ListNotations.
Open Scope Z_scope.

Definition SECS_PER_HOUR : Z := 60 * 60.
Definition SECS_PER_DAY : Z := 24 * SECS_PER_HOUR.
Definition MIN_POSIX_TIME : Z := -62167219200.
Definition MAX_POSIX_TIME : Z := 253402300799.
Definition INT64_MAX : Z := 2 ^ 63 - 1.
Definition INT64_MIN : Z := - 2 ^ 63.

Definition is_valid_date (year month day : Z) : bool :=
  if (day <? 1) || (month <? 1) || (year <? 0) || (year >? 9999) then false
  else
    if existsb (Z.eqb month) [1; 3; 5; 7; 8; 10; 12] then (day >? 0) && (day <=? 31)
    else if existsb (Z.eqb month) [4; 6; 9; 11] then (day >? 0) && (day <=? 30)
    else if month =? 2 then
      if ((Z.rem year 4 =? 0) && negb (Z.rem year 100 =? 0)) || (Z.rem year 400 =? 0)
      then (day >? 0) && (day <=? 29)
      else (day >? 0) && (day <=? 28)
    else false.

Definition is_valid_time (hours minutes seconds : Z) : bool :=
  negb ((hours <? 0) || (minutes <? 0) || (seconds <? 0) || (hours >? 23) || (minutes >? 59)
        || (seconds >? 59)).

Definition is_valid_posix_time (time : Z) : bool :=
  (MIN_POSIX_TIME <=? time) && (time <=? MAX_POSIX_TIME).

Definition posix_time_from_utc (year month day hours minutes seconds : Z) : option Z :=
  if negb (is_valid_date year month day) || negb (is_valid_time hours minutes seconds) then None
  else
    let year := if month <=? 2 then year - 1 else year in
    let era := Z.quot (if year >=? 0 then year else year - 399) 400 in
    let year_of_era := year - era * 400 in
    let day_of_year := Z.quot (153 * (if month >? 2 then month - 3 else month + 9) + 2) 5 + day - 1 in
    let day_of_era := year_of_era * 365 + Z.quot year_of_era 4 - Z.quot year_of_era 100 + day_of_year in
    let posix_days := era * 146097 + day_of_era - 719468 in
    Some (posix_days * SECS_PER_DAY + hours * SECS_PER_HOUR + minutes * 60 + seconds).

Definition utc_from_posix_time (time : Z) : option (Z * Z * Z * Z * Z * Z) :=
  if negb (is_valid_posix_time time) then None
  else
    let days := Z.quot time SECS_PER_DAY in
    let leftover_seconds := Z.rem time SECS_PER_DAY in
    let '(days, leftover_seconds) :=
      if leftover_seconds <? 0 then (days - 1, leftover_seconds + SECS_PER_DAY)
      else (days, leftover_seconds) in
    let days := days + 719468 in
    let era := Z.quot (if days >? 0 then days else days - 146096) 146097 in
    let day_of_era := days - era * 146097 in
    let year_of_era :=
      Z.quot (day_of_era - Z.quot day_of_era 1460 + Z.quot day_of_era 36524
              - Z.quot day_of_era 146096) 365 in
    let year := year_of_era + era * 400 in
    let day_of_year :=
      day_of_era - (365 * year_of_era + Z.quot year_of_era 4 - Z.quot year_of_era 100) in
    let month_of_year := Z.quot (5 * day_of_year + 2) 153 in
    let month := if month_of_year <? 10 then month_of_year + 3 else month_of_year - 9 in
    let year := if month <=? 2 then year + 1 else year in
    let day := day_of_year - Z.quot (153 * month_of_year + 2) 5 + 1 in
    let hours := Z.quot leftover_seconds SECS_PER_HOUR in
    let leftover_seconds := Z.rem leftover_seconds SECS_PER_HOUR in
    Some (year, month, day, hours, Z.quot leftover_seconds 60, Z.rem leftover_seconds 60).

(** The fields of a C [struct tm] the file uses. *)
Record tm := {
  tm_year : Z; tm_mon : Z; tm_mday : Z; tm_hour : Z; tm_min : Z; tm_sec : Z
}.

Definition OPENSSL_tm_to_posix (t : tm) : option Z :=
  posix_time_from_utc (tm_year t + 1900) (tm_mon t + 1) (tm_mday t) (tm_hour t) (tm_min t) (tm_sec t).

Definition OPENSSL_posix_to_tm (time : Z) : option tm :=
  let? (year, mon, mday, hour, min, sec) := utc_from_posix_time time in
  Some {| tm_year := year - 1900; tm_mon := mon - 1; tm_mday := mday;
          tm_hour := hour; tm_min := min; tm_sec := sec |}.

(** [time_t] has [8 * sizeof_time_t] bits. *)
Definition OPENSSL_timegm (sizeof_time_t : Z) (t : tm) : option Z :=
  let? posix_time := OPENSSL_tm_to_posix t in
  if (sizeof_time_t =? 4) && ((posix_time >? 2 ^ 31 - 1) || (posix_time <? - 2 ^ 31)) then None
  else Some posix_time.

Definition OPENSSL_gmtime (time : Z) : option tm := OPENSSL_posix_to_tm time.

Definition OPENSSL_gmtime_adj (t : tm) (offset_day offset_sec : Z) : option tm :=
  let? posix_time := OPENSSL_tm_to_posix t in
  let posix_time := posix_time + offset_day * SECS_PER_DAY in
  if (posix_time >? 0) && (offset_sec >? INT64_MAX - posix_time) then None
  else if (posix_time <? 0) && (offset_sec <? INT64_MIN - posix_time) then None
  else OPENSSL_posix_to_tm (posix_time + offset_sec).

(** [(days, seconds)] from [from] to [to]. *)
Definition OPENSSL_gmtime_diff (from to : tm) : option (Z * Z) :=
  let? time_to := OPENSSL_tm_to_posix to in
  let? time_from := OPENSSL_tm_to_posix from in
  let timediff := time_to - time_from in
  Some (Z.quot timediff SECS_PER_DAY, Z.rem timediff SECS_PER_DAY).

(** ** Lemmas on the March-based calendar *)

(** The day of the era on which year [y] of the era starts. *)
Definition year_start (y : Z) : Z := y * 365 + y / 4 - y / 100.
Definition month_start (mp : Z) : Z := (153 * mp + 2) / 5.
Definition doe_to_year (doe : Z) : Z :=
  (doe - doe / 1460 + doe / 36524 - doe / 146096) / 365.

(** Whether the year that starts in March of year [y] of the era ends in a leap day. *)
Definition ends_leap (y : Z) : bool := ((y mod 4 =? 3) && negb (y mod 100 =? 99)) || (y mod 400 =? 399).

Definition range (n : nat) : list Z := map Z.of_nat (seq 0 n).

Lemma range_spec n P : forallb P (range n) = true -> forall z, 0 <= z < Z.of_nat n -> P z = true.
Proof.
  intros H z Hz. rewrite forallb_forall in H. apply H. apply in_map_iff.
  exists (Z.to_nat z). split; [lia|]. apply in_seq. lia.
Qed.

Definition year_end (y : Z) : Z := if y =? 399 then 146097 else year_start (y + 1).

Lemma year_length y : 0 <= y < 400 ->
  year_end y = year_start y + (if ends_leap y then 366 else 365).
Proof.
  intros Hy. pose proof (range_spec 400 (fun y =>
    year_end y =? year_start y + (if ends_leap y then 366 else 365)) eq_refl y Hy) as H.
  now apply Z.eqb_eq in H.
Qed.

Lemma doe_monotone_step d : 0 <= d < 146096 ->
  d - d / 1460 + d / 36524 - d / 146096 <=
  (d + 1) - (d + 1) / 1460 + (d + 1) / 36524 - (d + 1) / 146096.
Proof. intros Hd. Z.div_mod_to_equations. lia. Qed.

Lemma doe_monotone a b : 0 <= a <= b -> b <= 146096 ->
  a - a / 1460 + a / 36524 - a / 146096 <= b - b / 1460 + b / 36524 - b / 146096.
Proof.
  intros Ha Hb. replace b with (a + Z.of_nat (Z.to_nat (b - a))) in * by lia.
  induction (Z.to_nat (b - a)) as [|n IH]; [rewrite Z.add_0_r; lia|].
  etransitivity; [apply IH; lia|].
  replace (a + Z.of_nat (S n)) with (a + Z.of_nat n + 1) by lia. apply doe_monotone_step. lia.
Qed.

(** The year formula is right at the ends of every year, hence throughout it. *)
Lemma doe_to_year_spec y doe : 0 <= y < 400 -> year_start y <= doe < year_end y -> doe_to_year doe = y.
Proof.
  intros Hy Hd. pose proof (range_spec 400 (fun y =>
    let f d := d - d / 1460 + d / 36524 - d / 146096 in
    (0 <=? year_start y) && (year_end y <=? 146097) &&
    (365 * y <=? f (year_start y)) && (f (year_end y - 1) <? 365 * (y + 1))) eq_refl y Hy) as H.
  cbv beta zeta in H. bsplit. unfold doe_to_year.
  pose proof (doe_monotone (year_start y) doe ltac:(lia) ltac:(lia)).
  pose proof (doe_monotone doe (year_end y - 1) ltac:(lia) ltac:(lia)).
  symmetry. apply Z.div_unique with (doe - doe / 1460 + doe / 36524 - doe / 146096 - 365 * y); lia.
Qed.

(** Every day of the era belongs to a year. *)
Lemma year_of_day doe : 0 <= doe < 146097 -> exists y, 0 <= y < 400 /\ year_start y <= doe < year_end y.
Proof.
  intros Hd.
  assert (H : forall n : nat, (n <= 399)%nat ->
    (exists y, 0 <= y < 400 /\ year_start y <= doe < year_end y) \/ year_start (Z.of_nat n) <= doe).
  { induction n as [|n IH]; intros Hn; [right; cbn; lia|]. destruct IH as [E|L]; [lia|now left|].
    destruct (Z.lt_ge_cases doe (year_start (Z.of_nat (S n)))) as [L'|L']; [left|now right].
    exists (Z.of_nat n). split; [lia|]. split; [exact L|]. unfold year_end.
    destruct (Z.eqb_spec (Z.of_nat n) 399); [lia|]. now replace (Z.of_nat n + 1) with (Z.of_nat (S n)) by lia. }
  destruct (H 399%nat) as [E|L]; [lia|exact E|]. exists 399. split; [lia|]. split; [exact L|exact (proj2 Hd)].
Qed.

Definition month_length (mp : Z) : Z :=
  nth (Z.to_nat mp) [31; 30; 31; 30; 31; 31; 30; 31; 30; 31; 31; 29] 0.

(** Day of the year to month and back. *)
Lemma month_of_day doy : 0 <= doy <= 365 ->
  let mp := (5 * doy + 2) / 153 in
  0 <= mp <= 11 /\ 1 <= doy - month_start mp + 1 <= month_length mp /\
  (mp = 11 -> doy - month_start mp + 1 = 29 -> doy = 365).
Proof.
  intros Hd. pose proof (range_spec 366 (fun doy =>
    let mp := (5 * doy + 2) / 153 in
    (0 <=? mp) && (mp <=? 11) && (1 <=? doy - month_start mp + 1) &&
    (doy - month_start mp + 1 <=? month_length mp) &&
    (negb ((mp =? 11) && (doy - month_start mp + 1 =? 29)) || (doy =? 365))) eq_refl doy ltac:(lia)) as H.
  cbv beta zeta in H. apply andb_true_iff in H as [H H5]. bsplit. cbv zeta. repeat split; lia.
Qed.

Lemma day_of_month mp d : 0 <= mp <= 11 -> 1 <= d <= month_length mp ->
  let doy := month_start mp + d - 1 in
  (5 * doy + 2) / 153 = mp /\ 0 <= doy <= 365 /\ (doy = 365 -> mp = 11 /\ d = 29).
Proof.
  intros Hm Hd. pose proof (range_spec 12 (fun mp => forallb (fun d =>
    negb ((1 <=? d) && (d <=? month_length mp)) ||
    (let doy := month_start mp + d - 1 in
     ((5 * doy + 2) / 153 =? mp) && (0 <=? doy) && (doy <=? 365) &&
     (negb (doy =? 365) || ((mp =? 11) && (d =? 29))))) (range 32)) eq_refl mp ltac:(lia)) as H.
  cbv beta in H. assert (d < 32).
  { pose proof (range_spec 12 (fun mp => month_length mp <? 32) eq_refl mp ltac:(lia)) as L.
    cbv beta in L. bsplit. lia. }
  pose proof (range_spec 32 _ H d ltac:(lia)) as H1. cbv beta zeta in H1.
  apply orb_true_iff in H1 as [H1|H1].
  { apply negb_true_iff in H1. destruct (Z.leb_spec 1 d), (Z.leb_spec d (month_length mp)); cbn in H1; lia || discriminate. }
  apply andb_true_iff in H1 as [H1 H2]. bsplit. cbv zeta. repeat split; lia.
Qed.

(** ** The two conversions *)

(** Years and months counted from March. *)
Definition march_year (year month : Z) : Z := if month <=? 2 then year - 1 else year.
Definition march_month (month : Z) : Z := if month >? 2 then month - 3 else month + 9.

(** Days since 1970-01-01. *)
Definition date_days (year month day : Z) : Z :=
  let y := march_year year month in
  y / 400 * 146097 + (year_start (y mod 400) + (month_start (march_month month) + day - 1)) - 719468.

Lemma floor_quot (b : bool) x n m :
  m = n - 1 -> 0 < n -> (if b then 0 <= x else x <= 0) -> Z.quot (if b then x else x - m) n = x / n.
Proof.
  intros -> Hn Hb. destruct b; [apply Z.quot_div_nonneg; lia|].
  replace (x - (n - 1)) with (- (n - 1 - x)) by lia. rewrite Z.quot_opp_l, Z.quot_div_nonneg by lia.
  pose proof (Z.div_mod (n - 1 - x) n ltac:(lia)). pose proof (Z.mod_pos_bound (n - 1 - x) n ltac:(lia)).
  apply Z.div_unique with (x + n * ((n - 1 - x) / n)); nia.
Qed.

Lemma leap_year y : 0 <= y ->
  ((Z.rem y 4 =? 0) && negb (Z.rem y 100 =? 0)) || (Z.rem y 400 =? 0) = ends_leap ((y - 1) mod 400).
Proof.
  intros Hy. unfold ends_leap. rewrite !Z.rem_mod_nonneg by lia.
  assert (H : forall k, 0 < k -> (k | 400) -> (y mod k =? 0) = ((y - 1) mod 400 mod k =? k - 1)).
  { intros k Hk Hd. rewrite Z.mod_mod_divide by exact Hd.
    pose proof (Z.div_mod y k ltac:(lia)). pose proof (Z.mod_pos_bound y k ltac:(lia)).
    destruct (Z.eqb_spec (y mod k) 0) as [E|E]; symmetry; [apply Z.eqb_eq|apply Z.eqb_neq].
    - symmetry. apply Z.mod_unique with (y / k - 1); nia.
    - replace ((y - 1) mod k) with (y mod k - 1); [lia|]. apply Z.mod_unique with (y / k); nia. }
  rewrite (H 4), (H 100), (H 400) by (lia || (eexists; reflexivity) || (now exists 100) || (now exists 4) || (now exists 1)).
  reflexivity.
Qed.

Lemma valid_date_spec year month day :
  is_valid_date year month day = true <->
  0 <= year <= 9999 /\ 1 <= month <= 12 /\ 1 <= day <= month_length (march_month month) /\
  (march_month month = 11 -> day = 29 -> ends_leap (march_year year month mod 400) = true).
Proof.
  unfold is_valid_date. rewrite !Z.gtb_ltb.
  destruct (Z.ltb_spec day 1), (Z.ltb_spec month 1), (Z.ltb_spec year 0), (Z.ltb_spec 9999 year);
    cbn [orb]; try (split; [discriminate|lia]).
  destruct (Z.lt_ge_cases 12 month).
  { replace (existsb (Z.eqb month) [1; 3; 5; 7; 8; 10; 12]) with false
      by (symmetry; cbn; rewrite !orb_false_iff; repeat split; apply Z.eqb_neq; lia).
    replace (existsb (Z.eqb month) [4; 6; 9; 11]) with false
      by (symmetry; cbn; rewrite !orb_false_iff; repeat split; apply Z.eqb_neq; lia).
    destruct (Z.eqb_spec month 2); [lia|]. split; [discriminate|lia]. }
  assert (M : In month [1; 2; 3; 4; 5; 6; 7; 8; 9; 10; 11; 12]) by (cbn; lia).
  rewrite (leap_year year) by lia. unfold march_year.
  cbn in M. repeat (destruct M as [<-|M]; [
    cbn [existsb Z.eqb Pos.eqb orb Z.leb Z.compare Pos.compare Pos.compare_cont];
    match goal with |- context [month_length ?x] => let v := eval vm_compute in (month_length x) in
      change (month_length x) with v end;
    match goal with |- context [march_month ?x = 11] => let v := eval vm_compute in (march_month x) in
      change (march_month x) with v end |]); [..|contradiction];
    try (rewrite andb_true_iff, Z.ltb_lt, Z.leb_le; lia).
  destruct (ends_leap ((year - 1) mod 400)); rewrite andb_true_iff, Z.ltb_lt, Z.leb_le; split; intros; repeat split; lia || (intros; congruence || lia).
Qed.

Lemma march_month_range month : 1 <= month <= 12 -> 0 <= march_month month <= 11.
Proof. unfold march_month. rewrite Z.gtb_ltb. ztest; lia. Qed.

Lemma quot_nonneg a b : 0 <= a -> 0 < b -> Z.quot a b = a / b.
Proof. intros. apply Z.quot_div_nonneg; lia. Qed.

Definition time_secs (h m s : Z) : Z := h * 3600 + m * 60 + s.

Lemma from_utc_spec year month day h m s :
  posix_time_from_utc year month day h m s =
  if is_valid_date year month day && is_valid_time h m s
  then Some (date_days year month day * 86400 + time_secs h m s) else None.
Proof.
  unfold posix_time_from_utc. destruct (is_valid_date year month day) eqn:V; [|reflexivity].
  destruct (is_valid_time h m s); [|reflexivity]. cbn [negb orb andb].
  apply valid_date_spec in V as (Hy & Hm & Hd & _). pose proof (march_month_range month Hm).
  fold (march_year year month). fold (march_month month). f_equal.
  set (y := march_year year month).
  assert (Hyr : -1 <= y <= 9999) by (unfold y, march_year; ztest; lia).
  rewrite Z.geb_leb, (floor_quot (0 <=? y) y 400 399) by (try (destruct (Z.leb_spec 0 y)); lia).
  pose proof (Z.div_mod y 400 ltac:(lia)). pose proof (Z.mod_pos_bound y 400 ltac:(lia)).
  unfold date_days. fold y. replace (y - y / 400 * 400) with (y mod 400) by lia.
  rewrite !quot_nonneg by lia. unfold SECS_PER_DAY, SECS_PER_HOUR, time_secs, year_start, month_start. lia.
Qed.

(** The civil date of a day number. *)
Definition civil (days : Z) : Z * Z * Z :=
  let days := days + 719468 in
  let era := days / 146097 in
  let doe := days mod 146097 in
  let yoe := doe_to_year doe in
  let doy := doe - year_start yoe in
  let mp := (5 * doy + 2) / 153 in
  let month := if mp <? 10 then mp + 3 else mp - 9 in
  let year := yoe + era * 400 in
  (if month <=? 2 then year + 1 else year, month, doy - month_start mp + 1).

(** Days of the era split into year and day of the year. *)
Lemma doe_split doe : 0 <= doe < 146097 ->
  let yoe := doe_to_year doe in
  0 <= yoe < 400 /\ 0 <= doe - year_start yoe <= 365 /\
  (doe - year_start yoe = 365 -> ends_leap yoe = true).
Proof.
  intros Hd. destruct (year_of_day doe Hd) as (y & Hy & Hs). pose proof (doe_to_year_spec y doe Hy Hs) as E.
  pose proof (year_length y Hy) as L. cbv zeta. rewrite E. destruct (ends_leap y); repeat split; lia.
Qed.

Lemma secs_of_day time : 0 <= time mod 86400 < 86400 /\ time = time / 86400 * 86400 + time mod 86400.
Proof.
  pose proof (Z.div_mod time 86400 ltac:(lia)). pose proof (Z.mod_pos_bound time 86400 ltac:(lia)). lia.
Qed.

Lemma to_utc_spec time :
  utc_from_posix_time time =
  if is_valid_posix_time time then
    let s := time mod 86400 in
    let '(year, month, day) := civil (time / 86400) in
    Some (year, month, day, s / 3600, s mod 3600 / 60, s mod 3600 mod 60)
  else None.
Proof.
  unfold utc_from_posix_time. destruct (is_valid_posix_time time); [|reflexivity]. cbn [negb].
  change SECS_PER_DAY with 86400. change SECS_PER_HOUR with 3600.
  assert (Q : (if Z.rem time 86400 <? 0 then (Z.quot time 86400 - 1, Z.rem time 86400 + 86400)
               else (Z.quot time 86400, Z.rem time 86400)) = (time / 86400, time mod 86400)).
  { pose proof (secs_of_day time). pose proof (Z.quot_rem' time 86400).
    pose proof (Z.rem_bound_abs time 86400 ltac:(lia)). destruct (Z.ltb_spec (Z.rem time 86400) 0).
    - f_equal; [apply Z.div_unique with (Z.rem time 86400 + 86400); lia|].
      apply Z.mod_unique with (Z.quot time 86400 - 1); lia.
    - f_equal; [apply Z.div_unique with (Z.rem time 86400); lia|].
      apply Z.mod_unique with (Z.quot time 86400); lia. }
  rewrite Q. clear Q. pose proof (secs_of_day time) as [Hs _]. unfold civil.
  set (days := time / 86400 + 719468). set (s := time mod 86400) in *.
  rewrite Z.gtb_ltb, (floor_quot (0 <? days) days 146097 146096) by (try destruct (Z.ltb_spec 0 days); lia).
  pose proof (Z.div_mod days 146097 ltac:(lia)). pose proof (Z.mod_pos_bound days 146097 ltac:(lia)) as Hdoe.
  replace (days - days / 146097 * 146097) with (days mod 146097) by lia.
  set (doe := days mod 146097) in *. destruct (doe_split doe Hdoe) as (Hyoe & Hdoy & _).
  rewrite !(quot_nonneg doe) by lia.
  assert (Hf : 0 <= doe - doe / 1460 + doe / 36524 - doe / 146096).
  { pose proof (doe_monotone 0 doe ltac:(lia) ltac:(lia)) as M. cbn in M. lia. }
  rewrite (quot_nonneg _ 365) by lia. fold (doe_to_year doe).
  set (yoe := doe_to_year doe) in *. rewrite !(quot_nonneg yoe) by lia.
  replace (doe - (365 * yoe + yoe / 4 - yoe / 100)) with (doe - year_start yoe) by (unfold year_start; lia).
  destruct (month_of_day _ Hdoy) as (Hmp & _). rewrite (quot_nonneg (5 * _ + 2)) by lia.
  rewrite (quot_nonneg (153 * _ + 2)) by lia. fold (month_start ((5 * (doe - year_start yoe) + 2) / 153)).
  rewrite !(quot_nonneg s), !Z.rem_mod_nonneg by lia.
  pose proof (Z.mod_pos_bound s 3600 ltac:(lia)). rewrite quot_nonneg, Z.rem_mod_nonneg by lia. reflexivity.
Qed.

(** A valid date in March terms: the day of its era and of its year. *)
Lemma valid_march year month day :
  is_valid_date year month day = true ->
  let y := march_year year month in
  let mp := march_month month in
  let doy := month_start mp + day - 1 in
  let doe := year_start (y mod 400) + doy in
  0 <= y mod 400 < 400 /\ 0 <= mp <= 11 /\ 0 <= doy <= 365 /\ (5 * doy + 2) / 153 = mp /\
  year_start (y mod 400) <= doe < year_end (y mod 400) /\ 0 <= doe < 146097.
Proof.
  intros V. apply valid_date_spec in V as (Hy & Hm & Hd & Hl). cbv zeta.
  set (y := march_year year month) in *. pose proof (march_month_range month Hm) as Hmp.
  set (mp := march_month month) in *. pose proof (Z.mod_pos_bound y 400 ltac:(lia)) as Hyoe.
  destruct (day_of_month mp day Hmp Hd) as (E & Hdoy & Hlast). pose proof (year_length _ Hyoe) as L.
  assert (B : year_start (y mod 400) <= year_start (y mod 400) + (month_start mp + day - 1) < year_end (y mod 400)).
  { rewrite L. destruct (Z.eq_dec (month_start mp + day - 1) 365) as [D|D].
    - destruct (Hlast D) as [D1 D2]. rewrite Hl by assumption. lia.
    - destruct (ends_leap _); lia. }
  pose proof (range_spec 400 (fun y => (0 <=? year_start y) && (year_end y <=? 146097)) eq_refl _ Hyoe) as R.
  cbv beta in R. bsplit. repeat split; lia.
Qed.

Lemma civil_date_days year month day :
  is_valid_date year month day = true -> civil (date_days year month day) = (year, month, day).
Proof.
  intros V. destruct (valid_march _ _ _ V) as (Hyoe & Hmp & Hdoy & E & Hb & Hdoe). cbv zeta in *.
  apply valid_date_spec in V as (_ & Hm & _). unfold civil, date_days.
  set (y := march_year year month) in *. set (mp := march_month month) in *.
  set (doe := year_start (y mod 400) + (month_start mp + day - 1)) in *.
  replace (y / 400 * 146097 + doe - 719468 + 719468) with (y / 400 * 146097 + doe) by lia.
  assert (E1 : (y / 400 * 146097 + doe) / 146097 = y / 400)
    by (symmetry; apply Z.div_unique with doe; lia).
  assert (E2 : (y / 400 * 146097 + doe) mod 146097 = doe)
    by (symmetry; apply Z.mod_unique with (y / 400); lia).
  rewrite E1, E2, (doe_to_year_spec (y mod 400) doe Hyoe Hb).
  replace (doe - year_start (y mod 400)) with (month_start mp + day - 1) by (unfold doe; lia).
  rewrite E. pose proof (Z.div_mod y 400 ltac:(lia)).
  replace (y mod 400 + y / 400 * 400) with y by lia.
  assert (Em : (if mp <? 10 then mp + 3 else mp - 9) = month)
    by (unfold mp, march_month in *; rewrite Z.gtb_ltb in *; revert Hmp; ztest; lia).
  rewrite Em. f_equal; [f_equal|lia]. unfold y, march_year. ztest; lia.
Qed.

Lemma march_civil yoe era mp :
  0 <= mp <= 11 ->
  let month := if mp <? 10 then mp + 3 else mp - 9 in
  let year := if month <=? 2 then yoe + era * 400 + 1 else yoe + era * 400 in
  march_month month = mp /\ march_year year month = yoe + era * 400 /\ 1 <= month <= 12 /\
  (mp < 10 -> year = yoe + era * 400) /\ (10 <= mp -> year = yoe + era * 400 + 1).
Proof.
  intros H. cbv zeta. unfold march_month, march_year. rewrite Z.gtb_ltb.
  destruct (Z.ltb_spec mp 10); ztest; lia.
Qed.

Lemma date_days_civil days :
  -719528 <= days <= 2932896 ->
  let '(year, month, day) := civil days in
  is_valid_date year month day = true /\ date_days year month day = days.
Proof.
  intros Hr. unfold civil. set (n := days + 719468).
  pose proof (Z.div_mod n 146097 ltac:(lia)) as Dn. pose proof (Z.mod_pos_bound n 146097 ltac:(lia)) as Hdoe.
  set (era := n / 146097) in *. set (doe := n mod 146097) in *.
  destruct (doe_split doe Hdoe) as (Hyoe & Hdoy & Hleap). set (yoe := doe_to_year doe) in *.
  set (doy := doe - year_start yoe) in *. destruct (month_of_day doy Hdoy) as (Hmp & Hd & Hlast).
  set (mp := (5 * doy + 2) / 153) in *.
  destruct (march_civil yoe era mp Hmp) as (M1 & M2 & M3 & M4 & M5). cbv zeta in *.
  set (month := if mp <? 10 then mp + 3 else mp - 9) in *.
  set (year := if month <=? 2 then yoe + era * 400 + 1 else yoe + era * 400) in *.
  assert (E1 : (yoe + era * 400) / 400 = era) by (symmetry; apply Z.div_unique with yoe; lia).
  assert (E2 : (yoe + era * 400) mod 400 = yoe) by (symmetry; apply Z.mod_unique with era; lia).
  split.
  - apply valid_date_spec. rewrite M1, M2, E2. split; [|split; [exact M3|split; [exact Hd|]]].
    + assert (He : -1 <= era <= 24) by (unfold n in *; split; nia).
      assert (S : doe = year_start yoe + doy) by (unfold doy; lia).
      pose proof (range_spec 400 (fun y => negb (y <=? 398) || (year_end y <=? 145731)) eq_refl yoe Hyoe) as R.
      cbv beta in R. destruct (Z.leb_spec yoe 398) as [L|L].
      * cbn in R. apply Z.leb_le in R. pose proof (year_length yoe Hyoe) as Yl.
        assert (doe < 145731) by (destruct (ends_leap yoe); lia).
        assert (0 <= era) by (unfold n in *; lia). destruct (Z.lt_ge_cases mp 10); [rewrite M4|rewrite M5]; lia.
      * assert (yoe = 399) by lia. rewrite H in *. change (year_start 399) with 145731 in *.
        pose proof (range_spec 366 (fun doy => Bool.eqb ((5 * doy + 2) / 153 <? 10) (doy <? 306)) eq_refl doy ltac:(lia)) as R2.
        cbv beta in R2. fold mp in R2. apply Bool.eqb_prop in R2.
        destruct (Z.ltb_spec mp 10), (Z.ltb_spec doy 306); try discriminate; [rewrite M4|rewrite M5]; unfold n in *; lia.
    + intros E E'. apply Hleap. now apply Hlast.
  - unfold date_days. rewrite M1, M2, E1, E2. unfold doy, n in *. lia.
Qed.

Lemma valid_time_spec h m s :
  is_valid_time h m s = true <-> 0 <= h <= 23 /\ 0 <= m <= 59 /\ 0 <= s <= 59.
Proof.
  unfold is_valid_time. rewrite negb_true_iff, !orb_false_iff, !Z.gtb_ltb, !Z.ltb_ge. lia.
Qed.

Lemma clock h m s : 0 <= h <= 23 -> 0 <= m <= 59 -> 0 <= s <= 59 -> let t := time_secs h m s in
  0 <= t < 86400 /\ t / 3600 = h /\ t mod 3600 / 60 = m /\ t mod 3600 mod 60 = s.
Proof.
  intros Hh Hm Hs. cbv zeta. unfold time_secs.
  assert (E : (h * 3600 + m * 60 + s) mod 3600 = m * 60 + s) by (symmetry; apply Z.mod_unique with h; lia).
  rewrite E. repeat split; try lia; symmetry.
  - apply Z.div_unique with (m * 60 + s); lia.
  - apply Z.div_unique with s; lia.
  - apply Z.mod_unique with m; lia.
Qed.

Lemma date_days_range year month day :
  is_valid_date year month day = true -> -719528 <= date_days year month day <= 2932896.
Proof.
  intros V. destruct (valid_march _ _ _ V) as (Hyoe & Hmp & Hdoy & E & Hb & Hdoe). cbv zeta in *.
  apply valid_date_spec in V as (Hy & Hm & Hd & _). unfold date_days.
  set (y := march_year year month) in *. set (mp := march_month month) in *.
  set (doy := month_start mp + day - 1) in *.
  pose proof (Z.div_mod y 400 ltac:(lia)) as Dy.
  assert (C : (-1 < y < 9999) \/ (y = -1 /\ 10 <= mp) \/ (y = 9999 /\ mp <= 9)).
  { unfold y, mp, march_year, march_month. rewrite Z.gtb_ltb. ztest; lia. }
  pose proof (range_spec 366 (fun doy => Bool.eqb ((5 * doy + 2) / 153 <? 10) (doy <? 306)) eq_refl doy ltac:(lia)) as R2.
  cbv beta in R2. rewrite E in R2. apply Bool.eqb_prop in R2.
  destruct C as [C|[[C1 C2]|[C1 C2]]].
  - destruct (Z.le_gt_cases (y / 400) 23); [nia|].
    assert (Ye : y mod 400 <= 398) by lia.
    pose proof (range_spec 400 (fun y => negb (y <=? 398) || (year_end y <=? 145731)) eq_refl _ Hyoe) as R.
    cbv beta in R. destruct (Z.leb_spec (y mod 400) 398); [|lia]. cbn in R. apply Z.leb_le in R. nia.
  - rewrite C1 in *. change (-1 mod 400) with 399 in *. change (-1 / 400) with (-1) in *.
    change (year_start 399) with 145731 in *. destruct (Z.ltb_spec mp 10), (Z.ltb_spec doy 306); try discriminate; lia.
  - rewrite C1 in *. change (9999 mod 400) with 399 in *. change (9999 / 400) with 24 in *.
    change (year_start 399) with 145731 in *. destruct (Z.ltb_spec mp 10), (Z.ltb_spec doy 306); try discriminate; lia.
Qed.

(** ** Properties *)

Lemma tm_to_posix_some t time :
  OPENSSL_tm_to_posix t = Some time ->
  is_valid_date (tm_year t + 1900) (tm_mon t + 1) (tm_mday t) = true /\
  (0 <= tm_hour t <= 23 /\ 0 <= tm_min t <= 59 /\ 0 <= tm_sec t <= 59) /\
  time / 86400 = date_days (tm_year t + 1900) (tm_mon t + 1) (tm_mday t) /\
  time mod 86400 = time_secs (tm_hour t) (tm_min t) (tm_sec t) /\
  is_valid_posix_time time = true.
Proof.
  unfold OPENSSL_tm_to_posix. rewrite from_utc_spec.
  destruct (is_valid_date _ _ _) eqn:V; [|discriminate]. destruct (is_valid_time _ _ _) eqn:T; [|discriminate].
  cbn [andb]. intros [= <-]. apply valid_time_spec in T as (T1 & T2 & T3).
  destruct (clock _ _ _ T1 T2 T3) as (C & _). pose proof (date_days_range _ _ _ V) as R.
  set (n := date_days _ _ _) in *. set (s := time_secs _ _ _) in *. repeat split; try lia.
  - symmetry. apply Z.div_unique with s; lia.
  - symmetry. apply Z.mod_unique with n; lia.
  - unfold is_valid_posix_time, MIN_POSIX_TIME, MAX_POSIX_TIME. apply andb_true_iff. split; apply Z.leb_le; lia.
Qed.

Lemma to_posix_to_tm t time : OPENSSL_tm_to_posix t = Some time -> OPENSSL_posix_to_tm time = Some t.
Proof.
  intros H. destruct (tm_to_posix_some t time H) as (V & (T1 & T2 & T3) & Ed & Es & Vp).
  unfold OPENSSL_posix_to_tm. rewrite to_utc_spec, Vp, Ed, civil_date_days by exact V. cbn [obind].
  destruct (clock _ _ _ T1 T2 T3) as (_ & C1 & C2 & C3). rewrite Es, C1, C2, C3. destruct t; cbn.
  do 2 f_equal; lia.
Qed.

Lemma to_tm_to_posix time : is_valid_posix_time time = true ->
  exists t, OPENSSL_posix_to_tm time = Some t /\ OPENSSL_tm_to_posix t = Some time.
Proof.
  intros V. pose proof V as V'. unfold is_valid_posix_time, MIN_POSIX_TIME, MAX_POSIX_TIME in V'. bsplit.
  destruct (secs_of_day time) as [Hs Et]. pose proof (date_days_civil (time / 86400) ltac:(lia)) as D.
  unfold OPENSSL_posix_to_tm. rewrite to_utc_spec, V. destruct (civil (time / 86400)) as [[year month] day].
  destruct D as [D1 D2]. eexists. split; [reflexivity|]. unfold OPENSSL_tm_to_posix. cbn [tm_year tm_mon tm_mday tm_hour tm_min tm_sec].
  replace (year - 1900 + 1900) with year by lia. replace (month - 1 + 1) with month by lia.
  set (s := time mod 86400) in *. pose proof (Z.div_mod s 3600 ltac:(lia)). pose proof (Z.mod_pos_bound s 3600 ltac:(lia)).
  pose proof (Z.div_mod (s mod 3600) 60 ltac:(lia)). pose proof (Z.mod_pos_bound (s mod 3600) 60 ltac:(lia)).
  rewrite from_utc_spec, D1. replace (is_valid_time _ _ _) with true by (symmetry; apply valid_time_spec; lia).
  cbn [andb]. rewrite D2. f_equal. unfold time_secs. lia.
Qed.

(** [OPENSSL_tm_to_posix] and [OPENSSL_posix_to_tm] are inverse: every date
    and time that converts to seconds converts back to itself, and every
    number of seconds between 0000-01-01 and 9999-12-31 23:59:59 converts to a
    date and back; any other number is refused. *)
Theorem posix_tm_inverse :
  (forall t time, OPENSSL_tm_to_posix t = Some time -> OPENSSL_posix_to_tm time = Some t) /\
  (forall time, MIN_POSIX_TIME <= time <= MAX_POSIX_TIME ->
     exists t, OPENSSL_posix_to_tm time = Some t /\ OPENSSL_tm_to_posix t = Some time) /\
  (forall time, ~ MIN_POSIX_TIME <= time <= MAX_POSIX_TIME -> OPENSSL_posix_to_tm time = None).
Proof.
  split; [exact to_posix_to_tm|]. split; intros time H.
  - apply to_tm_to_posix. apply andb_true_iff. split; apply Z.leb_le; lia.
  - unfold OPENSSL_posix_to_tm, utc_from_posix_time, is_valid_posix_time.
    destruct (Z.leb_spec MIN_POSIX_TIME time), (Z.leb_spec time MAX_POSIX_TIME); try reflexivity. lia.
Qed.

(** The day after a date, by the calendar. *)
Definition next_date (year month day : Z) : Z * Z * Z :=
  if is_valid_date year month (day + 1) then (year, month, day + 1)
  else if month <? 12 then (year, month + 1, 1) else (year + 1, 1, 1).

Lemma last_of_month year month day :
  is_valid_date year month day = true -> is_valid_date year month (day + 1) = false ->
  day = month_length (march_month month) \/
  (month = 2 /\ day = 28 /\ ends_leap ((year - 1) mod 400) = false).
Proof.
  intros V W. apply valid_date_spec in V as (Hy & Hm & Hd & Hl).
  destruct (Z.eq_dec day (month_length (march_month month))) as [|N]; [now left|right].
  destruct (ends_leap (march_year year month mod 400)) eqn:L.
  { exfalso. apply not_true_iff_false in W. apply W, valid_date_spec. repeat split; lia || auto. }
  assert (C : march_month month = 11 /\ day = 28).
  { destruct (Z.eq_dec (march_month month) 11), (Z.eq_dec day 28); [auto|exfalso..];
      apply not_true_iff_false in W; apply W, valid_date_spec; repeat split; try lia; intros; try lia. }
  destruct C as [C1 C2]. assert (month = 2)
    by (unfold march_month in C1; rewrite Z.gtb_ltb in C1; destruct (Z.ltb_spec 2 month); lia).
  subst month. auto.
Qed.

Lemma march_new_year y day : ((ends_leap (y mod 400) = true -> day = 29) /\ (ends_leap (y mod 400) = false -> day = 28)) ->
  (y + 1) / 400 * 146097 + year_start ((y + 1) mod 400) =
  y / 400 * 146097 + year_start (y mod 400) + month_start 11 + day.
Proof.
  intros [H1 H2]. pose proof (Z.div_mod y 400 ltac:(lia)). pose proof (Z.mod_pos_bound y 400 ltac:(lia)) as Hm.
  pose proof (year_length _ Hm) as L. unfold year_end in L. change (month_start 11) with 337.
  destruct (Z.eqb_spec (y mod 400) 399) as [E|E].
  - rewrite E in *. replace ((y + 1) / 400) with (y / 400 + 1) by (apply Z.div_unique with 0; lia).
    replace ((y + 1) mod 400) with 0 by (apply Z.mod_unique with (y / 400 + 1); lia).
    change (ends_leap 399) with true in *. change (year_start 0) with 0. rewrite H1 by reflexivity.
    change (year_start 399) with 145731. lia.
  - replace ((y + 1) / 400) with (y / 400) by (apply Z.div_unique with (y mod 400 + 1); lia).
    replace ((y + 1) mod 400) with (y mod 400 + 1) by (apply Z.mod_unique with (y / 400); lia).
    destruct (ends_leap (y mod 400)); [rewrite H1 by reflexivity|rewrite H2 by reflexivity]; lia.
Qed.

Lemma next_date_days year month day :
  is_valid_date year month day = true ->
  let '(y2, m2, d2) := next_date year month day in date_days y2 m2 d2 = date_days year month day + 1.
Proof.
  intros V. unfold next_date. destruct (is_valid_date year month (day + 1)) eqn:W.
  { unfold date_days. lia. }
  pose proof (last_of_month _ _ _ V W) as L. apply valid_date_spec in V as (_ & Hm & Hd & Hl).
  destruct (Z.eq_dec month 2) as [->|N].
  { cbn [Z.ltb Z.compare Pos.compare Pos.compare_cont]. unfold date_days.
    change (march_year year (2 + 1)) with year. change (march_year year 2) with (year - 1).
    change (march_month (2 + 1)) with 0. change (march_month 2) with 11 in *. change (month_length 11) with 29 in *.
    change (month_start 0) with 0. replace year with (year - 1 + 1) at 1 2 by lia.
    pose proof (march_new_year (year - 1) day) as M.
    assert (day = 29 -> ends_leap ((year - 1) mod 400) = true) by (apply Hl; reflexivity).
    destruct (ends_leap ((year - 1) mod 400)); rewrite Z.add_assoc, M by (split; intros; lia || discriminate || intuition (congruence || lia)); lia. }
  destruct L as [->|[? _]]; [|contradiction].
  assert (St : date_days (if month <? 12 then year else year + 1) (if month <? 12 then month + 1 else 1) 1 =
               date_days year month (month_length (march_month month)) + 1).
  { unfold date_days.
    assert (E1 : march_year (if month <? 12 then year else year + 1) (if month <? 12 then month + 1 else 1) =
                 march_year year month) by (unfold march_year; ztest; lia).
    assert (E2 : march_month (if month <? 12 then month + 1 else 1) = march_month month + 1)
      by (unfold march_month; rewrite !Z.gtb_ltb; ztest; lia).
    assert (E3 : 0 <= march_month month < 11) by (unfold march_month; rewrite Z.gtb_ltb; ztest; lia).
    rewrite E1, E2. pose proof (range_spec 11 (fun mp =>
      month_start (mp + 1) =? month_start mp + month_length mp) eq_refl _ E3) as R. cbv beta in R. bsplit. lia. }
  destruct (month <? 12); exact St.
Qed.

(** the conversion counts days by the calendar: 1970-01-01 00:00:00 is 0,
    and the same time on the following day of the Gregorian calendar (month
    lengths and leap years as [is_valid_date] has them) is 86400 seconds later. *)
Theorem posix_time_counts_days :
  posix_time_from_utc 1970 1 1 0 0 0 = Some 0 /\
  forall year month day h m s time,
    posix_time_from_utc year month day h m s = Some time ->
    let '(y2, m2, d2) := next_date year month day in
    is_valid_date y2 m2 d2 = true -> posix_time_from_utc y2 m2 d2 h m s = Some (time + 86400).
Proof.
  split; [reflexivity|]. intros year month day h m s time H. rewrite from_utc_spec in H.
  destruct (is_valid_date year month day) eqn:V; [|discriminate]. destruct (is_valid_time h m s) eqn:T; [|discriminate].
  cbn [andb] in H. injection H as <-. pose proof (next_date_days _ _ _ V) as N.
  destruct (next_date year month day) as [[y2 m2] d2]. intros V2. rewrite from_utc_spec, V2, T, N. cbn [andb].
  f_equal. lia.
Qed.

Lemma gmtime_adj_value t time offset_day offset_sec :
  OPENSSL_tm_to_posix t = Some time ->
  - 2 ^ 31 <= offset_day < 2 ^ 31 -> - 2 ^ 63 <= offset_sec < 2 ^ 63 ->
  OPENSSL_gmtime_adj t offset_day offset_sec =
  OPENSSL_posix_to_tm (time + offset_day * 86400 + offset_sec).
Proof.
  intros H Hd Hs. destruct (tm_to_posix_some t time H) as (_ & _ & _ & _ & V).
  unfold is_valid_posix_time, MIN_POSIX_TIME, MAX_POSIX_TIME in V. bsplit.
  unfold OPENSSL_gmtime_adj. rewrite H. cbn [obind]. change SECS_PER_DAY with 86400.
  set (p := time + offset_day * 86400) in *.
  assert (N : ~ MIN_POSIX_TIME <= p + offset_sec <= MAX_POSIX_TIME -> OPENSSL_posix_to_tm (p + offset_sec) = None).
  { intros N. unfold OPENSSL_posix_to_tm, utc_from_posix_time, is_valid_posix_time.
    destruct (Z.leb_spec MIN_POSIX_TIME (p + offset_sec)), (Z.leb_spec (p + offset_sec) MAX_POSIX_TIME);
      try reflexivity. lia. }
  unfold INT64_MAX, INT64_MIN, MIN_POSIX_TIME, MAX_POSIX_TIME in *. rewrite !Z.gtb_ltb.
  destruct (Z.ltb_spec 0 p), (Z.ltb_spec (2 ^ 63 - 1 - p) offset_sec), (Z.ltb_spec p 0),
    (Z.ltb_spec offset_sec (- 2 ^ 63 - p)); cbn [andb]; try lia; try reflexivity; rewrite N; lia || reflexivity.
Qed.

(** [OPENSSL_gmtime_adj] adds days and seconds exactly: the result is the
    date of the sum when that lies in the years 0 to 9999 and a failure
    otherwise, for any [int] number of days and any [int64_t] number of
    seconds; its overflow checks lose nothing. *)
Theorem gmtime_adj_exact t time offset_day offset_sec :
  OPENSSL_tm_to_posix t = Some time ->
  - 2 ^ 31 <= offset_day < 2 ^ 31 -> - 2 ^ 63 <= offset_sec < 2 ^ 63 ->
  OPENSSL_gmtime_adj t offset_day offset_sec =
  OPENSSL_posix_to_tm (time + offset_day * 86400 + offset_sec).
Proof. apply gmtime_adj_value. Qed.

(** [OPENSSL_gmtime_diff] splits the distance between two times into days
    and seconds of the same sign, with less than a day of seconds, and both fit
    an [int]. *)
Theorem gmtime_diff_exact from to a b :
  OPENSSL_tm_to_posix from = Some a -> OPENSSL_tm_to_posix to = Some b ->
  exists days secs, OPENSSL_gmtime_diff from to = Some (days, secs) /\
    b - a = days * 86400 + secs /\ Z.abs secs < 86400 /\ 0 <= days * secs /\
    Z.abs days < 2 ^ 31.
Proof.
  intros Ha Hb. unfold OPENSSL_gmtime_diff. rewrite Ha, Hb. cbn [obind]. change SECS_PER_DAY with 86400.
  destruct (tm_to_posix_some _ _ Ha) as (_ & _ & _ & _ & Va). destruct (tm_to_posix_some _ _ Hb) as (_ & _ & _ & _ & Vb).
  unfold is_valid_posix_time, MIN_POSIX_TIME, MAX_POSIX_TIME in *. bsplit.
  pose proof (Z.quot_rem' (b - a) 86400). pose proof (Z.rem_bound_abs (b - a) 86400 ltac:(lia)).
  eexists _, _. split; [reflexivity|]. repeat split; try lia.
  destruct (Z.le_ge_cases 0 (b - a)) as [L|L].
  - pose proof (Z.rem_nonneg (b - a) 86400 ltac:(lia) L). apply Z.mul_nonneg_nonneg; lia.
  - pose proof (Z.rem_nonpos (b - a) 86400 ltac:(lia) L). apply Z.mul_nonpos_nonpos; lia.
Qed.

(** ** Concrete runs *)

Definition demo_tm : tm :=
  {| tm_year := 124; tm_mon := 1; tm_mday := 29; tm_hour := 12; tm_min := 30; tm_sec := 59 |}.

(** 2024-02-29 12:30:59 plus one day and one second. *)
Lemma gmtime_adj_exact_witness :
  OPENSSL_gmtime_adj demo_tm 1 1 =
  Some {| tm_year := 124; tm_mon := 2; tm_mday := 1; tm_hour := 12; tm_min := 31; tm_sec := 0 |}.
Proof. rewrite (gmtime_adj_exact demo_tm 1709209859 1 1); [reflexivity|reflexivity|lia|lia]. Defined.

Lemma gmtime_diff_exact_witness :
  exists days secs, OPENSSL_gmtime_diff demo_tm
      {| tm_year := 124; tm_mon := 1; tm_mday := 28; tm_hour := 0; tm_min := 0; tm_sec := 0 |} = Some (days, secs) /\
    1709078400 - 1709209859 = days * 86400 + secs /\ Z.abs secs < 86400 /\ 0 <= days * secs /\ Z.abs days < 2 ^ 31.
Proof. apply gmtime_diff_exact; reflexivity. Defined.

(** The epoch and the last second of the calendar. *)
Lemma posix_tm_inverse_witness :
  (exists t, OPENSSL_posix_to_tm MAX_POSIX_TIME = Some t /\ OPENSSL_tm_to_posix t = Some MAX_POSIX_TIME) /\
  OPENSSL_posix_to_tm 1709209859 = Some demo_tm.
Proof.
  split.
  - apply posix_tm_inverse. unfold MIN_POSIX_TIME, MAX_POSIX_TIME. lia.
  - apply (proj1 posix_tm_inverse demo_tm). reflexivity.
Defined.

(** 2100 is not a leap year. *)
Lemma posix_time_counts_days_witness :
  posix_time_from_utc 2100 3 1 0 0 0 = Some (4107456000 + 86400).
Proof. exact (proj2 posix_time_counts_days 2100 2 28 0 0 0 4107456000 eq_refl eq_refl). Defined.
