(* ===== verification/CbsTime.v ===== *)
(** UTCTime and GeneralizedTime: the RFC 5280 time parser of
    [crypto/bytestring/cbs.cc]. *)
From Stdlib Require Import ZArith List Lia Bool.
From S2P Require Import Prelude CryptoInternal Cbs PosixTime.
Import ListNotations.
Open Scope Z_scope.

Definition cbs_get_two_digits : st CBS Z :=
  let* first_digit := CBS_get_u8 in
  guard (OPENSSL_isdigit first_digit) ;;;
  let* second_digit := CBS_get_u8 in
  guard (OPENSSL_isdigit second_digit) ;;;
  ret ((first_digit - 48) * 10 + (second_digit - 48)).

Definition is_valid_day (year month day : Z) : bool :=
  if day <? 1 then false
  else if existsb (Z.eqb month) [1; 3; 5; 7; 8; 10; 12] then day <=? 31
  else if existsb (Z.eqb month) [4; 6; 9; 11] then day <=? 30
  else if month =? 2 then
    if ((Z.rem year 4 =? 0) && negb (Z.rem year 100 =? 0)) || (Z.rem year 400 =? 0)
    then day <=? 29 else day <=? 28
  else false.

(** The year of either kind of time. *)
Definition parse_time_year (is_gentime : bool) : st CBS Z :=
  if is_gentime then
    let* tmp := cbs_get_two_digits in
    let* tmp2 := cbs_get_two_digits in
    ret (tmp * 100 + tmp2)
  else
    let* tmp := cbs_get_two_digits in
    let year := 1900 + tmp in
    let year := if year <? 1950 then year + 100 else year in
    guard (negb (year >=? 2050)) ;;;
    ret year.

(** The sign of the offset: [Some 0] for 'Z', [None] for any other character. *)
Definition timezone_sign (tz : Z) : option Z :=
  if tz =? 90 then Some 0 else if tz =? 43 then Some 1 else if tz =? 45 then Some (-1) else None.

Definition parse_time_offset (offset_sign : Z) (allow_timezone_offset : bool) : st CBS Z :=
  if negb (offset_sign =? 0) then
    guard allow_timezone_offset ;;;
    let* offset_hours := cbs_get_two_digits in
    guard (negb (offset_hours >? 23)) ;;;
    let* offset_minutes := cbs_get_two_digits in
    guard (negb (offset_minutes >? 59)) ;;;
    ret (offset_sign * (offset_hours * 3600 + offset_minutes * 60))
  else ret 0.

(** The fields as written and the offset in seconds. *)
Definition parse_time_fields (is_gentime allow_timezone_offset : bool) : st CBS (tm * Z) :=
  let* year := parse_time_year is_gentime in
  let* month := cbs_get_two_digits in
  guard (negb (month <? 1) && negb (month >? 12)) ;;;
  let* day := cbs_get_two_digits in
  guard (is_valid_day year month day) ;;;
  let* hour := cbs_get_two_digits in
  guard (negb (hour >? 23)) ;;;
  let* min := cbs_get_two_digits in
  guard (negb (min >? 59)) ;;;
  let* sec := cbs_get_two_digits in
  guard (negb (sec >? 59)) ;;;
  let* tz := CBS_get_u8 in
  match timezone_sign tz with
  | None => fail
  | Some offset_sign =>
      let* offset_seconds := parse_time_offset offset_sign allow_timezone_offset in
      (fun copy => (guard (CBS_len copy =? 0) ;;;
        ret ({| tm_year := year - 1900; tm_mon := month - 1; tm_mday := day;
                tm_hour := hour; tm_min := min; tm_sec := sec |}, offset_seconds)) copy)
  end.

(** With [out_tm] not null; the parser works on a copy of the cursor. *)
Definition CBS_parse_rfc5280_time_internal (cbs : CBS) (is_gentime allow_timezone_offset : bool)
  : option tm :=
  match parse_time_fields is_gentime allow_timezone_offset cbs with
  | (None, _) => None
  | (Some (t, offset_seconds), _) =>
      if negb (offset_seconds =? 0) then OPENSSL_gmtime_adj t 0 offset_seconds else Some t
  end.

Definition CBS_parse_generalized_time (cbs : CBS) (allow_timezone_offset : bool) : option tm :=
  CBS_parse_rfc5280_time_internal cbs true allow_timezone_offset.
Definition CBS_parse_utc_time (cbs : CBS) (allow_timezone_offset : bool) : option tm :=
  CBS_parse_rfc5280_time_internal cbs false allow_timezone_offset.

(** ** The text of a time *)

Definition two_digits (n : Z) : list Z := [48 + n / 10; 48 + n mod 10].

(** MMDDHHMMSS *)
Definition time_text (t : tm) : list Z :=
  two_digits (tm_mon t + 1) ++ two_digits (tm_mday t) ++
  two_digits (tm_hour t) ++ two_digits (tm_min t) ++ two_digits (tm_sec t).
Definition year_text (is_gentime : bool) (t : tm) : list Z :=
  let year := tm_year t + 1900 in
  if is_gentime then two_digits (year / 100) ++ two_digits (year mod 100) else two_digits (year mod 100).

(** The years each kind can express. *)
Definition expressible (is_gentime : bool) (t : tm) : Prop :=
  if is_gentime then True else 1950 <= tm_year t + 1900 < 2050.

Lemma get_two_digits n rest : 0 <= n < 100 -> cbs_get_two_digits (two_digits n ++ rest) = (Some n, rest).
Proof.
  intros Hn. pose proof (Z.div_mod n 10 ltac:(lia)). pose proof (Z.mod_pos_bound n 10 ltac:(lia)).
  unfold cbs_get_two_digits, two_digits, bind. cbn [app]. rewrite CBS_get_u8_cons.
  assert (D : forall k, 0 <= k <= 9 -> OPENSSL_isdigit (48 + k) = true).
  { intros k Hk. unfold OPENSSL_isdigit. rewrite Z.geb_leb. apply andb_true_iff. split; apply Z.leb_le; lia. }
  rewrite D by lia. cbn [guard ret]. rewrite CBS_get_u8_cons, D by lia. cbn [guard ret]. unfold ret.
  f_equal. f_equal. lia.
Qed.

Lemma valid_day_of_date year month day :
  is_valid_date year month day = true ->
  is_valid_day year month day = true /\ 0 <= year <= 9999 /\ 1 <= month <= 12 /\ 1 <= day <= 31.
Proof.
  intros V. pose proof V as V'. apply valid_date_spec in V' as (Hy & Hm & Hd & _).
  unfold is_valid_date in V. destruct (_ || _) eqn:C; [discriminate|]. bsplit. unfold is_valid_day.
  destruct (Z.ltb_spec day 1); [lia|].
  assert (L : month_length (march_month month) <= 31).
  { pose proof (range_spec 12 (fun mp => month_length mp <=? 31) eq_refl (march_month month)) as R.
    cbv beta in R. pose proof (march_month_range month Hm). apply Z.leb_le, R. lia. }
  repeat split; try lia.
  destruct (existsb _ [1; 3; 5; 7; 8; 10; 12]); [now apply andb_true_iff in V|].
  destruct (existsb _ [4; 6; 9; 11]); [now apply andb_true_iff in V|].
  destruct (month =? 2); [|discriminate]. destruct (_ || _); now apply andb_true_iff in V.
Qed.

Lemma parse_year_text is_gentime t rest :
  0 <= tm_year t + 1900 <= 9999 -> expressible is_gentime t ->
  parse_time_year is_gentime (year_text is_gentime t ++ rest) = (Some (tm_year t + 1900), rest).
Proof.
  intros Hy Hx. set (y := tm_year t + 1900) in *. pose proof (Z.div_mod y 100 ltac:(lia)).
  pose proof (Z.mod_pos_bound y 100 ltac:(lia)). unfold parse_time_year, year_text. fold y.
  destruct is_gentime; cbn [expressible] in Hx.
  - unfold bind. rewrite <- app_assoc, !get_two_digits by lia. unfold ret. do 2 f_equal. lia.
  - fold y in Hx. unfold bind. rewrite get_two_digits by lia.
    assert (E : (if 1900 + y mod 100 <? 1950 then 1900 + y mod 100 + 100 else 1900 + y mod 100) = y).
    { destruct (Z.ltb_spec (1900 + y mod 100) 1950); lia. }
    rewrite E, Z.geb_leb. destruct (Z.leb_spec 2050 y); [lia|]. reflexivity.
Qed.

(** The fields of a valid time are read back, up to the time zone. *)
Lemma parse_fields_text is_gentime allow t time tzc tail off :
  OPENSSL_tm_to_posix t = Some time -> expressible is_gentime t ->
  (exists sign, timezone_sign tzc = Some sign /\ parse_time_offset sign allow tail = (Some off, [])) ->
  fst (parse_time_fields is_gentime allow (year_text is_gentime t ++ time_text t ++ tzc :: tail)) =
  Some (t, off).
Proof.
  intros H Hx (sign & Hz & Ho). destruct (tm_to_posix_some t time H) as (V & (T1 & T2 & T3) & _).
  destruct (valid_day_of_date _ _ _ V) as (Vd & Hy & Hm & Hd). unfold parse_time_fields.
  unfold bind at 1. rewrite parse_year_text by assumption. unfold time_text. rewrite <- !app_assoc.
  unfold bind at 1. rewrite get_two_digits by lia. rewrite !Z.gtb_ltb.
  destruct (Z.ltb_spec (tm_mon t + 1) 1), (Z.ltb_spec 12 (tm_mon t + 1)); try lia. cbn [negb andb guard].
  unfold bind at 1, ret at 1. unfold bind at 1. rewrite get_two_digits by lia. rewrite Vd.
  unfold bind at 1, guard at 1, ret at 1. unfold bind at 1. rewrite get_two_digits by lia.
  rewrite Z.gtb_ltb. destruct (Z.ltb_spec 23 (tm_hour t)); [lia|].
  unfold bind at 1, guard at 1, ret at 1. cbn [negb]. unfold bind at 1. rewrite get_two_digits by lia.
  rewrite Z.gtb_ltb. destruct (Z.ltb_spec 59 (tm_min t)); [lia|].
  unfold bind at 1, guard at 1, ret at 1. cbn [negb]. unfold bind at 1. rewrite get_two_digits by lia.
  rewrite Z.gtb_ltb. destruct (Z.ltb_spec 59 (tm_sec t)); [lia|].
  unfold bind at 1, guard at 1, ret at 1. cbn [negb]. unfold bind at 1. rewrite CBS_get_u8_cons, Hz.
  unfold bind at 1. rewrite Ho. cbn. destruct t; cbn. do 2 f_equal. f_equal; lia.
Qed.

(** a time in its DER text form (YYYYMMDDHHMMSSZ, or YYMMDDHHMMSSZ for the
    years 1950 to 2049) is parsed to exactly the fields it shows, for every date
    and time the library can represent. *)
Theorem time_parse_roundtrip is_gentime allow t time :
  OPENSSL_tm_to_posix t = Some time -> expressible is_gentime t ->
  CBS_parse_rfc5280_time_internal (year_text is_gentime t ++ time_text t ++ [90]) is_gentime allow = Some t.
Proof.
  intros H Hx. unfold CBS_parse_rfc5280_time_internal.
  assert (P : fst (parse_time_fields is_gentime allow (year_text is_gentime t ++ time_text t ++ [90])) = Some (t, 0)).
  { eapply parse_fields_text; eauto. exists 0. split; reflexivity. }
  destruct (parse_time_fields _ _ _) as [[[t' off]|] s]; cbn in P; [|discriminate].
  injection P as -> ->. reflexivity.
Qed.

(** A time zone offset is added to the local time: for "+hhmm" the result
    is the time hh:mm later than the one written and for "-hhmm" the time that
    much earlier, although UTC is the local time minus the offset. *)
Theorem time_offset_added is_gentime t time (plus : bool) oh om :
  OPENSSL_tm_to_posix t = Some time -> expressible is_gentime t ->
  0 <= oh <= 23 -> 0 <= om <= 59 -> 0 < oh * 3600 + om * 60 ->
  CBS_parse_rfc5280_time_internal
    (year_text is_gentime t ++ time_text t ++ (if plus then 43 else 45) :: two_digits oh ++ two_digits om)
    is_gentime true =
  OPENSSL_posix_to_tm (time + (if plus then 1 else -1) * (oh * 3600 + om * 60)).
Proof.
  intros H Hx Hh Hm Hp. unfold CBS_parse_rfc5280_time_internal.
  set (off := (if plus then 1 else -1) * (oh * 3600 + om * 60)).
  assert (P : fst (parse_time_fields is_gentime true (year_text is_gentime t ++ time_text t ++
            (if plus then 43 else 45) :: two_digits oh ++ two_digits om)) = Some (t, off)).
  { eapply parse_fields_text; eauto. exists (if plus then 1 else -1). split; [now destruct plus|].
    unfold parse_time_offset. replace (negb ((if plus then 1 else -1) =? 0)) with true by now destruct plus.
    unfold bind at 1, guard at 1, ret at 1. unfold bind at 1. rewrite get_two_digits by lia.
    rewrite Z.gtb_ltb. destruct (Z.ltb_spec 23 oh); [lia|]. unfold bind at 1, guard at 1, ret at 1. cbn [negb].
    unfold bind at 1. rewrite <- (app_nil_r (two_digits om)), get_two_digits by lia.
    rewrite Z.gtb_ltb. destruct (Z.ltb_spec 59 om); [lia|]. reflexivity. }
  destruct (parse_time_fields _ _ _) as [[[t' o]|] s]; cbn in P; [|discriminate]. injection P as -> ->.
  assert (N : off <> 0) by (unfold off; destruct plus; lia).
  destruct (Z.eqb_spec off 0); [contradiction|]. cbn [negb].
  rewrite (gmtime_adj_value t time 0 off H) by (unfold off; destruct plus; lia). f_equal. lia.
Qed.

(** ** Concrete runs *)

(** 2024-02-29 12:30:59 *)
Lemma time_parse_roundtrip_witness :
  CBS_parse_generalized_time (year_text true demo_tm ++ time_text demo_tm ++ [90]) false = Some demo_tm.
Proof. apply (time_parse_roundtrip true false demo_tm 1709209859); [reflexivity|exact I]. Defined.

(** 12:30:59+0100 is read as 13:30:59. *)
Lemma time_offset_added_witness :
  CBS_parse_utc_time (year_text false demo_tm ++ time_text demo_tm ++ 43 :: two_digits 1 ++ two_digits 0) true =
  Some {| tm_year := 124; tm_mon := 1; tm_mday := 29; tm_hour := 13; tm_min := 30; tm_sec := 59 |}.
Proof.
  unfold CBS_parse_utc_time.
  rewrite (time_offset_added false demo_tm 1709209859 true 1 0); [reflexivity|reflexivity|cbn; lia|lia|lia|lia].
Defined.
