(* ===== verification/SslVersions.v ===== *)
(** Protocol versions: [ssl/ssl_versions.cc]. *)
From Stdlib Require Import ZArith List Lia Bool.
From S2P Require Import Prelude CryptoInternal Cbs Cbb CbbSpec Asn1Build Bytestring.
Import ListNotations.
Open Scope Z_scope.

Definition TLS1_VERSION : Z := 0x0301.
Definition TLS1_1_VERSION : Z := 0x0302.
Definition TLS1_2_VERSION : Z := 0x0303.
Definition TLS1_3_VERSION : Z := 0x0304.
Definition DTLS1_VERSION : Z := 0xfeff.
Definition DTLS1_2_VERSION : Z := 0xfefd.
Definition DTLS1_3_VERSION : Z := 0xfefc.
Definition SSL_OP_NO_TLSv1 : Z := 0x04000000.
Definition SSL_OP_NO_TLSv1_2 : Z := 0x08000000.
Definition SSL_OP_NO_TLSv1_1 : Z := 0x10000000.
Definition SSL_OP_NO_TLSv1_3 : Z := 0x20000000.
Definition SSL_OP_NO_DTLSv1 : Z := SSL_OP_NO_TLSv1.
Definition SSL_AD_PROTOCOL_VERSION : Z := 70.
Definition SSL_AD_DECODE_ERROR : Z := 50.

Definition ssl_protocol_version_from_wire (version : Z) : option Z :=
  if existsb (Z.eqb version) [TLS1_VERSION; TLS1_1_VERSION; TLS1_2_VERSION; TLS1_3_VERSION]
  then Some version
  else if version =? DTLS1_VERSION then Some TLS1_1_VERSION
  else if version =? DTLS1_2_VERSION then Some TLS1_2_VERSION
  else if version =? DTLS1_3_VERSION then Some TLS1_3_VERSION
  else None.

Definition kTLSVersions : list Z := [TLS1_3_VERSION; TLS1_2_VERSION; TLS1_1_VERSION; TLS1_VERSION].
Definition kDTLSVersions : list Z := [DTLS1_3_VERSION; DTLS1_2_VERSION; DTLS1_VERSION].

Definition get_method_versions (is_dtls : bool) : list Z := if is_dtls then kDTLSVersions else kTLSVersions.

Definition ssl_method_supports_version (is_dtls : bool) (version : Z) : bool :=
  existsb (fun supported => supported =? version) (get_method_versions is_dtls).

Definition api_version_to_wire (version : Z) : option Z :=
  match ssl_protocol_version_from_wire version with Some _ => Some version | None => None end.

Definition set_version_bound (is_dtls : bool) (version : Z) : option Z :=
  match api_version_to_wire version with
  | None => None
  | Some version => if ssl_method_supports_version is_dtls version then Some version else None
  end.

Definition set_min_version (is_dtls : bool) (version : Z) : option Z :=
  if version =? 0 then Some (if is_dtls then DTLS1_2_VERSION else TLS1_2_VERSION)
  else set_version_bound is_dtls version.
Definition set_max_version (is_dtls : bool) (version : Z) : option Z :=
  if version =? 0 then Some (if is_dtls then DTLS1_3_VERSION else TLS1_3_VERSION)
  else set_version_bound is_dtls version.

(** What the version code reads of [SSL], [SSL_CONFIG] and [SSL_HANDSHAKE]. *)
Record SSL_HANDSHAKE := {
  hs_is_dtls : bool;
  hs_is_quic : bool;
  hs_options : Z;
  hs_conf_min_version : Z;
  hs_conf_max_version : Z;
  hs_min_version : Z;
  hs_max_version : Z;
  hs_apply_jdk11_workaround : bool
}.

Definition kProtocolVersions : list (Z * Z) :=
  [(TLS1_VERSION, SSL_OP_NO_TLSv1); (TLS1_1_VERSION, SSL_OP_NO_TLSv1_1);
   (TLS1_2_VERSION, SSL_OP_NO_TLSv1_2); (TLS1_3_VERSION, SSL_OP_NO_TLSv1_3)].

(** The loop over [kProtocolVersions]: [prev] is [kProtocolVersions[i - 1].version]. *)
Fixpoint version_range_loop (options : Z) (table : list (Z * Z)) (prev : Z)
    (any_enabled : bool) (min_version max_version : Z) : bool * Z * Z :=
  match table with
  | [] => (any_enabled, min_version, max_version)
  | (version, flag) :: table' =>
      if min_version >? version then
        version_range_loop options table' version any_enabled min_version max_version
      else if max_version <? version then (any_enabled, min_version, max_version)
      else if Z.land options flag =? 0 then
        version_range_loop options table' version true
          (if any_enabled then min_version else version) max_version
      else if any_enabled then (any_enabled, min_version, prev)
      else version_range_loop options table' version any_enabled min_version max_version
  end.

Definition ssl_get_version_range (hs : SSL_HANDSHAKE) : option (Z * Z) :=
  let options := hs_options hs in
  let options :=
    if hs_is_dtls hs then
      let options := Z.land options (u32 (Z.lnot SSL_OP_NO_TLSv1_1)) in
      if negb (Z.land options SSL_OP_NO_DTLSv1 =? 0) then Z.lor options SSL_OP_NO_TLSv1_1 else options
    else options in
  match ssl_protocol_version_from_wire (hs_conf_min_version hs),
        ssl_protocol_version_from_wire (hs_conf_max_version hs) with
  | Some min_version, Some max_version =>
      let min_version :=
        if hs_is_quic hs && (min_version <? TLS1_3_VERSION) then TLS1_3_VERSION else min_version in
      match version_range_loop options kProtocolVersions 0 false min_version max_version with
      | (false, _, _) => None
      | (true, min_version, max_version) => Some (min_version, max_version)
      end
  | _, _ => None
  end.

(** [version] is [ssl->s3->version]. *)
Definition ssl_protocol_version (version : Z) : Z :=
  match ssl_protocol_version_from_wire version with Some v => v | None => 0 end.

Definition ssl_supports_version (hs : SSL_HANDSHAKE) (version : Z) : bool :=
  ssl_method_supports_version (hs_is_dtls hs) version &&
  match ssl_protocol_version_from_wire version with
  | None => false
  | Some protocol_version =>
      negb ((hs_min_version hs >? protocol_version) || (protocol_version >? hs_max_version hs))
  end.

Definition listed_version (hs : SSL_HANDSHAKE) (extra_min_version version : Z) : bool :=
  ssl_supports_version hs version &&
  match ssl_protocol_version_from_wire version with
  | None => false
  | Some protocol_version => protocol_version >=? extra_min_version
  end.

Section Versions.
Context {E : Env}.

Fixpoint add_versions (hs : SSL_HANDSHAKE) (d : nat) (extra_min_version : Z) (versions : list Z)
  : st CBB unit :=
  match versions with
  | [] => ret tt
  | version :: versions' =>
      (if listed_version hs extra_min_version version then CBB_add_u16 d version else ret tt) ;;;
      add_versions hs d extra_min_version versions'
  end.

Definition ssl_add_supported_versions (hs : SSL_HANDSHAKE) (d : nat) (extra_min_version : Z)
  : st CBB unit :=
  add_versions hs d extra_min_version (get_method_versions (hs_is_dtls hs)).

End Versions.

(** The result or the alert to send. *)
Inductive negotiated := Version (v : Z) | Alert (a : Z).

(** The scan of the peer's list for [version]: [None] for a decode error.  Each
    round reads two bytes, so the list's length is enough fuel. *)
Fixpoint peer_offers (fuel : nat) (version : Z) (copy : CBS) : option bool :=
  match fuel with
  | O => Some false
  | S fuel' =>
      if CBS_len copy =? 0 then Some false
      else match CBS_get_u16 copy with
           | (None, _) => None
           | (Some peer_version, copy') =>
               if peer_version =? version then Some true else peer_offers fuel' version copy'
           end
  end.

Fixpoint negotiate_loop (hs : SSL_HANDSHAKE) (versions : list Z) (peer_versions : CBS) : negotiated :=
  match versions with
  | [] => Alert SSL_AD_PROTOCOL_VERSION
  | version :: versions' =>
      if negb (ssl_supports_version hs version) then negotiate_loop hs versions' peer_versions
      else if (version =? TLS1_3_VERSION) && hs_apply_jdk11_workaround hs
      then negotiate_loop hs versions' peer_versions
      else match peer_offers (S (length peer_versions)) version peer_versions with
           | None => Alert SSL_AD_DECODE_ERROR
           | Some true => Version version
           | Some false => negotiate_loop hs versions' peer_versions
           end
  end.

Definition ssl_negotiate_version (hs : SSL_HANDSHAKE) (peer_versions : CBS) : negotiated :=
  negotiate_loop hs (get_method_versions (hs_is_dtls hs)) peer_versions.

(** ** The enabled range *)

(** The versions that are in [min, max] and not switched off, in order. *)
Definition enabled (options lo hi : Z) : list Z :=
  map fst (filter (fun '(v, flag) => (lo <=? v) && (v <=? hi) && (Z.land options flag =? 0)) kProtocolVersions).

(** The longest prefix of consecutive versions. *)
Fixpoint run_from (v : Z) (vs : list Z) : Z :=
  match vs with
  | v' :: vs' => if v' =? v + 1 then run_from v' vs' else v
  | [] => v
  end.

Lemma from_wire_range w v : ssl_protocol_version_from_wire w = Some v ->
  In v [TLS1_VERSION; TLS1_1_VERSION; TLS1_2_VERSION; TLS1_3_VERSION].
Proof.
  unfold ssl_protocol_version_from_wire. destruct (existsb _ _) eqn:X.
  - intros [= <-]. apply existsb_exists in X as (x & Hx & E). apply Z.eqb_eq in E. now subst.
  - repeat (destruct (_ =? _); [intros [= <-]; cbn; tauto|]). discriminate.
Qed.

(** [ssl_get_version_range] picks the lowest contiguous non-empty range of
    the versions that the configured bounds and the SSL_OP_NO_* flags leave
    enabled (for DTLS with the TLS 1.1 flag taken from the DTLS 1.0 flag, for
    QUIC from TLS 1.3 on), and fails exactly when none is left. *)
Theorem version_range_lowest_run hs min_version max_version :
  ssl_protocol_version_from_wire (hs_conf_min_version hs) = Some min_version ->
  ssl_protocol_version_from_wire (hs_conf_max_version hs) = Some max_version ->
  let options :=
    if hs_is_dtls hs then
      Z.lor (Z.land (hs_options hs) (u32 (Z.lnot SSL_OP_NO_TLSv1_1)))
        (if Z.land (hs_options hs) SSL_OP_NO_DTLSv1 =? 0 then 0 else SSL_OP_NO_TLSv1_1)
    else hs_options hs in
  let lo := if hs_is_quic hs then Z.max min_version TLS1_3_VERSION else min_version in
  ssl_get_version_range hs =
  match enabled options lo max_version with
  | [] => None
  | v :: vs => Some (v, run_from v vs)
  end.
Proof.
  intros Hmin Hmax options lo. unfold ssl_get_version_range. rewrite Hmin, Hmax.
  match goal with |- context [version_range_loop ?o _ _ _ ?l _] => replace o with options; [replace l with lo|] end.
  - assert (Rmin : In min_version [TLS1_VERSION; TLS1_1_VERSION; TLS1_2_VERSION; TLS1_3_VERSION])
      by (revert Hmin; apply from_wire_range).
    assert (Rmax : In max_version [TLS1_VERSION; TLS1_1_VERSION; TLS1_2_VERSION; TLS1_3_VERSION])
      by (revert Hmax; apply from_wire_range).
    clearbody options. unfold lo. clear lo Hmin Hmax.
    cbn in Rmin, Rmax. unfold enabled, kProtocolVersions. cbn [filter map fst version_range_loop].
    destruct (Z.land options SSL_OP_NO_TLSv1 =? 0), (Z.land options SSL_OP_NO_TLSv1_1 =? 0),
      (Z.land options SSL_OP_NO_TLSv1_2 =? 0), (Z.land options SSL_OP_NO_TLSv1_3 =? 0);
      destruct (hs_is_quic hs);
      repeat (destruct Rmin as [<-|Rmin]; [repeat (destruct Rmax as [<-|Rmax]; [reflexivity|]); contradiction|]);
      contradiction.
  - unfold lo. unfold TLS1_3_VERSION. destruct (hs_is_quic hs); [|reflexivity]. cbn [andb].
    destruct (Z.ltb_spec min_version 0x304); lia.
  - unfold options. destruct (hs_is_dtls hs); [|reflexivity].
    assert (EL : Z.land (Z.land (hs_options hs) (u32 (Z.lnot SSL_OP_NO_TLSv1_1))) SSL_OP_NO_DTLSv1 =
                 Z.land (hs_options hs) SSL_OP_NO_DTLSv1) by (rewrite <- Z.land_assoc; reflexivity).
    rewrite EL. destruct (_ =? 0); cbn [negb]; [now rewrite Z.lor_0_r|reflexivity].
Qed.

(** ** Negotiation *)

(** The bytes of a list of versions. *)
Definition version_bytes (vs : list Z) : list Z := concat (map (be_split 2) vs).
Definition u16s (vs : list Z) : Prop := Forall (fun v => 0 <= v < 2 ^ 16) vs.

Lemma get_u16_split v rest : 0 <= v < 2 ^ 16 -> CBS_get_u16 (be_split 2 v ++ rest) = (Some v, rest).
Proof.
  intros Hv. unfold CBS_get_u16, bind. change 2 with (Z.of_nat 2) at 1.
  rewrite cbs_get_u_split by (change (256 ^ Z.of_nat 2) with (2 ^ 16); lia).
  unfold ret. now rewrite wrap_small by lia.
Qed.

Lemma peer_offers_spec version ps : u16s ps -> forall fuel, (length ps < fuel)%nat ->
  peer_offers fuel version (version_bytes ps) = Some (existsb (Z.eqb version) ps).
Proof.
  induction 1 as [|p ps Hp _ IH]; intros fuel Hf; (destruct fuel as [|fuel]; [cbn in Hf; lia|]).
  - reflexivity.
  - unfold version_bytes in *. cbn [map concat peer_offers existsb length] in *. unfold CBS_len.
    rewrite zlength_app, zlength_be_split. pose proof (zlength_nonneg (concat (map (be_split 2) ps))).
    destruct (Z.eqb_spec (Z.of_nat 2 + zlength (concat (map (be_split 2) ps))) 0); [lia|].
    rewrite get_u16_split by exact Hp. rewrite (Z.eqb_sym p version).
    destruct (version =? p); [reflexivity|]. apply IH. lia.
Qed.

Lemma length_version_bytes ps : (length ps <= length (version_bytes ps))%nat.
Proof.
  unfold version_bytes. induction ps as [|p ps IH]; [reflexivity|]. cbn [map concat length].
  rewrite length_app, length_be_split. lia.
Qed.

(** The versions this side would accept, in its order of preference. *)
Definition acceptable (hs : SSL_HANDSHAKE) (v : Z) : bool :=
  ssl_supports_version hs v && negb ((v =? TLS1_3_VERSION) && hs_apply_jdk11_workaround hs).

Lemma negotiate_find hs ps : u16s ps ->
  ssl_negotiate_version hs (version_bytes ps) =
  match find (fun v => acceptable hs v && existsb (Z.eqb v) ps) (get_method_versions (hs_is_dtls hs)) with
  | Some v => Version v
  | None => Alert SSL_AD_PROTOCOL_VERSION
  end.
Proof.
  intros Hp. unfold ssl_negotiate_version.
  induction (get_method_versions (hs_is_dtls hs)) as [|v vs IH]; [reflexivity|].
  cbn [negotiate_loop find]. unfold acceptable at 1.
  destruct (ssl_supports_version hs v); cbn [negb andb]; [|exact IH].
  destruct ((v =? TLS1_3_VERSION) && hs_apply_jdk11_workaround hs); cbn [negb andb]; [exact IH|].
  rewrite peer_offers_spec by (auto; pose proof (length_version_bytes ps); lia).
  destruct (existsb (Z.eqb v) ps); [reflexivity|exact IH].
Qed.

(** version negotiation follows the local preference order: for any
    well-formed list from the peer it selects the most preferred version that
    is supported here and offered there, and reports protocol_version exactly
    when there is none. *)
Theorem negotiate_most_preferred hs ps v :
  u16s ps ->
  (ssl_negotiate_version hs (version_bytes ps) = Version v ->
   acceptable hs v = true /\ In v ps /\
   exists before after, get_method_versions (hs_is_dtls hs) = before ++ v :: after /\
     forall w, In w before -> acceptable hs w = true -> ~ In w ps) /\
  (ssl_negotiate_version hs (version_bytes ps) = Alert SSL_AD_PROTOCOL_VERSION <->
   forall w, In w (get_method_versions (hs_is_dtls hs)) -> acceptable hs w = true -> ~ In w ps) /\
  ssl_negotiate_version hs (version_bytes ps) <> Alert SSL_AD_DECODE_ERROR.
Proof.
  intros Hp. rewrite negotiate_find by exact Hp.
  assert (M : forall w, existsb (Z.eqb w) ps = true <-> In w ps).
  { intros w. rewrite existsb_exists. split; [intros (x & Hx & E)|intros H; exists w; split; [exact H|apply Z.eqb_refl]].
    apply Z.eqb_eq in E. now subst. }
  set (f := fun v => acceptable hs v && existsb (Z.eqb v) ps).
  induction (get_method_versions (hs_is_dtls hs)) as [|x l (I1 & I2 & I3)]; cbn [find].
  - split; [discriminate|]. split; [split; [intros _ w []|reflexivity]|discriminate].
  - destruct (f x) eqn:F.
    + unfold f in F. apply andb_true_iff in F as [F1 F2].
      split; [|split; [split; [discriminate|]|discriminate]].
      * intros [= <-]. split; [exact F1|]. split; [now apply M|]. exists [], l. split; [reflexivity|intros w []].
      * intros H. exfalso. apply (H x); [now left|exact F1|now apply M].
    + split; [|split; [|exact I3]].
      * intros H. destruct (I1 H) as (A & B & before & after & -> & C). split; [exact A|]. split; [exact B|].
        exists (x :: before), after. split; [reflexivity|]. intros w [<-|Hw] Aw Iw; [|now apply (C w)].
        unfold f in F. rewrite Aw in F. apply M in Iw. rewrite Iw in F. discriminate.
      * rewrite I2. split; intros H w; [intros [<-|Hw] Aw Iw|intros Hw; apply H; now right].
        -- unfold f in F. rewrite Aw in F. apply M in Iw. rewrite Iw in F. discriminate.
        -- now apply (H w).
Qed.

Section Agree.
Context {E : Env}.
Hypothesis alloc : forall n, alloc_ok n = true.

Lemma method_versions_u16 b : u16s (get_method_versions b).
Proof. destruct b; apply Forall_forall; intros v Hv; vm_compute in Hv; lia. Qed.

Lemma u16s_filter f vs : u16s vs -> u16s (filter f vs).
Proof. induction 1 as [|v vs Hv _ IH]; cbn; [constructor|]. destruct (f v); [now constructor|exact IH]. Qed.

Definition awrite_some (d : nat) (bs : list Z) (a : builder) : option (unit * builder) :=
  match bs with [] => Some (tt, a) | _ => awrite d bs a end.

Lemma monotone_awrite_some d bs : monotone (awrite_some d bs).
Proof. destruct bs; [apply monotone_ret|apply monotone_awrite]. Qed.

Lemma awrite_some_nonempty d bs a : bs <> [] -> awrite_some d bs a = awrite d bs a.
Proof. now destruct bs. Qed.

Lemma add_versions_refines hs d extra vs : u16s vs ->
  refines (add_versions hs d extra vs)
    (awrite_some d (version_bytes (filter (listed_version hs extra) vs))).
Proof.
  induction 1 as [|v vs Hv _ IH]; cbn [add_versions filter]; [apply refines_ret|].
  destruct (listed_version hs extra v).
  - unfold version_bytes in *. cbn [map concat].
    eapply refines_ext.
    { apply refines_bind with (g := fun _ => awrite_some d (concat (map (be_split 2) (filter (listed_version hs extra) vs))));
        [|intros _; exact IH|intros _; apply monotone_awrite_some].
      unfold CBB_add_u16. apply cbb_add_u_refines; lia. }
    intros a. unfold abind. change (256 ^ Z.of_nat 2) with (2 ^ 16). destruct (Z.ltb_spec v (2 ^ 16)); [|lia].
    set (rest := concat (map (be_split 2) (filter (listed_version hs extra) vs))).
    rewrite (awrite_some_nonempty d (be_split 2 v ++ rest)).
    2:{ intros H0. apply (f_equal (@length Z)) in H0. rewrite length_app, length_be_split in H0. cbn in H0. lia. }
    rewrite <- awrite_awrite. unfold abind. destruct rest as [|y r]; [|reflexivity].
    unfold awrite. cbn [awrite_some]. destruct (flush_builder d a) as [a1|] eqn:Fl; [|reflexivity]. cbn [obind].
    apply flush_builder_depth in Fl. rewrite flush_builder_id by (rewrite append_builder_depth; exact Fl).
    cbn [obind]. now rewrite append_builder_nil.
  - eapply refines_eq; [|exact IH]. intros s. reflexivity.
Qed.

Lemma build_versions hs extra :
  build 0 (ssl_add_supported_versions hs 0 extra) =
  Some (version_bytes (filter (listed_version hs extra) (get_method_versions (hs_is_dtls hs)))).
Proof.
  pose proof (build_repr 0 _ _ ltac:(lia)
    (add_versions_refines hs 0 extra _ (method_versions_u16 (hs_is_dtls hs))) alloc) as B.
  set (out := version_bytes _) in *.
  assert (L : zlength out <= 8).
  { unfold out. destruct (hs_is_dtls hs); cbn [get_method_versions kDTLSVersions kTLSVersions filter];
      repeat (destruct (listed_version _ _ _)); vm_compute; discriminate. }
  unfold ssl_add_supported_versions. clearbody out. destruct out as [|x out]; cbn [awrite_some] in B.
  - exact (B [] eq_refl eq_refl eq_refl).
  - unfold awrite, flush_builder, append_builder, size in B. cbn -[zlength build] in B.
    specialize (B [] eq_refl). rewrite app_nil_r in B. apply B; rewrite ?app_nil_r; lia.
Qed.

Lemma find_ext_in {A} (f g : A -> bool) l : (forall x, In x l -> f x = g x) -> find f l = find g l.
Proof.
  induction l as [|x l IH]; intros H; cbn; [reflexivity|]. rewrite (H x) by now left.
  rewrite IH; [reflexivity|]. intros y Hy. apply H. now right.
Qed.

(** two endpoints of the same kind agree: a server that negotiates against
    the list a client wrote with [ssl_add_supported_versions] selects the
    highest version that lies in both sides' ranges, and reports
    protocol_version when the ranges do not meet. *)
Theorem versions_agree client server :
  hs_is_dtls client = hs_is_dtls server -> hs_apply_jdk11_workaround server = false ->
  exists offer, build 0 (ssl_add_supported_versions client 0 0) = Some offer /\
    ssl_negotiate_version server offer =
    match find (fun v => ssl_supports_version client v && ssl_supports_version server v)
            (get_method_versions (hs_is_dtls server)) with
    | Some v => Version v
    | None => Alert SSL_AD_PROTOCOL_VERSION
    end.
Proof.
  intros Hd Hj. eexists. split; [apply build_versions|].
  rewrite negotiate_find by (apply u16s_filter, method_versions_u16). rewrite Hd.
  set (vs := get_method_versions (hs_is_dtls server)).
  assert (F : forall v, In v vs -> acceptable server v && existsb (Z.eqb v) (filter (listed_version client 0) vs) =
                                   ssl_supports_version client v && ssl_supports_version server v).
  { intros v Hv. unfold acceptable. rewrite Hj, andb_false_r. cbn [negb]. rewrite andb_true_r.
    rewrite andb_comm. f_equal. apply eq_true_iff_eq. rewrite existsb_exists. split.
    - intros (x & Hx & Ex). apply Z.eqb_eq in Ex. subst x. apply filter_In in Hx as [_ L].
      unfold listed_version in L. now apply andb_true_iff in L.
    - intros S. exists v. split; [|apply Z.eqb_refl]. apply filter_In. split; [exact Hv|].
      unfold listed_version. rewrite S. unfold ssl_supports_version in S. apply andb_true_iff in S as [_ S].
      destruct (ssl_protocol_version_from_wire v) as [p|] eqn:W; [|discriminate].
      apply from_wire_range in W. cbn [andb]. rewrite Z.geb_leb. apply Z.leb_le.
      cbn in W. unfold TLS1_VERSION, TLS1_1_VERSION, TLS1_2_VERSION, TLS1_3_VERSION in W. lia. }
  rewrite (find_ext_in _ _ _ F). reflexivity.
Qed.

End Agree.

(** ** Concrete runs *)

#[local] Instance version_demo_env : Env := { uninit := 0; alloc_ok := fun _ => true }.

Definition demo_hs (options lo hi : Z) : SSL_HANDSHAKE :=
  {| hs_is_dtls := false; hs_is_quic := false; hs_options := options;
     hs_conf_min_version := TLS1_VERSION; hs_conf_max_version := TLS1_3_VERSION;
     hs_min_version := lo; hs_max_version := hi; hs_apply_jdk11_workaround := false |}.

(** With TLS 1.2 switched off the range is TLS 1.0 to TLS 1.1. *)
Lemma version_range_lowest_run_witness :
  ssl_get_version_range (demo_hs SSL_OP_NO_TLSv1_2 0 0) = Some (TLS1_VERSION, TLS1_1_VERSION).
Proof.
  rewrite (version_range_lowest_run (demo_hs SSL_OP_NO_TLSv1_2 0 0) TLS1_VERSION TLS1_3_VERSION);
    reflexivity.
Defined.

Lemma negotiate_most_preferred_witness :
  ssl_negotiate_version (demo_hs 0 TLS1_2_VERSION TLS1_3_VERSION)
    (version_bytes [0x1a1a; TLS1_2_VERSION; TLS1_3_VERSION]) = Version TLS1_3_VERSION /\
  In TLS1_3_VERSION [0x1a1a; TLS1_2_VERSION; TLS1_3_VERSION].
Proof.
  split; [reflexivity|].
  apply (negotiate_most_preferred (demo_hs 0 TLS1_2_VERSION TLS1_3_VERSION)
           [0x1a1a; TLS1_2_VERSION; TLS1_3_VERSION] TLS1_3_VERSION); [|reflexivity].
  apply Forall_forall. intros v Hv. vm_compute in Hv. lia.
Defined.

Lemma versions_agree_witness :
  exists offer, build 0 (ssl_add_supported_versions (demo_hs 0 TLS1_VERSION TLS1_3_VERSION) 0 0) = Some offer /\
    ssl_negotiate_version (demo_hs 0 TLS1_1_VERSION TLS1_2_VERSION) offer = Version TLS1_2_VERSION.
Proof.
  exact (@versions_agree version_demo_env (fun _ => eq_refl) (demo_hs 0 TLS1_VERSION TLS1_3_VERSION)
           (demo_hs 0 TLS1_1_VERSION TLS1_2_VERSION) eq_refl eq_refl).
Defined.
