(* ===== verification/SslAead.v ===== *)
(** The record protection context: [SSLAEADContext] of [ssl/ssl_aead_ctx.cc].
    The cipher itself is the [EVP_AEAD] interface of [openssl/aead.h], a record
    of functions here; [aead_ok] states what that header documents of them.
    The header calls the TLS-specific CBC AEADs stateful (with an implicit IV
    each record starts from the end of the one before); as functions they are
    simplified, and the claims about sealing and opening TLS records leave the
    CBC suites out.
    Fuzzer mode is off, buffers do not alias. *)
From Stdlib Require Import ZArith List Lia Bool.
From S2P Require Import Prelude CryptoInternal Cbs Cbb CbbSpec Asn1Build Asn1Int SslVersions.
Import ListNotations.
Open Scope Z_scope.

(** ** The interface of an initialised [EVP_AEAD_CTX] *)

Record EVP_AEAD_CTX := {
  EVP_AEAD_max_overhead : Z;
  EVP_AEAD_CTX_tag_len : Z -> Z -> option Z;                  (* in_len, extra_in_len *)
  EVP_AEAD_CTX_seal_scatter : list Z -> list Z -> list Z -> list Z -> option (list Z * list Z);
                                                              (* nonce, in, extra_in, ad *)
  EVP_AEAD_CTX_open : list Z -> list Z -> list Z -> option (list Z)   (* nonce, in, ad *)
}.

Definition EVP_AEAD_MAX_OVERHEAD : Z := 64.

Record aead_ok (ctx : EVP_AEAD_CTX) : Prop := {
  seal_length : forall nonce inp extra ad out tag,
    EVP_AEAD_CTX_seal_scatter ctx nonce inp extra ad = Some (out, tag) ->
    zlength out = zlength inp /\ EVP_AEAD_CTX_tag_len ctx (zlength inp) (zlength extra) = Some (zlength tag);
  seal_open : forall nonce inp extra ad out tag,
    EVP_AEAD_CTX_seal_scatter ctx nonce inp extra ad = Some (out, tag) ->
    EVP_AEAD_CTX_open ctx nonce (out ++ tag) ad = Some (inp ++ extra);
  tag_bound : forall n extra t, 0 <= extra -> EVP_AEAD_CTX_tag_len ctx n extra = Some t ->
    0 <= t <= EVP_AEAD_max_overhead ctx + extra;
  overhead_bound : 0 <= EVP_AEAD_max_overhead ctx <= EVP_AEAD_MAX_OVERHEAD
}.

(** The overhead does not depend on the input: true of the AEADs of TLS 1.2. *)
Definition fixed_overhead (ctx : EVP_AEAD_CTX) : Prop :=
  forall n extra, EVP_AEAD_CTX_tag_len ctx n extra = Some (EVP_AEAD_max_overhead ctx + extra).

Inductive cipher_enc :=
  SSL_3DES | SSL_AES128 | SSL_AES256 | SSL_AES128GCM | SSL_AES256GCM | SSL_CHACHA20POLY1305.

Inductive cipher_mac := SSL_SHA1 | SSL_SHA256 | SSL_AEAD.

Record SSL_CIPHER := { algorithm_enc : cipher_enc; algorithm_mac : cipher_mac }.

Definition SSL_CIPHER_is_block_cipher (cipher : SSL_CIPHER) : bool :=
  match algorithm_mac cipher with SSL_AEAD => false | _ => true end.

(** The AEADs of the record layer, with their [EVP_AEAD_nonce_length]. *)
Inductive EVP_AEAD :=
  | EVP_aead_aes_128_gcm_tls12 | EVP_aead_aes_128_gcm_tls13
  | EVP_aead_aes_256_gcm_tls12 | EVP_aead_aes_256_gcm_tls13
  | EVP_aead_chacha20_poly1305
  | EVP_aead_des_ede3_cbc_sha1_tls | EVP_aead_des_ede3_cbc_sha1_tls_implicit_iv
  | EVP_aead_aes_128_cbc_sha1_tls | EVP_aead_aes_128_cbc_sha1_tls_implicit_iv
  | EVP_aead_aes_256_cbc_sha1_tls | EVP_aead_aes_256_cbc_sha1_tls_implicit_iv
  | EVP_aead_aes_128_cbc_sha256_tls.

Definition EVP_AEAD_nonce_length (aead : EVP_AEAD) : Z :=
  match aead with
  | EVP_aead_aes_128_gcm_tls12 | EVP_aead_aes_128_gcm_tls13
  | EVP_aead_aes_256_gcm_tls12 | EVP_aead_aes_256_gcm_tls13
  | EVP_aead_chacha20_poly1305 => 12
  | EVP_aead_des_ede3_cbc_sha1_tls => 8
  | EVP_aead_aes_128_cbc_sha1_tls | EVP_aead_aes_256_cbc_sha1_tls | EVP_aead_aes_128_cbc_sha256_tls => 16
  | EVP_aead_des_ede3_cbc_sha1_tls_implicit_iv | EVP_aead_aes_128_cbc_sha1_tls_implicit_iv
  | EVP_aead_aes_256_cbc_sha1_tls_implicit_iv => 0
  end.

(** The AEAD, the MAC secret length and the fixed IV length. *)
Definition ssl_cipher_get_evp_aead (cipher : SSL_CIPHER) (version : Z) : option (EVP_AEAD * Z * Z) :=
  match algorithm_mac cipher with
  | SSL_AEAD =>
      let? (out_aead, out_fixed_iv_len) :=
        match algorithm_enc cipher with
        | SSL_AES128GCM =>
            Some (if version <? TLS1_3_VERSION then EVP_aead_aes_128_gcm_tls12 else EVP_aead_aes_128_gcm_tls13, 4)
        | SSL_AES256GCM =>
            Some (if version <? TLS1_3_VERSION then EVP_aead_aes_256_gcm_tls12 else EVP_aead_aes_256_gcm_tls13, 4)
        | SSL_CHACHA20POLY1305 => Some (EVP_aead_chacha20_poly1305, 12)
        | _ => None
        end in
      Some (out_aead, 0,
            if version >=? TLS1_3_VERSION then EVP_AEAD_nonce_length out_aead else out_fixed_iv_len)
  | SSL_SHA1 =>
      let? (out_aead, out_fixed_iv_len) :=
        match algorithm_enc cipher with
        | SSL_3DES => Some (if version =? TLS1_VERSION
            then (EVP_aead_des_ede3_cbc_sha1_tls_implicit_iv, 8) else (EVP_aead_des_ede3_cbc_sha1_tls, 0))
        | SSL_AES128 => Some (if version =? TLS1_VERSION
            then (EVP_aead_aes_128_cbc_sha1_tls_implicit_iv, 16) else (EVP_aead_aes_128_cbc_sha1_tls, 0))
        | SSL_AES256 => Some (if version =? TLS1_VERSION
            then (EVP_aead_aes_256_cbc_sha1_tls_implicit_iv, 16) else (EVP_aead_aes_256_cbc_sha1_tls, 0))
        | _ => None
        end in
      Some (out_aead, 20, out_fixed_iv_len)
  | SSL_SHA256 =>
      match algorithm_enc cipher with
      | SSL_AES128 => Some (EVP_aead_aes_128_cbc_sha256_tls, 32, 0)
      | _ => None
      end
  end.

Record SSLAEADContext := {
  cipher_ : option SSL_CIPHER;
  ctx_ : EVP_AEAD_CTX;
  fixed_nonce_ : list Z;
  variable_nonce_len_ : Z;
  variable_nonce_included_in_record_ : bool;
  random_variable_nonce_ : bool;
  xor_fixed_nonce_ : bool;
  omit_length_in_ad_ : bool;
  ad_is_header_ : bool
}.

Definition is_null_cipher (c : SSLAEADContext) : bool :=
  match cipher_ c with None => true | Some _ => false end.

(** A zero-initialised [EVP_AEAD_CTX]: it cannot be used. *)
Definition EVP_AEAD_CTX_zero : EVP_AEAD_CTX :=
  {| EVP_AEAD_max_overhead := 0; EVP_AEAD_CTX_tag_len := fun _ _ => None;
     EVP_AEAD_CTX_seal_scatter := fun _ _ _ _ => None; EVP_AEAD_CTX_open := fun _ _ _ => None |}.

Definition new_SSLAEADContext (cipher : option SSL_CIPHER) : SSLAEADContext :=
  {| cipher_ := cipher; ctx_ := EVP_AEAD_CTX_zero; fixed_nonce_ := []; variable_nonce_len_ := 0;
     variable_nonce_included_in_record_ := false; random_variable_nonce_ := false;
     xor_fixed_nonce_ := false; omit_length_in_ad_ := false; ad_is_header_ := false |}.

Definition CreateNullCipher : SSLAEADContext := new_SSLAEADContext None.

Definition CreatePlaceholderForQUIC (cipher : SSL_CIPHER) : SSLAEADContext := new_SSLAEADContext (Some cipher).

Definition is_chacha (e : cipher_enc) : bool := match e with SSL_CHACHA20POLY1305 => true | _ => false end.

(** [init] is [EVP_AEAD_CTX_init_with_direction] for an AEAD and a key; the
    CBC keys fit [merged_key], whose bound the code checks with [BSSL_CHECK]. *)
Definition SSLAEADContext_Create (init : EVP_AEAD -> list Z -> option EVP_AEAD_CTX)
    (version : Z) (cipher : SSL_CIPHER) (enc_key mac_key fixed_iv : list Z) : option SSLAEADContext :=
  let? protocol_version := ssl_protocol_version_from_wire version in
  let? (aead, expected_mac_key_len, expected_fixed_iv_len) :=
    ssl_cipher_get_evp_aead cipher protocol_version in
  if negb (expected_fixed_iv_len =? zlength fixed_iv) || negb (expected_mac_key_len =? zlength mac_key)
  then None
  else
    let variable_nonce_len := u8 (EVP_AEAD_nonce_length aead) in
    let tls13 := protocol_version >=? TLS1_3_VERSION in
    if zlength mac_key =? 0 then
      let xor := tls13 || is_chacha (algorithm_enc cipher) in
      let? ctx := init aead enc_key in
      Some {| cipher_ := Some cipher; ctx_ := ctx; fixed_nonce_ := fixed_iv;
              variable_nonce_len_ := if xor then 8 else u8 (variable_nonce_len - zlength fixed_iv);
              variable_nonce_included_in_record_ := negb xor;
              random_variable_nonce_ := false;
              xor_fixed_nonce_ := xor;
              omit_length_in_ad_ := false;
              ad_is_header_ := tls13 |}
    else
      let? ctx := init aead (mac_key ++ enc_key ++ fixed_iv) in
      Some {| cipher_ := Some cipher; ctx_ := ctx; fixed_nonce_ := [];
              variable_nonce_len_ := variable_nonce_len;
              variable_nonce_included_in_record_ := true;
              random_variable_nonce_ := true;
              xor_fixed_nonce_ := false;
              omit_length_in_ad_ := true;
              ad_is_header_ := false |}.

(** ** Lengths *)

Definition ExplicitNonceLen (c : SSLAEADContext) : Z :=
  if variable_nonce_included_in_record_ c then variable_nonce_len_ c else 0.

Definition SuffixLen (c : SSLAEADContext) (in_len extra_in_len : Z) : option Z :=
  if is_null_cipher c then Some extra_in_len
  else EVP_AEAD_CTX_tag_len (ctx_ c) in_len extra_in_len.

Definition CiphertextLen (c : SSLAEADContext) (in_len extra_in_len : Z) : option Z :=
  let? len := SuffixLen c in_len extra_in_len in
  let len := u64 (len + ExplicitNonceLen c) in
  let len := u64 (len + in_len) in
  if (len <? in_len) || (len >=? 0xffff) then None else Some len.

Definition MaxOverhead (c : SSLAEADContext) : Z :=
  ExplicitNonceLen c + (if is_null_cipher c then 0 else EVP_AEAD_max_overhead (ctx_ c)).

(** The default case of the block size switch calls [abort]. *)
Definition cbc_block_size (e : cipher_enc) : Z :=
  match e with SSL_AES128 | SSL_AES256 => 16 | SSL_3DES => 8 | _ => 1 end.

Definition MaxSealInputLen (c : SSLAEADContext) (max_out : Z) : Z :=
  let explicit_nonce_len := ExplicitNonceLen c in
  if max_out <=? explicit_nonce_len then 0
  else
    let max_out := max_out - explicit_nonce_len in
    match cipher_ c with
    | None => max_out
    | Some cipher =>
        let overhead := EVP_AEAD_max_overhead (ctx_ c) in
        let '(max_out, overhead) :=
          if SSL_CIPHER_is_block_cipher cipher then
            let block_size := cbc_block_size (algorithm_enc cipher) in
            (Z.land max_out (lnot64 (block_size - 1)), overhead - (block_size - 1))
          else (max_out, overhead) in
        if max_out <=? overhead then 0 else max_out - overhead
    end.

(** ** Additional data and nonces *)

Definition GetAdditionalData (c : SSLAEADContext) (type record_version seqnum plaintext_len : Z)
    (header : list Z) : list Z :=
  if ad_is_header_ c then header
  else
    CRYPTO_store_u64_be seqnum ++ [type; u8 (Z.shiftr record_version 8); u8 record_version] ++
    (if negb (omit_length_in_ad_ c) then [u8 (Z.shiftr plaintext_len 8); u8 plaintext_len] else []).

(** The fixed part before the variable nonce is appended. *)
Definition nonce_prefix (c : SSLAEADContext) : list Z :=
  if xor_fixed_nonce_ c
  then repeat 0 (Z.to_nat (zlength (fixed_nonce_ c) - variable_nonce_len_ c))
  else fixed_nonce_ c.

Definition xor_bytes (a b : list Z) : list Z := map (fun '(x, y) => Z.lxor x y) (combine a b).

Definition finish_nonce (c : SSLAEADContext) (nonce : list Z) : list Z :=
  if xor_fixed_nonce_ c then xor_bytes nonce (fixed_nonce_ c) else nonce.

(** The nonce [Open] and [SealScatter] pass to the AEAD. *)
Definition record_nonce (c : SSLAEADContext) (variable : list Z) : list Z :=
  finish_nonce c (nonce_prefix c ++ variable).

Definition Open (c : SSLAEADContext) (type record_version seqnum : Z) (header inp : list Z)
  : option (list Z) :=
  if is_null_cipher c then Some inp
  else
    let overhead := MaxOverhead c in
    if negb (omit_length_in_ad_ c) && (zlength inp <? overhead) then None
    else
      let plaintext_len := if negb (omit_length_in_ad_ c) then zlength inp - overhead else 0 in
      let ad := GetAdditionalData c type record_version seqnum plaintext_len header in
      let? (variable, inp) :=
        if variable_nonce_included_in_record_ c then
          if zlength inp <? variable_nonce_len_ c then None
          else Some (firstn (Z.to_nat (variable_nonce_len_ c)) inp,
                     skipn (Z.to_nat (variable_nonce_len_ c)) inp)
        else Some (CRYPTO_store_u64_be seqnum, inp) in
      EVP_AEAD_CTX_open (ctx_ c) (record_nonce c variable) inp ad.

(** What is written to [out_prefix], [out] and [out_suffix].  [RAND_bytes] is
    the random generator: the bytes it would return for a length. *)
Definition SealScatter (RAND_bytes : Z -> option (list Z)) (c : SSLAEADContext)
    (type record_version seqnum : Z) (header inp extra_in : list Z)
  : option (list Z * list Z * list Z) :=
  let? _ := SuffixLen c (zlength inp) (zlength extra_in) in
  if is_null_cipher c then Some ([], inp, extra_in)
  else
    let ad := GetAdditionalData c type record_version seqnum (zlength inp) header in
    let? variable :=
      if random_variable_nonce_ c then RAND_bytes (variable_nonce_len_ c)
      else Some (CRYPTO_store_u64_be seqnum) in
    let out_prefix := if variable_nonce_included_in_record_ c then variable else [] in
    let? (out, out_suffix) :=
      EVP_AEAD_CTX_seal_scatter (ctx_ c) (record_nonce c variable) inp extra_in ad in
    Some (out_prefix, out, out_suffix).

Definition Seal (RAND_bytes : Z -> option (list Z)) (c : SSLAEADContext)
    (max_out_len type record_version seqnum : Z) (header inp : list Z) : option (list Z) :=
  let prefix_len := ExplicitNonceLen c in
  let? suffix_len := SuffixLen c (zlength inp) 0 in
  if (u64 (zlength inp + prefix_len) <? zlength inp) ||
     (u64 (u64 (zlength inp + prefix_len) + suffix_len) <? u64 (zlength inp + prefix_len)) then None
  else if u64 (u64 (zlength inp + prefix_len) + suffix_len) >? max_out_len then None
  else
    let? (prefix, out, suffix) := SealScatter RAND_bytes c type record_version seqnum header inp [] in
    Some (prefix ++ out ++ suffix).

(** ** Properties *)

(** What [Create] establishes of a context that is used. *)
Record well_formed (c : SSLAEADContext) : Prop := {
  wf_ctx : aead_ok (ctx_ c);
  wf_variable : random_variable_nonce_ c = false -> variable_nonce_len_ c = 8;
  wf_random : random_variable_nonce_ c = true -> variable_nonce_included_in_record_ c = true;
  wf_xor : xor_fixed_nonce_ c = true -> 8 <= zlength (fixed_nonce_ c) /\ random_variable_nonce_ c = false;
  wf_len : 0 <= variable_nonce_len_ c < 256;
  wf_overhead : omit_length_in_ad_ c = false -> fixed_overhead (ctx_ c)
}.

(** What the AEADs promise [Create]: those that are not CBC have a fixed
    overhead, as [Open] assumes. *)
Definition is_cbc (aead : EVP_AEAD) : bool :=
  match aead with
  | EVP_aead_aes_128_gcm_tls12 | EVP_aead_aes_128_gcm_tls13 | EVP_aead_aes_256_gcm_tls12
  | EVP_aead_aes_256_gcm_tls13 | EVP_aead_chacha20_poly1305 => false
  | _ => true
  end.

Definition init_ok (init : EVP_AEAD -> list Z -> option EVP_AEAD_CTX) : Prop :=
  forall aead key ctx, init aead key = Some ctx ->
    aead_ok ctx /\ (is_cbc aead = false -> fixed_overhead ctx).

Lemma Create_well_formed init version cipher enc_key mac_key fixed_iv c :
  init_ok init -> SSLAEADContext_Create init version cipher enc_key mac_key fixed_iv = Some c -> well_formed c.
Proof.
  intros Hi. unfold SSLAEADContext_Create, ssl_cipher_get_evp_aead.
  destruct (ssl_protocol_version_from_wire version) as [v|]; [|discriminate]. cbn [obind].
  destruct cipher as [enc mac]. cbn [algorithm_enc algorithm_mac is_chacha].
  destruct mac; destruct enc; cbn [obind]; try discriminate;
    rewrite ?Z.geb_leb, ?Z.ltb_antisym; destruct (v =? TLS1_VERSION); destruct (TLS1_3_VERSION <=? v);
    cbn [obind negb EVP_AEAD_nonce_length orb is_chacha];
    match goal with |- context [negb (?a =? zlength fixed_iv)] => destruct (Z.eqb_spec a (zlength fixed_iv)) as [Li|] end;
    cbn [negb orb]; try discriminate;
    match goal with |- context [negb (?a =? zlength mac_key)] => destruct (Z.eqb_spec a (zlength mac_key)) as [Lm|] end;
    cbn [negb orb]; try discriminate; rewrite <- Lm, <- ?Li; cbn [Z.eqb];
    match goal with |- context [init ?a ?k] => destruct (init a k) as [ctx|] eqn:E; [|discriminate] end;
    cbn [obind]; intros H; injection H as <-; destruct (Hi _ _ _ E) as [Ok Fx];
    constructor; cbn; try assumption; try discriminate; try reflexivity; intros; auto; try lia.
Qed.

Definition rand_ok (RAND_bytes : Z -> option (list Z)) : Prop :=
  forall n r, RAND_bytes n = Some r -> zlength r = n.

Lemma le_combine_be l : le_combine l = be_combine (rev l).
Proof.
  induction l as [|b l IH]; [reflexivity|]. cbn [le_combine rev]. rewrite be_combine_app, IH.
  change (zlength [b]) with 1. change (be_combine [b]) with b. lia.
Qed.

Lemma store_u64_be_split v : 0 <= v < 2 ^ 64 -> CRYPTO_store_u64_be v = be_split 8 v.
Proof.
  intros Hv. unfold CRYPTO_store_u64_be.
  assert (B : bytes (le_split 8 v)).
  { rewrite <- (rev_involutive (le_split 8 v)), rev_le_split. apply Forall_rev. apply bytes_be_split. }
  assert (E : CRYPTO_bswap8 v = le_combine (be_split 8 v)).
  { rewrite le_combine_be, <- (rev_le_split 8 v), rev_involutive.
    replace v with (le_combine (le_split 8 v)) at 1.
    2:{ rewrite le_combine_be, rev_le_split, be_combine_split. apply Z.mod_small.
        change (256 ^ Z.of_nat 8) with (2 ^ 64). lia. }
    rewrite <- (firstn_skipn 4 (le_split 8 v)) at 1. rewrite <- (firstn_skipn 4 (le_split 8 v)) at 2.
    apply bswap8_bytes; auto with bytestr. }
  rewrite E. pose proof (le_split_combine (be_split 8 v) (bytes_be_split 8 v)) as L.
  now rewrite length_be_split in L.
Qed.

(** Sealing, with its pieces named. *)
Lemma SealScatter_inv RAND_bytes c type version seqnum header inp extra prefix out suffix :
  is_null_cipher c = false ->
  SealScatter RAND_bytes c type version seqnum header inp extra = Some (prefix, out, suffix) ->
  exists variable,
    (if random_variable_nonce_ c then RAND_bytes (variable_nonce_len_ c) = Some variable
     else variable = CRYPTO_store_u64_be seqnum) /\
    prefix = (if variable_nonce_included_in_record_ c then variable else []) /\
    EVP_AEAD_CTX_seal_scatter (ctx_ c) (record_nonce c variable) inp extra
      (GetAdditionalData c type version seqnum (zlength inp) header) = Some (out, suffix).
Proof.
  intros Hn. unfold SealScatter. rewrite Hn. destruct (SuffixLen _ _ _); [|discriminate]. cbn [obind].
  destruct (random_variable_nonce_ c).
  - destruct (RAND_bytes _) as [v|]; [|discriminate]. cbn [obind]. intros H. exists v.
    destruct (EVP_AEAD_CTX_seal_scatter _ _ _ _ _) as [[o t]|]; [|discriminate]. cbn [obind] in H.
    injection H as <- <- <-. auto.
  - cbn [obind]. intros H. exists (CRYPTO_store_u64_be seqnum).
    destruct (EVP_AEAD_CTX_seal_scatter _ _ _ _ _) as [[o t]|]; [|discriminate]. cbn [obind] in H.
    injection H as <- <- <-. auto.
Qed.

Lemma variable_length RAND_bytes c seqnum variable :
  rand_ok RAND_bytes -> well_formed c ->
  (if random_variable_nonce_ c then RAND_bytes (variable_nonce_len_ c) = Some variable
   else variable = CRYPTO_store_u64_be seqnum) -> zlength variable = variable_nonce_len_ c.
Proof.
  intros Hr W. destruct (random_variable_nonce_ c) eqn:R; [apply Hr|].
  intros ->. rewrite (wf_variable c W R). reflexivity.
Qed.

Lemma open_seal RAND_bytes c type version seqnum header inp extra prefix out suffix :
  rand_ok RAND_bytes -> well_formed c -> extra = [] \/ ad_is_header_ c = true \/ is_null_cipher c = true ->
  SealScatter RAND_bytes c type version seqnum header inp extra = Some (prefix, out, suffix) ->
  Open c type version seqnum header (prefix ++ out ++ suffix) = Some (inp ++ extra) /\
  zlength prefix = (if is_null_cipher c then 0 else ExplicitNonceLen c) /\ zlength out = zlength inp /\
  SuffixLen c (zlength inp) (zlength extra) = Some (zlength suffix).
Proof.
  intros Hr W Hx H. unfold Open, SuffixLen. destruct (is_null_cipher c) eqn:Hn.
  { unfold SealScatter, SuffixLen in H. rewrite Hn in H. cbn [obind] in H. injection H as <- <- <-. auto. }
  destruct (SealScatter_inv _ _ _ _ _ _ _ _ _ _ _ Hn H) as (variable & Hv & Hp & Hs).
  pose proof (variable_length _ _ _ _ Hr W Hv) as Lv.
  destruct (seal_length _ (wf_ctx c W) _ _ _ _ _ _ Hs) as [Lo Lt].
  pose proof (seal_open _ (wf_ctx c W) _ _ _ _ _ _ Hs) as Op.
  assert (Lp : zlength prefix = ExplicitNonceLen c).
  { rewrite Hp. unfold ExplicitNonceLen. destruct (variable_nonce_included_in_record_ c); [exact Lv|reflexivity]. }
  split; [|auto]. unfold MaxOverhead. rewrite Hn, !zlength_app, Lo, Lp.
  assert (Ad : GetAdditionalData c type version seqnum
      (if negb (omit_length_in_ad_ c) then ExplicitNonceLen c + (zlength inp + zlength suffix) -
         (ExplicitNonceLen c + EVP_AEAD_max_overhead (ctx_ c)) else 0) header =
      GetAdditionalData c type version seqnum (zlength inp) header).
  { unfold GetAdditionalData. destruct (ad_is_header_ c); [reflexivity|].
    destruct Hx as [->|[?|?]]; [|congruence|congruence].
    destruct (omit_length_in_ad_ c) eqn:O; [reflexivity|]. cbn [negb].
    pose proof (wf_overhead c W O (zlength inp) (zlength (@nil Z))) as F. rewrite Lt in F. injection F as F.
    rewrite zlength_nil in F.
    replace (ExplicitNonceLen c + (zlength inp + zlength suffix) - (ExplicitNonceLen c + EVP_AEAD_max_overhead (ctx_ c)))
      with (zlength inp) by lia. reflexivity. }
  assert (G : negb (omit_length_in_ad_ c) &&
      (ExplicitNonceLen c + (zlength inp + zlength suffix) <? ExplicitNonceLen c + EVP_AEAD_max_overhead (ctx_ c)) = false).
  { destruct (omit_length_in_ad_ c) eqn:O; [reflexivity|]. cbn [negb andb]. apply Z.ltb_ge.
    pose proof (wf_overhead c W O (zlength inp) (zlength extra)) as F. rewrite Lt in F. injection F as F.
    pose proof (zlength_nonneg inp). pose proof (zlength_nonneg extra). lia. }
  rewrite G. cbv zeta. rewrite Ad. destruct (variable_nonce_included_in_record_ c) eqn:I; rewrite Hp.
  - assert (El : ExplicitNonceLen c = zlength variable) by (unfold ExplicitNonceLen; now rewrite I).
    rewrite El, <- Lv.
    replace (zlength variable + (zlength inp + zlength suffix) <? zlength variable) with false
      by (symmetry; apply Z.ltb_ge; pose proof (zlength_nonneg inp); pose proof (zlength_nonneg suffix); lia).
    rewrite <- El. cbn [obind]. rewrite El, firstn_zlength_app, skipn_zlength_app. exact Op.
  - cbn [obind app]. destruct (random_variable_nonce_ c) eqn:R.
    + rewrite (wf_random c W R) in I. discriminate.
    + rewrite Hv in Op. exact Op.
Qed.

(** record protection is inverted: whatever [SealScatter] writes for a
    plaintext, [Open] with the same type, version, sequence number and header
    returns that plaintext (with the TLS 1.3 inner content type appended where
    there is one), for the null cipher, explicit nonces, XORed nonces and CBC
    ciphers with random nonces alike; the three parts have the announced
    lengths. *)
Theorem aead_open_seal RAND_bytes c type version seqnum header inp extra prefix out suffix :
  rand_ok RAND_bytes -> well_formed c -> extra = [] \/ ad_is_header_ c = true \/ is_null_cipher c = true ->
  SealScatter RAND_bytes c type version seqnum header inp extra = Some (prefix, out, suffix) ->
  Open c type version seqnum header (prefix ++ out ++ suffix) = Some (inp ++ extra) /\
  zlength prefix = (if is_null_cipher c then 0 else ExplicitNonceLen c) /\ zlength out = zlength inp /\
  SuffixLen c (zlength inp) (zlength extra) = Some (zlength suffix).
Proof. apply open_seal. Qed.

Lemma xor_bytes_inj a b k : length a = length b -> length a = length k ->
  xor_bytes a k = xor_bytes b k -> a = b.
Proof.
  unfold xor_bytes. revert b k. induction a as [|x a IH]; intros [|y b] [|z k] L1 L2 H; cbn in *; try lia; [easy|].
  injection H as Hx H. f_equal; [|apply (IH b k); [lia|lia|exact H]].
  apply (f_equal (fun t => Z.lxor t z)) in Hx. now rewrite !Z.lxor_assoc, Z.lxor_nilpotent, !Z.lxor_0_r in Hx.
Qed.

(** no two records of a connection share a nonce: for a context that does
    not draw nonces at random, the nonce determines the 64-bit sequence
    number. *)
Theorem record_nonce_injective c s1 s2 :
  well_formed c -> random_variable_nonce_ c = false ->
  0 <= s1 < 2 ^ 64 -> 0 <= s2 < 2 ^ 64 -> 
  record_nonce c (CRYPTO_store_u64_be s1) = record_nonce c (CRYPTO_store_u64_be s2) -> s1 = s2.
Proof.
  intros W R H1 H2. unfold record_nonce, finish_nonce. rewrite !store_u64_be_split by assumption.
  assert (Inj : forall p : list Z, p ++ be_split 8 s1 = p ++ be_split 8 s2 -> s1 = s2).
  { intros p H. apply app_inv_head in H. apply (f_equal be_combine) in H. rewrite !be_combine_split in H.
    change (256 ^ Z.of_nat 8) with (2 ^ 64) in H. now rewrite !Z.mod_small in H by assumption. }
  unfold nonce_prefix. destruct (xor_fixed_nonce_ c) eqn:X; [|apply Inj].
  destruct (wf_xor c W X) as [L _]. rewrite (wf_variable c W R). intros H.
  apply xor_bytes_inj in H; [now apply Inj in H|now rewrite !length_app, !length_be_split|].
  unfold zlength in *. rewrite length_app, length_be_split, repeat_length. lia.
Qed.

(** [aead_tls_tag_len] of a CBC cipher with a MAC of [h] bytes: the MAC and
    padding up to a whole number of blocks. *)
Definition cbc_overhead (ctx : EVP_AEAD_CTX) (h bs : Z) : Prop :=
  0 < h /\ EVP_AEAD_max_overhead ctx = h + bs /\
  forall n, 0 <= n -> EVP_AEAD_CTX_tag_len ctx n 0 = Some (h + (bs - (n + h) mod bs)).

(** The suffix grows as the cipher's kind says. *)
Definition overhead_ok (c : SSLAEADContext) : Prop :=
  match cipher_ c with
  | None => variable_nonce_included_in_record_ c = false
  | Some cipher =>
      if SSL_CIPHER_is_block_cipher cipher
      then exists k h, 0 <= k < 64 /\ cbc_block_size (algorithm_enc cipher) = 2 ^ k /\ cbc_overhead (ctx_ c) h (2 ^ k)
      else fixed_overhead (ctx_ c)
  end.

Definition sealed_len (c : SSLAEADContext) (n : Z) : option Z :=
  option_map (fun suffix => ExplicitNonceLen c + n + suffix) (SuffixLen c n 0).

Lemma land_lnot64 x k : 0 <= k < 64 -> 0 <= x < 2 ^ 64 ->
  Z.land x (lnot64 (2 ^ k - 1)) = 2 ^ k * (x / 2 ^ k).
Proof.
  intros Hk Hx. unfold lnot64, u64, wrap.
  replace (2 ^ k - 1) with (Z.ones k) by (rewrite Z.ones_equiv; lia).
  rewrite <- Z.land_ones by lia. rewrite Z.land_assoc, <- Z.ldiff_land, Z.ldiff_ones_r by lia.
  rewrite Z.shiftr_div_pow2, Z.shiftl_mul_pow2, Z.land_ones by lia.
  pose proof (Z.pow_pos_nonneg 2 k). pose proof (Z.mul_div_le x (2 ^ k)). pose proof (Z.div_pos x (2 ^ k)).
  rewrite Z.mod_small; nia.
Qed.

(** Padding to whole blocks: what fits below [m] bytes. *)
Lemma cbc_fits k h m n : 0 <= k -> 0 < h -> 0 <= n -> 0 <= m ->
  (n + (h + (2 ^ k - (n + h) mod 2 ^ k)) <= m <-> n + h + 1 <= 2 ^ k * (m / 2 ^ k)).
Proof.
  intros Hk Hh Hn Hm. pose proof (Z.pow_pos_nonneg 2 k ltac:(lia) Hk) as Hb.
  set (b := 2 ^ k) in *. pose proof (Z.div_mod (n + h) b ltac:(lia)) as E1.
  pose proof (Z.mod_pos_bound (n + h) b Hb) as B1.
  pose proof (Z.div_mod m b ltac:(lia)) as E2. pose proof (Z.mod_pos_bound m b Hb) as B2.
  set (p := (n + h) / b) in *. set (q := m / b) in *.
  assert (Q : b * (p + 1) <= m <-> p + 1 <= q) by (split; intros; nia).
  assert (R : n + h + 1 <= b * q <-> p + 1 <= q) by (split; intros; nia).
  rewrite R, <- Q. split; intros; lia.
Qed.

(** [MaxSealInputLen] is exact: sealing a non-empty plaintext takes at most
    [max_out] bytes precisely when it is no longer than the answer.  This
    holds of the null cipher, of AEADs and of CBC suites, whose padding makes
    the overhead depend on the length. *)
Theorem max_seal_input_exact c max_out n :
  overhead_ok c -> 0 <= variable_nonce_len_ c -> 0 <= EVP_AEAD_max_overhead (ctx_ c) ->
  0 <= max_out < 2 ^ 64 -> 0 < n ->
  exists len, sealed_len c n = Some len /\ (len <= max_out <-> n <= MaxSealInputLen c max_out).
Proof.
  intros Ho Hv Hm Hx Hn. unfold sealed_len, SuffixLen, MaxSealInputLen, is_null_cipher.
  assert (He : 0 <= ExplicitNonceLen c).
  { unfold ExplicitNonceLen. destruct (variable_nonce_included_in_record_ c); lia. }
  unfold overhead_ok in Ho. destruct (cipher_ c) as [cipher|].
  2:{ eexists. split; [reflexivity|]. destruct (Z.leb_spec max_out (ExplicitNonceLen c)); lia. }
  destruct (SSL_CIPHER_is_block_cipher cipher).
  - destruct Ho as (k & h & Hk & -> & Hh & Eo & Et). rewrite Et by lia. eexists. split; [reflexivity|].
    destruct (Z.leb_spec max_out (ExplicitNonceLen c)).
    { pose proof (Z.pow_pos_nonneg 2 k). pose proof (Z.mod_pos_bound (n + h) (2 ^ k)). lia. }
    rewrite land_lnot64, Eo by lia.
    pose proof (cbc_fits k h (max_out - ExplicitNonceLen c) n) as F.
    destruct (Z.leb_spec (2 ^ k * ((max_out - ExplicitNonceLen c) / 2 ^ k)) (h + 2 ^ k - (2 ^ k - 1))); lia.
  - rewrite Ho. eexists. split; [reflexivity|].
    destruct (Z.leb_spec max_out (ExplicitNonceLen c)); [lia|].
    destruct (Z.leb_spec (max_out - ExplicitNonceLen c) (EVP_AEAD_max_overhead (ctx_ c))); lia.
Qed.

(** ** A concrete cipher *)

(** XOR with the first nonce byte, and a checksum of everything as the tag. *)
Definition toy_sum (l : list Z) : Z := u8 (fold_left Z.add l 0).
Definition toy_xor (nonce l : list Z) : list Z := map (fun b => Z.lxor b (hd 0 nonce)) l.
Definition toy_aead : EVP_AEAD_CTX :=
  {| EVP_AEAD_max_overhead := 1;
     EVP_AEAD_CTX_tag_len := fun _ extra => Some (1 + extra);
     EVP_AEAD_CTX_seal_scatter := fun nonce inp extra ad =>
       Some (toy_xor nonce inp, toy_xor nonce extra ++ [toy_sum (ad ++ inp ++ extra)]);
     EVP_AEAD_CTX_open := fun nonce inp ad =>
       let body := toy_xor nonce (removelast inp) in
       if last inp 0 =? toy_sum (ad ++ body) then Some body else None |}.

Lemma toy_xor_twice nonce l : toy_xor nonce (toy_xor nonce l) = l.
Proof.
  unfold toy_xor. rewrite map_map. erewrite map_ext; [apply map_id|]. intros b. cbn.
  now rewrite Z.lxor_assoc, Z.lxor_nilpotent, Z.lxor_0_r.
Qed.

Lemma toy_xor_app nonce a b : toy_xor nonce (a ++ b) = toy_xor nonce a ++ toy_xor nonce b.
Proof. apply map_app. Qed.

Lemma toy_aead_ok : aead_ok toy_aead.
Proof.
  constructor; [| | |unfold EVP_AEAD_MAX_OVERHEAD; cbn [toy_aead EVP_AEAD_max_overhead]; lia].
  3:{ intros n extra t Hx H. unfold toy_aead, EVP_AEAD_CTX_tag_len, EVP_AEAD_max_overhead in *. apply (f_equal (fun o => match o with Some v => v | None => 0 end)) in H. lia. }
  all: intros nonce inp extra ad out tag H; cbn in H; injection H as <- <-.
  - cbn [toy_aead EVP_AEAD_CTX_tag_len]. unfold toy_xor. rewrite zlength_app. unfold zlength.
    rewrite !length_map. cbn [length]. split; [reflexivity|f_equal; lia].
  - cbn [toy_aead EVP_AEAD_CTX_open]. rewrite app_assoc, removelast_last, last_last.
    rewrite <- toy_xor_app, toy_xor_twice, Z.eqb_refl. reflexivity.
Qed.

Definition demo_aead (tls13 : bool) : SSLAEADContext :=
  {| cipher_ := Some {| algorithm_enc := SSL_AES128GCM; algorithm_mac := SSL_AEAD |};
     ctx_ := toy_aead; fixed_nonce_ := if tls13 then [1; 2; 3; 4; 5; 6; 7; 8; 9; 10; 11; 12] else [1; 2; 3; 4];
     variable_nonce_len_ := 8; variable_nonce_included_in_record_ := negb tls13;
     random_variable_nonce_ := false; xor_fixed_nonce_ := tls13; omit_length_in_ad_ := false;
     ad_is_header_ := tls13 |}.

Lemma demo_aead_wf tls13 : well_formed (demo_aead tls13).
Proof.
  constructor; cbn; [apply toy_aead_ok|reflexivity|discriminate| |lia|intros _ n extra; reflexivity].
  intros ->. split; [discriminate|reflexivity].
Qed.

Definition no_rand (n : Z) : option (list Z) := None.

Lemma aead_open_seal_witness :
  exists prefix out suffix,
    SealScatter no_rand (demo_aead false) 23 TLS1_2_VERSION 7 [] [104; 105] [] = Some (prefix, out, suffix) /\
    Open (demo_aead false) 23 TLS1_2_VERSION 7 [] (prefix ++ out ++ suffix) = Some [104; 105].
Proof.
  eexists _, _, _. split; [reflexivity|].
  refine (proj1 (aead_open_seal no_rand (demo_aead false) 23 TLS1_2_VERSION 7 [] [104; 105] [] _ _ _ _ _ _ eq_refl)).
  - intros n r. discriminate.
  - apply demo_aead_wf.
  - now left.
Defined.

Lemma record_nonce_injective_witness : 
  record_nonce (demo_aead true) (CRYPTO_store_u64_be 5) <> record_nonce (demo_aead true) (CRYPTO_store_u64_be 6).
Proof.
  intros H. apply (record_nonce_injective (demo_aead true) 5 6) in H;
    [discriminate|apply demo_aead_wf|reflexivity|lia|lia].
Defined.

(** A CBC suite: HMAC-SHA1 and AES-128, of which only the lengths matter here. *)
Definition demo_cbc : SSLAEADContext :=
  {| cipher_ := Some {| algorithm_enc := SSL_AES128; algorithm_mac := SSL_SHA1 |};
     ctx_ := {| EVP_AEAD_max_overhead := 36;
                EVP_AEAD_CTX_tag_len := fun n extra => Some (20 + (16 - (n + 20) mod 16));
                EVP_AEAD_CTX_seal_scatter := fun _ _ _ _ => None;
                EVP_AEAD_CTX_open := fun _ _ _ => None |};
     fixed_nonce_ := []; variable_nonce_len_ := 16; variable_nonce_included_in_record_ := true;
     random_variable_nonce_ := true; xor_fixed_nonce_ := false; omit_length_in_ad_ := true;
     ad_is_header_ := false |}.

Lemma max_seal_input_exact_witness :
  MaxSealInputLen demo_cbc 100 = 59 /\
  exists len, sealed_len demo_cbc 59 = Some len /\ (len <= 100 <-> 59 <= MaxSealInputLen demo_cbc 100).
Proof.
  split; [reflexivity|]. apply (max_seal_input_exact demo_cbc 100 59); [|cbn; lia..].
  exists 4, 20. repeat split; cbn; lia.
Defined.
