(* ===== verification/TlsRecord.v ===== *)
(** The TLS record layer: [ssl/tls_record.cc], with the handshake buffer checks
    of [ssl/s3_both.cc] it consults.

    An [SSL] is the part of the connection the record layer reads and writes.
    [tls_open_record] maps a state and the buffered input to what the C
    function reports, the bytes consumed and the new state; sealing runs in the
    [st SSL] monad, whose failures keep the state the C code leaves behind.
    Buffers do not alias, decryption in place is a new list, message callbacks
    are not observed. *)
From Stdlib Require Import ZArith List Lia Bool.
From S2P Require Import Prelude CryptoInternal Cbs Cbb CbbSpec Asn1Build Asn1Int SslVersions SslAead.
Import ListNotations.
Open Scope Z_scope.

Definition SSL3_RT_HEADER_LENGTH : Z := 5.
Definition SSL3_RT_MAX_PLAIN_LENGTH : Z := 16384.
Definition SSL3_RT_MAX_ENCRYPTED_LENGTH : Z := (256 + 64) + SSL3_RT_MAX_PLAIN_LENGTH.
Definition SSL3_RT_CHANGE_CIPHER_SPEC : Z := 20.
Definition SSL3_RT_ALERT : Z := 21.
Definition SSL3_RT_HANDSHAKE : Z := 22.
Definition SSL3_RT_APPLICATION_DATA : Z := 23.
Definition SSL3_MT_CCS : Z := 1.
Definition SSL3_VERSION_MAJOR : Z := 3.
Definition SSL3_AL_WARNING : Z := 1.
Definition SSL3_AL_FATAL : Z := 2.
Definition SSL_AD_CLOSE_NOTIFY : Z := 0.
Definition SSL_AD_UNEXPECTED_MESSAGE : Z := 10.
Definition SSL_AD_BAD_RECORD_MAC : Z := 20.
Definition SSL_AD_RECORD_OVERFLOW : Z := 22.
Definition SSL_AD_ILLEGAL_PARAMETER : Z := 47.
Definition SSL_AD_DECRYPT_ERROR : Z := 51.
Definition SSL_AD_INTERNAL_ERROR : Z := 80.
Definition SSL_AD_USER_CANCELLED : Z := 90.
Definition SSL_MODE_CBC_RECORD_SPLITTING : Z := 0x100.

Definition kMaxEmptyRecords : Z := 32.
Definition kMaxEarlyDataSkipped : Z := 16384.
Definition kMaxWarningAlerts : Z := 4.

(** ** State *)

Inductive ssl_shutdown_t := ssl_shutdown_none | ssl_shutdown_close_notify | ssl_shutdown_error.

(** The fields of [SSL3_STATE] that change as records are processed. *)
Record RecordState := {
  read_sequence : Z;
  write_sequence : Z;
  read_shutdown : ssl_shutdown_t;
  early_data_skipped : Z;       (* uint16_t *)
  empty_record_count : Z;       (* uint8_t *)
  warning_alert_count : Z;      (* uint8_t *)
  skip_early_data_flag : bool
}.

Record HandshakeFlags := { is_early_version : bool; handshake_finalized : bool }.

Record SSL := {
  server : bool;
  verify_peer : bool;
  max_cert_list : Z;
  mode : Z;
  version : Z;
  hs : option HandshakeFlags;
  hs_buf : option (list Z);
  has_message : bool;
  aead_read_ctx : SSLAEADContext;
  aead_write_ctx : SSLAEADContext;
  rs : RecordState
}.

Definition with_rs (ssl : SSL) (r : RecordState) : SSL :=
  {| server := server ssl; verify_peer := verify_peer ssl; max_cert_list := max_cert_list ssl; mode := mode ssl;
     version := version ssl; hs := hs ssl; hs_buf := hs_buf ssl; has_message := has_message ssl;
     aead_read_ctx := aead_read_ctx ssl; aead_write_ctx := aead_write_ctx ssl; rs := r |}.

Definition set_early_data_skipped (v : Z) (r : RecordState) : RecordState :=
  {| read_sequence := read_sequence r; write_sequence := write_sequence r; read_shutdown := read_shutdown r;
     early_data_skipped := v; empty_record_count := empty_record_count r;
     warning_alert_count := warning_alert_count r; skip_early_data_flag := skip_early_data_flag r |}.
Definition set_empty_record_count (v : Z) (r : RecordState) : RecordState :=
  {| read_sequence := read_sequence r; write_sequence := write_sequence r; read_shutdown := read_shutdown r;
     early_data_skipped := early_data_skipped r; empty_record_count := v;
     warning_alert_count := warning_alert_count r; skip_early_data_flag := skip_early_data_flag r |}.
Definition set_warning_alert_count (v : Z) (r : RecordState) : RecordState :=
  {| read_sequence := read_sequence r; write_sequence := write_sequence r; read_shutdown := read_shutdown r;
     early_data_skipped := early_data_skipped r; empty_record_count := empty_record_count r;
     warning_alert_count := v; skip_early_data_flag := skip_early_data_flag r |}.
Definition set_read_shutdown (v : ssl_shutdown_t) (r : RecordState) : RecordState :=
  {| read_sequence := read_sequence r; write_sequence := write_sequence r; read_shutdown := v;
     early_data_skipped := early_data_skipped r; empty_record_count := empty_record_count r;
     warning_alert_count := warning_alert_count r; skip_early_data_flag := skip_early_data_flag r |}.
(** [skip_early_data = false; read_sequence++;] *)
Definition record_decrypted (r : RecordState) : RecordState :=
  {| read_sequence := u64 (read_sequence r + 1); write_sequence := write_sequence r; read_shutdown := read_shutdown r;
     early_data_skipped := early_data_skipped r; empty_record_count := empty_record_count r;
     warning_alert_count := warning_alert_count r; skip_early_data_flag := false |}.
Definition record_written (r : RecordState) : RecordState :=
  {| read_sequence := read_sequence r; write_sequence := u64 (write_sequence r + 1); read_shutdown := read_shutdown r;
     early_data_skipped := early_data_skipped r; empty_record_count := empty_record_count r;
     warning_alert_count := warning_alert_count r; skip_early_data_flag := skip_early_data_flag r |}.

(** [ssl_open_record_t], with the out-parameters each value comes with. *)
Inductive ssl_open_record_t :=
  | ssl_open_record_success (type : Z) (out : list Z)
  | ssl_open_record_discard
  | ssl_open_record_partial
  | ssl_open_record_close_notify
  | ssl_open_record_error (alert : Z).

(** ** Versions and the handshake buffer *)

Definition ssl_has_final_version (version : Z) (hs : option HandshakeFlags) : bool :=
  negb (version =? 0) && match hs with None => true | Some h => negb (is_early_version h) end.

Definition SSL_in_init (ssl : SSL) : bool :=
  match hs ssl with None => false | Some h => negb (handshake_finalized h) end.

Definition is_tls13 (version : Z) : bool := ssl_protocol_version version >=? TLS1_3_VERSION.

Definition tls_record_version (ssl : SSL) : Z :=
  if version ssl =? 0 then TLS1_VERSION
  else if is_tls13 (version ssl) then TLS1_2_VERSION else version ssl.

(** The message at the front of the handshake buffer: its type and body, or the
    number of bytes needed. *)
Definition parse_message (ssl : SSL) : (Z * list Z) + Z :=
  match hs_buf ssl with
  | None => inr 4
  | Some buf =>
      match (let* type := CBS_get_u8 in let* len := CBS_get_u24 in ret (type, len)) buf with
      | (None, _) => inr 4
      | (Some (type, len), cbs) =>
          match CBS_get_bytes len cbs with
          | (None, _) => inr (4 + len)
          | (Some body, _) => inl (type, body)
          end
      end
  end.

Definition ssl_max_handshake_message_len (ssl : SSL) : Z :=
  let kMaxMessageLen := 16384 in
  if SSL_in_init ssl then
    if (negb (server ssl) || verify_peer ssl) && (kMaxMessageLen <? max_cert_list ssl)
    then max_cert_list ssl else kMaxMessageLen
  else if ssl_protocol_version (version ssl) <? TLS1_3_VERSION then 0
  else if server ssl then 1
  else Z.max kMaxMessageLen (max_cert_list ssl).

(** [None] when data is accepted, the alert otherwise. *)
Definition tls_can_accept_handshake_data (ssl : SSL) : option Z :=
  match parse_message ssl with
  | inl _ => Some SSL_AD_INTERNAL_ERROR
  | inr bytes_needed =>
      if bytes_needed >? 4 + ssl_max_handshake_message_len ssl then Some SSL_AD_ILLEGAL_PARAMETER else None
  end.

Definition tls_has_unprocessed_handshake_data (ssl : SSL) : bool :=
  let msg_len :=
    if has_message ssl
    then match parse_message ssl with inl (_, body) => 4 + zlength body | inr _ => 0 end
    else 0 in
  match hs_buf ssl with None => false | Some buf => zlength buf >? msg_len end.

(** ** Alerts *)

Definition ssl_process_alert (final_tls13 : bool) (r : RecordState) (inp : list Z)
  : ssl_open_record_t * RecordState :=
  match inp with
  | [alert_level; alert_descr] =>
      if alert_level =? SSL3_AL_WARNING then
        if alert_descr =? SSL_AD_CLOSE_NOTIFY
        then (ssl_open_record_close_notify, set_read_shutdown ssl_shutdown_close_notify r)
        else if final_tls13 && negb (alert_descr =? SSL_AD_USER_CANCELLED)
        then (ssl_open_record_error SSL_AD_DECODE_ERROR, r)
        else
          let r := set_warning_alert_count (u8 (warning_alert_count r + 1)) r in
          if warning_alert_count r >? kMaxWarningAlerts
          then (ssl_open_record_error SSL_AD_UNEXPECTED_MESSAGE, r)
          else (ssl_open_record_discard, r)
      else if alert_level =? SSL3_AL_FATAL then (ssl_open_record_error 0, r)
      else (ssl_open_record_error SSL_AD_ILLEGAL_PARAMETER, r)
  | _ => (ssl_open_record_error SSL_AD_DECODE_ERROR, r)
  end.

(** ** Opening *)

Definition skip_early_data (r : RecordState) (consumed : Z) : ssl_open_record_t * RecordState :=
  let r := set_early_data_skipped (u16 (early_data_skipped r + consumed)) r in
  let r := if early_data_skipped r <? consumed
           then set_early_data_skipped (kMaxEarlyDataSkipped + 1) r else r in
  if early_data_skipped r >? kMaxEarlyDataSkipped
  then (ssl_open_record_error SSL_AD_UNEXPECTED_MESSAGE, r)
  else (ssl_open_record_discard, r).

(** The loop that removes the padding of a TLS 1.3 record: the inner content
    type is the last byte that is not zero. *)
Fixpoint strip_zeros (out_rev : list Z) : option (Z * list Z) :=
  match out_rev with
  | [] => None
  | type :: out_rev => if type =? 0 then strip_zeros out_rev else Some (type, rev out_rev)
  end.

Definition remove_padding (out : list Z) : option (Z * list Z) := strip_zeros (rev out).

Definition tls_parse_header : st CBS (Z * Z * Z) :=
  let* type := CBS_get_u8 in
  let* version := CBS_get_u16 in
  let* ciphertext_len := CBS_get_u16 in
  ret (type, version, ciphertext_len).

(** From the decrypted contents on. *)
Definition tls_finish_open (ssl : SSL) (r : RecordState) (type : Z) (out : list Z)
  : ssl_open_record_t * RecordState :=
  let '(too_many, r) :=
    match out with
    | [] => let r := set_empty_record_count (u8 (empty_record_count r + 1)) r in
            (empty_record_count r >? kMaxEmptyRecords, r)
    | _ => (false, r)
    end in
  if too_many then (ssl_open_record_error SSL_AD_UNEXPECTED_MESSAGE, r)
  else if type =? SSL3_RT_ALERT then
    ssl_process_alert (ssl_has_final_version (version ssl) (hs ssl) && is_tls13 (version ssl)) r out
  else if negb (type =? SSL3_RT_HANDSHAKE) && tls_has_unprocessed_handshake_data ssl
  then (ssl_open_record_error SSL_AD_UNEXPECTED_MESSAGE, r)
  else
    let r := match out with
             | [] => r
             | _ => set_warning_alert_count 0 (set_empty_record_count 0 r)
             end in
    (ssl_open_record_success type out, r).

(** The record body, once it is complete: [consumed] bytes in all. *)
Definition tls_open_body (ssl : SSL) (type record_version : Z) (header body : list Z) (consumed : Z)
  : ssl_open_record_t * RecordState :=
  let r := rs ssl in
  let null := is_null_cipher (aead_read_ctx ssl) in
  if ssl_has_final_version (version ssl) (hs ssl) && is_tls13 (version ssl) && SSL_in_init ssl &&
     (type =? SSL3_RT_CHANGE_CIPHER_SPEC) && (zlength body =? 1) && (hd 0 body =? SSL3_MT_CCS) then
    let r := set_empty_record_count (u8 (empty_record_count r + 1)) r in
    if empty_record_count r >? kMaxEmptyRecords
    then (ssl_open_record_error SSL_AD_UNEXPECTED_MESSAGE, r)
    else (ssl_open_record_discard, r)
  else if skip_early_data_flag r && null && (type =? SSL3_RT_APPLICATION_DATA)
  then skip_early_data r consumed
  else if u64 (read_sequence r + 1) =? 0 then (ssl_open_record_error SSL_AD_INTERNAL_ERROR, r)
  else
    match Open (aead_read_ctx ssl) type record_version (read_sequence r) header body with
    | None =>
        if skip_early_data_flag r && negb null then skip_early_data r consumed
        else (ssl_open_record_error SSL_AD_BAD_RECORD_MAC, r)
    | Some out =>
        let r := record_decrypted r in
        let has_padding := negb null && is_tls13 (version ssl) in
        let plaintext_limit := if has_padding then SSL3_RT_MAX_PLAIN_LENGTH + 1 else SSL3_RT_MAX_PLAIN_LENGTH in
        if zlength out >? plaintext_limit then (ssl_open_record_error SSL_AD_RECORD_OVERFLOW, r)
        else if has_padding then
          if negb (type =? SSL3_RT_APPLICATION_DATA) then (ssl_open_record_error SSL_AD_DECODE_ERROR, r)
          else match remove_padding out with
               | None => (ssl_open_record_error SSL_AD_DECRYPT_ERROR, r)
               | Some (type, out) => tls_finish_open ssl r type out
               end
        else tls_finish_open ssl r type out
    end.

(** From the parsing of the header on. *)
Definition tls_open_input (ssl : SSL) (inp : list Z) : ssl_open_record_t * Z * SSL :=
  match tls_parse_header inp with
  | (None, _) => (ssl_open_record_partial, SSL3_RT_HEADER_LENGTH, ssl)
  | (Some (type, record_version, ciphertext_len), cbs) =>
      let version_ok :=
        if is_null_cipher (aead_read_ctx ssl)
        then Z.shiftr record_version 8 =? SSL3_VERSION_MAJOR
        else record_version =? tls_record_version ssl in
      if negb version_ok then (ssl_open_record_error SSL_AD_PROTOCOL_VERSION, 0, ssl)
      else if ciphertext_len >? SSL3_RT_MAX_ENCRYPTED_LENGTH
      then (ssl_open_record_error SSL_AD_RECORD_OVERFLOW, 0, ssl)
      else
        match CBS_get_bytes ciphertext_len cbs with
        | (None, _) => (ssl_open_record_partial, SSL3_RT_HEADER_LENGTH + ciphertext_len, ssl)
        | (Some body, cbs) =>
            let header := firstn (Z.to_nat SSL3_RT_HEADER_LENGTH) inp in
            let consumed := zlength inp - zlength cbs in
            let '(res, r) := tls_open_body ssl type record_version header body consumed in
            (res, consumed, with_rs ssl r)
        end
  end.

Definition tls_open_record (ssl : SSL) (inp : list Z) : ssl_open_record_t * Z * SSL :=
  match read_shutdown (rs ssl) with
  | ssl_shutdown_close_notify => (ssl_open_record_close_notify, 0, ssl)
  | _ =>
      match tls_can_accept_handshake_data ssl with
      | Some alert => (ssl_open_record_error alert, 0, ssl)
      | None => tls_open_input ssl inp
      end
  end.

(** ** Sealing *)

Definition ssl_needs_record_splitting (ssl : SSL) : bool :=
  match cipher_ (aead_write_ctx ssl) with
  | None => false
  | Some cipher =>
      (ssl_protocol_version (version ssl) <? TLS1_1_VERSION) &&
      negb (Z.land (mode ssl) SSL_MODE_CBC_RECORD_SPLITTING =? 0) &&
      SSL_CIPHER_is_block_cipher cipher
  end.

Definition ssl_record_prefix_len (ssl : SSL) : Z :=
  SSL3_RT_HEADER_LENGTH + ExplicitNonceLen (aead_read_ctx ssl).

Definition ssl_cipher_get_record_split_len (cipher : SSL_CIPHER) : Z :=
  match algorithm_enc cipher with
  | SSL_3DES => 21 + (8 - 21 mod 8)
  | SSL_AES128 | SSL_AES256 => 21 + (16 - 21 mod 16)
  | _ => 0
  end.

Definition hides_type (ssl : SSL) : bool :=
  negb (is_null_cipher (aead_write_ctx ssl)) && is_tls13 (version ssl).

Section Seal.
(** The random bytes drawn for the record with a given sequence number. *)
Variable RAND_bytes : Z -> Z -> option (list Z).

(** The five bytes of the header and the explicit nonce, the body and the
    suffix. *)
Definition do_seal_record (type : Z) (inp : list Z) : st SSL (list Z * list Z * list Z) := fun ssl =>
  let aead := aead_write_ctx ssl in
  let extra_in := if hides_type ssl then [type] else [] in
  match SuffixLen aead (zlength inp) (zlength extra_in), CiphertextLen aead (zlength inp) (zlength extra_in) with
  | Some _, Some ciphertext_len =>
      let outer := if hides_type ssl then SSL3_RT_APPLICATION_DATA else type in
      let record_version := tls_record_version ssl in
      let header := [outer; u8 (Z.shiftr record_version 8); Z.land record_version 0xff;
                     u8 (Z.shiftr ciphertext_len 8); Z.land ciphertext_len 0xff] in
      if u64 (write_sequence (rs ssl) + 1) =? 0 then (None, ssl)
      else
        match SealScatter (RAND_bytes (write_sequence (rs ssl))) aead outer record_version
                (write_sequence (rs ssl)) header inp extra_in with
        | None => (None, ssl)
        | Some (prefix, out, suffix) =>
            (Some (header ++ prefix, out, suffix), with_rs ssl (record_written (rs ssl)))
        end
  | _, _ => (None, ssl)
  end.

Definition splits (ssl : SSL) (type in_len : Z) : bool :=
  (type =? SSL3_RT_APPLICATION_DATA) && (in_len >? 1) && ssl_needs_record_splitting ssl.

Definition tls_seal_scatter_prefix_len (ssl : SSL) (type in_len : Z) : Z :=
  if splits ssl type in_len then
    SSL3_RT_HEADER_LENGTH +
    match cipher_ (aead_write_ctx ssl) with Some c => ssl_cipher_get_record_split_len c | None => 0 end +
    (SSL3_RT_HEADER_LENGTH - 1)
  else SSL3_RT_HEADER_LENGTH + ExplicitNonceLen (aead_write_ctx ssl).

Definition tls_seal_scatter_suffix_len (ssl : SSL) (type in_len : Z) : option Z :=
  let extra_in_len := if hides_type ssl then 1 else 0 in
  SuffixLen (aead_write_ctx ssl) (if splits ssl type in_len then in_len - 1 else in_len) extra_in_len.

Definition tls_seal_scatter_record (type : Z) (inp : list Z) : st SSL (list Z * list Z * list Z) := fun ssl =>
  if splits ssl type (zlength inp) then
    (let* (prefix1, body1, suffix1) := do_seal_record type (firstn 1 inp) in
     let* (tmp_prefix, body2, suffix2) := do_seal_record type (skipn 1 inp) in
     ret (prefix1 ++ body1 ++ suffix1 ++ firstn 4 tmp_prefix, skipn 4 tmp_prefix ++ body2, suffix2)) ssl
  else do_seal_record type inp ssl.

(** The bytes written to [out] and [*out_len]. *)
Definition tls_seal_record (max_out_len type : Z) (inp : list Z) : st SSL (list Z * Z) := fun ssl =>
  let prefix_len := tls_seal_scatter_prefix_len ssl type (zlength inp) in
  match tls_seal_scatter_suffix_len ssl type (zlength inp) with
  | None => (None, ssl)
  | Some suffix_len =>
      if (u64 (zlength inp + prefix_len) <? zlength inp) ||
         (u64 (u64 (prefix_len + zlength inp) + suffix_len) <? u64 (prefix_len + zlength inp)) then (None, ssl)
      else if max_out_len <? u64 (u64 (zlength inp + prefix_len) + suffix_len) then (None, ssl)
      else
        (let* (prefix, body, suffix) := tls_seal_scatter_record type inp in
         ret (prefix ++ body ++ suffix, prefix_len + zlength inp + suffix_len)) ssl
  end.
End Seal.

Definition SSL_max_seal_overhead (ssl : SSL) : Z :=
  let ret := SSL3_RT_HEADER_LENGTH + MaxOverhead (aead_write_ctx ssl) in
  let ret := if hides_type ssl then ret + 1 else ret in
  if ssl_needs_record_splitting ssl then ret * 2 else ret.

(** ** Headers *)

Lemma two_bytes v : [u8 (Z.shiftr v 8); Z.land v 0xff] = be_split 2 v.
Proof. rewrite (land_ones_mod v 8), shiftr_div by (reflexivity || lia). reflexivity. Qed.

Lemma parse_header_write type v len rest : 0 <= v < 2 ^ 16 -> 0 <= len < 2 ^ 16 ->
  tls_parse_header (type :: be_split 2 v ++ be_split 2 len ++ rest) = (Some (type, v, len), rest).
Proof.
  intros Hv Hl. unfold tls_parse_header.
  rewrite (bind_some _ _ _ _ _ (CBS_get_u8_cons _ _)).
  rewrite (bind_some _ _ _ _ _ (get_u16_split v _ Hv)).
  now rewrite (bind_some _ _ _ _ _ (get_u16_split len _ Hl)).
Qed.

(** ** A record opens to what was sealed *)

(** [r] reads what [w] writes: same version and keys, sequence numbers in step,
    and [r] is willing to read. *)
Record receives (r w : SSL) : Prop := {
  rw_version : version r = version w;
  rw_known : In (version w) (0 :: kTLSVersions);
  rw_aead : aead_read_ctx r = aead_write_ctx w;
  rw_wf : well_formed (aead_write_ctx w);
  rw_header : hides_type w = true -> ad_is_header_ (aead_write_ctx w) = true;
  rw_null : is_null_cipher (aead_write_ctx w) = true -> variable_nonce_included_in_record_ (aead_write_ctx w) = false;
  rw_seq : read_sequence (rs r) = write_sequence (rs w);
  rw_range : 0 <= write_sequence (rs w) < 2 ^ 64;
  rw_open : read_shutdown (rs r) <> ssl_shutdown_close_notify;
  rw_ready : tls_can_accept_handshake_data r = None
}.

(** [r] does not reject a record of this type for another reason. *)
Definition accepts (r : SSL) (type : Z) (inp : list Z) : Prop :=
  (type = SSL3_RT_HANDSHAKE \/
   type = SSL3_RT_APPLICATION_DATA /\ tls_has_unprocessed_handshake_data r = false /\
   (skip_early_data_flag (rs r) && is_null_cipher (aead_read_ctx r) = false)) /\
  (inp = [] -> 0 <= empty_record_count (rs r) < kMaxEmptyRecords) /\
  zlength inp <= SSL3_RT_MAX_PLAIN_LENGTH.

Definition opened_state (r : SSL) (inp : list Z) : SSL :=
  let s := record_decrypted (rs r) in
  with_rs r (match inp with
             | [] => set_empty_record_count (empty_record_count s + 1) s
             | _ => set_warning_alert_count 0 (set_empty_record_count 0 s)
             end).

Lemma record_version_range w : In (version w) (0 :: kTLSVersions) ->
  0 <= tls_record_version w < 2 ^ 16 /\ Z.shiftr (tls_record_version w) 8 = SSL3_VERSION_MAJOR.
Proof. intros H. unfold tls_record_version. cbn in H. repeat destruct H as [<-|H]; easy. Qed.

Lemma ciphertext_length c inp extra prefix out suffix RAND_bytes type v seqnum header :
  well_formed c -> rand_ok RAND_bytes ->
  (is_null_cipher c = true -> variable_nonce_included_in_record_ c = false) ->
  extra = [] \/ ad_is_header_ c = true \/ is_null_cipher c = true ->
  zlength inp <= SSL3_RT_MAX_PLAIN_LENGTH -> zlength extra <= 1 ->
  SealScatter RAND_bytes c type v seqnum header inp extra = Some (prefix, out, suffix) ->
  CiphertextLen c (zlength inp) (zlength extra) = Some (zlength (prefix ++ out ++ suffix)) /\
  zlength (prefix ++ out ++ suffix) <= SSL3_RT_MAX_ENCRYPTED_LENGTH.
Proof.
  intros W Hr Hnull Hx Hi He H. destruct (open_seal _ _ _ _ _ _ _ _ _ _ _ Hr W Hx H) as (_ & Lp & Lo & Ls).
  assert (Lp' : zlength prefix = ExplicitNonceLen c).
  { destruct (is_null_cipher c); [|exact Lp]. unfold ExplicitNonceLen. now rewrite Hnull, Lp. }
  pose proof (wf_len c W) as Wl. pose proof (overhead_bound _ (wf_ctx c W)) as Wo. unfold EVP_AEAD_MAX_OVERHEAD in Wo.
  assert (Bs : 0 <= zlength suffix <= 65).
  { unfold SuffixLen in Ls. destruct (is_null_cipher c).
    - injection Ls as <-. pose proof (zlength_nonneg extra). lia.
    - apply (tag_bound _ (wf_ctx c W)) in Ls; pose proof (zlength_nonneg extra); lia. }
  assert (Be : 0 <= ExplicitNonceLen c < 256).
  { unfold ExplicitNonceLen. destruct (variable_nonce_included_in_record_ c); lia. }
  pose proof (zlength_nonneg inp) as Bi. unfold SSL3_RT_MAX_PLAIN_LENGTH, SSL3_RT_MAX_ENCRYPTED_LENGTH in *.
  rewrite !zlength_app, Lp', Lo. unfold CiphertextLen. rewrite Ls. cbn [obind].
  rewrite (wrap_small _ (zlength suffix + _)), wrap_small by lia. rewrite Z.geb_leb.
  destruct (Z.ltb_spec (zlength suffix + ExplicitNonceLen c + zlength inp) (zlength inp)); [lia|].
  destruct (Z.leb_spec 65535 (zlength suffix + ExplicitNonceLen c + zlength inp)); [unfold SSL3_RT_MAX_PLAIN_LENGTH in *; lia|].
  cbn [orb]. split; [f_equal; lia|unfold SSL3_RT_MAX_PLAIN_LENGTH; lia].
Qed.

(** What sealing one record writes. *)
Lemma do_seal_inv RAND_bytes type inp w w' prefix out suffix :
  do_seal_record RAND_bytes type inp w = (Some (prefix, out, suffix), w') ->
  let extra := if hides_type w then [type] else [] in
  let outer := if hides_type w then SSL3_RT_APPLICATION_DATA else type in
  exists len nonce,
    let header := outer :: be_split 2 (tls_record_version w) ++ be_split 2 len in
    CiphertextLen (aead_write_ctx w) (zlength inp) (zlength extra) = Some len /\
    u64 (write_sequence (rs w) + 1) <> 0 /\
    SealScatter (RAND_bytes (write_sequence (rs w))) (aead_write_ctx w) outer (tls_record_version w)
      (write_sequence (rs w)) header inp extra = Some (nonce, out, suffix) /\
    prefix = header ++ nonce /\ w' = with_rs w (record_written (rs w)).
Proof.
  unfold do_seal_record. cbv zeta. destruct (SuffixLen _ _ _); [|discriminate].
  destruct (CiphertextLen _ _ _) as [len|] eqn:C; [|discriminate].
  destruct (Z.eqb_spec (u64 (write_sequence (rs w) + 1)) 0) as [|N]; [discriminate|].
  set (outer := if hides_type w then SSL3_RT_APPLICATION_DATA else type).
  replace [outer; u8 (Z.shiftr (tls_record_version w) 8); Z.land (tls_record_version w) 255;
           u8 (Z.shiftr len 8); Z.land len 255]
    with (outer :: be_split 2 (tls_record_version w) ++ be_split 2 len) by now rewrite <- !two_bytes.
  destruct (SealScatter _ _ _ _ _ _ _ _) as [[[nonce o] t]|] eqn:S; [|discriminate].
  intros H. injection H as <- <- <- <-. exists len, nonce. auto.
Qed.

(** Padding is never added, so stripping recovers the type that was hidden. *)
Lemma remove_padding_snoc inp type : type <> 0 -> remove_padding (inp ++ [type]) = Some (type, inp).
Proof.
  intros H. unfold remove_padding. rewrite rev_unit. cbn [strip_zeros].
  destruct (Z.eqb_spec type 0); [easy|]. now rewrite rev_involutive.
Qed.

Lemma finish_open_accepts r type inp : accepts r type inp ->
  tls_finish_open r (record_decrypted (rs r)) type inp = (ssl_open_record_success type inp, rs (opened_state r inp)).
Proof.
  intros (Ht & He & _). unfold tls_finish_open, opened_state. cbn [with_rs rs].
  assert (T : (type =? SSL3_RT_ALERT) = false /\
              negb (type =? SSL3_RT_HANDSHAKE) && tls_has_unprocessed_handshake_data r = false).
  { destruct Ht as [->|(-> & -> & _)]; easy. }
  destruct T as [-> ->]. destruct inp as [|b inp]; [|reflexivity].
  specialize (He eq_refl). cbn [record_decrypted empty_record_count set_empty_record_count]. unfold kMaxEmptyRecords in He.
  rewrite wrap_small by lia. unfold kMaxEmptyRecords. destruct (Z.gtb_spec (empty_record_count (rs r) + 1) 32); [lia|reflexivity].
Qed.

(** The body of a sealed record. *)
Lemma open_body_sealed RAND_bytes r w type inp len nonce out suffix consumed :
  let extra := if hides_type w then [type] else [] in
  let outer := if hides_type w then SSL3_RT_APPLICATION_DATA else type in
  let header := outer :: be_split 2 (tls_record_version w) ++ be_split 2 len in
  rand_ok RAND_bytes -> receives r w -> accepts r type inp ->
  u64 (write_sequence (rs w) + 1) <> 0 ->
  SealScatter RAND_bytes (aead_write_ctx w) outer (tls_record_version w)
      (write_sequence (rs w)) header inp extra = Some (nonce, out, suffix) ->
  tls_open_body r outer (tls_record_version w) header (nonce ++ out ++ suffix) consumed =
  (ssl_open_record_success type inp, rs (opened_state r inp)).
Proof.
  intros extra outer header Hr R A N H. pose proof A as (Ht & He & Hl).
  assert (Hx : extra = [] \/ ad_is_header_ (aead_write_ctx w) = true \/ is_null_cipher (aead_write_ctx w) = true).
  { unfold extra. destruct (hides_type w) eqn:T; [right; left; now apply (rw_header r w R)|now left]. }
  destruct (open_seal _ _ _ _ _ _ _ _ _ _ _ Hr (rw_wf r w R) Hx H) as (O & _).
  unfold tls_open_body. rewrite (rw_aead r w R), (rw_seq r w R), (rw_version r w R), O.
  assert (T1 : (outer =? SSL3_RT_CHANGE_CIPHER_SPEC) = false).
  { unfold outer. destruct (hides_type w); [reflexivity|]. destruct Ht as [->|[-> _]]; reflexivity. }
  rewrite T1, !andb_false_r. cbn [andb].
  assert (T2 : skip_early_data_flag (rs r) && is_null_cipher (aead_write_ctx w) && (outer =? SSL3_RT_APPLICATION_DATA) = false).
  { unfold outer, hides_type. rewrite (rw_aead r w R) in Ht.
    destruct (is_null_cipher (aead_write_ctx w)); [|now rewrite andb_false_r].
    cbn [negb andb]. destruct Ht as [->|(-> & _ & ->)]; [apply andb_false_r|reflexivity]. }
  rewrite T2. destruct (Z.eqb_spec (u64 (write_sequence (rs w) + 1)) 0); [contradiction|].
  fold (hides_type w). unfold extra, outer in *. rewrite !Z.gtb_ltb.
  destruct (hides_type w).
  - rewrite zlength_app. change (zlength [type]) with 1.
    destruct (Z.ltb_spec (SSL3_RT_MAX_PLAIN_LENGTH + 1) (zlength inp + 1)); [lia|]. cbn [negb Z.eqb].
    rewrite remove_padding_snoc by (destruct Ht as [->|[-> _]]; easy).
    rewrite Z.eqb_refl. now apply finish_open_accepts.
  - rewrite app_nil_r. destruct (Z.ltb_spec SSL3_RT_MAX_PLAIN_LENGTH (zlength inp)); [lia|].
    now apply finish_open_accepts.
Qed.

Lemma receives_step r w inp : receives r w -> u64 (write_sequence (rs w) + 1) <> 0 ->
  receives (opened_state r inp) (with_rs w (record_written (rs w))).
Proof.
  intros R N. constructor; try apply R.
  - cbn [opened_state with_rs rs]. destruct inp;
      cbn [record_decrypted record_written read_sequence write_sequence set_warning_alert_count set_empty_record_count];
      now rewrite (rw_seq r w R).
  - cbn [with_rs rs record_written write_sequence]. now apply wrap_range.
  - destruct inp; apply R.
Qed.

(** One sealed record, followed by anything. *)
Lemma open_sealed RAND_bytes r w type inp prefix out suffix w' rest :
  (forall n, rand_ok (RAND_bytes n)) -> receives r w -> accepts r type inp ->
  do_seal_record RAND_bytes type inp w = (Some (prefix, out, suffix), w') ->
  tls_open_record r (prefix ++ out ++ suffix ++ rest) =
    (ssl_open_record_success type inp, zlength (prefix ++ out ++ suffix), opened_state r inp) /\
  receives (opened_state r inp) w'.
Proof.
  intros Hr R A H. destruct (do_seal_inv _ _ _ _ _ _ _ _ H) as (len & nonce & C & N & S & -> & ->).
  set (outer := if hides_type w then SSL3_RT_APPLICATION_DATA else type) in *.
  split; [|now apply receives_step].
  assert (Hx : (if hides_type w then [type] else []) = [] \/
      ad_is_header_ (aead_write_ctx w) = true \/ is_null_cipher (aead_write_ctx w) = true).
  { destruct (hides_type w) eqn:T; [right; left; now apply (rw_header r w R)|now left]. }
  destruct (ciphertext_length _ _ _ _ _ _ _ _ _ _ _ (rw_wf r w R) (Hr _) (rw_null r w R) Hx
    (proj2 (proj2 A)) ltac:(destruct (hides_type w); easy) S) as [C' Bl].
  rewrite C in C'. injection C' as ->. set (len := zlength (nonce ++ out ++ suffix)) in *.
  destruct (record_version_range w (rw_known r w R)) as [Vr Vm].
  assert (E : forall inp, tls_open_record r inp = tls_open_input r inp).
  { intros i. unfold tls_open_record. rewrite (rw_ready r w R).
    destruct (read_shutdown (rs r)) eqn:Sd; [reflexivity|now apply (rw_open r w R) in Sd|reflexivity]. }
  rewrite E. clear E. unfold tls_open_input.
  replace ((((outer :: be_split 2 (tls_record_version w) ++ be_split 2 len) ++ nonce) ++ out ++ suffix ++ rest))
    with (outer :: be_split 2 (tls_record_version w) ++ be_split 2 len ++ ((nonce ++ out ++ suffix) ++ rest))
    by (cbn [app]; now rewrite <- !app_assoc).
  assert (Bl' : 0 <= len < 2 ^ 16)
    by (unfold SSL3_RT_MAX_ENCRYPTED_LENGTH, SSL3_RT_MAX_PLAIN_LENGTH in Bl; pose proof (zlength_nonneg (nonce ++ out ++ suffix)); lia).
  rewrite (parse_header_write _ _ _ _ Vr Bl').
  replace (if is_null_cipher (aead_read_ctx r) then Z.shiftr (tls_record_version w) 8 =? SSL3_VERSION_MAJOR
                else tls_record_version w =? tls_record_version r) with true
    by (unfold tls_record_version at 3; rewrite (rw_version r w R); fold (tls_record_version w);
        rewrite Vm, !Z.eqb_refl; now destruct (is_null_cipher (aead_read_ctx r))).
  cbn [negb]; destruct (Z.gtb_spec len SSL3_RT_MAX_ENCRYPTED_LENGTH); [lia|].
  unfold CBS_get_bytes, len at 1; rewrite cbs_get_app; fold len.
  change (firstn (Z.to_nat SSL3_RT_HEADER_LENGTH) (outer :: be_split 2 (tls_record_version w) ++ be_split 2 len ++
         (nonce ++ out ++ suffix) ++ rest)) with (outer :: be_split 2 (tls_record_version w) ++ be_split 2 len).
  pose proof (open_body_sealed (RAND_bytes (write_sequence (rs w))) r w type inp len nonce out suffix) as B;
    cbv zeta in B; rewrite B by auto.
  f_equal; f_equal; autorewrite with zlen; lia.
Qed.

Lemma do_seal_lengths RAND_bytes r w type inp prefix out suffix w' :
  (forall n, rand_ok (RAND_bytes n)) -> receives r w ->
  do_seal_record RAND_bytes type inp w = (Some (prefix, out, suffix), w') ->
  zlength prefix = SSL3_RT_HEADER_LENGTH + ExplicitNonceLen (aead_write_ctx w) /\ zlength out = zlength inp /\
  SuffixLen (aead_write_ctx w) (zlength inp) (if hides_type w then 1 else 0) = Some (zlength suffix) /\
  (zlength inp <= SSL3_RT_MAX_PLAIN_LENGTH ->
   zlength (prefix ++ out ++ suffix) <= SSL3_RT_HEADER_LENGTH + SSL3_RT_MAX_ENCRYPTED_LENGTH).
Proof.
  intros Hr R H. destruct (do_seal_inv _ _ _ _ _ _ _ _ H) as (len & nonce & _ & _ & S & -> & _).
  assert (Hx : (if hides_type w then [type] else []) = [] \/
      ad_is_header_ (aead_write_ctx w) = true \/ is_null_cipher (aead_write_ctx w) = true).
  { destruct (hides_type w) eqn:T; [right; left; now apply (rw_header r w R)|now left]. }
  destruct (open_seal _ _ _ _ _ _ _ _ _ _ _ (Hr _) (rw_wf r w R) Hx S) as (_ & Lp & Lo & Ls).
  rewrite Lo. split; [|split; [reflexivity|split; [now destruct (hides_type w)|]]].
  2:{ intros Hl. destruct (ciphertext_length _ _ _ _ _ _ _ _ _ _ _ (rw_wf r w R) (Hr _) (rw_null r w R) Hx
        Hl ltac:(destruct (hides_type w); easy) S) as [_ B].
      unfold SSL3_RT_HEADER_LENGTH. autorewrite with zlen in *. lia. }
  autorewrite with zlen. rewrite Lp. unfold SSL3_RT_HEADER_LENGTH.
  destruct (is_null_cipher (aead_write_ctx w)) eqn:E; [|lia].
  unfold ExplicitNonceLen. rewrite (rw_null r w R E). lia.
Qed.

(** A record that is not split, whatever protects it. *)
Lemma seal_open_unsplit RAND_bytes r w max_out_len type inp out n w' rest :
  (forall k, rand_ok (RAND_bytes k)) -> receives r w -> accepts r type inp ->
  splits w type (zlength inp) = false ->
  tls_seal_record RAND_bytes max_out_len type inp w = (Some (out, n), w') ->
  n = zlength out /\ n <= max_out_len /\
  tls_open_record r (out ++ rest) = (ssl_open_record_success type inp, n, opened_state r inp) /\
  receives (opened_state r inp) w'.
Proof.
  intros Hr R A Sp. unfold tls_seal_record, tls_seal_scatter_prefix_len, tls_seal_scatter_suffix_len.
  rewrite Sp. destruct (SuffixLen _ _ _) as [sl|] eqn:Sl; [|discriminate].
  destruct (_ || _); [discriminate|].
  match goal with |- (if ?b then _ else _) = _ -> _ => destruct b eqn:Mx; [discriminate|] end.
  intros H. apply bind_some_inv in H as ([[p o] s] & w1 & H & E). apply ret_inv in E as [E ->].
  unfold tls_seal_scatter_record in H. rewrite Sp in H.
  destruct (do_seal_lengths _ _ _ _ _ _ _ _ _ Hr R H) as (Lp & Lo & Ls & Lb).
  specialize (Lb (proj2 (proj2 A))).
  destruct (open_sealed _ _ _ _ _ _ _ _ _ rest Hr R A H) as [O R'].
  rewrite Sl in Ls. injection Ls as Ls. apply pair_equal_spec in E as [Eo En].
  assert (L : n = zlength out) by (subst; rewrite !zlength_app; lia).
  split; [exact L|]. split.
  - pose proof (zlength_nonneg s). pose proof (zlength_nonneg inp).
    unfold SSL3_RT_HEADER_LENGTH, SSL3_RT_MAX_ENCRYPTED_LENGTH, SSL3_RT_MAX_PLAIN_LENGTH in *.
    rewrite !zlength_app in Lb. pose proof (zlength_nonneg p). subst.
    rewrite wrap_small in Mx by (rewrite wrap_small by lia; lia). rewrite wrap_small in Mx by lia.
    apply Z.ltb_ge in Mx. lia.
  - rewrite L, Eo, <- !app_assoc. split; [exact O|exact R'].
Qed.

(** The suites whose protection is a function of nonce, contents and additional
    data: no cipher, or an AEAD.  The contexts of the CBC suites are stateful. *)
Definition stateless_suite (c : SSLAEADContext) : Prop :=
  forall cipher, cipher_ c = Some cipher -> SSL_CIPHER_is_block_cipher cipher = false.

Lemma stateless_unsplit w type n : stateless_suite (aead_write_ctx w) -> splits w type n = false.
Proof.
  intros H. unfold splits, ssl_needs_record_splitting. destruct (cipher_ (aead_write_ctx w)) as [c|] eqn:C.
  - rewrite (H c C), !andb_false_r. reflexivity.
  - apply andb_false_r.
Qed.

(** C39: A sealed TLS record opens to what was sealed, for the null cipher and
    every AEAD suite (GCM or ChaCha20-Poly1305, not the CBC suites) in every
    version, for handshake and application data of up to 2^14 bytes: if
    [tls_seal_record] succeeds, it has written the announced number of bytes
    within the buffer, and a peer in step that takes such a record reads from
    them, followed by anything, a record of the same type and contents, consumes
    exactly those bytes, and is in step for the next record. *)
Theorem tls_record_roundtrip RAND_bytes r w max_out_len type inp out n w' rest :
  (forall k, rand_ok (RAND_bytes k)) -> receives r w -> accepts r type inp ->
  stateless_suite (aead_write_ctx w) ->
  tls_seal_record RAND_bytes max_out_len type inp w = (Some (out, n), w') ->
  n = zlength out /\ n <= max_out_len /\
  tls_open_record r (out ++ rest) = (ssl_open_record_success type inp, n, opened_state r inp) /\
  receives (opened_state r inp) w'.
Proof.
  intros Hr R A S. exact (seal_open_unsplit _ _ _ _ _ _ _ _ _ _ Hr R A (stateless_unsplit _ _ _ S)).
Qed.


(** ** Record splitting *)

Lemma accepts_tail r type inp : accepts r type inp -> 1 < zlength inp ->
  accepts r type (firstn 1 inp) /\ accepts (opened_state r (firstn 1 inp)) type (skipn 1 inp).
Proof.
  intros (Ht & _ & Hl) L. destruct inp as [|b [|c inp]]; [discriminate L|discriminate L|]. cbn [firstn skipn].
  unfold accepts. split; (split; [|split; [easy|]]).
  - exact Ht.
  - change (zlength [b]) with 1. unfold SSL3_RT_MAX_PLAIN_LENGTH. lia.
  - destruct Ht as [->|(-> & U & _)]; [now left|right; repeat split; exact U].
  - rewrite zlength_cons in Hl. lia.
Qed.

(** TLS 1.0 record splitting is transparent: when application data is
    split into a one-byte record and the rest, the peer reads first a record
    with the first byte and then, from the bytes that follow, one with the
    remaining bytes, and is in step afterwards. *)
Theorem tls_split_roundtrip RAND_bytes r w max_out_len type inp out n w' rest :
  (forall k, rand_ok (RAND_bytes k)) -> receives r w -> accepts r type inp ->
  splits w type (zlength inp) = true ->
  tls_seal_record RAND_bytes max_out_len type inp w = (Some (out, n), w') ->
  exists n1, 0 <= n1 <= zlength out /\
  tls_open_record r (out ++ rest) =
    (ssl_open_record_success type (firstn 1 inp), n1, opened_state r (firstn 1 inp)) /\
  tls_open_record (opened_state r (firstn 1 inp)) (skipn (Z.to_nat n1) (out ++ rest)) =
    (ssl_open_record_success type (skipn 1 inp), zlength out - n1,
     opened_state (opened_state r (firstn 1 inp)) (skipn 1 inp)) /\
  receives (opened_state (opened_state r (firstn 1 inp)) (skipn 1 inp)) w'.
Proof.
  intros Hr R A Sp. unfold tls_seal_record.
  destruct (tls_seal_scatter_suffix_len _ _ _) as [sl|]; [|discriminate].
  destruct (_ || _); [discriminate|]. destruct (_ <? _); [discriminate|].
  intros H. apply bind_some_inv in H as ([[p o] s] & w1 & H & E). apply ret_inv in E as [E ->].
  apply pair_equal_spec in E as [-> _]. unfold tls_seal_scatter_record in H. rewrite Sp in H.
  apply bind_some_inv in H as ([[p1 b1] s1] & w2 & H1 & H).
  apply bind_some_inv in H as ([[p2 b2] s2] & w3 & H2 & H). apply ret_inv in H as [H ->].
  apply pair_equal_spec in H as [H ->]. apply pair_equal_spec in H as [-> ->].
  assert (L : 1 < zlength inp).
  { unfold splits in Sp. apply andb_true_iff in Sp as [Sp _]. apply andb_true_iff in Sp as [_ Sp].
    apply Z.gtb_lt in Sp. exact Sp. }
  destruct (accepts_tail r type inp A L) as [A1 A2].
  set (rec1 := p1 ++ b1 ++ s1). set (rec2 := p2 ++ b2 ++ s2).
  replace ((p1 ++ b1 ++ s1 ++ firstn 4 p2) ++ (skipn 4 p2 ++ b2) ++ s2) with (rec1 ++ rec2).
  2:{ unfold rec1, rec2. rewrite <- (firstn_skipn 4 p2) at 1. now rewrite <- !app_assoc. }
  exists (zlength rec1). pose proof (zlength_nonneg rec2). pose proof (zlength_nonneg rec1).
  destruct (open_sealed _ _ _ _ _ _ _ _ _ (rec2 ++ rest) Hr R A1 H1) as [O1 R1].
  destruct (open_sealed _ _ _ _ _ _ _ _ _ rest Hr R1 A2 H2) as [O2 R2].
  split; [rewrite (zlength_app rec1 rec2); lia|]. split; [|split; [|exact R2]].
  - rewrite <- app_assoc. unfold rec1 at 1. rewrite <- !app_assoc. exact O1.
  - rewrite <- app_assoc, skipn_zlength_app, (zlength_app rec1 rec2).
    replace (zlength rec1 + zlength rec2 - zlength rec1) with (zlength rec2) by lia.
    unfold rec2 at 1. rewrite <- !app_assoc. exact O2.
Qed.

(** ** Partial input *)

Lemma get_u16_cons a b s : CBS_get_u16 (a :: b :: s) = (Some (u16 (be_fold_u64 [a; b])), s).
Proof.
  unfold CBS_get_u16, cbs_get_u, bind. pose proof (cbs_get_app [a; b] s) as H.
  change (zlength [a; b]) with 2 in H. cbn [app] in H. now rewrite H.
Qed.

(** The header is parsed exactly when its five bytes are there. *)
Lemma parse_header_cases inp :
  (zlength inp < 5 /\ fst (tls_parse_header inp) = None) \/
  (exists type v len rest, 0 <= len < 2 ^ 16 /\ zlength inp = 5 + zlength rest /\
     forall more, tls_parse_header (inp ++ more) = (Some (type, v, len), rest ++ more)).
Proof.
  unfold tls_parse_header.
  destruct inp as [|a [|b [|c [|d [|e rest]]]]]; [left; split; [cbn; lia|reflexivity]..|].
  right. do 3 eexists. exists rest. split; [|split; [rewrite !zlength_cons; lia|]].
  2:{ intros more. cbn [app]. rewrite (bind_some _ _ _ _ _ (CBS_get_u8_cons _ _)).
      rewrite (bind_some _ _ _ _ _ (get_u16_cons _ _ _)).
      now rewrite (bind_some _ _ _ _ _ (get_u16_cons _ _ _)). }
  now apply wrap_range.
Qed.

Lemma process_alert_not_partial b r inp : fst (ssl_process_alert b r inp) <> ssl_open_record_partial.
Proof.
  unfold ssl_process_alert. destruct inp as [|x [|y [|]]]; [easy|easy| |easy]. cbv zeta.
  repeat match goal with |- context [if ?b then _ else _] => destruct b end; easy.
Qed.

Lemma open_body_not_partial ssl type v header body consumed :
  fst (tls_open_body ssl type v header body consumed) <> ssl_open_record_partial.
Proof.
  assert (Sk : forall r, fst (skip_early_data r consumed) <> ssl_open_record_partial).
  { intros r. unfold skip_early_data. cbv zeta. destruct (early_data_skipped _ >? _); easy. }
  assert (Fi : forall r t out, fst (tls_finish_open ssl r t out) <> ssl_open_record_partial).
  { intros r t out. unfold tls_finish_open. destruct (match out with [] => _ | _ => _ end) as [[|] r']; [easy|].
    destruct (_ =? _); [apply process_alert_not_partial|]. destruct (_ && _); easy. }
  unfold tls_open_body. destruct (_ && _ && _ && _ && _ && _).
  { cbv zeta. destruct (empty_record_count _ >? _); easy. }
  destruct (_ && _ && _); [apply Sk|]. destruct (_ =? 0); [easy|].
  destruct (Open _ _ _ _ _ _) as [out|]; [|destruct (_ && _); [apply Sk|easy]].
  destruct (_ >? _); [easy|]. destruct (_ && _); [|apply Fi].
  destruct (negb _); [easy|]. destruct (remove_padding out) as [[t o]|]; [apply Fi|easy].
Qed.

Definition header_ok (ssl : SSL) (v len : Z) : bool :=
  (if is_null_cipher (aead_read_ctx ssl) then Z.shiftr v 8 =? SSL3_VERSION_MAJOR else v =? tls_record_version ssl) &&
  negb (len >? SSL3_RT_MAX_ENCRYPTED_LENGTH).

(** The three ways a header leads on. *)
Lemma open_input_cases ssl inp type v len rest res m ssl' :
  0 <= len < 2 ^ 16 -> zlength inp = 5 + zlength rest ->
  tls_parse_header inp = (Some (type, v, len), rest) -> tls_open_input ssl inp = (res, m, ssl') ->
  (header_ok ssl v len = false /\ exists alert, res = ssl_open_record_error alert /\ m = 0 /\ ssl' = ssl) \/
  header_ok ssl v len = true /\ len <= SSL3_RT_MAX_ENCRYPTED_LENGTH /\ m = 5 + len /\
  (zlength rest < len /\ res = ssl_open_record_partial /\ ssl' = ssl \/
   len <= zlength rest /\ res <> ssl_open_record_partial /\
   exists header body r, tls_open_body ssl type v header body m = (res, r) /\ ssl' = with_rs ssl r).
Proof.
  intros Bl Li P. unfold tls_open_input, header_ok. rewrite P.
  destruct (if is_null_cipher _ then _ else _); cbn [negb andb].
  2:{ intros H. injection H as <- <- <-. left. eauto. }
  destruct (Z.gtb_spec len SSL3_RT_MAX_ENCRYPTED_LENGTH) as [Gt|Le]; cbn [negb].
  { intros H. injection H as <- <- <-. left. eauto. }
  destruct (CBS_get_bytes len rest) as [[body|] cbs] eqn:G; unfold CBS_get_bytes in G.
  2:{ apply cbs_get_fail in G as [G _]. intros H. injection H as <- <- <-. right. split; [reflexivity|]. split; [lia|]. split; [reflexivity|].
      left. auto. }
  apply cbs_get_inv in G as [-> Lb]; [|lia]. rewrite zlength_app in Li.
  replace (zlength inp - zlength cbs) with (5 + len) by lia.
  destruct (tls_open_body _ _ _ _ _ _) as [res' r'] eqn:B. intros H. injection H as <- <- <-.
  right. split; [reflexivity|]. split; [lia|]. split; [reflexivity|]. right. rewrite zlength_app. pose proof (zlength_nonneg cbs).
  split; [lia|]. split; [|eauto]. pose proof (open_body_not_partial ssl type v) as Np.
  specialize (Np (firstn (Z.to_nat SSL3_RT_HEADER_LENGTH) inp) body (5 + len)). now rewrite B in Np.
Qed.

(** [ssl_open_record_partial] is exact: the connection is unchanged, the
    number of bytes asked for is more than is there and at most a maximal
    record; until that many bytes have arrived the call stays partial, and a
    call that processes a record consumes at least that many. *)
Theorem tls_partial_exact r inp n r' :
  tls_open_record r inp = (ssl_open_record_partial, n, r') ->
  r' = r /\ zlength inp < n <= SSL3_RT_HEADER_LENGTH + SSL3_RT_MAX_ENCRYPTED_LENGTH /\
  forall more res m r2, tls_open_record r (inp ++ more) = (res, m, r2) ->
    (zlength (inp ++ more) < n -> res = ssl_open_record_partial /\ m = n) /\
    (match res with ssl_open_record_success _ _ | ssl_open_record_discard => n <= m | _ => True end).
Proof.
  intros H. assert (E : forall i, tls_open_record r i = tls_open_input r i).
  { intros i. unfold tls_open_record in *. destruct (read_shutdown (rs r)); [|discriminate|];
      destruct (tls_can_accept_handshake_data r); (discriminate || reflexivity). }
  rewrite E in H. setoid_rewrite E. clear E.
  destruct (parse_header_cases inp) as [[L P]|(type & v & len & rest & Bl & Li & P)].
  - assert (n = 5 /\ r' = r) as [-> ->].
    { unfold tls_open_input in H. destruct (tls_parse_header inp) as [[?|] ?]; [discriminate|]. now injection H. }
    split; [reflexivity|]. split; [cbn; lia|]. intros more res m r2 H2.
    destruct (parse_header_cases (inp ++ more)) as [[L' P']|(type & v & len & rest & Bl & Li & P')].
    + unfold tls_open_input in H2. destruct (tls_parse_header (inp ++ more)) as [[?|] ?]; [discriminate|].
      injection H2 as <- <- <-. easy.
    + specialize (P' []). rewrite !app_nil_r in P'. pose proof (zlength_nonneg rest).
      split; [lia|]. destruct (open_input_cases _ _ _ _ _ _ _ _ _ Bl Li P' H2) as [(_ & a & -> & _)|(_ & _ & -> & _)];
        [easy|destruct res; lia || exact I].
  - pose proof (P []) as P0. rewrite !app_nil_r in P0.
    destruct (open_input_cases _ _ _ _ _ _ _ _ _ Bl Li P0 H) as [(_ & a & C & _)|(Ok & Ml & -> & [(Lr & _ & ->)|(_ & C & _)])];
      [discriminate| |now contradiction C].
    split; [reflexivity|]. split; [unfold SSL3_RT_HEADER_LENGTH; lia|]. intros more res m r2 H2.
    assert (Li' : zlength (inp ++ more) = 5 + zlength (rest ++ more)) by (rewrite !zlength_app; lia).
    destruct (open_input_cases _ _ _ _ _ _ _ _ _ Bl Li' (P more) H2)
      as [(C & _)|(_ & _ & -> & [(L2 & -> & _)|(L2 & _)])];
      [congruence|split; [easy|exact I]|split; [lia|destruct res; lia || exact I]].
Qed.

(** ** Records without data are bounded *)

Record counters_ok (r : RecordState) : Prop := {
  ok_empty : 0 <= empty_record_count r <= kMaxEmptyRecords;
  ok_warning : 0 <= warning_alert_count r <= kMaxWarningAlerts;
  ok_skipped : 0 <= early_data_skipped r <= kMaxEarlyDataSkipped
}.

Definition potential (r : RecordState) : Z :=
  5 * (empty_record_count r + warning_alert_count r) + early_data_skipped r.

(** The call processed a record and gave the caller no data. *)
Definition idle (res : ssl_open_record_t) : bool :=
  match res with
  | ssl_open_record_discard | ssl_open_record_success _ [] => true
  | _ => false
  end.

Ltac rs_simpl :=
  cbn [fst snd set_early_data_skipped set_empty_record_count set_warning_alert_count set_read_shutdown record_decrypted
       read_sequence write_sequence read_shutdown early_data_skipped empty_record_count warning_alert_count].

Definition advances (r : RecordState) (x : ssl_open_record_t * RecordState) : Prop :=
  idle (fst x) = true -> counters_ok (snd x) /\ potential r + 5 <= potential (snd x).

Lemma skip_early_data_advances r consumed :
  counters_ok r -> 5 <= consumed <= 5 + SSL3_RT_MAX_ENCRYPTED_LENGTH -> advances r (skip_early_data r consumed).
Proof.
  intros [E W S] C. unfold kMaxEarlyDataSkipped, kMaxEmptyRecords, kMaxWarningAlerts,
    SSL3_RT_MAX_ENCRYPTED_LENGTH, SSL3_RT_MAX_PLAIN_LENGTH in *.
  unfold advances, skip_early_data, kMaxEarlyDataSkipped. cbn [set_early_data_skipped early_data_skipped].
  rewrite wrap_small by lia. destruct (Z.ltb_spec (early_data_skipped r + consumed) consumed); [lia|].
  cbn [set_early_data_skipped early_data_skipped].
  destruct (Z.gtb_spec (early_data_skipped r + consumed) 16384); [discriminate|]. intros _.
  unfold potential. rs_simpl. split; [constructor; rs_simpl; unfold kMaxEarlyDataSkipped, kMaxEmptyRecords, kMaxWarningAlerts; lia|rs_simpl; lia].
Qed.

(** A record counted as empty. *)
Lemma count_empty r : counters_ok r -> u8 (empty_record_count r + 1) <= kMaxEmptyRecords ->
  counters_ok (set_empty_record_count (u8 (empty_record_count r + 1)) r) /\
  potential r + 5 <= potential (set_empty_record_count (u8 (empty_record_count r + 1)) r).
Proof.
  intros [E W S]. unfold kMaxEmptyRecords in *. rewrite wrap_small by lia. intros L.
  unfold potential, kMaxWarningAlerts, kMaxEarlyDataSkipped in *.
  split; [constructor; rs_simpl; unfold kMaxEmptyRecords, kMaxWarningAlerts, kMaxEarlyDataSkipped; lia|rs_simpl; lia].
Qed.

Lemma process_alert_advances b r inp : counters_ok r -> advances r (ssl_process_alert b r inp).
Proof.
  intros [E W S]. unfold advances, ssl_process_alert. destruct inp as [|x [|y [|]]]; [easy|easy| |easy].
  destruct (x =? SSL3_AL_WARNING); [|destruct (_ =? _); easy].
  destruct (y =? SSL_AD_CLOSE_NOTIFY); [easy|]. destruct (_ && _); [easy|].
  cbn [set_warning_alert_count warning_alert_count]. unfold kMaxWarningAlerts in *. rewrite wrap_small by lia.
  destruct (Z.gtb_spec (warning_alert_count r + 1) 4); [easy|]. intros _. unfold potential. rs_simpl.
  split; [constructor; rs_simpl; unfold kMaxWarningAlerts; lia|rs_simpl; lia].
Qed.

Lemma finish_open_advances ssl r type out : counters_ok r -> advances r (tls_finish_open ssl r type out).
Proof.
  intros Ok. unfold tls_finish_open. destruct out as [|b out].
  - cbn [set_empty_record_count empty_record_count]. rewrite Z.gtb_ltb.
    destruct (Z.ltb_spec kMaxEmptyRecords (u8 (empty_record_count r + 1))) as [|L]; [easy|].
    destruct (count_empty r Ok L) as [Ok' P]. destruct (type =? SSL3_RT_ALERT); [easy|].
    destruct (_ && _); [easy|]. intros _. now split.
  - destruct (type =? SSL3_RT_ALERT); [now apply process_alert_advances|]. destruct (_ && _); easy.
Qed.

Lemma open_body_advances ssl type v header body consumed :
  counters_ok (rs ssl) -> 5 <= consumed <= 5 + SSL3_RT_MAX_ENCRYPTED_LENGTH ->
  advances (rs ssl) (tls_open_body ssl type v header body consumed).
Proof.
  intros Ok C. unfold tls_open_body. destruct (_ && _ && _ && _ && _ && _).
  { cbn [set_empty_record_count empty_record_count]. rewrite Z.gtb_ltb.
    destruct (Z.ltb_spec kMaxEmptyRecords (u8 (empty_record_count (rs ssl) + 1))) as [|L]; [easy|].
    intros _. now apply count_empty. }
  destruct (_ && _ && _); [now apply skip_early_data_advances|]. destruct (_ =? 0); [easy|].
  destruct (Open _ _ _ _ _ _) as [out|]; [|destruct (_ && _); [now apply skip_early_data_advances|easy]].
  assert (Fi : forall t o, advances (rs ssl) (tls_finish_open ssl (record_decrypted (rs ssl)) t o)).
  { intros t o I. apply (finish_open_advances ssl (record_decrypted (rs ssl)) t o); [|exact I].
    destruct Ok. now constructor. }
  destruct (_ >? _); [easy|]. destruct (_ && _); [|apply Fi].
  destruct (negb _); [easy|]. destruct (remove_padding out) as [[t o]|]; [apply Fi|easy].
Qed.

Lemma open_record_advances ssl inp res m ssl' : counters_ok (rs ssl) ->
  tls_open_record ssl inp = (res, m, ssl') -> advances (rs ssl) (res, rs ssl').
Proof.
  intros Ok. unfold tls_open_record. destruct (read_shutdown (rs ssl)).
  2:{ intros H. injection H as <- <- <-. easy. }
  all: destruct (tls_can_accept_handshake_data ssl); [intros H; injection H as <- <- <-; easy|]; intros H I.
  all: destruct (parse_header_cases inp) as [[L P]|(type & v & len & rest & Bl & Li & P)].
  1,3: unfold tls_open_input in H; destruct (tls_parse_header inp) as [[?|] ?]; [discriminate|]; injection H as <- <- <-; discriminate.
  all: specialize (P []); rewrite !app_nil_r in P.
  all: destruct (open_input_cases _ _ _ _ _ _ _ _ _ Bl Li P H) as
    [(_ & a & -> & _)|(_ & Ml & -> & [(_ & -> & _)|(_ & _ & header & body & r & B & ->)])]; [discriminate|discriminate|].
  all: pose proof (open_body_advances ssl type v header body (5 + len) Ok) as A; rewrite B in A;
    apply A; [lia|exact I].
Qed.

(** Consecutive calls, none of which gives the caller any data. *)
Fixpoint idle_run (ssl : SSL) (inputs : list (list Z)) : bool :=
  match inputs with
  | [] => true
  | inp :: inputs =>
      let '(res, _, ssl') := tls_open_record ssl inp in idle res && idle_run ssl' inputs
  end.

(** record processing cannot be kept busy: whatever a peer sends, at most
    3312 consecutive records (32 empty ones, 4 warning alerts and 16 KiB of
    skipped early data) are processed without either data for the caller or an
    error. *)
Theorem tls_idle_bounded ssl inputs :
  counters_ok (rs ssl) -> idle_run ssl inputs = true -> zlength inputs <= 3312.
Proof.
  intros Ok H.
  assert (B : 5 * zlength inputs <= 5 * (32 + 4) + 16384 - potential (rs ssl)).
  { revert ssl Ok H. induction inputs as [|inp inputs IH]; intros ssl Ok; cbn [idle_run].
    - intros _. destruct Ok as [E W S]. unfold kMaxEmptyRecords, kMaxWarningAlerts, kMaxEarlyDataSkipped in *.
      unfold potential. change (zlength (@nil (list Z))) with 0. lia.
    - destruct (tls_open_record ssl inp) as [[res m] ssl'] eqn:O. intros H. apply andb_true_iff in H as [I H].
      destruct (open_record_advances _ _ _ _ _ Ok O I) as [Ok' P]. cbn [snd] in *. specialize (IH ssl' Ok' H).
      rewrite zlength_cons. lia. }
  destruct Ok as [E W S]. unfold potential in B. lia.
Qed.

(** ** Concrete connections *)

Definition demo_rs : RecordState :=
  {| read_sequence := 7; write_sequence := 7; read_shutdown := ssl_shutdown_none; early_data_skipped := 0;
     empty_record_count := 0; warning_alert_count := 0; skip_early_data_flag := false |}.

Definition demo_ssl (v mode : Z) (aead : SSLAEADContext) : SSL :=
  {| server := false; verify_peer := false; max_cert_list := 102400; mode := mode; version := v;
     hs := None; hs_buf := None; has_message := false;
     aead_read_ctx := aead; aead_write_ctx := aead; rs := demo_rs |}.

(** A CBC suite of TLS 1.0: the IV is implicit. *)
Definition demo_tls10 : SSLAEADContext :=
  {| cipher_ := Some {| algorithm_enc := SSL_AES128; algorithm_mac := SSL_SHA1 |};
     ctx_ := toy_aead; fixed_nonce_ := []; variable_nonce_len_ := 0; variable_nonce_included_in_record_ := true;
     random_variable_nonce_ := true; xor_fixed_nonce_ := false; omit_length_in_ad_ := true;
     ad_is_header_ := false |}.

Definition empty_rand (k n : Z) : option (list Z) := if n =? 0 then Some [] else None.

Lemma empty_rand_ok k : rand_ok (empty_rand k).
Proof. intros n r. unfold empty_rand. destruct (Z.eqb_spec n 0) as [->|]; [|discriminate]. now intros [= <-]. Qed.

Lemma demo_tls10_wf : well_formed demo_tls10.
Proof. constructor; cbn; try discriminate; [apply toy_aead_ok|reflexivity|lia]. Qed.

Lemma demo_receives v mode aead :
  In v kTLSVersions -> well_formed aead -> is_null_cipher aead = false ->
  (is_tls13 v = true -> ad_is_header_ aead = true) ->
  receives (demo_ssl v mode aead) (demo_ssl v mode aead).
Proof.
  intros Hv W N H. constructor; try reflexivity; try assumption.
  - now right.
  - unfold hides_type. cbn [demo_ssl aead_write_ctx version]. rewrite N. exact H.
  - cbn [demo_ssl aead_write_ctx]. now rewrite N.
  - cbn. lia.
  - discriminate.
  - cbn in Hv. repeat destruct Hv as [<-|Hv]; easy.
Qed.

Lemma tls_record_roundtrip_witness :
  exists out n w',
    tls_seal_record empty_rand 100 SSL3_RT_APPLICATION_DATA [104; 105]
      (demo_ssl TLS1_3_VERSION 0 (demo_aead true)) = (Some (out, n), w') /\
    tls_open_record (demo_ssl TLS1_3_VERSION 0 (demo_aead true)) (out ++ [1; 2; 3]) =
      (ssl_open_record_success SSL3_RT_APPLICATION_DATA [104; 105], n,
       opened_state (demo_ssl TLS1_3_VERSION 0 (demo_aead true)) [104; 105]).
Proof.
  eexists _, _, _. split; [vm_compute; reflexivity|].
  refine (proj1 (proj2 (proj2 (tls_record_roundtrip empty_rand (demo_ssl TLS1_3_VERSION 0 (demo_aead true))
    (demo_ssl TLS1_3_VERSION 0 (demo_aead true)) 100 SSL3_RT_APPLICATION_DATA [104; 105] _ _ ?[w'] [1; 2; 3] _ _ _ _ _)))).
  - apply empty_rand_ok.
  - apply demo_receives; [now left|apply demo_aead_wf|reflexivity|reflexivity].
  - split; [right; repeat split|split; [discriminate|discriminate]].
  - intros cipher E. now injection E as <-.
  - vm_compute. reflexivity.
Defined.

Lemma tls_split_roundtrip_witness :
  exists out n w' n1,
    tls_seal_record empty_rand 100 SSL3_RT_APPLICATION_DATA [104; 105; 106]
      (demo_ssl TLS1_VERSION SSL_MODE_CBC_RECORD_SPLITTING demo_tls10) = (Some (out, n), w') /\
    tls_open_record (demo_ssl TLS1_VERSION SSL_MODE_CBC_RECORD_SPLITTING demo_tls10) (out ++ [1; 2; 3]) =
      (ssl_open_record_success SSL3_RT_APPLICATION_DATA [104], n1,
       opened_state (demo_ssl TLS1_VERSION SSL_MODE_CBC_RECORD_SPLITTING demo_tls10) [104]).
Proof.
  destruct (tls_seal_record empty_rand 100 SSL3_RT_APPLICATION_DATA [104; 105; 106]
    (demo_ssl TLS1_VERSION SSL_MODE_CBC_RECORD_SPLITTING demo_tls10)) as [[[out n]|] w'] eqn:E; [|discriminate E].
  destruct (tls_split_roundtrip empty_rand (demo_ssl TLS1_VERSION SSL_MODE_CBC_RECORD_SPLITTING demo_tls10)
    (demo_ssl TLS1_VERSION SSL_MODE_CBC_RECORD_SPLITTING demo_tls10) 100 SSL3_RT_APPLICATION_DATA [104; 105; 106]
    out n w' [1; 2; 3] empty_rand_ok) as (n1 & _ & O & _); [| |reflexivity|exact E|].
  - apply demo_receives; [cbn; auto|apply demo_tls10_wf|reflexivity|discriminate].
  - split; [right; repeat split|split; [discriminate|discriminate]].
  - exists out, n, w', n1. split; [reflexivity|exact O].
Defined.

Lemma tls_partial_exact_witness :
  exists n r',
    tls_open_record (demo_ssl TLS1_2_VERSION 0 CreateNullCipher) [22; 3; 3; 0; 9; 1] = (ssl_open_record_partial, n, r') /\
    6 < n <= SSL3_RT_HEADER_LENGTH + SSL3_RT_MAX_ENCRYPTED_LENGTH.
Proof.
  eexists _, _. split; [vm_compute; reflexivity|].
  refine (proj1 (proj2 (tls_partial_exact (demo_ssl TLS1_2_VERSION 0 CreateNullCipher) [22; 3; 3; 0; 9; 1] _ ?[r'] _))).
  vm_compute. reflexivity.
Defined.

Lemma tls_idle_bounded_witness :
  zlength [[22; 3; 3; 0; 0]; [21; 3; 3; 0; 2; 1; 90]; [22; 3; 3; 0; 0; 5]] <= 3312.
Proof.
  apply (tls_idle_bounded (demo_ssl TLS1_2_VERSION 0 CreateNullCipher)).
  - constructor; cbn; unfold kMaxEmptyRecords, kMaxWarningAlerts, kMaxEarlyDataSkipped; lia.
  - vm_compute. reflexivity.
Defined.
