(* ===== verification/DtlsWindow.v ===== *)
(** Sequence numbers of the DTLS record layer: the replay window
    [DTLSReplayBitmap], the packed [DTLSRecordNumber] and the reconstruction of
    truncated epochs and sequence numbers, from [ssl/dtls_record.cc] and
    [ssl/internal.h]. *)
From Stdlib Require Import ZArith List Lia Bool.
From S2P Require Import Prelude.
Import ListNotations.
Open Scope Z_scope.

(** ** The replay bitmap: a [std::bitset<256>] as an integer *)

Definition kWindowSize : Z := 256.

Record DTLSReplayBitmap := { map_ : Z; max_seq_num_ : Z }.

Definition new_bitmap : DTLSReplayBitmap := {| map_ := 0; max_seq_num_ := 0 |}.

Definition ShouldDiscard (b : DTLSReplayBitmap) (seq_num : Z) : bool :=
  if seq_num >? max_seq_num_ b then false
  else
    let idx := max_seq_num_ b - seq_num in
    (idx >=? kWindowSize) || Z.testbit (map_ b) idx.

Definition bitmap_shift (b : DTLSReplayBitmap) (seq_num : Z) : DTLSReplayBitmap :=
  if seq_num >? max_seq_num_ b then
    let shift := seq_num - max_seq_num_ b in
    {| map_ := if shift >=? kWindowSize then 0 else wrap kWindowSize (Z.shiftl (map_ b) shift);
       max_seq_num_ := seq_num |}
  else b.

Definition Record_seq (b : DTLSReplayBitmap) (seq_num : Z) : DTLSReplayBitmap :=
  let b := bitmap_shift b seq_num in
  let idx := max_seq_num_ b - seq_num in
  if idx <? kWindowSize
  then {| map_ := Z.setbit (map_ b) idx; max_seq_num_ := max_seq_num_ b |}
  else b.

(** ** Record numbers *)

Definition kMaxSequence : Z := Z.shiftl 1 48 - 1.

(** The combined 64-bit value; the [BSSL_CHECK]s hold at every call. *)
Definition DTLSRecordNumber := Z.

Definition make_record_number (epoch sequence : Z) : DTLSRecordNumber := Z.lor (Z.shiftl epoch 48) sequence.
Definition number_epoch (n : DTLSRecordNumber) : Z := Z.shiftr n 48.
Definition number_sequence (n : DTLSRecordNumber) : Z := Z.land n kMaxSequence.
Definition HasNext (n : DTLSRecordNumber) : bool := number_sequence n <? kMaxSequence.
Definition Next (n : DTLSRecordNumber) : DTLSRecordNumber := u64 (n + 1).

(** ** Reconstruction *)

Definition reconstruct_epoch (wire_epoch current_epoch : Z) : Z :=
  let current_epoch_high := Z.land current_epoch 0xfffc in
  let epoch := Z.lor (Z.land wire_epoch 0x3) current_epoch_high in
  if (epoch >? current_epoch) && (current_epoch_high >? 0) then u16 (epoch - 0x4) else epoch.

Definition reconstruct_seqnum (wire_seq seq_mask max_valid_seqnum : Z) : Z :=
  let max_seqnum_plus_one := u64 (max_valid_seqnum + 1) in
  let diff := Z.land (u64 (wire_seq - max_seqnum_plus_one)) seq_mask in
  let step := u64 (seq_mask + 1) in
  let seqnum := u64 (max_seqnum_plus_one + diff) in
  let too_large := seqnum >? kMaxSequence in
  let closer_is_less := diff >? step / 2 in
  let would_underflow := seqnum <? step in
  if too_large || (closer_is_less && negb would_underflow) then u64 (seqnum - step) else seqnum.

(** ** The window refines the set of numbers received *)

Record window_of (b : DTLSReplayBitmap) (seen : list Z) : Prop := {
  window_max : max_seq_num_ b = fold_right Z.max 0 seen;
  window_bit : forall i, 0 <= i < kWindowSize ->
    (Z.testbit (map_ b) i = true <-> In (max_seq_num_ b - i) seen)
}.

Lemma fold_max_ge seen n : In n seen -> n <= fold_right Z.max 0 seen.
Proof. induction seen as [|m seen IH]; [easy|]. intros [->|H]; cbn; [|apply IH in H]; lia. Qed.

Lemma window_new : window_of new_bitmap [].
Proof. constructor; [reflexivity|]. intros i Hi. cbn [new_bitmap map_]. rewrite Z.bits_0. easy. Qed.

(** After the shift, the bits above a larger maximum are the old ones moved. *)
Lemma shift_bit b seen n i : window_of b seen -> n > max_seq_num_ b -> 0 <= i < kWindowSize ->
  Z.testbit (map_ (bitmap_shift b n)) i = true <-> In (n - i) seen.
Proof.
  intros W Hn Hi. unfold bitmap_shift. destruct (Z.gtb_spec n (max_seq_num_ b)) as [_|]; [|lia]. cbn [map_].
  assert (Out : i < n - max_seq_num_ b -> ~ In (n - i) seen).
  { intros H C. apply fold_max_ge in C. rewrite <- (window_max _ _ W) in C. lia. }
  unfold kWindowSize in *. rewrite Z.geb_leb. destruct (Z.leb_spec 256 (n - max_seq_num_ b)).
  - rewrite Z.bits_0. split; [discriminate|]. intros C. exfalso. apply Out; [lia|exact C].
  - unfold wrap. rewrite Z.mod_pow2_bits_low by lia. destruct (Z.lt_ge_cases i (n - max_seq_num_ b)) as [L|L].
    + rewrite Z.shiftl_spec_low by lia. split; [discriminate|]. intros C. now apply Out in C.
    + rewrite Z.shiftl_spec by lia. rewrite (window_bit _ _ W) by (unfold kWindowSize; lia).
      now replace (max_seq_num_ b - (i - (n - max_seq_num_ b))) with (n - i) by lia.
Qed.

Lemma window_record b seen n : window_of b seen -> 0 <= n -> window_of (Record_seq b n) (n :: seen).
Proof.
  intros W Hn. unfold Record_seq. pose proof (window_max _ _ W) as M.
  assert (S : max_seq_num_ (bitmap_shift b n) = Z.max n (max_seq_num_ b) /\
      forall i, 0 <= i < kWindowSize ->
        (Z.testbit (map_ (bitmap_shift b n)) i = true <-> In (Z.max n (max_seq_num_ b) - i) seen)).
  { destruct (Z.gtb_spec n (max_seq_num_ b)) as [G|G].
    - replace (Z.max n (max_seq_num_ b)) with n by lia. split.
      + unfold bitmap_shift. destruct (Z.gtb_spec n (max_seq_num_ b)); [reflexivity|lia].
      + intros i Hi. now apply shift_bit; [|lia|].
    - replace (Z.max n (max_seq_num_ b)) with (max_seq_num_ b) by lia.
      unfold bitmap_shift. destruct (Z.gtb_spec n (max_seq_num_ b)); [lia|].
      split; [reflexivity|apply (window_bit _ _ W)]. }
  destruct S as [Sm Sb]. rewrite Sm.
  destruct (Z.ltb_spec (Z.max n (max_seq_num_ b) - n) kWindowSize) as [L|L].
  - constructor; cbn [map_ max_seq_num_]; [cbn; lia|]. intros i Hi.
    rewrite Z.setbit_eqb by lia. destruct (Z.eqb_spec (Z.max n (max_seq_num_ b) - n) i) as [E|E]; cbn [orb].
    + split; [left; lia|reflexivity].
    + rewrite (Sb i Hi). split; [now right|]. intros [C|C]; [lia|exact C].
  - constructor; rewrite Sm; [cbn; lia|]. intros i Hi. rewrite (Sb i Hi).
    split; [now right|]. intros [C|C]; [lia|exact C].
Qed.

Lemma window_records l : forall b seen, window_of b seen -> Forall (fun n => 0 <= n) l ->
  window_of (fold_left Record_seq l b) (rev l ++ seen).
Proof.
  induction l as [|n l IH]; intros b seen W F; [exact W|]. cbn [fold_left rev].
  rewrite <- app_assoc. inversion_clear F. apply IH; [now apply window_record|assumption].
Qed.

Lemma window_discard b seen n : window_of b seen ->
  ShouldDiscard b n = true <-> n <= max_seq_num_ b /\ (max_seq_num_ b - n >= kWindowSize \/ In n seen).
Proof.
  intros W. unfold ShouldDiscard. destruct (Z.gtb_spec n (max_seq_num_ b)) as [G|G].
  - split; [discriminate|lia].
  - rewrite orb_true_iff, Z.geb_leb, Z.leb_le. destruct (Z.lt_ge_cases (max_seq_num_ b - n) kWindowSize) as [L|L].
    + rewrite (window_bit _ _ W) by lia. replace (max_seq_num_ b - (max_seq_num_ b - n)) with n by lia.
      split; intros H; [split; [lia|destruct H; [lia|now right]]|destruct H as [_ [H|H]]; [lia|now right]].
    + split; intros _; [split; [lia|left; lia]|now left].
Qed.

(** the sliding bitmap computes exactly the abstract replay check: after
    any sequence of received numbers, in any order and with any gaps, a number
    is discarded iff it is at least a window older than the largest one or has
    been received before; a number above the maximum is never discarded. *)
Theorem replay_window_exact (l : list Z) n :
  Forall (fun m => 0 <= m) l ->
  let b := fold_left Record_seq l new_bitmap in
  max_seq_num_ b = fold_right Z.max 0 l /\
  (ShouldDiscard b n = true <->
   n <= fold_right Z.max 0 l /\ (fold_right Z.max 0 l - n >= kWindowSize \/ In n l)).
Proof.
  intros F b. pose proof (window_records l _ _ window_new F) as W. fold b in W. rewrite app_nil_r in W.
  assert (M : max_seq_num_ b = fold_right Z.max 0 l).
  { rewrite (window_max _ _ W). clear. generalize 0. induction l as [|m l IH]; intros z; [reflexivity|].
    cbn [rev fold_right]. rewrite fold_right_app. cbn [fold_right]. rewrite IH.
    clear. revert m z. induction l as [|k l IH]; intros m z; cbn; [reflexivity|]. rewrite IH. lia. }
  split; [exact M|]. rewrite (window_discard _ _ n W), M, <- in_rev. reflexivity.
Qed.

Lemma replay_window_exact_witness :
  ShouldDiscard (fold_left Record_seq [5; 300; 299] new_bitmap) 299 = true /\
  ShouldDiscard (fold_left Record_seq [5; 300; 299] new_bitmap) 44 = true /\
  ShouldDiscard (fold_left Record_seq [5; 300; 299] new_bitmap) 45 = false.
Proof.
  assert (F : Forall (fun m => 0 <= m) [5; 300; 299]) by (repeat constructor; lia).
  split; [|split].
  - apply (proj2 (replay_window_exact [5; 300; 299] 299 F)). cbn. lia.
  - apply (proj2 (replay_window_exact [5; 300; 299] 44 F)). unfold kWindowSize. cbn. lia.
  - reflexivity.
Defined.

(** ** Record numbers *)

Lemma kMaxSequence_eq : kMaxSequence = 2 ^ 48 - 1.
Proof. reflexivity. Qed.

Definition valid_number (epoch sequence : Z) : Prop := 0 <= epoch < 2 ^ 16 /\ 0 <= sequence <= kMaxSequence.

Lemma make_record_number_add epoch sequence : valid_number epoch sequence ->
  make_record_number epoch sequence = epoch * 2 ^ 48 + sequence.
Proof.
  intros [He Hs]. rewrite kMaxSequence_eq in Hs. unfold make_record_number.
  apply lor_shiftl_add; lia.
Qed.

Lemma number_epoch_div n : number_epoch n = n / 2 ^ 48.
Proof. unfold number_epoch. now apply shiftr_div. Qed.

Lemma number_sequence_mod n : number_sequence n = n mod 2 ^ 48.
Proof. unfold number_sequence. now apply (land_ones_mod n 48). Qed.

Lemma record_number_fields epoch sequence : valid_number epoch sequence ->
  number_epoch (make_record_number epoch sequence) = epoch /\
  number_sequence (make_record_number epoch sequence) = sequence.
Proof.
  intros H. rewrite make_record_number_add, number_epoch_div, number_sequence_mod by assumption.
  destruct H as [He Hs]. rewrite kMaxSequence_eq in Hs.
  split; [rewrite Z.div_add_l by lia; rewrite Z.div_small by lia; lia|].
  rewrite Z.add_comm, Z.mod_add by lia. apply Z.mod_small. lia.
Qed.

Lemma number_range n : 0 <= n < 2 ^ 64 -> valid_number (number_epoch n) (number_sequence n).
Proof.
  intros H. unfold valid_number. rewrite number_epoch_div, number_sequence_mod, kMaxSequence_eq.
  split; [|pose proof (Z.mod_pos_bound n (2 ^ 48)); lia].
  split; [apply Z.div_pos; lia|apply Z.div_lt_upper_bound; lia].
Qed.

Lemma number_eta n : 0 <= n < 2 ^ 64 -> make_record_number (number_epoch n) (number_sequence n) = n.
Proof.
  intros H. rewrite make_record_number_add by now apply number_range.
  rewrite number_epoch_div, number_sequence_mod. pose proof (Z.div_mod n (2 ^ 48)). lia.
Qed.

Lemma Next_succ n : 0 <= n < 2 ^ 64 -> HasNext n = true -> Next n = n + 1.
Proof.
  intros H N. destruct (number_range n H) as [He Hs]. unfold HasNext in N. apply Z.ltb_lt in N.
  pose proof (number_eta n H) as E. rewrite make_record_number_add in E by now apply number_range.
  rewrite kMaxSequence_eq in *. unfold Next. apply wrap_small. lia.
Qed.

Lemma Next_number n : 0 <= n < 2 ^ 64 -> HasNext n = true ->
  0 <= Next n < 2 ^ 64 /\ number_epoch (Next n) = number_epoch n /\
  number_sequence (Next n) = number_sequence n + 1.
Proof.
  intros H N. destruct (number_range n H) as [He Hs]. unfold HasNext in N. apply Z.ltb_lt in N.
  pose proof (number_eta n H) as E. rewrite make_record_number_add in E by now apply number_range.
  rewrite kMaxSequence_eq in *. unfold Next. rewrite wrap_small by lia.
  replace (n + 1) with (make_record_number (number_epoch n) (number_sequence n + 1)).
  2:{ rewrite make_record_number_add by (split; rewrite ?kMaxSequence_eq; lia). lia. }
  destruct (record_number_fields (number_epoch n) (number_sequence n + 1)) as [A B];
    [split; rewrite ?kMaxSequence_eq; lia|].
  rewrite A, B, make_record_number_add by (split; rewrite ?kMaxSequence_eq; lia). lia.
Qed.

(** ** Reconstruction *)

Lemma reconstruct_seqnum_arith k wire max_valid :
  k = 8 \/ k = 16 -> 0 <= wire < 2 ^ k -> 0 <= max_valid <= kMaxSequence ->
  let diff := (wire - (max_valid + 1)) mod 2 ^ k in
  let seqnum := max_valid + 1 + diff in
  reconstruct_seqnum wire (2 ^ k - 1) max_valid =
  if (seqnum >? kMaxSequence) || ((diff >? 2 ^ k / 2) && negb (seqnum <? 2 ^ k)) then seqnum - 2 ^ k else seqnum.
Proof.
  intros Hk Hw Hm diff seqnum. rewrite kMaxSequence_eq in Hm. unfold reconstruct_seqnum.
  assert (Bd : 0 <= diff < 2 ^ k) by (apply Z.mod_pos_bound; destruct Hk as [->| ->]; lia).
  assert (P : 0 < 2 ^ k <= 2 ^ 16) by (destruct Hk as [->| ->]; lia).
  rewrite (wrap_small _ (max_valid + 1)), (wrap_small _ (2 ^ k - 1 + 1)) by lia.
  rewrite (land_ones_mod _ k) by lia.
  replace (u64 (wire - (max_valid + 1)) mod 2 ^ k) with diff.
  2:{ unfold diff, wrap. destruct Hk as [->| ->]; Z.to_euclidean_division_equations; lia. }
  fold seqnum. rewrite (wrap_small _ seqnum) by (unfold seqnum; lia).
  replace (2 ^ k - 1 + 1) with (2 ^ k) by lia. rewrite kMaxSequence_eq.
  destruct (Z.gtb_spec seqnum (2 ^ 48 - 1)); destruct (Z.ltb_spec seqnum (2 ^ k));
    destruct (Z.gtb_spec diff (2 ^ k / 2)); cbn [orb andb negb]; try reflexivity; apply wrap_small; lia.
Qed.

(** sequence number reconstruction is that of RFC 9147: the result is a
    valid 48-bit sequence number with the given low bits, and no other such
    number is closer to one past the largest number received; the unsigned
    arithmetic never wraps. *)
Theorem reconstruct_seqnum_closest k wire max_valid :
  k = 8 \/ k = 16 -> 0 <= wire < 2 ^ k -> 0 <= max_valid <= kMaxSequence ->
  let r := reconstruct_seqnum wire (2 ^ k - 1) max_valid in
  0 <= r <= kMaxSequence /\ r mod 2 ^ k = wire /\
  (forall s, 0 <= s <= kMaxSequence -> s mod 2 ^ k = wire ->
     Z.abs (r - (max_valid + 1)) <= Z.abs (s - (max_valid + 1))).
Proof.
  intros Hk Hw Hm r. subst r. rewrite (reconstruct_seqnum_arith k) by assumption. cbv zeta.
  rewrite kMaxSequence_eq in *. set (diff := (wire - (max_valid + 1)) mod 2 ^ k).
  assert (D : exists q, wire - (max_valid + 1) = 2 ^ k * q + diff /\ 0 <= diff < 2 ^ k).
  { eexists. split; [apply Z.div_mod|apply Z.mod_pos_bound]; destruct Hk as [->| ->]; lia. }
  clearbody diff. destruct D as (q & Dq & Db).
  destruct Hk as [->| ->]; [change (2 ^ 8) with 256 in *|change (2 ^ 16) with 65536 in *];
    destruct (Z.gtb_spec (max_valid + 1 + diff) (2 ^ 48 - 1)); cbn [orb];
    repeat (match goal with
            | |- context [diff >? ?h] => destruct (Z.gtb_spec diff h)
            | |- context [?x <? ?h] => destruct (Z.ltb_spec x h)
            end; cbn [andb negb]);
    (split; [lia|split; [Z.to_euclidean_division_equations; lia|]]);
    intros s Hs Es; Z.to_euclidean_division_equations; lia.
Qed.

Lemma reconstruct_seqnum_closest_witness :
  reconstruct_seqnum 3 0xff 500 = 515 /\ 515 mod 2 ^ 8 = 3.
Proof.
  split; [reflexivity|].
  apply (reconstruct_seqnum_closest 8 3 500); rewrite ?kMaxSequence_eq; lia.
Defined.

(** A number less than half a step away from the expected one is recovered. *)
Lemma reconstruct_seqnum_near k s max_valid :
  k = 8 \/ k = 16 -> 0 <= s <= kMaxSequence -> 0 <= max_valid <= kMaxSequence ->
  Z.abs (s - (max_valid + 1)) < 2 ^ (k - 1) -> reconstruct_seqnum (s mod 2 ^ k) (2 ^ k - 1) max_valid = s.
Proof.
  intros Hk Hs Hm Hd.
  rewrite (reconstruct_seqnum_arith k); [|assumption|apply Z.mod_pos_bound; destruct Hk as [->| ->]; lia|assumption].
  cbv zeta. rewrite Zdiv.Zminus_mod_idemp_l, kMaxSequence_eq in *.
  set (diff := (s - (max_valid + 1)) mod 2 ^ k).
  assert (D : exists q, s - (max_valid + 1) = 2 ^ k * q + diff /\ 0 <= diff < 2 ^ k).
  { eexists. split; [apply Z.div_mod|apply Z.mod_pos_bound]; destruct Hk as [->| ->]; lia. }
  clearbody diff. destruct D as (q & Dq & Db).
  destruct Hk as [->| ->]; [change (2 ^ 8) with 256 in *; change (2 ^ (8 - 1)) with 128 in *
                           |change (2 ^ 16) with 65536 in *; change (2 ^ (16 - 1)) with 32768 in *];
    (assert (q = 0 \/ q = -1) as [-> | ->] by lia);
    destruct (Z.gtb_spec (max_valid + 1 + diff) (2 ^ 48 - 1)); cbn [orb];
    repeat (match goal with
            | |- context [diff >? ?h] => destruct (Z.gtb_spec diff h)
            | |- context [?x <? ?h] => destruct (Z.ltb_spec x h)
            end; cbn [andb negb]);
    Z.to_euclidean_division_equations; lia.
Qed.

Lemma epoch_high current : 0 <= current < 2 ^ 16 -> Z.land current 0xfffc = 4 * (current / 4).
Proof.
  intros H. replace (Z.land current 0xfffc) with (Z.ldiff current (Z.ones 2)).
  - rewrite Z.ldiff_ones_r, Z.shiftr_div_pow2, Z.shiftl_mul_pow2 by lia. apply Z.mul_comm.
  - rewrite Z.ldiff_land. rewrite <- (Z.mod_small current (2 ^ 16)) at 1 by lia.
    rewrite <- Z.land_ones, <- Z.land_assoc by lia. reflexivity.
Qed.

(** epoch reconstruction: the result carries the two epoch bits of the
    wire; it is the largest epoch with those bits that is not past the current
    one, except that among the first four epochs, where there may be none, it
    is the epoch named by the two bits. *)
Theorem reconstruct_epoch_largest wire current :
  0 <= wire < 2 ^ 8 -> 0 <= current < 2 ^ 16 ->
  let r := reconstruct_epoch wire current in
  0 <= r < 2 ^ 16 /\ r mod 4 = wire mod 4 /\
  (if (current <? 4) && (current <? wire mod 4) then r = wire mod 4 else current - 4 < r <= current).
Proof.
  intros Hw Hc r. subst r. unfold reconstruct_epoch. rewrite epoch_high by lia.
  rewrite (land_ones_mod wire 2) by (reflexivity || lia). change (2 ^ 2) with 4.
  pose proof (Z.mod_pos_bound wire 4 ltac:(lia)) as Bw. set (w := wire mod 4) in *. clearbody w.
  assert (L : Z.lor w (4 * (current / 4)) = 4 * (current / 4) + w).
  { rewrite Z.lor_comm, (lor_add_mul _ (current / 4) 2) by lia. lia. }
  rewrite L. clear L. pose proof (Z.div_mod current 4 ltac:(lia)). pose proof (Z.mod_pos_bound current 4 ltac:(lia)).
  set (q := current / 4) in *. clearbody q.
  destruct (Z.gtb_spec (4 * q + w) current); cbn [andb];
    [destruct (Z.gtb_spec (4 * q) 0); [rewrite wrap_small by lia|]|];
    (split; [lia|split; [Z.to_euclidean_division_equations; lia|]]);
    destruct (Z.ltb_spec current 4); destruct (Z.ltb_spec current w); cbn [andb]; lia.
Qed.

Lemma reconstruct_epoch_largest_witness :
  reconstruct_epoch 0x2f 6 = 3 /\ 6 - 4 < reconstruct_epoch 0x2f 6 <= 6.
Proof. split; [reflexivity|]. apply (reconstruct_epoch_largest 0x2f 6); lia. Defined.

Lemma reconstruct_seqnum_range k wire max_valid :
  k = 8 \/ k = 16 -> 0 <= wire < 2 ^ k -> 0 <= max_valid <= kMaxSequence ->
  0 <= reconstruct_seqnum wire (2 ^ k - 1) max_valid <= kMaxSequence.
Proof.
  intros Hk Hw Hm. rewrite (reconstruct_seqnum_arith k) by assumption. cbv zeta.
  assert (P : 0 < 2 ^ k <= 2 ^ 16) by (destruct Hk as [->| ->]; lia).
  pose proof (Z.mod_pos_bound (wire - (max_valid + 1)) (2 ^ k) ltac:(lia)) as B.
  set (diff := (wire - (max_valid + 1)) mod 2 ^ k) in *. clearbody diff. rewrite kMaxSequence_eq in *.
  destruct (Z.gtb_spec (max_valid + 1 + diff) (2 ^ 48 - 1)); cbn [orb]; [lia|].
  destruct (Z.ltb_spec (max_valid + 1 + diff) (2 ^ k)); cbn [negb]; [rewrite andb_false_r; lia|].
  destruct (diff >? 2 ^ k / 2); cbn [andb]; lia.
Qed.
