(* ===== verification/DtlsRecord.v ===== *)
(** The DTLS record layer: [ssl/dtls_record.cc], with the installation of read
    epochs from [ssl/dtls_method.cc].

    A [DTLS] is the part of the connection that code reads and writes.  The
    record number encrypter is the interface [RecordNumberEncrypter], here the
    function [GenerateMask] computes.  Decryption in place gives a new list, as
    does unmasking the sequence number in the header; buffers do not alias,
    allocation succeeds and the clock does not move during a call. *)
From Stdlib Require Import ZArith List Lia Bool.
From S2P Require Import Prelude CryptoInternal Cbs Cbb CbbSpec Asn1Build Asn1Int SslVersions SslAead TlsRecord DtlsWindow.
Import ListNotations.
Open Scope Z_scope.

Definition DTLS1_VERSION_MAJOR : Z := 0xfe.
Definition DTLS_PLAINTEXT_RECORD_HEADER_LENGTH : Z := 13.
Definition DTLS1_3_RECORD_HEADER_WRITE_LENGTH : Z := 5.
Definition DTLS_PREV_READ_EPOCH_EXPIRE_SECONDS : Z := 4 * 60.

(** ** State *)

(** The two mask bytes for a sample of ciphertext. *)
Definition RecordNumberEncrypter : Type := list Z -> option (Z * Z).

Record DTLSReadEpoch := {
  re_epoch : Z;
  re_aead : SSLAEADContext;
  re_encrypter : RecordNumberEncrypter;
  re_bitmap : DTLSReplayBitmap
}.

Record DTLSWriteEpoch := {
  next_record : DTLSRecordNumber;
  we_aead : SSLAEADContext;
  we_encrypter : RecordNumberEncrypter
}.

Definition we_epoch (e : DTLSWriteEpoch) : Z := number_epoch (next_record e).

Record DTLSPrevReadEpoch := { prev_epoch : DTLSReadEpoch; expire : Z }.

Record DTLS := {
  d_version : Z;
  d_hs : option HandshakeFlags;
  read_epoch : DTLSReadEpoch;
  next_read_epoch : option DTLSReadEpoch;
  prev_read_epoch : option DTLSPrevReadEpoch;
  write_epoch : DTLSWriteEpoch;
  extra_write_epochs : list DTLSWriteEpoch;
  d_rs : RecordState
}.

Definition with_read (ssl : DTLS) (cur : DTLSReadEpoch) (nxt : option DTLSReadEpoch)
    (prv : option DTLSPrevReadEpoch) (r : RecordState) : DTLS :=
  {| d_version := d_version ssl; d_hs := d_hs ssl; read_epoch := cur; next_read_epoch := nxt;
     prev_read_epoch := prv; write_epoch := write_epoch ssl; extra_write_epochs := extra_write_epochs ssl;
     d_rs := r |}.

Definition with_write (ssl : DTLS) (w : DTLSWriteEpoch) (extra : list DTLSWriteEpoch) : DTLS :=
  {| d_version := d_version ssl; d_hs := d_hs ssl; read_epoch := read_epoch ssl;
     next_read_epoch := next_read_epoch ssl; prev_read_epoch := prev_read_epoch ssl;
     write_epoch := w; extra_write_epochs := extra; d_rs := d_rs ssl |}.

Definition with_d_rs (ssl : DTLS) (r : RecordState) : DTLS :=
  with_read ssl (read_epoch ssl) (next_read_epoch ssl) (prev_read_epoch ssl) r.

(** ** Versions, headers and epochs *)

Definition is_dtls13 (ssl : DTLS) : bool := negb (d_version ssl =? 0) && is_tls13 (d_version ssl).

Definition dtls_record_version (ssl : DTLS) : Z :=
  if d_version ssl =? 0 then DTLS1_VERSION
  else if is_tls13 (d_version ssl) then DTLS1_2_VERSION else d_version ssl.

Definition dtls_aead_sequence (ssl : DTLS) (num : DTLSRecordNumber) : Z :=
  if is_dtls13 ssl then number_sequence num else num.

Definition use_dtls13_record_header (ssl : DTLS) (epoch : Z) : bool :=
  negb (d_version ssl =? 0) && (ssl_protocol_version (d_version ssl) >? TLS1_2_VERSION) && (epoch >? 0).

(** Which of the read epochs a record belongs to. *)
Inductive epoch_slot := slot_current | slot_next | slot_prev.

Definition dtls_get_read_epoch (ssl : DTLS) (epoch : Z) : option (epoch_slot * DTLSReadEpoch) :=
  if epoch =? re_epoch (read_epoch ssl) then Some (slot_current, read_epoch ssl)
  else
    let prev :=
      match prev_read_epoch ssl with
      | Some p => if epoch =? re_epoch (prev_epoch p) then Some (slot_prev, prev_epoch p) else None
      | None => None
      end in
    match next_read_epoch ssl with
    | Some e => if epoch =? re_epoch e then Some (slot_next, e) else prev
    | None => prev
    end.

Definition dtls_get_write_epoch (ssl : DTLS) (epoch : Z) : option DTLSWriteEpoch :=
  if we_epoch (write_epoch ssl) =? epoch then Some (write_epoch ssl)
  else find (fun e => we_epoch e =? epoch) (extra_write_epochs ssl).

(** ** Parsing *)

Record ParsedDTLSRecord := {
  p_epoch : option (epoch_slot * DTLSReadEpoch);
  p_number : DTLSRecordNumber;
  p_header : list Z;
  p_body : list Z;
  p_type : Z;
  p_version : Z
}.

(** [seq = (seq << 8) | b] over the unmasked bytes. *)
Definition xor_mask (seq_bytes : list Z) (mask : Z * Z) : list Z :=
  xor_bytes seq_bytes [fst mask; snd mask].

Definition drop_expired (now : Z) (ssl : DTLS) : DTLS :=
  match prev_read_epoch ssl with
  | Some p => if now >? expire p
              then with_read ssl (read_epoch ssl) (next_read_epoch ssl) None (d_rs ssl) else ssl
  | None => ssl
  end.

Definition max_read_epoch (ssl : DTLS) : Z :=
  match next_read_epoch ssl with
  | Some e => Z.max (re_epoch (read_epoch ssl)) (re_epoch e)
  | None => re_epoch (read_epoch ssl)
  end.

(** The record, the input left and the connection, from which an expired
    epoch may have been dropped even when parsing fails. *)
Definition parse_dtls13_record (now : Z) (ssl : DTLS) (type : Z) (cbs : CBS)
  : option (ParsedDTLSRecord * CBS) * DTLS :=
  if negb (Z.land type 0x10 =? 0) then (None, ssl)
  else
    let epoch := reconstruct_epoch type (max_read_epoch ssl) in
    let seq_len := if negb (Z.land type 0x08 =? 0) then 2 else 1 in
    match CBS_get_bytes seq_len cbs with
    | (None, _) => (None, ssl)
    | (Some seq_bytes, cbs1) =>
        let body :=
          if negb (Z.land type 0x04 =? 0) then
            match CBS_get_u16_length_prefixed cbs1 with
            | (Some body, cbs2) => Some (firstn 2 cbs1, body, cbs2)
            | (None, _) => None
            end
          else Some ([], cbs1, []) in
        match body with
        | None => (None, ssl)
        | Some (length_bytes, body, cbs2) =>
            let ssl := drop_expired now ssl in
            match dtls_get_read_epoch ssl epoch with
            | Some (slot, e) =>
                if use_dtls13_record_header ssl epoch then
                  match re_encrypter e body with
                  | None => (None, ssl)
                  | Some mask =>
                      let seq_bytes := xor_mask seq_bytes mask in
                      let full_seq := reconstruct_seqnum (u16 (be_fold_u64 seq_bytes))
                                        (Z.shiftl 1 (seq_len * 8) - 1) (max_seq_num_ (re_bitmap e)) in
                      (Some ({| p_epoch := Some (slot, e); p_number := make_record_number epoch full_seq;
                                p_header := type :: seq_bytes ++ length_bytes; p_body := body;
                                p_type := type; p_version := 0 |}, cbs2), ssl)
                  end
                else
                  (Some ({| p_epoch := None; p_number := 0; p_header := type :: seq_bytes ++ length_bytes;
                            p_body := body; p_type := type; p_version := 0 |}, cbs2), ssl)
            | None =>
                (Some ({| p_epoch := None; p_number := 0; p_header := type :: seq_bytes ++ length_bytes;
                          p_body := body; p_type := type; p_version := 0 |}, cbs2), ssl)
            end
        end
    end.

Definition parse_dtls12_header : st CBS (Z * Z * CBS) :=
  let* version := CBS_get_u16 in
  let* epoch_and_seq := CBS_get_u64 in
  let* body := CBS_get_u16_length_prefixed in
  ret (version, epoch_and_seq, body).

Definition parse_dtls12_record (ssl : DTLS) (type : Z) (cbs : CBS) : option (ParsedDTLSRecord * CBS) :=
  match parse_dtls12_header cbs with
  | (None, _) => None
  | (Some (version, number, body), rest) =>
      let epoch := number_epoch number in
      let version_ok := if epoch =? 0 then Z.shiftr version 8 =? DTLS1_VERSION_MAJOR
                        else version =? dtls_record_version ssl in
      if negb version_ok then None
      else
        Some ({| p_epoch := if (epoch =? re_epoch (read_epoch ssl)) && negb (use_dtls13_record_header ssl epoch)
                            then Some (slot_current, read_epoch ssl) else None;
                 p_number := number; p_header := type :: firstn 12 cbs; p_body := body;
                 p_type := type; p_version := version |}, rest)
  end.

Definition parse_dtls_record (now : Z) (ssl : DTLS) (inp : CBS) : option (ParsedDTLSRecord * CBS) * DTLS :=
  match CBS_get_u8 inp with
  | (None, _) => (None, ssl)
  | (Some type, cbs) =>
      let '(res, ssl) :=
        if Z.land type 0xe0 =? 0x20 then parse_dtls13_record now ssl type cbs
        else (parse_dtls12_record ssl type cbs, ssl) in
      match res with
      | None => (None, ssl)
      | Some (record, rest) =>
          if zlength (p_body record) >? SSL3_RT_MAX_ENCRYPTED_LENGTH then (None, ssl)
          else (Some (record, rest), ssl)
      end
  end.

(** ** Opening *)

Definition record_in (e : DTLSReadEpoch) (sequence : Z) : DTLSReadEpoch :=
  {| re_epoch := re_epoch e; re_aead := re_aead e; re_encrypter := re_encrypter e;
     re_bitmap := Record_seq (re_bitmap e) sequence |}.

Definition prev_expire (now : Z) : Z :=
  if now >=? UINT64_MAX - DTLS_PREV_READ_EPOCH_EXPIRE_SECONDS then UINT64_MAX
  else now + DTLS_PREV_READ_EPOCH_EXPIRE_SECONDS.

(** [bitmap.Record] on the epoch of the record; the next epoch then becomes the
    current one, and the current one the previous. *)
Definition record_received (now : Z) (ssl : DTLS) (slot : epoch_slot) (e : DTLSReadEpoch) (sequence : Z) : DTLS :=
  let e := record_in e sequence in
  match slot with
  | slot_current => with_read ssl e (next_read_epoch ssl) (prev_read_epoch ssl) (d_rs ssl)
  | slot_next => with_read ssl e None (Some {| prev_epoch := read_epoch ssl; expire := prev_expire now |}) (d_rs ssl)
  | slot_prev =>
      with_read ssl (read_epoch ssl) (next_read_epoch ssl)
        (match prev_read_epoch ssl with
         | Some p => Some {| prev_epoch := e; expire := expire p |}
         | None => None
         end) (d_rs ssl)
  end.

Definition app_data_allowed (ssl : DTLS) (epoch : Z) : bool :=
  if is_dtls13 ssl then (epoch =? 1) || (epoch >=? 3) else epoch >=? 1.

(** From the decrypted contents on; the number is that of a successful record. *)
Definition dtls_finish_open (ssl : DTLS) (type : Z) (number : DTLSRecordNumber) (out : list Z)
  : ssl_open_record_t * DTLS :=
  if type =? SSL3_RT_ALERT then
    let '(res, r) := ssl_process_alert (ssl_has_final_version (d_version ssl) (d_hs ssl) && is_tls13 (d_version ssl))
                       (d_rs ssl) out in
    (res, with_d_rs ssl r)
  else if (type =? SSL3_RT_APPLICATION_DATA) && negb (app_data_allowed ssl (number_epoch number))
  then (ssl_open_record_error SSL_AD_UNEXPECTED_MESSAGE, ssl)
  else (ssl_open_record_success type out, with_d_rs ssl (set_warning_alert_count 0 (d_rs ssl))).

Definition dtls_open_body (now : Z) (ssl : DTLS) (record : ParsedDTLSRecord) (slot : epoch_slot) (e : DTLSReadEpoch)
  : ssl_open_record_t * DTLS :=
  match Open (re_aead e) (p_type record) (p_version record) (dtls_aead_sequence ssl (p_number record))
          (p_header record) (p_body record) with
  | None => (ssl_open_record_discard, ssl)
  | Some out =>
      let has_padding := negb (is_null_cipher (re_aead e)) && is_tls13 (d_version ssl) in
      let plaintext_limit := SSL3_RT_MAX_PLAIN_LENGTH + (if has_padding then 1 else 0) in
      if zlength out >? plaintext_limit then (ssl_open_record_error SSL_AD_RECORD_OVERFLOW, ssl)
      else
        match (if has_padding then remove_padding out else Some (p_type record, out)) with
        | None => (ssl_open_record_error SSL_AD_DECRYPT_ERROR, ssl)
        | Some (type, out) =>
            dtls_finish_open (record_received now ssl slot e (number_sequence (p_number record)))
              type (p_number record) out
        end
  end.

(** The result, [*out_number] (meaningful on success), [*out_consumed] and the
    connection. *)
Definition dtls_open_record (now : Z) (ssl : DTLS) (inp : list Z)
  : ssl_open_record_t * DTLSRecordNumber * Z * DTLS :=
  match read_shutdown (d_rs ssl) with
  | ssl_shutdown_close_notify => (ssl_open_record_close_notify, 0, 0, ssl)
  | _ =>
      if zlength inp =? 0 then (ssl_open_record_partial, 0, 0, ssl)
      else
        match parse_dtls_record now ssl inp with
        | (None, ssl) => (ssl_open_record_discard, 0, zlength inp, ssl)
        | (Some (record, rest), ssl) =>
            let consumed := zlength inp - zlength rest in
            match p_epoch record with
            | None => (ssl_open_record_discard, 0, consumed, ssl)
            | Some (slot, e) =>
                if ShouldDiscard (re_bitmap e) (number_sequence (p_number record))
                then (ssl_open_record_discard, 0, consumed, ssl)
                else
                  let '(res, ssl) := dtls_open_body now ssl record slot e in
                  (res, p_number record, consumed, ssl)
            end
        end
  end.

(** ** New read epochs *)

Inductive ssl_encryption_level_t :=
  ssl_encryption_initial | ssl_encryption_early_data | ssl_encryption_handshake | ssl_encryption_application.

Definition level_number (level : ssl_encryption_level_t) : Z :=
  match level with
  | ssl_encryption_initial => 0 | ssl_encryption_early_data => 1
  | ssl_encryption_handshake => 2 | ssl_encryption_application => 3
  end.

Definition next_epoch (ssl : DTLS) (level : ssl_encryption_level_t) (prev : Z) : option Z :=
  match level with
  | ssl_encryption_application =>
      if (prev <? level_number ssl_encryption_application) && is_tls13 (d_version ssl)
      then Some (level_number level)
      else if prev =? 0xffff then None else Some (u16 (prev + 1))
  | _ => Some (level_number level)
  end.

(** [encrypter] is what [RecordNumberEncrypter::Create] returns for the traffic
    secret; [unprocessed] is [dtls_has_unprocessed_handshake_data]. *)
Definition dtls1_set_read_state (unprocessed : bool) (ssl : DTLS) (level : ssl_encryption_level_t)
    (aead : SSLAEADContext) (encrypter : option RecordNumberEncrypter) : option DTLS :=
  if unprocessed then None
  else
    let? epoch := next_epoch ssl level (re_epoch (read_epoch ssl)) in
    if ssl_protocol_version (d_version ssl) >? TLS1_2_VERSION then
      let? encrypter := encrypter in
      Some (with_read ssl (read_epoch ssl)
              (Some {| re_epoch := epoch; re_aead := aead; re_encrypter := encrypter; re_bitmap := new_bitmap |})
              (prev_read_epoch ssl) (d_rs ssl))
    else
      Some (with_read ssl
              {| re_epoch := epoch; re_aead := aead; re_encrypter := fun _ => None; re_bitmap := new_bitmap |}
              (next_read_epoch ssl) (prev_read_epoch ssl) (d_rs ssl)).

(** ** Sealing *)

Definition dtls_record_header_write_len (ssl : DTLS) (epoch : Z) : Z :=
  if negb (use_dtls13_record_header ssl epoch) then DTLS_PLAINTEXT_RECORD_HEADER_LENGTH
  else DTLS1_3_RECORD_HEADER_WRITE_LENGTH.

Definition dtls_max_seal_overhead (ssl : DTLS) (epoch : Z) : Z :=
  match dtls_get_write_epoch ssl epoch with
  | None => 0
  | Some w => dtls_record_header_write_len ssl epoch + MaxOverhead (we_aead w) +
              (if use_dtls13_record_header ssl epoch then 1 else 0)
  end.

Definition dtls_seal_prefix_len (ssl : DTLS) (epoch : Z) : Z :=
  match dtls_get_write_epoch ssl epoch with
  | None => 0
  | Some w => dtls_record_header_write_len ssl epoch + ExplicitNonceLen (we_aead w)
  end.

Definition dtls_seal_max_input_len (ssl : DTLS) (epoch max_out : Z) : Z :=
  match dtls_get_write_epoch ssl epoch with
  | None => 0
  | Some w =>
      let header_len := dtls_record_header_write_len ssl epoch in
      if max_out <=? header_len then 0
      else
        let max_out := MaxSealInputLen (we_aead w) (max_out - header_len) in
        if (max_out >? 0) && use_dtls13_record_header ssl epoch then max_out - 1 else max_out
  end.

(** [write_epoch->next_record = record_number.Next()] on the epoch found. *)
Definition bump (e : DTLSWriteEpoch) : DTLSWriteEpoch :=
  {| next_record := Next (next_record e); we_aead := we_aead e; we_encrypter := we_encrypter e |}.

Fixpoint bump_first (epoch : Z) (l : list DTLSWriteEpoch) : list DTLSWriteEpoch :=
  match l with
  | [] => []
  | e :: l => if we_epoch e =? epoch then bump e :: l else e :: bump_first epoch l
  end.

Definition bump_write_epoch (ssl : DTLS) (epoch : Z) : DTLS :=
  if we_epoch (write_epoch ssl) =? epoch
  then with_write ssl (bump (write_epoch ssl)) (extra_write_epochs ssl)
  else with_write ssl (write_epoch ssl) (bump_first epoch (extra_write_epochs ssl)).

(** [CRYPTO_store_u16_be]. *)
Definition store_u16_be (v : Z) : list Z := [u8 (Z.shiftr v 8); u8 v].

(** The record number and the bytes written to [out]. *)
Definition dtls_seal_record (RAND_bytes : Z -> option (list Z)) (max_out type : Z) (inp : list Z) (epoch : Z)
  : st DTLS (DTLSRecordNumber * list Z) := fun ssl =>
  match dtls_get_write_epoch ssl epoch with
  | None => (None, ssl)
  | Some w =>
      let record_header_len := dtls_record_header_write_len ssl epoch in
      let record_number := next_record w in
      if negb (HasNext record_number) then (None, ssl)
      else
        let dtls13_header := use_dtls13_record_header ssl epoch in
        let extra_in := if dtls13_header then [type] else [] in
        match CiphertextLen (we_aead w) (zlength inp) (zlength extra_in) with
        | None => (None, ssl)
        | Some ciphertext_len =>
            if max_out <? record_header_len + ciphertext_len then (None, ssl)
            else
              let record_version := dtls_record_version ssl in
              let header :=
                if dtls13_header then
                  [Z.lor 0x2c (Z.land epoch 0x3)] ++ store_u16_be (u16 (number_sequence record_number)) ++
                  store_u16_be (u16 ciphertext_len)
                else
                  [type] ++ store_u16_be record_version ++ CRYPTO_store_u64_be record_number ++
                  store_u16_be (u16 ciphertext_len) in
              match SealScatter RAND_bytes (we_aead w) type record_version
                      (dtls_aead_sequence ssl record_number) header inp extra_in with
              | None => (None, ssl)
              | Some (nonce, out, suffix) =>
                  let ciphertext := nonce ++ out ++ suffix in
                  if dtls13_header then
                    match we_encrypter w ciphertext with
                    | None => (None, ssl)
                    | Some mask =>
                        let header := firstn 1 header ++ xor_mask (firstn 2 (skipn 1 header)) mask ++ skipn 3 header in
                        (Some (record_number, header ++ ciphertext), bump_write_epoch ssl epoch)
                    end
                  else (Some (record_number, header ++ ciphertext), bump_write_epoch ssl epoch)
              end
        end
  end.

(** ** No record is accepted twice *)

Definition encrypter_ok (f : RecordNumberEncrypter) : Prop :=
  forall sample m0 m1, f sample = Some (m0, m1) -> is_byte m0 /\ is_byte m1.

(** The window of an epoch holds every accepted number of that epoch. *)
Record epoch_inv (seen : list DTLSRecordNumber) (e : DTLSReadEpoch) : Prop := {
  ei_range : 0 <= re_epoch e < 2 ^ 16;
  ei_mask : encrypter_ok (re_encrypter e);
  ei_max : 0 <= max_seq_num_ (re_bitmap e) <= kMaxSequence;
  ei_window : exists seqs, window_of (re_bitmap e) seqs /\
    forall n, In n seen -> number_epoch n = re_epoch e -> In (number_sequence n) seqs
}.

Record read_inv (seen : list DTLSRecordNumber) (ssl : DTLS) : Prop := {
  ri_current : epoch_inv seen (read_epoch ssl);
  ri_next : forall e, next_read_epoch ssl = Some e ->
    epoch_inv seen e /\ re_epoch (read_epoch ssl) < re_epoch e;
  ri_prev : forall p, prev_read_epoch ssl = Some p ->
    epoch_inv seen (prev_epoch p) /\ re_epoch (prev_epoch p) < re_epoch (read_epoch ssl);
  ri_seen : forall n, In n seen -> number_epoch n <= re_epoch (read_epoch ssl)
}.

Lemma epoch_inv_cons seen n e : number_epoch n <> re_epoch e -> epoch_inv seen e -> epoch_inv (n :: seen) e.
Proof.
  intros Hn [R M X (seqs & W & S)]. constructor; try assumption. exists seqs. split; [exact W|].
  intros m [<-|Hm] E; [contradiction|auto].
Qed.

Lemma epoch_inv_weaken seen n e : epoch_inv (n :: seen) e -> epoch_inv seen e.
Proof.
  intros [R M X (seqs & W & S)]. constructor; try assumption. exists seqs. split; [exact W|].
  intros m Hm. apply S. now right.
Qed.

Lemma read_inv_weaken seen n ssl : read_inv (n :: seen) ssl -> read_inv seen ssl.
Proof.
  intros [C N P S]. constructor.
  - eapply epoch_inv_weaken, C.
  - intros e H. destruct (N e H). split; [eapply epoch_inv_weaken|]; eassumption.
  - intros e H. destruct (P e H). split; [eapply epoch_inv_weaken|]; eassumption.
  - intros m Hm. apply S. now right.
Qed.

Lemma record_seq_max b s : max_seq_num_ (Record_seq b s) = Z.max s (max_seq_num_ b).
Proof.
  unfold Record_seq, bitmap_shift. destruct (Z.gtb_spec s (max_seq_num_ b)); cbn [max_seq_num_];
    destruct (_ <? _); cbn [max_seq_num_]; lia.
Qed.

(** Recording a number in its epoch. *)
Lemma epoch_inv_record seen e n : epoch_inv seen e -> 0 <= n < 2 ^ 64 -> number_epoch n = re_epoch e ->
  epoch_inv (n :: seen) (record_in e (number_sequence n)).
Proof.
  intros [R M X (seqs & W & S)] Hn He. destruct (number_range n Hn) as [_ Hs].
  constructor; cbn [record_in re_epoch re_aead re_encrypter re_bitmap]; try assumption.
  - rewrite record_seq_max. lia.
  - exists (number_sequence n :: seqs). split; [apply window_record; [exact W|lia]|].
    intros m [<-|Hm] E; [now left|right; auto].
Qed.

(** A number that is not discarded has not been accepted. *)
Lemma fresh_number seen e n : epoch_inv seen e -> 0 <= n < 2 ^ 64 -> number_epoch n = re_epoch e ->
  ShouldDiscard (re_bitmap e) (number_sequence n) = false -> ~ In n seen.
Proof.
  intros [R M X (seqs & W & S)] Hn He D C. specialize (S n C He).
  assert (T : ShouldDiscard (re_bitmap e) (number_sequence n) = true); [|congruence].
  apply (window_discard _ _ _ W). split; [|now right]. rewrite (window_max _ _ W). now apply fold_max_ge.
Qed.

(** The slot an epoch is found in. *)
Definition in_slot (ssl : DTLS) (slot : epoch_slot) (e : DTLSReadEpoch) : Prop :=
  match slot with
  | slot_current => read_epoch ssl = e
  | slot_next => next_read_epoch ssl = Some e
  | slot_prev => exists p, prev_read_epoch ssl = Some p /\ prev_epoch p = e
  end.

Lemma get_read_epoch_inv ssl epoch slot e :
  dtls_get_read_epoch ssl epoch = Some (slot, e) -> in_slot ssl slot e /\ re_epoch e = epoch.
Proof.
  unfold dtls_get_read_epoch. destruct (Z.eqb_spec epoch (re_epoch (read_epoch ssl))) as [E|_].
  { intros H. injection H as <- <-. now split. }
  assert (P : match prev_read_epoch ssl with
              | Some p => if epoch =? re_epoch (prev_epoch p) then Some (slot_prev, prev_epoch p) else None
              | None => None
              end = Some (slot, e) -> in_slot ssl slot e /\ re_epoch e = epoch).
  { destruct (prev_read_epoch ssl) as [p|] eqn:Pr; [|discriminate].
    destruct (Z.eqb_spec epoch (re_epoch (prev_epoch p))); [|discriminate]. intros H. injection H as <- <-.
    cbn. eauto. }
  destruct (next_read_epoch ssl) as [n|] eqn:Nx; [|exact P].
  destruct (Z.eqb_spec epoch (re_epoch n)); [|exact P]. intros H. injection H as <- <-. now split.
Qed.

Lemma in_slot_inv seen ssl slot e : read_inv seen ssl -> in_slot ssl slot e -> epoch_inv seen e.
Proof.
  intros [C N P S]. destruct slot; cbn [in_slot].
  - now intros <-.
  - intros H. now apply N.
  - intros (p & H & <-). now apply P.
Qed.

(** Receiving a fresh record keeps the invariant. *)
Lemma record_received_inv now seen ssl slot e n :
  read_inv seen ssl -> in_slot ssl slot e -> 0 <= n < 2 ^ 64 -> number_epoch n = re_epoch e ->
  read_inv (n :: seen) (record_received now ssl slot e (number_sequence n)).
Proof.
  intros I Hs Hn He. pose proof (epoch_inv_record seen e n (in_slot_inv _ _ _ _ I Hs) Hn He) as E'.
  destruct I as [C N P S]. destruct slot; cbn [in_slot] in Hs; unfold record_received.
  - subst e. constructor; cbn [with_read read_epoch next_read_epoch prev_read_epoch record_in re_epoch].
    + exact E'.
    + intros x Hx. destruct (N x Hx). split; [apply epoch_inv_cons; [lia|assumption]|assumption].
    + intros x Hx. destruct (P x Hx). split; [apply epoch_inv_cons; [lia|assumption]|assumption].
    + intros m [<-|Hm]; [lia|auto].
  - destruct (N e Hs) as [_ L].
    constructor; cbn [with_read read_epoch next_read_epoch prev_read_epoch record_in re_epoch].
    + exact E'.
    + discriminate.
    + intros x Hx. injection Hx as <-. cbn [prev_epoch]. split; [apply epoch_inv_cons; [lia|assumption]|assumption].
    + intros m [<-|Hm]; [lia|]. specialize (S m Hm). lia.
  - destruct Hs as (p & Hp & <-). rewrite Hp. destruct (P p Hp) as [_ L].
    constructor; cbn [with_read read_epoch next_read_epoch prev_read_epoch].
    + apply epoch_inv_cons; [lia|exact C].
    + intros x Hx. destruct (N x Hx). split; [apply epoch_inv_cons; [lia|assumption]|assumption].
    + intros x Hx. injection Hx as <-. cbn [prev_epoch record_in re_epoch]. now split.
    + intros m [<-|Hm]; [lia|auto].
Qed.

(** The read state is unchanged but for an expired epoch. *)
Lemma drop_expired_inv now seen ssl : read_inv seen ssl -> read_inv seen (drop_expired now ssl).
Proof.
  intros I. unfold drop_expired. destruct (prev_read_epoch ssl); [|exact I]. destruct (_ >? _); [|exact I].
  destruct I as [C N P S]. constructor; cbn; try assumption. discriminate.
Qed.

Lemma lxor_byte a b : is_byte a -> is_byte b -> is_byte (Z.lxor a b).
Proof. unfold is_byte. change 256 with (2 ^ 8). intros. apply lxor_range; lia. Qed.

(** The unmasked sequence number has the width of its bytes. *)
Lemma masked_range seq m0 m1 : bytes seq -> is_byte m0 -> is_byte m1 -> zlength seq = 1 \/ zlength seq = 2 ->
  0 <= be_fold_u64 (xor_mask seq (m0, m1)) < 2 ^ (zlength seq * 8).
Proof.
  intros B H0 H1 L.
  assert (X : bytes (xor_mask seq (m0, m1)) /\ zlength (xor_mask seq (m0, m1)) = zlength seq).
  { destruct seq as [|a [|b [|]]]; unfold zlength in L; cbn [length] in L; try lia;
      apply bytes_cons in B as [Ba B]; cbn; (split; [|reflexivity]).
    - repeat constructor; now apply lxor_byte.
    - apply bytes_cons in B as [Bb B]. constructor; [now apply lxor_byte|]. constructor; [now apply lxor_byte|constructor]. }
  destruct X as [Xb Xl]. rewrite be_fold_u64_combine by (assumption || lia).
  pose proof (be_combine_range _ Xb) as R. rewrite Xl in R. destruct L as [L|L]; rewrite L in *; exact R.
Qed.

(** What a parsed record says of the connection. *)
Definition parsed_ok (seen : list DTLSRecordNumber) (record : ParsedDTLSRecord) (ssl : DTLS) : Prop :=
  read_inv seen ssl /\
  forall slot e, p_epoch record = Some (slot, e) ->
    in_slot ssl slot e /\ 0 <= p_number record < 2 ^ 64 /\ number_epoch (p_number record) = re_epoch e.

Lemma make_number_range epoch s : valid_number epoch s -> 0 <= make_record_number epoch s < 2 ^ 64.
Proof.
  intros H. rewrite make_record_number_add by exact H. destruct H as [He Hs]. rewrite kMaxSequence_eq in Hs. lia.
Qed.

Lemma parse13_ok now seen ssl type cbs record rest ssl' :
  read_inv seen ssl -> bytes cbs -> parse_dtls13_record now ssl type cbs = (Some (record, rest), ssl') ->
  parsed_ok seen record ssl'.
Proof.
  intros I B. unfold parse_dtls13_record. destruct (negb _); [discriminate|].
  set (seq_len := if negb (Z.land type 8 =? 0) then 2 else 1).
  assert (Sl : seq_len = 1 \/ seq_len = 2) by (unfold seq_len; destruct (negb _); auto).
  destruct (CBS_get_bytes seq_len cbs) as [[seq|] cbs1] eqn:G; [|discriminate].
  unfold CBS_get_bytes in G. apply cbs_get_inv in G as [-> Ls]; [|lia]. apply bytes_app in B as [Bs _].
  set (epoch := reconstruct_epoch type (max_read_epoch ssl)). clearbody epoch.
  match goal with |- match ?x with _ => _ end = _ -> _ => destruct x as [[[lb body] cbs2]|]; [|discriminate] end.
  pose proof (drop_expired_inv now seen ssl I) as I'. set (ssl1 := drop_expired now ssl) in *. clearbody ssl1. cbv zeta.
  assert (N : forall r, p_epoch r = None -> parsed_ok seen r ssl1).
  { intros r Hr. split; [exact I'|]. rewrite Hr. discriminate. }
  destruct (dtls_get_read_epoch ssl1 epoch) as [[slot e]|] eqn:D.
  2:{ intros H. injection H as <- _ <-. now apply N. }
  destruct (use_dtls13_record_header ssl1 epoch).
  2:{ intros H. injection H as <- _ <-. now apply N. }
  destruct (get_read_epoch_inv _ _ _ _ D) as [Hs He]. pose proof (in_slot_inv _ _ _ _ I' Hs) as [Er Em Ex _].
  destruct (re_encrypter e body) as [[m0 m1]|] eqn:K; [|discriminate]. destruct (Em _ _ _ K) as [B0 B1].
  intros H. injection H as <- _ <-. split; [exact I'|]. cbn [p_epoch p_number]. intros s x Hx. injection Hx as <- <-.
  pose proof (masked_range seq m0 m1 Bs B0 B1 ltac:(lia)) as Rw. rewrite Ls in Rw.
  assert (Rs : 0 <= reconstruct_seqnum (u16 (be_fold_u64 (xor_mask seq (m0, m1)))) (Z.shiftl 1 (seq_len * 8) - 1)
                      (max_seq_num_ (re_bitmap e)) <= kMaxSequence).
  { rewrite Z.shiftl_mul_pow2, Z.mul_1_l by lia. apply reconstruct_seqnum_range; [lia| |exact Ex].
    rewrite wrap_small; [exact Rw|]. destruct Sl as [E | E]; rewrite E in Rw; cbn in Rw; lia. }
  rewrite He in Er. assert (V : valid_number epoch _) by (split; [exact Er|exact Rs]).
  split; [exact Hs|]. split; [now apply make_number_range|].
  now rewrite (proj1 (record_number_fields _ _ V)).
Qed.

Lemma parse12_ok seen ssl type cbs record rest :
  read_inv seen ssl -> bytes cbs -> parse_dtls12_record ssl type cbs = Some (record, rest) ->
  parsed_ok seen record ssl.
Proof.
  intros I B. unfold parse_dtls12_record. destruct (parse_dtls12_header cbs) as [[[[v n] body]|] r] eqn:P; [|discriminate].
  destruct (negb _); [discriminate|]. intros H.
  match type of H with Some (?x, _) = _ => assert (Er : record = x) by congruence end. subst record. clear H.
  split; [exact I|]. cbn [p_epoch p_number].
  assert (Hn : 0 <= n < 2 ^ 64).
  { unfold parse_dtls12_header in P. minv P. apply ret_inv in P as [E' _]. injection E' as <- <- <-.
    unfold CBS_get_u16 in E. minv E. apply cbs_get_u_inv in E2 as [-> _]; [|lia|exact B].
    apply ret_inv in E as [_ ->]. apply bytes_app in B as [_ B].
    unfold CBS_get_u64 in E0. apply cbs_get_u_inv in E0 as [_ R]; [exact R|lia|exact B]. }
  destruct (Z.eqb_spec (number_epoch n) (re_epoch (read_epoch ssl))) as [E|]; [|discriminate].
  destruct (negb _); [|discriminate]. intros slot e H. injection H as <- <-. now split.
Qed.

Lemma parse_ok now seen ssl inp record rest ssl' :
  read_inv seen ssl -> bytes inp -> parse_dtls_record now ssl inp = (Some (record, rest), ssl') ->
  parsed_ok seen record ssl'.
Proof.
  intros I B. unfold parse_dtls_record. destruct (CBS_get_u8 inp) as [[type|] cbs] eqn:G; [|discriminate].
  apply CBS_get_u8_inv in G as ->. apply bytes_cons in B as [_ B].
  destruct (_ =? 0x20).
  - destruct (parse_dtls13_record now ssl type cbs) as [[[rc rs']|] s1] eqn:P; [|discriminate].
    destruct (_ >? _); [discriminate|]. intros H. injection H as <- <- <-. eapply parse13_ok; eassumption.
  - destruct (parse_dtls12_record ssl type cbs) as [[rc rs']|] eqn:P; [|discriminate].
    destruct (_ >? _); [discriminate|]. intros H. injection H as <- <- <-. eapply parse12_ok; eassumption.
Qed.

Lemma parse_fail_inv now seen ssl inp ssl' :
  read_inv seen ssl -> parse_dtls_record now ssl inp = (None, ssl') -> read_inv seen ssl'.
Proof.
  intros I. unfold parse_dtls_record. destruct (CBS_get_u8 inp) as [[type|] cbs]; [|now intros H; injection H as <-].
  destruct (if Z.land type 0xe0 =? 0x20 then _ else _) as [res s1] eqn:P. intros H.
  assert (s1 = ssl') as ->.
  { destruct res as [[? ?]|]; [destruct (_ >? _)|]; congruence. }
  clear H. destruct (_ =? 0x20); [|now injection P as _ <-].
  pose proof (drop_expired_inv now seen ssl I) as I'. unfold parse_dtls13_record in P.
  repeat match type of P with
    | (match ?x with _ => _ end) = _ => destruct x
    | (_, _) = (_, _) => injection P as _ <-
    end; assumption.
Qed.

Lemma with_d_rs_inv seen ssl r : read_inv seen ssl -> read_inv seen (with_d_rs ssl r).
Proof. intros [C N P S]. now constructor. Qed.

Lemma finish_open_inv seen ssl type n out : read_inv seen ssl -> read_inv seen (snd (dtls_finish_open ssl type n out)).
Proof.
  intros I. unfold dtls_finish_open. destruct (_ =? _).
  - destruct (ssl_process_alert _ _ _). now apply with_d_rs_inv.
  - destruct (_ && _); [exact I|now apply with_d_rs_inv].
Qed.

(** One call. *)
Lemma open_record_inv now seen ssl inp res n consumed ssl' :
  read_inv seen ssl -> bytes inp -> dtls_open_record now ssl inp = (res, n, consumed, ssl') ->
  match res with
  | ssl_open_record_success _ _ => ~ In n seen /\ read_inv (n :: seen) ssl'
  | _ => read_inv seen ssl'
  end.
Proof.
  intros I B. unfold dtls_open_record. destruct (read_shutdown (d_rs ssl)).
  2:{ intros H. injection H as <- <- <- <-. exact I. }
  all: destruct (zlength inp =? 0); [intros H; injection H as <- <- <- <-; exact I|].
  all: destruct (parse_dtls_record now ssl inp) as [[[record rest]|] s1] eqn:P;
    [|intros H; injection H as <- <- <- <-; eapply parse_fail_inv; eassumption].
  all: destruct (parse_ok _ _ _ _ _ _ _ I B P) as [I1 Pk].
  all: destruct (p_epoch record) as [[slot e]|]; [|intros H; injection H as <- <- <- <-; exact I1].
  all: destruct (Pk slot e eq_refl) as (Hs & Hn & He).
  all: destruct (ShouldDiscard _ _) eqn:D; [intros H; injection H as <- <- <- <-; exact I1|].
  all: pose proof (fresh_number seen e (p_number record) (in_slot_inv _ _ _ _ I1 Hs) Hn He D) as F.
  all: pose proof (record_received_inv now seen s1 slot e (p_number record) I1 Hs Hn He) as I2.
  all: unfold dtls_open_body; destruct (Open _ _ _ _ _ _) as [out|]; [|intros H; injection H as <- <- <- <-; exact I1].
  all: destruct (_ >? _); [intros H; injection H as <- <- <- <-; exact I1|].
  all: destruct (if negb _ && _ then remove_padding out else _) as [[t o]|];
    [|intros H; injection H as <- <- <- <-; exact I1].
  all: pose proof (finish_open_inv _ _ t (p_number record) o I2) as I3.
  all: destruct (dtls_finish_open _ _ _ _) as [res' s2]; cbn [snd] in I3; intros H; injection H as <- <- <- <-.
  all: destruct res'; [now split|apply read_inv_weaken in I3; exact I3..].
Qed.

(** The steps of a connection that concern reading: a datagram arrives, or a
    new read epoch is installed.  The handshake only moves levels forward, and
    the previous installation has taken effect, as the code asserts. *)
Inductive read_step : DTLS -> option DTLSRecordNumber -> DTLS -> Prop :=
  | step_packet now ssl inp res n consumed ssl' :
      bytes inp -> dtls_open_record now ssl inp = (res, n, consumed, ssl') ->
      read_step ssl (match res with ssl_open_record_success _ _ => Some n | _ => None end) ssl'
  | step_epoch unprocessed ssl level aead encrypter ssl' epoch :
      dtls1_set_read_state unprocessed ssl level aead encrypter = Some ssl' ->
      next_epoch ssl level (re_epoch (read_epoch ssl)) = Some epoch -> re_epoch (read_epoch ssl) < epoch ->
      next_read_epoch ssl = None ->
      (forall f, encrypter = Some f -> encrypter_ok f) ->
      read_step ssl None ssl'.

(** [accepted] are the numbers of the records handed to the caller. *)
Inductive read_run : DTLS -> list DTLSRecordNumber -> DTLS -> Prop :=
  | run_nil ssl : read_run ssl [] ssl
  | run_step ssl accepted ssl1 n ssl2 :
      read_run ssl accepted ssl1 -> read_step ssl1 n ssl2 ->
      read_run ssl (match n with Some n => n :: accepted | None => accepted end) ssl2.

Lemma next_epoch_range ssl level prev epoch : 0 <= prev < 2 ^ 16 -> next_epoch ssl level prev = Some epoch ->
  0 <= epoch < 2 ^ 16.
Proof.
  intros Hp. unfold next_epoch. destruct level; try (intros H; injection H as <-; cbn; lia).
  destruct (_ && _); [intros H; injection H as <-; cbn; lia|].
  destruct (_ =? _); [discriminate|]. intros H. injection H as <-. now apply wrap_range.
Qed.

(** A fresh epoch above all accepted numbers. *)
Lemma new_epoch_inv seen ssl e : read_inv seen ssl -> re_epoch (read_epoch ssl) < re_epoch e ->
  0 <= re_epoch e < 2 ^ 16 -> encrypter_ok (re_encrypter e) -> re_bitmap e = new_bitmap -> epoch_inv seen e.
Proof.
  intros I L R M B. constructor; [exact R|exact M|rewrite B, kMaxSequence_eq; cbn [new_bitmap max_seq_num_]; lia|].
  exists []. split; [rewrite B; apply window_new|]. intros n Hn E. pose proof (ri_seen _ _ I n Hn). lia.
Qed.

Lemma set_read_state_inv unprocessed seen ssl level aead encrypter ssl' epoch :
  read_inv seen ssl -> dtls1_set_read_state unprocessed ssl level aead encrypter = Some ssl' ->
  next_epoch ssl level (re_epoch (read_epoch ssl)) = Some epoch -> re_epoch (read_epoch ssl) < epoch ->
  next_read_epoch ssl = None -> (forall f, encrypter = Some f -> encrypter_ok f) -> read_inv seen ssl'.
Proof.
  intros I H E L Nx M. unfold dtls1_set_read_state in H. destruct unprocessed; [discriminate|].
  rewrite E in H. cbn [obind] in H. pose proof (next_epoch_range _ _ _ _ (ei_range _ _ (ri_current _ _ I)) E) as R.
  destruct (_ >? _).
  - destruct encrypter as [f|]; [|discriminate]. cbn [obind] in H. injection H as <-.
    destruct I as [C N P S] eqn:Ei. constructor; cbn [with_read read_epoch next_read_epoch prev_read_epoch]; try assumption.
    intros e He. injection He as <-. split; [|exact L]. apply (new_epoch_inv seen ssl); auto.
  - injection H as <-. rewrite Nx. destruct I as [C N P S] eqn:Ei.
    constructor; cbn [with_read read_epoch next_read_epoch prev_read_epoch re_epoch].
    + apply (new_epoch_inv seen ssl); auto. intros sample m0 m1 Hm. discriminate.
    + discriminate.
    + intros p Hp. destruct (P p Hp). split; [assumption|lia].
    + intros n Hn. pose proof (S n Hn). lia.
Qed.

Lemma read_run_inv ssl accepted ssl' : read_inv [] ssl -> read_run ssl accepted ssl' ->
  NoDup accepted /\ read_inv accepted ssl'.
Proof.
  intros I R. induction R as [ssl|ssl accepted ssl1 n ssl2 R IH St]; [split; [constructor|exact I]|].
  destruct (IH I) as [Nd I1]. destruct St as [now s inp res n consumed s' B O|].
  - pose proof (open_record_inv _ _ _ _ _ _ _ _ I1 B O) as H. destruct res; try (now split).
    destruct H as [F I2]. split; [now constructor|exact I2].
  - split; [exact Nd|]. eapply set_read_state_inv; eassumption.
Qed.

Definition fresh_read (ssl : DTLS) : Prop :=
  0 <= re_epoch (read_epoch ssl) < 2 ^ 16 /\ re_bitmap (read_epoch ssl) = new_bitmap /\
  encrypter_ok (re_encrypter (read_epoch ssl)) /\ next_read_epoch ssl = None /\ prev_read_epoch ssl = None.

(** C38: no DTLS record is accepted twice: over any sequence of datagrams,
    reordered, replayed or forged, and of changes of the read epoch, with
    epochs rotating and expiring, the record numbers handed to the caller are
    pairwise distinct. *)
Theorem dtls_no_replay ssl accepted ssl' :
  fresh_read ssl -> read_run ssl accepted ssl' -> NoDup accepted.
Proof.
  intros (R & B & M & N & P) Run. apply (read_run_inv ssl accepted ssl'); [|exact Run].
  constructor; [|rewrite N; discriminate|rewrite P; discriminate|easy].
  constructor; [exact R|exact M|rewrite B, kMaxSequence_eq; cbn [new_bitmap max_seq_num_]; lia|].
  exists []. split; [rewrite B; apply window_new|easy].
Qed.

(** ** A record opens to what was sealed *)

Lemma length_prefixed_read body rest : zlength body < 2 ^ 16 ->
  CBS_get_u16_length_prefixed (be_split 2 (zlength body) ++ body ++ rest) = (Some body, rest).
Proof.
  intros L. unfold CBS_get_u16_length_prefixed, cbs_get_length_prefixed.
  rewrite (bind_some _ _ _ (zlength body) (body ++ rest)).
  - apply cbs_get_app.
  - apply (cbs_get_u_split 2); [lia|]. pose proof (zlength_nonneg body). cbn. lia.
Qed.

Lemma get_u64_split n rest : 0 <= n < 2 ^ 64 -> CBS_get_u64 (be_split 8 n ++ rest) = (Some n, rest).
Proof. intros H. unfold CBS_get_u64. apply (cbs_get_u_split 8); [lia|exact H]. Qed.

Lemma store_u16_split v : store_u16_be v = be_split 2 v.
Proof. unfold store_u16_be. rewrite shiftr_div by lia. reflexivity. Qed.

Lemma xor_mask_twice v m : xor_mask (xor_mask (be_split 2 v) m) m = be_split 2 v.
Proof.
  unfold xor_mask, xor_bytes. cbn [be_split app combine map]. now rewrite !Z.lxor_assoc, !Z.lxor_nilpotent, !Z.lxor_0_r.
Qed.

(** An epoch at most three behind the newest one is recovered from two bits. *)
Lemma reconstruct_epoch_near epoch current :
  0 <= epoch <= current -> current < 2 ^ 16 -> current - 4 < epoch ->
  reconstruct_epoch (Z.lor 0x2c (Z.land epoch 0x3)) current = epoch.
Proof.
  intros He Hc L. unfold reconstruct_epoch. rewrite epoch_high by lia.
  rewrite Z.land_lor_distr_l. change (Z.land 0x2c 3) with 0. rewrite Z.lor_0_l, <- Z.land_assoc.
  change (Z.land 3 3) with 3. rewrite (land_ones_mod epoch 2) by (reflexivity || lia). change (2 ^ 2) with 4.
  rewrite Z.lor_comm, (lor_add_mul _ (current / 4) 2);
    [|lia|change (2 ^ 2) with 4; lia|apply Z.mod_pos_bound; lia].
  destruct (Z.gtb_spec (4 * (current / 4) + epoch mod 4) current); cbn [andb];
    [destruct (Z.gtb_spec (4 * (current / 4)) 0); [rewrite wrap_small|]|];
    Z.to_euclidean_division_equations; lia.
Qed.

(** With the header as additional data, type and version play no part. *)
Lemma Open_header c t v t' v' seqnum header inp : ad_is_header_ c = true ->
  Open c t v seqnum header inp = Open c t' v' seqnum header inp.
Proof. intros H. unfold Open, GetAdditionalData. now rewrite H. Qed.

(** [r] holds, in [slot], the read epoch [e] for what [w] writes in [epoch]. *)
Record dtls_receives (now : Z) (r w : DTLS) (epoch : Z) (slot : epoch_slot) (e : DTLSReadEpoch) (x : DTLSWriteEpoch)
  : Prop := {
  dr_version : d_version r = d_version w;
  dr_known : In (d_version w) (0 :: kDTLSVersions);
  dr_open : read_shutdown (d_rs r) <> ssl_shutdown_close_notify;
  dr_write : dtls_get_write_epoch w epoch = Some x;
  dr_range : 0 <= next_record x < 2 ^ 64;
  dr_keys : re_aead e = we_aead x /\ re_encrypter e = we_encrypter x;
  dr_wf : well_formed (we_aead x);
  dr_null : is_null_cipher (we_aead x) = true -> variable_nonce_included_in_record_ (we_aead x) = false;
  dr_hides : negb (is_null_cipher (we_aead x)) && is_tls13 (d_version w) = use_dtls13_record_header w epoch;
  dr_header : use_dtls13_record_header w epoch = true -> ad_is_header_ (we_aead x) = true;
  dr_slot : if use_dtls13_record_header w epoch
            then dtls_get_read_epoch (drop_expired now r) epoch = Some (slot, e) /\
                 epoch <= max_read_epoch r < 2 ^ 16 /\ max_read_epoch r - 4 < epoch
            else slot = slot_current /\ e = read_epoch r /\ re_epoch e = epoch;
  dr_fresh : ShouldDiscard (re_bitmap e) (number_sequence (next_record x)) = false;
  dr_max : 0 <= max_seq_num_ (re_bitmap e) <= kMaxSequence;
  dr_near : Z.abs (number_sequence (next_record x) - (max_seq_num_ (re_bitmap e) + 1)) < 2 ^ 15
}.

Definition dtls_accepts (w : DTLS) (epoch type : Z) (inp : list Z) : Prop :=
  (type = SSL3_RT_HANDSHAKE \/ type = SSL3_RT_APPLICATION_DATA /\ app_data_allowed w epoch = true) /\
  zlength inp <= SSL3_RT_MAX_PLAIN_LENGTH.

Definition header13 (epoch seq len : Z) : list Z :=
  Z.lor 0x2c (Z.land epoch 0x3) :: be_split 2 (u16 seq) ++ be_split 2 (u16 len).
Definition header12 (type version number len : Z) : list Z :=
  type :: be_split 2 version ++ CRYPTO_store_u64_be number ++ be_split 2 (u16 len).

(** What a sealed record consists of. *)
Lemma dtls_seal_inv RAND_bytes max_out type inp epoch w x n out w' :
  dtls_get_write_epoch w epoch = Some x ->
  dtls_seal_record RAND_bytes max_out type inp epoch w = (Some (n, out), w') ->
  let h := use_dtls13_record_header w epoch in
  let extra := if h then [type] else [] in
  n = next_record x /\ w' = bump_write_epoch w epoch /\ HasNext n = true /\
  exists len nonce o suffix,
    let header := if h then header13 epoch (number_sequence n) len
                  else header12 type (dtls_record_version w) n len in
    CiphertextLen (we_aead x) (zlength inp) (zlength extra) = Some len /\
    dtls_record_header_write_len w epoch + len <= max_out /\
    SealScatter RAND_bytes (we_aead x) type (dtls_record_version w) (dtls_aead_sequence w n) header inp extra
      = Some (nonce, o, suffix) /\
    (if h then exists mask, we_encrypter x (nonce ++ o ++ suffix) = Some mask /\
       out = (Z.lor 0x2c (Z.land epoch 0x3) :: xor_mask (be_split 2 (u16 (number_sequence n))) mask ++
              be_split 2 (u16 len)) ++ nonce ++ o ++ suffix
     else out = header ++ nonce ++ o ++ suffix).
Proof.
  intros G. unfold dtls_seal_record. rewrite G. destruct (HasNext (next_record x)) eqn:N; [|discriminate].
  cbn [negb]. cbv zeta. destruct (CiphertextLen _ _ _) as [len|] eqn:C; [|discriminate].
  destruct (Z.ltb_spec max_out (dtls_record_header_write_len w epoch + len)) as [|Mx]; [discriminate|].
  rewrite !store_u16_split. fold (header12 type (dtls_record_version w) (next_record x) len).
  fold (header13 epoch (number_sequence (next_record x)) len).
  destruct (use_dtls13_record_header w epoch).
  - change (([Z.lor 44 (Z.land epoch 3)] ++ be_split 2 (u16 (number_sequence (next_record x))) ++ be_split 2 (u16 len)))
      with (header13 epoch (number_sequence (next_record x)) len).
    destruct (SealScatter _ _ _ _ _ _ _ _) as [[[nonce o] suffix]|] eqn:S; [|discriminate].
    destruct (we_encrypter x _) as [mask|] eqn:K; [|discriminate]. intros H.
    apply pair_equal_spec in H as [H <-]. assert (n = next_record x) as -> by congruence.
    split; [reflexivity|]. split; [reflexivity|]. split; [exact N|]. exists len, nonce, o, suffix.
    split; [reflexivity|]. split; [exact Mx|]. split; [exact S|]. exists mask. split; [exact K|].
    apply (f_equal (option_map snd)) in H. unfold option_map, snd in H. apply (f_equal (fun o => match o with Some l => l | None => [] end)) in H.
    rewrite <- H. reflexivity.
  - change (([type] ++ be_split 2 (dtls_record_version w) ++ CRYPTO_store_u64_be (next_record x) ++ be_split 2 (u16 len)))
      with (header12 type (dtls_record_version w) (next_record x) len).
    destruct (SealScatter _ _ _ _ _ _ _ _) as [[[nonce o] suffix]|] eqn:S; [|discriminate].
    intros H. apply pair_equal_spec in H as [H <-]. assert (n = next_record x) as -> by congruence.
    split; [reflexivity|]. split; [reflexivity|]. split; [exact N|]. exists len, nonce, o, suffix.
    split; [reflexivity|]. split; [exact Mx|]. split; [exact S|]. congruence.
Qed.

(** The header of DTLS 1.3 as the parser sees it. *)
Lemma parse13_sealed now r epoch slot e seq len mask body rest :
  dtls_get_read_epoch (drop_expired now r) epoch = Some (slot, e) ->
  use_dtls13_record_header r epoch = true -> 0 <= epoch ->
  epoch <= max_read_epoch r < 2 ^ 16 -> max_read_epoch r - 4 < epoch ->
  re_encrypter e body = Some mask -> len = zlength body -> len <= SSL3_RT_MAX_ENCRYPTED_LENGTH ->
  0 <= seq <= kMaxSequence -> 0 <= max_seq_num_ (re_bitmap e) <= kMaxSequence ->
  Z.abs (seq - (max_seq_num_ (re_bitmap e) + 1)) < 2 ^ 15 ->
  parse_dtls_record now r ((Z.lor 0x2c (Z.land epoch 0x3) :: xor_mask (be_split 2 (u16 seq)) mask ++
                            be_split 2 (u16 len)) ++ body ++ rest) =
  (Some ({| p_epoch := Some (slot, e); p_number := make_record_number epoch seq;
            p_header := header13 epoch seq len; p_body := body;
            p_type := Z.lor 0x2c (Z.land epoch 0x3); p_version := 0 |}, rest), drop_expired now r).
Proof.
  intros D U E0 Em Ed K L Lm Hs Hm Hd. unfold parse_dtls_record. cbn [app].
  rewrite CBS_get_u8_cons. pose proof (reconstruct_epoch_near epoch (max_read_epoch r)) as Re.
  set (b0 := Z.lor 0x2c (Z.land epoch 0x3)) in *.
  assert (B : Z.land b0 0xe0 = 0x20 /\ Z.land b0 0x10 = 0 /\ Z.land b0 8 = 8 /\ Z.land b0 4 = 4).
  { unfold b0. rewrite (land_ones_mod epoch 2) by (reflexivity || lia). change (2 ^ 2) with 4.
    pose proof (Z.mod_pos_bound epoch 4 ltac:(lia)).
    assert (epoch mod 4 = 0 \/ epoch mod 4 = 1 \/ epoch mod 4 = 2 \/ epoch mod 4 = 3) as [-> |[-> |[-> | ->]]] by lia;
      repeat split. }
  destruct B as (B1 & B2 & B3 & B4). unfold parse_dtls13_record. rewrite B1, B2, B3, B4.
  change (0x20 =? 0x20) with true. change (0 =? 0) with true. change (8 =? 0) with false. change (4 =? 0) with false.
  cbn [negb]. rewrite Re by lia.
  assert (Lx : xor_mask (be_split 2 (u16 seq)) mask = [Z.lxor (u16 seq / 256 mod 256) (fst mask); Z.lxor (u16 seq mod 256) (snd mask)])
    by reflexivity.
  rewrite <- app_assoc. unfold CBS_get_bytes. change 2 with (zlength (xor_mask (be_split 2 (u16 seq)) mask)) at 1.
  rewrite cbs_get_app. unfold SSL3_RT_MAX_ENCRYPTED_LENGTH, SSL3_RT_MAX_PLAIN_LENGTH in Lm.
  pose proof (zlength_nonneg body). rewrite (wrap_small 16 len), L by lia. rewrite length_prefixed_read by lia.
  change (firstn 2 (be_split 2 (zlength body) ++ body ++ rest)) with (be_split 2 (zlength body)).
  rewrite D.
  assert (U' : use_dtls13_record_header (drop_expired now r) epoch = true).
  { unfold drop_expired. destruct (prev_read_epoch r); [destruct (_ >? _)|]; exact U. }
  rewrite U', K. rewrite !xor_mask_twice.
  rewrite be_fold_u64_combine by (auto with bytestr; rewrite zlength_be_split; lia).
  rewrite be_combine_split. change (256 ^ Z.of_nat 2) with (2 ^ 16).
  replace (u16 (u16 seq mod 2 ^ 16)) with (seq mod 2 ^ 16) by (unfold wrap; now rewrite !Zdiv.Zmod_mod).
  change (Z.shiftl 1 (2 * 8) - 1) with (2 ^ 16 - 1).
  rewrite (reconstruct_seqnum_near 16) by (auto; lia). cbn [p_body].
  destruct (Z.gtb_spec (zlength body) SSL3_RT_MAX_ENCRYPTED_LENGTH);
    [unfold SSL3_RT_MAX_ENCRYPTED_LENGTH, SSL3_RT_MAX_PLAIN_LENGTH in *; lia|].
  unfold header13. rewrite (wrap_small 16 (zlength body)) by lia. reflexivity.
Qed.

Lemma dtls_version_range w : In (d_version w) (0 :: kDTLSVersions) ->
  0 <= dtls_record_version w < 2 ^ 16 /\ Z.shiftr (dtls_record_version w) 8 = DTLS1_VERSION_MAJOR.
Proof. intros H. unfold dtls_record_version. cbn in H. repeat destruct H as [<-|H]; easy. Qed.

Lemma parse12_sealed now r type n len body rest :
  In (d_version r) (0 :: kDTLSVersions) -> Z.land type 0xe0 = 0 -> 0 <= n < 2 ^ 64 ->
  number_epoch n = re_epoch (read_epoch r) -> use_dtls13_record_header r (number_epoch n) = false ->
  len = zlength body -> len <= SSL3_RT_MAX_ENCRYPTED_LENGTH ->
  parse_dtls_record now r (header12 type (dtls_record_version r) n len ++ body ++ rest) =
  (Some ({| p_epoch := Some (slot_current, read_epoch r); p_number := n;
            p_header := header12 type (dtls_record_version r) n len; p_body := body;
            p_type := type; p_version := dtls_record_version r |}, rest), r).
Proof.
  intros Kn T Hn He U L Lm. destruct (dtls_version_range r Kn) as [Vr Vm].
  unfold SSL3_RT_MAX_ENCRYPTED_LENGTH, SSL3_RT_MAX_PLAIN_LENGTH in Lm. pose proof (zlength_nonneg body).
  unfold parse_dtls_record, header12. cbn [app]. rewrite CBS_get_u8_cons, T. change (0 =? 0x20) with false. cbv iota.
  rewrite (wrap_small 16 len), L, store_u64_be_split by lia. rewrite <- !app_assoc.
  set (cbs := be_split 2 (dtls_record_version r) ++ be_split 8 n ++ be_split 2 (zlength body) ++ body ++ rest).
  assert (P : parse_dtls12_header cbs = (Some (dtls_record_version r, n, body), rest)).
  { unfold parse_dtls12_header, cbs. rewrite (bind_some _ _ _ _ _ (get_u16_split _ _ Vr)).
    rewrite (bind_some _ _ _ _ _ (get_u64_split _ _ Hn)).
    now rewrite (bind_some _ _ _ _ _ (length_prefixed_read body rest ltac:(lia))). }
  unfold parse_dtls12_record. rewrite P, Vm, !Z.eqb_refl.
  replace (if number_epoch n =? 0 then true else true) with true by now destruct (number_epoch n =? 0).
  rewrite He, Z.eqb_refl. rewrite He in U. rewrite U. cbn [negb andb p_body].
  destruct (Z.gtb_spec (zlength body) SSL3_RT_MAX_ENCRYPTED_LENGTH);
    [unfold SSL3_RT_MAX_ENCRYPTED_LENGTH, SSL3_RT_MAX_PLAIN_LENGTH in *; lia|].
  replace (firstn 12 cbs) with (be_split 2 (dtls_record_version r) ++ be_split 8 n ++ be_split 2 (zlength body));
    [reflexivity|].
  unfold cbs. cbn [be_split app firstn]. reflexivity.
Qed.

(** Decrypting what was sealed and handing it on. *)
Lemma dtls_open_body_sealed RAND_bytes now r w record slot e x type inp nonce o suffix :
  let h := use_dtls13_record_header w (we_epoch x) in
  let extra := if h then [type] else [] in
  rand_ok RAND_bytes -> d_version r = d_version w -> dtls_accepts w (number_epoch (p_number record)) type inp ->
  re_aead e = we_aead x -> well_formed (we_aead x) ->
  negb (is_null_cipher (we_aead x)) && is_tls13 (d_version w) = h ->
  (if h then ad_is_header_ (we_aead x) = true
   else p_type record = type /\ p_version record = dtls_record_version w) ->
  SealScatter RAND_bytes (we_aead x) type (dtls_record_version w) (dtls_aead_sequence w (p_number record))
    (p_header record) inp extra = Some (nonce, o, suffix) ->
  p_body record = nonce ++ o ++ suffix ->
  exists r', dtls_open_body now r record slot e = (ssl_open_record_success type inp, r').
Proof.
  intros h extra Hr V [Ht Hl] A W Hh Hd S B. unfold dtls_open_body. rewrite A, B.
  assert (Hx : extra = [] \/ ad_is_header_ (we_aead x) = true \/ is_null_cipher (we_aead x) = true).
  { unfold extra. destruct h; [right; left; exact Hd|now left]. }
  assert (Sq : dtls_aead_sequence r (p_number record) = dtls_aead_sequence w (p_number record))
    by (unfold dtls_aead_sequence, is_dtls13; now rewrite V).
  destruct (open_seal _ _ _ _ _ _ _ _ _ _ _ Hr W Hx S) as (O & _).
  assert (O' : Open (we_aead x) (p_type record) (p_version record) (dtls_aead_sequence r (p_number record))
                 (p_header record) (nonce ++ o ++ suffix) = Some (inp ++ extra)).
  { rewrite Sq, <- O. destruct h; [now apply Open_header|destruct Hd as [-> ->]; reflexivity]. }
  rewrite O', V, Hh.
  assert (F : forall s, d_version s = d_version w ->
      exists r', dtls_finish_open s type (p_number record) inp = (ssl_open_record_success type inp, r')).
  { intros s Vs. unfold dtls_finish_open.
    assert (Al : app_data_allowed s (number_epoch (p_number record)) = app_data_allowed w (number_epoch (p_number record)))
      by (unfold app_data_allowed, is_dtls13; now rewrite Vs).
    destruct Ht as [->|[-> Ha]]; [|rewrite Al, Ha]; eexists; reflexivity. }
  assert (Vr : d_version (record_received now r slot e (number_sequence (p_number record))) = d_version w)
    by (destruct slot; exact V).
  unfold extra. destruct h.
  - rewrite zlength_app. change (zlength [type]) with 1.
    destruct (Z.gtb_spec (zlength inp + 1) (SSL3_RT_MAX_PLAIN_LENGTH + 1)); [lia|].
    rewrite remove_padding_snoc by (destruct Ht as [->|[-> _]]; easy). now apply F.
  - rewrite app_nil_r. destruct (Z.gtb_spec (zlength inp) (SSL3_RT_MAX_PLAIN_LENGTH + 0)); [lia|].
    destruct Hd as [-> _]. now apply F.
Qed.

Lemma get_write_epoch_eq w epoch x : dtls_get_write_epoch w epoch = Some x -> we_epoch x = epoch.
Proof.
  unfold dtls_get_write_epoch. destruct (Z.eqb_spec (we_epoch (write_epoch w)) epoch) as [E|_].
  - now intros [= <-].
  - intros H. apply find_some in H as [_ H]. now apply Z.eqb_eq.
Qed.

Lemma use_header_version r w epoch : d_version r = d_version w ->
  use_dtls13_record_header r epoch = use_dtls13_record_header w epoch.
Proof. intros V. unfold use_dtls13_record_header. now rewrite V. Qed.

(** A record that parses and is not a replay is opened. *)
Lemma dtls_open_parsed now r inp record rest r1 slot e res r' :
  read_shutdown (d_rs r) <> ssl_shutdown_close_notify -> inp <> [] ->
  parse_dtls_record now r inp = (Some (record, rest), r1) -> p_epoch record = Some (slot, e) ->
  ShouldDiscard (re_bitmap e) (number_sequence (p_number record)) = false ->
  dtls_open_body now r1 record slot e = (res, r') ->
  dtls_open_record now r inp = (res, p_number record, zlength inp - zlength rest, r').
Proof.
  intros Sd Ne P E D B. unfold dtls_open_record. rewrite P, E, D, B.
  destruct inp as [|y l]; [easy|]. rewrite zlength_cons. pose proof (zlength_nonneg l).
  destruct (Z.eqb_spec (1 + zlength l) 0); [lia|]. now destruct (read_shutdown (d_rs r)).
Qed.

Lemma header13_length b0 seq len mask t :
  zlength ((b0 :: xor_mask (be_split 2 seq) mask ++ be_split 2 len) ++ t) = 5 + zlength t.
Proof. unfold xor_mask, xor_bytes. cbn [be_split app combine map]. rewrite !zlength_cons. lia. Qed.

Lemma header12_length type v n len t : zlength (header12 type v n len ++ t) = 13 + zlength t.
Proof.
  unfold header12. cbn [app]. rewrite zlength_cons, !zlength_app, !zlength_be_split.
  change (zlength (CRYPTO_store_u64_be n)) with 8. lia.
Qed.

(** The ciphertext has the length the header says. *)
Lemma dtls_ciphertext RAND_bytes now r w slot e x type inp len header nonce o suffix :
  let h := use_dtls13_record_header w (we_epoch x) in
  let extra := if h then [type] else [] in
  rand_ok RAND_bytes -> dtls_receives now r w (we_epoch x) slot e x -> zlength inp <= SSL3_RT_MAX_PLAIN_LENGTH ->
  CiphertextLen (we_aead x) (zlength inp) (zlength extra) = Some len ->
  SealScatter RAND_bytes (we_aead x) type (dtls_record_version w) (dtls_aead_sequence w (next_record x)) header inp extra
    = Some (nonce, o, suffix) ->
  len = zlength (nonce ++ o ++ suffix) /\ len <= SSL3_RT_MAX_ENCRYPTED_LENGTH.
Proof.
  intros h extra Hr R Hl C S.
  assert (Hx : extra = [] \/ ad_is_header_ (we_aead x) = true \/ is_null_cipher (we_aead x) = true).
  { unfold extra, h. destruct (use_dtls13_record_header w _) eqn:U; [right; left; now apply (dr_header _ _ _ _ _ _ _ R)|now left]. }
  destruct (ciphertext_length _ _ _ _ _ _ _ _ _ _ _ (dr_wf _ _ _ _ _ _ _ R) Hr (dr_null _ _ _ _ _ _ _ R) Hx Hl
    ltac:(unfold extra; destruct h; easy) S) as [C' Bl].
  rewrite C in C'. injection C' as ->. now split.
Qed.

Section Sealed.
Context (RAND_bytes : Z -> option (list Z)) (now : Z) (r w : DTLS) (slot : epoch_slot) (e : DTLSReadEpoch)
  (x : DTLSWriteEpoch) (type : Z) (inp : list Z).
Hypothesis Hr : rand_ok RAND_bytes.
Hypothesis R : dtls_receives now r w (we_epoch x) slot e x.
Hypothesis A : dtls_accepts w (we_epoch x) type inp.

Lemma open_sealed13 nonce o suffix mask rest :
  let body := nonce ++ o ++ suffix in
  let number := next_record x in
  use_dtls13_record_header w (we_epoch x) = true ->
  SealScatter RAND_bytes (we_aead x) type (dtls_record_version w) (dtls_aead_sequence w number)
    (header13 (we_epoch x) (number_sequence number) (zlength body)) inp [type] = Some (nonce, o, suffix) ->
  zlength body <= SSL3_RT_MAX_ENCRYPTED_LENGTH -> we_encrypter x body = Some mask ->
  exists r', dtls_open_record now r
    ((Z.lor 0x2c (Z.land (we_epoch x) 0x3) :: xor_mask (be_split 2 (u16 (number_sequence number))) mask ++
      be_split 2 (u16 (zlength body))) ++ body ++ rest) =
    (ssl_open_record_success type inp, number, 5 + zlength body, r').
Proof.
  intros body number U S Bl K. pose proof (dr_slot _ _ _ _ _ _ _ R) as Sl. rewrite U in Sl. destruct Sl as (D & Em & Ed).
  destruct (number_range _ (dr_range _ _ _ _ _ _ _ R)) as [Er Hs].
  pose proof (number_eta _ (dr_range _ _ _ _ _ _ _ R)) as Eta. fold number in Er, Hs, Eta.
  destruct (dr_keys _ _ _ _ _ _ _ R) as [Ka Ke]. rewrite <- Ke in K.
  assert (Ur : use_dtls13_record_header r (we_epoch x) = true)
    by (rewrite (use_header_version r w); [exact U|apply (dr_version _ _ _ _ _ _ _ R)]).
  pose proof (parse13_sealed now r (we_epoch x) slot e (number_sequence number) (zlength body) mask body rest D
    Ur (proj1 Er) Em Ed K eq_refl Bl Hs (dr_max _ _ _ _ _ _ _ R) (dr_near _ _ _ _ _ _ _ R)) as P.
  change (number_epoch number) with (we_epoch x) in Eta. rewrite Eta in P.
  destruct (dtls_open_body_sealed RAND_bytes now (drop_expired now r) w
    {| p_epoch := Some (slot, e); p_number := number; p_header := header13 (we_epoch x) (number_sequence number) (zlength body);
       p_body := body; p_type := Z.lor 44 (Z.land (we_epoch x) 3); p_version := 0 |}
    slot e x type inp nonce o suffix) as [r' B]; cbn [p_number p_header p_body p_type p_version].
  - exact Hr.
  - rewrite <- (dr_version _ _ _ _ _ _ _ R). unfold drop_expired. destruct (prev_read_epoch r); [destruct (_ >? _)|]; reflexivity.
  - exact A.
  - exact Ka.
  - apply (dr_wf _ _ _ _ _ _ _ R).
  - apply (dr_hides _ _ _ _ _ _ _ R).
  - rewrite U. now apply (dr_header _ _ _ _ _ _ _ R).
  - rewrite U. exact S.
  - reflexivity.
  - exists r'. erewrite dtls_open_parsed;
      [|apply (dr_open _ _ _ _ _ _ _ R)|discriminate|exact P|reflexivity|apply (dr_fresh _ _ _ _ _ _ _ R)|exact B]. cbn [p_number]. rewrite header13_length, zlength_app. do 2 f_equal. lia.
Qed.

Lemma open_sealed12 nonce o suffix rest :
  let body := nonce ++ o ++ suffix in
  let number := next_record x in
  let header := header12 type (dtls_record_version w) number (zlength body) in
  use_dtls13_record_header w (we_epoch x) = false ->
  SealScatter RAND_bytes (we_aead x) type (dtls_record_version w) (dtls_aead_sequence w number) header inp []
    = Some (nonce, o, suffix) ->
  zlength body <= SSL3_RT_MAX_ENCRYPTED_LENGTH ->
  exists r', dtls_open_record now r (header ++ body ++ rest) =
    (ssl_open_record_success type inp, number, 13 + zlength body, r').
Proof.
  intros body number header U S Bl. pose proof (dr_slot _ _ _ _ _ _ _ R) as Sl. rewrite U in Sl.
  destruct Sl as (Es & Ee & Er). pose proof (dr_version _ _ _ _ _ _ _ R) as V.
  destruct (dr_keys _ _ _ _ _ _ _ R) as [Ka _].
  assert (Vr : dtls_record_version w = dtls_record_version r) by (unfold dtls_record_version; now rewrite V).
  assert (T : Z.land type 0xe0 = 0) by (destruct A as [[->|[-> _]] _]; reflexivity).
  assert (Ur : use_dtls13_record_header r (number_epoch number) = false).
  { change (number_epoch number) with (we_epoch x). rewrite (use_header_version r w) by exact V. exact U. }
  assert (Kn : In (d_version r) (0 :: kDTLSVersions)) by (rewrite V; apply (dr_known _ _ _ _ _ _ _ R)).
  assert (En : number_epoch number = re_epoch (read_epoch r)).
  { change (number_epoch number) with (we_epoch x). now rewrite <- Er, Ee. }
  pose proof (parse12_sealed now r type number (zlength body) body rest Kn T (dr_range _ _ _ _ _ _ _ R)
    En Ur eq_refl Bl) as P.
  rewrite <- Ee, <- Es, <- Vr in P. fold header in P.
  destruct (dtls_open_body_sealed RAND_bytes now r w
    {| p_epoch := Some (slot, e); p_number := number; p_header := header; p_body := body; p_type := type;
       p_version := dtls_record_version w |} slot e x type inp nonce o suffix) as [r' B];
    cbn [p_number p_header p_body p_type p_version].
  - exact Hr.
  - exact V.
  - exact A.
  - exact Ka.
  - apply (dr_wf _ _ _ _ _ _ _ R).
  - apply (dr_hides _ _ _ _ _ _ _ R).
  - rewrite U. now split.
  - rewrite U. exact S.
  - reflexivity.
  - exists r'. erewrite dtls_open_parsed;
      [|apply (dr_open _ _ _ _ _ _ _ R)|discriminate|exact P|reflexivity|apply (dr_fresh _ _ _ _ _ _ _ R)|exact B]. cbn [p_number]. unfold header. rewrite header12_length, zlength_app. do 2 f_equal. lia.
Qed.
End Sealed.

(** a sealed DTLS record opens to what was sealed: with the plaintext
    header of DTLS 1.2 and with the compressed, encrypted one of DTLS 1.3
    alike, a peer whose window is less than 2^15 records away recovers the
    record number, the type and the contents from the bytes written, followed
    by anything, and consumes exactly those bytes. *)
Theorem dtls_record_roundtrip RAND_bytes now r w epoch slot e x max_out type inp n out w' rest :
  rand_ok RAND_bytes -> dtls_receives now r w epoch slot e x -> dtls_accepts w epoch type inp ->
  dtls_seal_record RAND_bytes max_out type inp epoch w = (Some (n, out), w') ->
  zlength out <= max_out /\
  exists r', dtls_open_record now r (out ++ rest) = (ssl_open_record_success type inp, n, zlength out, r').
Proof.
  intros Hr R A H. pose proof (dr_write _ _ _ _ _ _ _ R) as G. pose proof (get_write_epoch_eq _ _ _ G) as We. subst epoch.
  destruct (dtls_seal_inv _ _ _ _ _ _ _ _ _ _ G H) as (-> & _ & _ & len & nonce & o & suffix & C & Mx & S & Ho).
  destruct (dtls_ciphertext _ _ _ _ _ _ _ _ _ _ _ _ _ _ Hr R (proj2 A) C S) as [-> Bl].
  unfold dtls_record_header_write_len in Mx.
  destruct (use_dtls13_record_header w (we_epoch x)) eqn:U; cbn [negb] in Mx.
  - destruct Ho as (mask & K & ->). rewrite header13_length. split; [exact Mx|]. rewrite <- app_assoc.
    eapply open_sealed13; eassumption.
  - rewrite Ho, header12_length. split; [exact Mx|]. rewrite <- app_assoc. eapply open_sealed12; eassumption.
Qed.

(** ** No record number is used twice *)

Definition write_epochs (ssl : DTLS) : list DTLSWriteEpoch := write_epoch ssl :: extra_write_epochs ssl.

Lemma get_write_epoch_find ssl epoch :
  dtls_get_write_epoch ssl epoch = find (fun e => we_epoch e =? epoch) (write_epochs ssl).
Proof. unfold dtls_get_write_epoch, write_epochs. cbn [find]. now destruct (_ =? _). Qed.

Lemma bump_write_epochs ssl epoch : write_epochs (bump_write_epoch ssl epoch) = bump_first epoch (write_epochs ssl).
Proof. unfold bump_write_epoch, write_epochs. cbn [bump_first]. now destruct (_ =? _). Qed.

(** Epochs are distinct, and every number used is below the next of its epoch. *)
Record write_inv (used : list DTLSRecordNumber) (l : list DTLSWriteEpoch) : Prop := {
  wi_distinct : NoDup (map we_epoch l);
  wi_range : Forall (fun x => 0 <= next_record x < 2 ^ 64) l;
  wi_used : forall n x, In n used -> In x l -> number_epoch n = we_epoch x -> n < next_record x
}.

Lemma bump_epoch x : 0 <= next_record x < 2 ^ 64 -> HasNext (next_record x) = true ->
  we_epoch (bump x) = we_epoch x /\ next_record (bump x) = next_record x + 1 /\ 0 <= next_record (bump x) < 2 ^ 64.
Proof.
  intros R N. destruct (Next_number _ R N) as (A & B & C). unfold we_epoch. cbn [bump next_record].
  split; [exact B|]. split; [now apply Next_succ|exact A].
Qed.

(** Where the elements of the updated list come from. *)
Lemma bump_first_in epoch l x y : NoDup (map we_epoch l) ->
  find (fun e => we_epoch e =? epoch) l = Some x -> In y (bump_first epoch l) ->
  y = bump x \/ In y l /\ we_epoch y <> epoch.
Proof.
  induction l as [|z l IH]; [discriminate|]. cbn [find bump_first map]. intros Nd.
  apply NoDup_cons_iff in Nd as [Nz Nd].
  destruct (Z.eqb_spec (we_epoch z) epoch) as [E|E].
  - intros H. injection H as <-. intros [<-|H]; [now left|]. right. split; [now right|].
    intros C. apply Nz. rewrite E, <- C. now apply in_map.
  - intros H [<-|H']; [right; split; [now left|exact E]|].
    destruct (IH Nd H H') as [->|[Hy He]]; [now left|right; split; [now right|exact He]].
Qed.

Lemma bump_first_map epoch l x : Forall (fun x => 0 <= next_record x < 2 ^ 64) l ->
  find (fun e => we_epoch e =? epoch) l = Some x -> HasNext (next_record x) = true ->
  map we_epoch (bump_first epoch l) = map we_epoch l.
Proof.
  induction l as [|z l IH]; [discriminate|]. intros F. apply Forall_cons_iff in F as [Fz F]. cbn [find bump_first map].
  destruct (Z.eqb_spec (we_epoch z) epoch) as [E|E].
  - intros H N. injection H as <-. cbn [map]. now rewrite (proj1 (bump_epoch z Fz N)).
  - intros H N. cbn [map]. now rewrite IH.
Qed.

Lemma seal_inv_step used l epoch x : write_inv used l ->
  find (fun e => we_epoch e =? epoch) l = Some x -> HasNext (next_record x) = true ->
  ~ In (next_record x) used /\ write_inv (next_record x :: used) (bump_first epoch l).
Proof.
  intros [Nd Fr U] Fi N. destruct (find_some _ _ Fi) as [Hx He]. apply Z.eqb_eq in He.
  rewrite Forall_forall in Fr. pose proof (Fr x Hx) as Rx. destruct (bump_epoch x Rx N) as (Be & Bn & Br).
  split; [intros C; specialize (U _ _ C Hx eq_refl); lia|]. constructor.
  - rewrite (bump_first_map _ _ x); [exact Nd|now apply Forall_forall|exact Fi|exact N].
  - apply Forall_forall. intros y Hy. destruct (bump_first_in _ _ _ _ Nd Fi Hy) as [->|[Hy' _]]; [exact Br|now apply Fr].
  - intros n y [<-|Hn] Hy En; destruct (bump_first_in _ _ _ _ Nd Fi Hy) as [->|[Hy' Hd]].
    + lia.
    + exfalso. apply Hd. now rewrite <- En.
    + rewrite Bn. rewrite Be in En. specialize (U n x Hn Hx En). lia.
    + now apply U.
Qed.

(** Any number of attempts to seal, in any of the live epochs. *)
Inductive seal_run : DTLS -> list DTLSRecordNumber -> DTLS -> Prop :=
  | seal_nil ssl : seal_run ssl [] ssl
  | seal_step ssl used ssl1 RAND_bytes max_out type inp epoch res ssl2 :
      seal_run ssl used ssl1 ->
      dtls_seal_record RAND_bytes max_out type inp epoch ssl1 = (res, ssl2) ->
      seal_run ssl (match res with Some (n, _) => n :: used | None => used end) ssl2.

Lemma seal_fail_state RAND_bytes max_out type inp epoch ssl ssl' :
  dtls_seal_record RAND_bytes max_out type inp epoch ssl = (None, ssl') -> ssl' = ssl.
Proof.
  unfold dtls_seal_record. intros H.
  repeat match type of H with
    | (match ?x with _ => _ end) = _ => destruct x
    | (if ?b then _ else _) = _ => destruct b
    | (let _ := _ in _) = _ => cbv zeta in H
    | (_, _) = (_, _) => (discriminate || now injection H as <-)
    end.
Qed.

(** no record number is used twice when writing: over any sequence of
    calls to [dtls_seal_record], failing or not, in any of the epochs kept for
    retransmission, the numbers of the records written are pairwise distinct;
    an epoch that has used 2^48 - 1 numbers seals no more. *)
Theorem dtls_seal_numbers_distinct ssl used ssl' :
  write_inv [] (write_epochs ssl) -> seal_run ssl used ssl' ->
  NoDup used /\ forall n, In n used -> number_sequence n < kMaxSequence.
Proof.
  intros I Run.
  enough (G : NoDup used /\ (forall n, In n used -> number_sequence n < kMaxSequence) /\ write_inv used (write_epochs ssl'))
    by (split; apply G).
  induction Run as [ssl|ssl used ssl1 RAND_bytes max_out type inp epoch res ssl2 Run IH St];
    [split; [constructor|now split]|].
  destruct (IH I) as (Nd & Sq & I1). destruct res as [[n out]|].
  2:{ apply seal_fail_state in St as ->. now split. }
  destruct (dtls_get_write_epoch ssl1 epoch) as [x|] eqn:G;
    [|unfold dtls_seal_record in St; rewrite G in St; discriminate].
  destruct (dtls_seal_inv _ _ _ _ _ _ _ _ _ _ G St) as (-> & -> & N & _).
  rewrite get_write_epoch_find in G. destruct (seal_inv_step _ _ _ _ I1 G N) as [F I2].
  rewrite bump_write_epochs. split; [now constructor|]. split; [|exact I2].
  intros m [<-|Hm]; [now apply Z.ltb_lt|auto].
Qed.

(** ** Concrete connections *)

Definition demo_encrypter : RecordNumberEncrypter :=
  fun sample => match sample with a :: b :: _ => Some (a mod 256, b mod 256) | _ => None end.

Lemma demo_encrypter_ok : encrypter_ok demo_encrypter.
Proof.
  intros [|a [|b l]] m0 m1; cbn [demo_encrypter]; try discriminate. intros H. injection H as <- <-.
  split; apply Z.mod_pos_bound; lia.
Qed.

Definition demo_dtls (v epoch sequence : Z) (aead : SSLAEADContext) : DTLS :=
  {| d_version := v; d_hs := None;
     read_epoch := {| re_epoch := epoch; re_aead := aead; re_encrypter := demo_encrypter; re_bitmap := new_bitmap |};
     next_read_epoch := None; prev_read_epoch := None;
     write_epoch := {| next_record := make_record_number epoch sequence; we_aead := aead; we_encrypter := demo_encrypter |};
     extra_write_epochs := []; d_rs := demo_rs |}.

Definition demo13 : DTLS := demo_dtls DTLS1_3_VERSION 6 9 (demo_aead true).

Lemma dtls_record_roundtrip_witness :
  exists n out w' r',
    dtls_seal_record no_rand 100 SSL3_RT_APPLICATION_DATA [104; 105] 6 demo13 = (Some (n, out), w') /\
    dtls_open_record 1000 demo13 (out ++ [1; 2; 3]) =
      (ssl_open_record_success SSL3_RT_APPLICATION_DATA [104; 105], n, zlength out, r').
Proof.
  destruct (dtls_seal_record no_rand 100 SSL3_RT_APPLICATION_DATA [104; 105] 6 demo13) as [[[n out]|] w'] eqn:E;
    [|vm_compute in E; discriminate E].
  destruct (dtls_record_roundtrip no_rand 1000 demo13 demo13 6 slot_current (read_epoch demo13) (write_epoch demo13)
    100 SSL3_RT_APPLICATION_DATA [104; 105] n out w' [1; 2; 3]) as [_ [r' O]].
  - intros k l. discriminate.
  - constructor; try reflexivity.
    + vm_compute. auto.
    + discriminate.
    + vm_compute. split; [discriminate|reflexivity].
    + now split.
    + apply demo_aead_wf.
    + vm_compute. repeat split; discriminate.
    + vm_compute. split; discriminate.
  - split; [right; now split|discriminate].
  - exact E.
  - exists n, out, w', r'. now split.
Defined.

(** The step a datagram causes. *)
Definition accepted_number (x : ssl_open_record_t * DTLSRecordNumber * Z * DTLS) : option DTLSRecordNumber :=
  match x with (ssl_open_record_success _ _, n, _, _) => Some n | _ => None end.

Lemma packet_step now ssl inp : bytes inp ->
  read_step ssl (accepted_number (dtls_open_record now ssl inp)) (snd (dtls_open_record now ssl inp)).
Proof.
  intros B. destruct (dtls_open_record now ssl inp) as [[[res n] c] s] eqn:E.
  replace (accepted_number (res, n, c, s)) with (match res with ssl_open_record_success _ _ => Some n | _ => None end)
    by now destruct res.
  now apply step_packet with (now := now) (inp := inp) (consumed := c).
Qed.

(** A record of the peer, as it is on the wire, and its replay. *)
Definition demo_packet : list Z := [46; 105; 97; 0; 4; 105; 104; 23; 34].

Lemma dtls_no_replay_witness :
  accepted_number (dtls_open_record 1000 demo13 demo_packet) = Some (make_record_number 6 9) /\
  NoDup [make_record_number 6 9].
Proof.
  assert (B : bytes demo_packet) by (repeat constructor; unfold is_byte; lia).
  assert (E1 : accepted_number (dtls_open_record 1000 demo13 demo_packet) = Some (make_record_number 6 9))
    by (vm_compute; reflexivity).
  split; [exact E1|]. set (r1 := snd (dtls_open_record 1000 demo13 demo_packet)).
  assert (E2 : accepted_number (dtls_open_record 1001 r1 demo_packet) = None) by (vm_compute; reflexivity).
  apply (dtls_no_replay demo13 [make_record_number 6 9] (snd (dtls_open_record 1001 r1 demo_packet))).
  - split; [vm_compute; split; [discriminate|reflexivity]|]. split; [reflexivity|]. split; [apply demo_encrypter_ok|].
    now split.
  - pose proof (run_step _ _ _ _ _ (run_nil demo13) (packet_step 1000 demo13 demo_packet B)) as R1.
    rewrite E1 in R1. pose proof (run_step _ _ _ _ _ R1 (packet_step 1001 r1 demo_packet B)) as R2.
    rewrite E2 in R2. exact R2.
Defined.

Lemma dtls_seal_numbers_distinct_witness :
  exists n1 n2 : DTLSRecordNumber, n1 <> n2 /\ NoDup [n2; n1].
Proof.
  destruct (dtls_seal_record no_rand 100 SSL3_RT_HANDSHAKE [104; 105] 6 demo13) as [[[n1 o1]|] w1] eqn:E1;
    [|vm_compute in E1; discriminate E1].
  destruct (dtls_seal_record no_rand 100 SSL3_RT_HANDSHAKE [104; 105] 6 w1) as [[[n2 o2]|] w2] eqn:E2.
  2:{ assert (w1 = snd (dtls_seal_record no_rand 100 SSL3_RT_HANDSHAKE [104; 105] 6 demo13)) as -> by now rewrite E1.
      vm_compute in E2. discriminate E2. }
  pose proof (seal_step _ _ _ _ _ _ _ _ _ _ (seal_nil demo13) E1) as R1.
  pose proof (seal_step _ _ _ _ _ _ _ _ _ _ R1 E2) as R2.
  assert (N : NoDup [n2; n1]).
  { refine (proj1 (dtls_seal_numbers_distinct demo13 [n2; n1] w2 _ R2)). constructor.
    - constructor; [easy|constructor].
    - constructor; [vm_compute; split; [discriminate|reflexivity]|constructor].
    - easy. }
  exists n1, n2. split; [|exact N]. inversion_clear N as [|? ? H _]. intros ->. apply H. now left.
Defined.
