(* ===== verification/Transition.v ===== *)
(** * Labelled steps

    What the interleaved models share: a machine is a partial step function on
    labelled steps; a run is a list of labels; some steps are internal (under
    way already, and taken without anybody asking).  [inevitable] says that the
    internal steps, in whatever order they are taken, lead to a property; it is
    proved with a weight that they decrease. *)
From S2P Require Import Prelude.
From Stdlib Require Import ZArith List Lia Bool.
Import ListNotations.
Open Scope Z_scope.

Section Machine.
Context {State Label : Type}.
Variable step : Label -> State -> option State.

Fixpoint run_labels (s : State) (ls : list Label) : option State :=
  match ls with
  | [] => Some s
  | a :: ls' => let? s' := step a s in run_labels s' ls'
  end.

Definition reaches (s s' : State) : Prop := exists ls, run_labels s ls = Some s'.

Lemma run_labels_app s ls ls' s' : run_labels s ls = Some s' ->
  run_labels s (ls ++ ls') = run_labels s' ls'.
Proof.
  revert s. induction ls as [|a ls IH]; intros s E; cbn [run_labels app] in *; [congruence|].
  destruct (step a s); [|discriminate]. exact (IH _ E).
Qed.

Lemma reaches_step s s' a s'' : reaches s s' -> step a s' = Some s'' -> reaches s s''.
Proof.
  intros [ls E] H. exists (ls ++ [a]). rewrite (run_labels_app _ _ _ _ E). cbn [run_labels]. now rewrite H.
Qed.

Lemma reaches_trans s s' s'' : reaches s s' -> reaches s' s'' -> reaches s s''.
Proof. intros [ls E] [ls' E']. exists (ls ++ ls'). now rewrite (run_labels_app _ _ _ _ E). Qed.

(** What every step keeps, every run keeps. *)
Lemma reaches_invariant (I : State -> Prop) s s' :
  (forall a x y, I x -> step a x = Some y -> I y) -> I s -> reaches s s' -> I s'.
Proof.
  intros H Hs [ls E]. revert s Hs E. induction ls as [|a ls IH]; intros s Hs E; cbn [run_labels] in E.
  - congruence.
  - destruct (step a s) as [s1|] eqn:E1; [|discriminate]. eauto.
Qed.

(** What every step relates, through an invariant, every run relates. *)
Lemma reaches_relation (I : State -> Prop) (R : State -> State -> Prop) s s' :
  (forall x, R x x) -> (forall x y z, R x y -> R y z -> R x z) ->
  (forall a x y, I x -> step a x = Some y -> I y /\ R x y) -> I s -> reaches s s' -> R s s'.
Proof.
  intros Rr Rt H Hs [ls E]. revert s Hs E. induction ls as [|a ls IH]; intros s Hs E; cbn [run_labels] in E.
  - injection E as <-. apply Rr.
  - destruct (step a s) as [s1|] eqn:E1; [|discriminate]. destruct (H _ _ _ Hs E1) as [I1 R1]. eauto.
Qed.

Variable internal : Label -> bool.

Inductive inevitable (P : State -> Prop) (s : State) : Prop :=
  | holds : P s -> inevitable P s
  | comes : (exists a s', internal a = true /\ step a s = Some s') ->
            (forall a s', internal a = true -> step a s = Some s' -> inevitable P s') ->
            inevitable P s.

(** An invariant [I] and a weight: when nothing internal is left, [P] holds. *)
Lemma inevitable_by_weight (I P : State -> Prop) (weight : State -> Z) :
  (forall s, I s -> 0 <= weight s) ->
  (forall s, I s -> P s \/ exists a s', internal a = true /\ step a s = Some s') ->
  (forall a s s', I s -> internal a = true -> step a s = Some s' -> I s' /\ weight s' < weight s) ->
  forall s, I s -> inevitable P s.
Proof.
  intros Hn Hp Hw.
  assert (G : forall m, 0 <= m -> forall s, m = weight s -> I s -> inevitable P s).
  { apply (Z_lt_induction (fun m => forall s, m = weight s -> I s -> inevitable P s)).
    intros m IH s -> Is. destruct (Hp s Is) as [Q|E]; [now apply holds|].
    apply comes; [exact E|]. intros a s' Ha Es. destruct (Hw _ _ _ Is Ha Es) as [Is' Hl].
    apply (IH (weight s')); auto. }
  intros s Is. apply (G (weight s)); auto.
Qed.

End Machine.

(** ** Processes indexed by their number *)

Fixpoint set_nth {A} (i : nat) (x : A) (l : list A) : list A :=
  match i, l with
  | _, [] => []
  | O, _ :: l' => x :: l'
  | S i', y :: l' => y :: set_nth i' x l'
  end.

Section Indexed.
Context {A : Type}.
Implicit Types (x y z : A) (l : list A).

Lemma set_nth_in i x y l : nth_error l i = Some y -> In x (set_nth i x l).
Proof.
  revert i. induction l as [|a l IH]; intros [|i] H; try discriminate; [now left|].
  right. now apply IH.
Qed.

Lemma set_nth_keeps i x y z l :
  nth_error l i = Some y -> In z l -> z <> y -> In z (set_nth i x l).
Proof.
  revert i. induction l as [|a l IH]; intros [|i] H; try discriminate; cbn [set_nth].
  - injection H as ->. intros [->|Hz]; [easy|]. now right.
  - intros [->|Hz] Hn; [now left|]. right. now apply IH.
Qed.

Lemma nth_set_nth i j x y l : nth_error l i = Some y ->
  nth_error (set_nth i x l) j = if Nat.eqb j i then Some x else nth_error l j.
Proof.
  revert i j. induction l as [|a l IH]; intros [|i] j H; try discriminate.
  - now destruct j.
  - destruct j; [reflexivity|]. cbn [set_nth nth_error Nat.eqb]. now apply IH.
Qed.

Lemma nth_set_same i x y l : nth_error l i = Some y -> nth_error (set_nth i x l) i = Some x.
Proof. intros H. now rewrite (nth_set_nth i i x y l H), Nat.eqb_refl. Qed.

Lemma nth_set_nth_default i j x d l : (i < length l)%nat ->
  nth j (set_nth i x l) d = if Nat.eqb j i then x else nth j l d.
Proof.
  intros H. destruct (nth_error l i) as [y|] eqn:E; [|apply nth_error_None in E; lia].
  rewrite <- !nth_default_eq. unfold nth_default. rewrite (nth_set_nth i j x y l E). now destruct (Nat.eqb j i).
Qed.

Lemma set_nth_twice i x y l : set_nth i x (set_nth i y l) = set_nth i x l.
Proof. revert i. induction l as [|z l IH]; intros [|i]; cbn [set_nth]; congruence. Qed.

Lemma length_set_nth i x l : length (set_nth i x l) = length l.
Proof. revert i. induction l as [|y l IH]; intros [|i]; cbn [set_nth length]; auto. Qed.

(** A sum over the elements. *)
Fixpoint total (f : A -> Z) l : Z := match l with [] => 0 | x :: l' => f x + total f l' end.

Lemma total_nonneg f l : (forall x, 0 <= f x) -> 0 <= total f l.
Proof. intros H. induction l as [|x l IH]; cbn [total]; [lia|]. specialize (H x). lia. Qed.

Lemma total_set f i x y l : nth_error l i = Some y -> total f (set_nth i x l) = total f l - f y + f x.
Proof.
  revert i. induction l as [|a l IH]; intros [|i] H; try discriminate; cbn [set_nth total].
  - injection H as ->. lia.
  - rewrite (IH i H). lia.
Qed.

End Indexed.
