(* ===== verification/DtlsBitmap.v ===== *)
(** * Which bytes of a handshake message are there: [DTLSMessageBitmap]

    [ssl/internal.h] and the first part of [ssl/d1_both.cc].  A bitmap has one
    bit per byte of a message, keeps the index of its first byte that is not
    full and drops its memory once everything is marked.  DTLS uses it for what
    it has received of a message and for what the peer has acknowledged.  The
    reference is a set of positions, looked through one by one. *)
From S2P Require Import Prelude Transition.
From Stdlib Require Import ZArith List Lia Bool.
Import ListNotations.
Open Scope Z_scope.

Record DTLSMessageBitmap := { bytes_ : list Z; first_unmarked_byte_ : Z }.

(** [DTLSMessageBitmap::Range] *)
Record Range := { range_start : Z; range_end : Z }.

Definition byte_at (b : list Z) (i : Z) : Z := nth (Z.to_nat i) b 0.
Definition put_byte (i v : Z) (b : list Z) : list Z := set_nth (Z.to_nat i) v b.

(** ** Operations *)

Definition BitRange (start end_ : Z) : Z :=
  u8 (Z.land (u32 (Z.lnot (u32 (Z.shiftl 1 start) - 1))) (u32 (Z.shiftl 1 end_) - 1)).

(** A loop that counts up while [p] holds, [n] rounds at most. *)
Fixpoint while_loop (p : Z -> bool) (n : nat) (i : Z) : Z :=
  match n with O => i | S n' => if p i then while_loop p n' (i + 1) else i end.

(** [b & (1u << i)] *)
Definition bit_set (b i : Z) : bool := negb (Z.land b (Z.shiftl 1 i) =? 0).

Definition FirstUnmarkedRangeInByte (b : Z) : Range :=
  let start := while_loop (bit_set b) 8 0 in
  let end_ := while_loop (fun i => negb (bit_set b i)) (Z.to_nat (8 - start)) start in
  {| range_start := start; range_end := end_ |}.

(** The loops over bytes: from [i], while there is one and it is [v]. *)
Definition byte_loop (v : Z) (b : list Z) (i : Z) : Z :=
  while_loop (fun i => (i <? zlength b) && (byte_at b i =? v)) (length b) i.

Fixpoint fill_bytes (n : nat) (i : Z) (b : list Z) : list Z :=
  match n with O => b | S n' => fill_bytes n' (i + 1) (put_byte i 0xff b) end.

(** The middle of [MarkRange], with [start] < [end] in range. *)
Definition mark_bits (start end_ : Z) (b : list Z) : list Z :=
  let s := Z.shiftr start 3 in
  let e := Z.shiftr end_ 3 in
  if s =? e then put_byte s (Z.lor (byte_at b s) (BitRange (Z.land start 7) (Z.land end_ 7))) b
  else
    let b := put_byte s (Z.lor (byte_at b s) (BitRange (Z.land start 7) 8)) b in
    let b := fill_bytes (Z.to_nat (e - (s + 1))) (s + 1) b in
    if negb (Z.land end_ 7 =? 0) then put_byte e (Z.lor (byte_at b e) (BitRange 0 (Z.land end_ 7))) b else b.

Definition MarkRange (start end_ : Z) (m : DTLSMessageBitmap) : DTLSMessageBitmap :=
  let size := u64 (Z.shiftl (zlength (bytes_ m)) 3) in
  let start := Z.max start (u64 (Z.shiftl (first_unmarked_byte_ m) 3)) in
  let start := Z.min start size in
  let end_ := Z.min end_ size in
  if end_ <=? start then m
  else
    let b := mark_bits start end_ (bytes_ m) in
    let first := byte_loop 0xff b (first_unmarked_byte_ m) in
    if zlength b <=? first then {| bytes_ := []; first_unmarked_byte_ := 0 |}
    else {| bytes_ := b; first_unmarked_byte_ := first |}.

(** [Init]; [alloc] is whether [Array::Init] gets its memory. *)
Definition Bitmap_Init (alloc : Z -> bool) (num_bits : Z) : option DTLSMessageBitmap :=
  if u64 (num_bits + 7) <? num_bits then None
  else
    let num_bytes := (num_bits + 7) / 8 in
    let bits_rounded := num_bytes * 8 in
    if negb (alloc num_bytes) then None
    else
      let m := MarkRange num_bits bits_rounded
                 {| bytes_ := repeat 0 (Z.to_nat num_bytes); first_unmarked_byte_ := 0 |} in
      Some {| bytes_ := bytes_ m; first_unmarked_byte_ := 0 |}.

Definition NextUnmarkedRange (start : Z) (m : DTLSMessageBitmap) : Range :=
  let b := bytes_ m in
  let none := {| range_start := 0; range_end := 0 |} in
  let start := Z.max start (u64 (Z.shiftl (first_unmarked_byte_ m) 3)) in
  let idx := Z.shiftr start 3 in
  if zlength b <=? idx then none
  else
    let byte := Z.lor (byte_at b idx) (BitRange 0 (Z.land start 7)) in
    let full := byte =? 0xff in
    let idx := if full then byte_loop 0xff b (idx + 1) else idx in
    if full && (zlength b <=? idx) then none
    else
      let byte := if full then byte_at b idx else byte in
      let range := FirstUnmarkedRangeInByte byte in
      let s := range_start range + Z.shiftl idx 3 in
      if negb (range_end range =? 8) then {| range_start := s; range_end := range_end range + Z.shiftl idx 3 |}
      else
        let idx := byte_loop 0 b (idx + 1) in
        let e := Z.shiftl idx 3 in
        let extra := FirstUnmarkedRangeInByte (byte_at b idx) in
        {| range_start := s;
           range_end := if (idx <? zlength b) && (range_start extra =? 0) then e + range_end extra else e |}.

Definition IsComplete (m : DTLSMessageBitmap) : bool := match bytes_ m with [] => true | _ => false end.

(** ** The reference: positions looked at one by one *)

(** The next range of positions below [n] outside [marked]. *)
Definition next_unmarked (n : Z) (marked : Z -> bool) (start : Z) : Range :=
  let s := while_loop marked (Z.to_nat (n - start)) start in
  if n <=? s then {| range_start := 0; range_end := 0 |}
  else {| range_start := s; range_end := while_loop (fun i => negb (marked i)) (Z.to_nat (n - s)) s |}.

Definition all_marked (n : Z) (marked : Z -> bool) : bool := n <=? while_loop marked (Z.to_nat n) 0.

Definition in_range (start end_ i : Z) : bool := (start <=? i) && (i <? end_).

(** ** Loops *)

Lemma while_loop_spec p n : forall i, let r := while_loop p n i in
  i <= r <= i + Z.of_nat n /\ (forall j, i <= j < r -> p j = true) /\ (r = i + Z.of_nat n \/ p r = false).
Proof.
  induction n as [|n IH]; intros i; cbn [while_loop]; cbv zeta.
  - split; [lia|]. split; [lia|]. left. lia.
  - destruct (p i) eqn:P.
    + destruct (IH (i + 1)) as (H1 & H2 & H3). split; [lia|]. split; [|destruct H3; [left; lia|now right]].
      intros j Hj. destruct (Z.eq_dec j i) as [->|]; [exact P|]. apply H2. lia.
    + split; [lia|]. split; [lia|]. now right.
Qed.

Lemma byte_loop_spec v b i : 0 <= i -> let r := byte_loop v b i in
  i <= r /\ (i <= zlength b -> r <= zlength b) /\ (forall j, i <= j < r -> j < zlength b /\ byte_at b j = v) /\
  (r < zlength b -> byte_at b r <> v).
Proof.
  intros Hi r. destruct (while_loop_spec (fun i => (i <? zlength b) && (byte_at b i =? v)) (length b) i) as (H1 & H2 & H3).
  fold (byte_loop v b i) in H1, H2, H3. fold r in H1, H2, H3.
  assert (H : forall j, i <= j < r -> j < zlength b /\ byte_at b j = v) by (intros j Hj; specialize (H2 j Hj); bsplit; auto).
  split; [lia|]. split; [|split; [exact H|]].
  - intros L. destruct (Z.eq_dec r i); [lia|]. destruct (H (r - 1)); lia.
  - intros L. destruct H3 as [H3|H3]; [unfold zlength in L; lia|].
    destruct (Z.ltb_spec r (zlength b)); [|lia]. cbn [andb] in H3. now apply Z.eqb_neq.
Qed.

(** ** Bits *)

Lemma testbit_above_byte v i : is_byte v -> 8 <= i -> Z.testbit v i = false.
Proof.
  intros Hv Hi. rewrite <- (Z.mod_small v (2 ^ 8)) by exact Hv. apply Z.mod_pow2_bits_high. lia.
Qed.

Lemma byte_all_bits v (x : bool) : is_byte v ->
  (v = (if x then 255 else 0) <-> forall i, 0 <= i < 8 -> Z.testbit v i = x).
Proof.
  intros Hv. split.
  - intros -> i Hi. assert (i = 0 \/ i = 1 \/ i = 2 \/ i = 3 \/ i = 4 \/ i = 5 \/ i = 6 \/ i = 7) as H by lia.
    destruct x; intuition (subst; reflexivity).
  - intros H. apply Z.bits_inj'. intros i Hi. destruct (Z.ltb_spec i 8).
    + rewrite H by lia. destruct x; [|now rewrite Z.bits_0]. change 255 with (Z.ones 8). now rewrite Z.ones_spec_low by lia.
    + rewrite testbit_above_byte by assumption. symmetry. apply testbit_above_byte; [|assumption].
      unfold is_byte. destruct x; lia.
Qed.

Lemma bit_set_spec b i : 0 <= i -> bit_set b i = Z.testbit b i.
Proof.
  intros Hi. unfold bit_set. rewrite Z.shiftl_1_l.
  destruct (Z.testbit b i) eqn:T.
  - destruct (Z.eqb_spec (Z.land b (2 ^ i)) 0) as [E|]; [|reflexivity].
    apply (f_equal (fun x => Z.testbit x i)) in E.
    rewrite Z.land_spec, T, Z.pow2_bits_true, Z.bits_0 in E by lia. discriminate.
  - destruct (Z.eqb_spec (Z.land b (2 ^ i)) 0) as [E|N]; [reflexivity|]. elim N. apply Z.bits_inj'. intros j Hj.
    rewrite Z.land_spec, Z.bits_0. destruct (Z.eq_dec i j) as [<-|D]; [now rewrite T|].
    rewrite Z.pow2_bits_false by lia. apply andb_false_r.
Qed.

Lemma BitRange_bits s e i : 0 <= s <= 8 -> 0 <= e <= 8 -> 0 <= i < 8 -> Z.testbit (BitRange s e) i = in_range s e i.
Proof.
  intros Hs He Hi.
  assert (C : forallb (fun s => forallb (fun e => forallb (fun i =>
      Bool.eqb (Z.testbit (BitRange (Z.of_nat s) (Z.of_nat e)) (Z.of_nat i)) (in_range (Z.of_nat s) (Z.of_nat e) (Z.of_nat i)))
      (seq 0 8)) (seq 0 9)) (seq 0 9) = true) by (vm_compute; reflexivity).
  rewrite forallb_forall in C. specialize (C (Z.to_nat s) ltac:(apply in_seq; lia)).
  rewrite forallb_forall in C. specialize (C (Z.to_nat e) ltac:(apply in_seq; lia)).
  rewrite forallb_forall in C. specialize (C (Z.to_nat i) ltac:(apply in_seq; lia)).
  rewrite !Z2Nat.id in C by lia. now apply eqb_prop.
Qed.

Lemma BitRange_byte s e : is_byte (BitRange s e).
Proof. apply (wrap_range 8). lia. Qed.

Lemma lor_byte a b : is_byte a -> is_byte b -> is_byte (Z.lor a b).
Proof. apply (lor_range 8). lia. Qed.

(** The first range of clear bits in a byte that is not full. *)
Lemma FirstUnmarked_spec b : is_byte b -> let r := FirstUnmarkedRangeInByte b in
  0 <= range_start r <= range_end r /\ range_end r <= 8 /\
  (forall i, 0 <= i < range_start r -> Z.testbit b i = true) /\
  (forall i, range_start r <= i < range_end r -> Z.testbit b i = false) /\
  (range_start r < 8 -> range_start r < range_end r) /\
  (range_end r < 8 -> Z.testbit b (range_end r) = true) /\ (b <> 255 -> range_start r < 8).
Proof.
  intros Hb. unfold FirstUnmarkedRangeInByte. cbv zeta. cbn [range_start range_end].
  destruct (while_loop_spec (bit_set b) 8 0) as (A1 & A2 & A3). set (s := while_loop (bit_set b) 8 0) in *.
  destruct (while_loop_spec (fun i => negb (bit_set b i)) (Z.to_nat (8 - s)) s) as (B1 & B2 & B3).
  set (e := while_loop _ (Z.to_nat (8 - s)) s) in *. rewrite Z2Nat.id in B1, B3 by lia.
  assert (F : forall i, s <= i < e -> Z.testbit b i = false).
  { intros i Hi. specialize (B2 i Hi). rewrite bit_set_spec in B2 by lia. now destruct (Z.testbit b i). }
  assert (T : forall i, 0 <= i < s -> Z.testbit b i = true) by (intros i Hi; rewrite <- bit_set_spec by lia; auto).
  repeat split; auto; try lia.
  - intros L. destruct A3 as [A3|A3]; [lia|]. destruct B3 as [B3|B3]; [lia|].
    destruct (Z.eq_dec s e) as [E|]; [|lia]. rewrite <- E, A3 in B3. discriminate.
  - intros L. destruct B3 as [B3|B3]; [lia|]. rewrite bit_set_spec in B3 by lia. now destruct (Z.testbit b e).
  - intros N. destruct (Z.ltb_spec s 8); [assumption|]. elim N. apply (byte_all_bits b true Hb).
    intros i Hi. apply T. lia.
Qed.

(** ** Positions in a list of bytes *)

Definition bit (b : list Z) (i : Z) : bool := Z.testbit (byte_at b (i / 8)) (i mod 8).

Lemma zlength_put i v b : zlength (put_byte i v b) = zlength b.
Proof. unfold zlength, put_byte. now rewrite length_set_nth. Qed.

Lemma byte_at_put i j v b : 0 <= i < zlength b -> 0 <= j ->
  byte_at (put_byte i v b) j = if j =? i then v else byte_at b j.
Proof.
  unfold zlength, byte_at, put_byte. intros Hi Hj. rewrite nth_set_nth_default by lia.
  destruct (Z.eqb_spec j i), (Nat.eqb_spec (Z.to_nat j) (Z.to_nat i)); auto; lia.
Qed.

Lemma bytes_byte_at b i : bytes b -> is_byte (byte_at b i).
Proof.
  intros H. unfold byte_at. destruct (Nat.lt_ge_cases (Z.to_nat i) (length b)).
  - now apply (proj1 (Forall_nth is_byte b) H).
  - rewrite nth_overflow by assumption. unfold is_byte. lia.
Qed.

Lemma bytes_put i v b : bytes b -> is_byte v -> bytes (put_byte i v b).
Proof.
  intros Hb Hv. unfold put_byte. revert b Hb. generalize (Z.to_nat i) as k.
  intros k b Hb. revert k. induction Hb as [|x b Hx Hb IH]; intros [|k]; cbn [set_nth]; constructor; auto. apply IH.
Qed.

Lemma bit_put i v b j : 0 <= i < zlength b -> 0 <= j ->
  bit (put_byte i v b) j = if j / 8 =? i then Z.testbit v (j mod 8) else bit b j.
Proof. intros Hi Hj. unfold bit. rewrite byte_at_put by (try apply Z.div_pos; lia). now destruct (j / 8 =? i). Qed.

Lemma bit_lor i s e b j : 0 <= i < zlength b -> 0 <= s <= 8 -> 0 <= e <= 8 -> 0 <= j ->
  bit (put_byte i (Z.lor (byte_at b i) (BitRange s e)) b) j = bit b j || ((j / 8 =? i) && in_range s e (j mod 8)).
Proof.
  intros Hi Hs He Hj. rewrite bit_put by assumption. destruct (Z.eqb_spec (j / 8) i) as [E|]; cbn [andb].
  - pose proof (Z.mod_pos_bound j 8 ltac:(lia)). rewrite Z.lor_spec, BitRange_bits by lia. unfold bit. now rewrite E.
  - now rewrite orb_false_r.
Qed.

Lemma fill_bytes_spec n : forall i b, 0 <= i -> i + Z.of_nat n <= zlength b -> bytes b ->
  let b' := fill_bytes n i b in
  zlength b' = zlength b /\ bytes b' /\
  forall j, 0 <= j -> bit b' j = bit b j || in_range i (i + Z.of_nat n) (j / 8).
Proof.
  induction n as [|n IH]; intros i b Hi Hn Hb; cbn [fill_bytes]; cbv zeta.
  - split; [reflexivity|]. split; [exact Hb|]. intros j Hj. unfold in_range.
    destruct (Z.leb_spec i (j / 8)), (Z.ltb_spec (j / 8) (i + Z.of_nat 0)); try lia; cbn [andb]; now rewrite orb_false_r.
  - destruct (IH (i + 1) (put_byte i 255 b)) as (L & B & H); [lia|rewrite zlength_put; lia|apply bytes_put; unfold is_byte; auto; lia|].
    rewrite zlength_put in L. split; [exact L|]. split; [exact B|]. intros j Hj. rewrite H, bit_put by lia.
    unfold in_range. destruct (Z.eqb_spec (j / 8) i) as [E|N].
    + replace (Z.testbit 255 (j mod 8)) with true.
      * rewrite E. destruct (Z.leb_spec i i), (Z.ltb_spec i (i + Z.of_nat (S n))); lia.
      * symmetry. apply (proj1 (byte_all_bits 255 true ltac:(unfold is_byte; lia)) eq_refl). apply Z.mod_pos_bound. lia.
    + f_equal. destruct (Z.leb_spec (i + 1) (j / 8)), (Z.leb_spec i (j / 8)), (Z.ltb_spec (j / 8) (i + 1 + Z.of_nat n)),
        (Z.ltb_spec (j / 8) (i + Z.of_nat (S n))); try reflexivity; lia.
Qed.

Lemma shiftr3 x : Z.shiftr x 3 = x / 8.
Proof. now rewrite shiftr_div by lia. Qed.

Lemma land7 x : Z.land x 7 = x mod 8.
Proof. now rewrite (land_ones_mod x 3) by lia. Qed.

Lemma mark_bits_spec s e b : 0 <= s < e -> e <= 8 * zlength b -> bytes b ->
  let b' := mark_bits s e b in
  zlength b' = zlength b /\ bytes b' /\ forall j, 0 <= j -> bit b' j = bit b j || in_range s e j.
Proof.
  intros Hs He Hb. unfold mark_bits. rewrite !shiftr3, !land7. cbv zeta.
  pose proof (Z.mod_pos_bound s 8 ltac:(lia)). pose proof (Z.mod_pos_bound e 8 ltac:(lia)).
  pose proof (Z.div_mod s 8 ltac:(lia)). pose proof (Z.div_mod e 8 ltac:(lia)).
  assert (HS : forall k x y, bytes (put_byte k (Z.lor (byte_at b k) (BitRange x y)) b))
    by (intros; apply bytes_put; auto using lor_byte, bytes_byte_at, BitRange_byte).
  destruct (Z.eqb_spec (s / 8) (e / 8)) as [E|N].
  - rewrite zlength_put. split; [reflexivity|]. split; [apply HS|]. intros j Hj. rewrite bit_lor by lia. f_equal.
    pose proof (Z.mod_pos_bound j 8 ltac:(lia)). pose proof (Z.div_mod j 8 ltac:(lia)). unfold in_range.
    destruct (Z.eqb_spec (j / 8) (s / 8)), (Z.leb_spec (s mod 8) (j mod 8)), (Z.ltb_spec (j mod 8) (e mod 8)),
      (Z.leb_spec s j), (Z.ltb_spec j e); try reflexivity; lia.
  - set (b1 := put_byte (s / 8) _ b).
    assert (L1 : zlength b1 = zlength b) by apply zlength_put.
    destruct (fill_bytes_spec (Z.to_nat (e / 8 - (s / 8 + 1))) (s / 8 + 1) b1) as (L2 & B2 & F2);
      [lia|rewrite Z2Nat.id by lia; lia|apply HS|]. rewrite Z2Nat.id in F2 by lia. set (b2 := fill_bytes _ _ b1) in *.
    assert (G : forall j, 0 <= j -> bit b2 j = bit b j || in_range s (8 * (e / 8)) j).
    { intros j Hj. rewrite F2 by lia. unfold b1. rewrite bit_lor, <- orb_assoc by lia. f_equal.
      pose proof (Z.mod_pos_bound j 8 ltac:(lia)). pose proof (Z.div_mod j 8 ltac:(lia)). unfold in_range.
      destruct (Z.eqb_spec (j / 8) (s / 8)), (Z.leb_spec (s mod 8) (j mod 8)), (Z.ltb_spec (j mod 8) 8),
        (Z.leb_spec (s / 8 + 1) (j / 8)), (Z.ltb_spec (j / 8) (s / 8 + 1 + (e / 8 - (s / 8 + 1)))),
        (Z.leb_spec s j), (Z.ltb_spec j (8 * (e / 8))); try reflexivity; lia. }
    destruct (Z.eqb_spec (e mod 8) 0) as [E0|E0]; cbn [negb].
    + split; [lia|]. split; [exact B2|]. intros j Hj. rewrite G by lia. replace (8 * (e / 8)) with e by lia. reflexivity.
    + rewrite zlength_put. split; [lia|]. split; [apply bytes_put; auto using lor_byte, bytes_byte_at, BitRange_byte|].
      intros j Hj. rewrite bit_lor, G, <- orb_assoc by lia. f_equal.
      pose proof (Z.mod_pos_bound j 8 ltac:(lia)). pose proof (Z.div_mod j 8 ltac:(lia)). unfold in_range.
      destruct (Z.eqb_spec (j / 8) (e / 8)), (Z.leb_spec 0 (j mod 8)), (Z.ltb_spec (j mod 8) (e mod 8)),
        (Z.leb_spec s j), (Z.ltb_spec j (8 * (e / 8))), (Z.ltb_spec j e); try reflexivity; lia.
Qed.

Lemma byte_bits b k (x : bool) : bytes b -> 0 <= k ->
  (byte_at b k = (if x then 255 else 0) <-> forall j, 8 * k <= j < 8 * k + 8 -> bit b j = x).
Proof.
  intros Hb Hk. rewrite (byte_all_bits _ x (bytes_byte_at b k Hb)). unfold bit. split; intros H j Hj.
  - replace (j / 8) with k by (apply (Z.div_unique j 8 k (j - 8 * k)); lia). apply H. apply Z.mod_pos_bound. lia.
  - specialize (H (8 * k + j) ltac:(lia)). replace ((8 * k + j) / 8) with k in H by (apply (Z.div_unique _ 8 k j); lia).
    now replace ((8 * k + j) mod 8) with j in H by (apply (Z.mod_unique _ 8 k j); lia).
Qed.

(** ** What a bitmap stands for *)

(** [n] positions of which [m] are marked, while not all are. *)
Record shows (n : Z) (m : Z -> bool) (x : DTLSMessageBitmap) : Prop := {
  sh_length : zlength (bytes_ x) = (n + 7) / 8;
  sh_bytes : bytes (bytes_ x);
  sh_bits : forall i, 0 <= i < 8 * zlength (bytes_ x) -> bit (bytes_ x) i = m i || (n <=? i);
  sh_first : 0 <= first_unmarked_byte_ x < zlength (bytes_ x);
  sh_full : forall k, 0 <= k < first_unmarked_byte_ x -> byte_at (bytes_ x) k = 255;
  sh_open : byte_at (bytes_ x) (first_unmarked_byte_ x) <> 255 }.

Definition represents (n : Z) (m : Z -> bool) (x : DTLSMessageBitmap) : Prop :=
  0 <= n < 2 ^ 64 - 7 /\
  if IsComplete x then first_unmarked_byte_ x = 0 /\ forall i, 0 <= i < n -> m i = true else shows n m x.

Lemma shows_open n m x : 0 <= n -> shows n m x -> exists i, 0 <= i < n /\ m i = false.
Proof.
  intros Hn [L B T F K O].
  destruct (forallb (fun i => bit (bytes_ x) (8 * first_unmarked_byte_ x + Z.of_nat i)) (seq 0 8)) eqn:A.
  - elim O. apply (byte_bits (bytes_ x) _ true B (proj1 F)). intros j Hj. rewrite forallb_forall in A.
    specialize (A (Z.to_nat (j - 8 * first_unmarked_byte_ x)) ltac:(apply in_seq; lia)). rewrite Z2Nat.id in A by lia.
    now replace (8 * first_unmarked_byte_ x + (j - 8 * first_unmarked_byte_ x)) with j in A by lia.
  - assert (E : exists i, In i (seq 0 8) /\ bit (bytes_ x) (8 * first_unmarked_byte_ x + Z.of_nat i) = false).
    { clear -A. induction (seq 0 8) as [|i l IH]; [discriminate|]. cbn [forallb] in A.
      destruct (bit (bytes_ x) _) eqn:E; [|exists i; split; [now left|exact E]].
      destruct (IH A) as (j & Hj & Ej). exists j. split; [now right|exact Ej]. }
    destruct E as (i & Hi & E). apply in_seq in Hi. rewrite T in E by lia. apply orb_false_iff in E as [E1 E2].
    apply Z.leb_gt in E2. exists (8 * first_unmarked_byte_ x + Z.of_nat i). split; [lia|exact E1].
Qed.

Lemma IsComplete_spec n m x : represents n m x -> (IsComplete x = true <-> forall i, 0 <= i < n -> m i = true).
Proof.
  intros [Hn H]. destruct (IsComplete x) eqn:E; [tauto|]. split; [discriminate|]. intros A.
  destruct (shows_open n m x (proj1 Hn) H) as (i & Hi & F). rewrite (A i Hi) in F. discriminate.
Qed.

Lemma represents_ext n m m' x : (forall i, 0 <= i < n -> m i = m' i) -> represents n m x -> represents n m' x.
Proof.
  intros E [Hn H]. split; [exact Hn|]. destruct (IsComplete x).
  - destruct H as [F H]. split; [exact F|]. intros i Hi. rewrite <- E by exact Hi. auto.
  - destruct H as [L B T F K O]. split; auto. intros i Hi. rewrite T by exact Hi.
    destruct (Z.leb_spec n i); [now rewrite !orb_true_r|]. rewrite E by lia. reflexivity.
Qed.

Lemma bits_size n k : 0 <= n < 2 ^ 64 - 7 -> 0 <= k <= (n + 7) / 8 -> u64 (Z.shiftl k 3) = 8 * k.
Proof.
  intros Hn Hk. rewrite Z.shiftl_mul_pow2 by lia. pose proof (Z.div_mod (n + 7) 8 ltac:(lia)).
  pose proof (Z.mod_pos_bound (n + 7) 8 ltac:(lia)). rewrite wrap_small; lia.
Qed.

(** After the bits have been set: skip what is full, drop what is complete. *)
Lemma finish_mark n m b first : 0 <= n < 2 ^ 64 - 7 -> zlength b = (n + 7) / 8 -> bytes b -> 0 <= first <= zlength b ->
  (forall i, 0 <= i < 8 * zlength b -> bit b i = m i || (n <=? i)) ->
  (forall k, 0 <= k < first -> byte_at b k = 255) ->
  represents n m (if zlength b <=? byte_loop 255 b first then {| bytes_ := []; first_unmarked_byte_ := 0 |}
                  else {| bytes_ := b; first_unmarked_byte_ := byte_loop 255 b first |}).
Proof.
  intros Hn L B F T K. destruct (byte_loop_spec 255 b first (proj1 F)) as (R1 & R2 & R3 & R4).
  set (r := byte_loop 255 b first) in *. specialize (R2 (proj2 F)). split; [exact Hn|].
  assert (K' : forall k, 0 <= k < r -> byte_at b k = 255).
  { intros k Hk. destruct (Z.ltb_spec k first); [apply K; lia|]. apply R3. lia. }
  destruct (Z.leb_spec (zlength b) r); cbn [IsComplete bytes_ first_unmarked_byte_].
  - split; [reflexivity|]. intros i Hi. pose proof (Z.div_mod (n + 7) 8 ltac:(lia)).
    pose proof (Z.mod_pos_bound (n + 7) 8 ltac:(lia)). specialize (T i ltac:(lia)).
    rewrite (proj1 (byte_bits b (i / 8) true B ltac:(apply Z.div_pos; lia))) in T.
    + destruct (Z.leb_spec n i); [lia|]. now rewrite orb_false_r in T.
    + apply K'. split; [apply Z.div_pos; lia|]. apply Z.div_lt_upper_bound; lia.
    + pose proof (Z.div_mod i 8 ltac:(lia)). pose proof (Z.mod_pos_bound i 8 ltac:(lia)). lia.
  - unfold IsComplete. cbn [bytes_]. destruct b as [|v b0] eqn:E; [change (zlength (@nil Z)) with 0 in *; lia|]. rewrite <- E in *.
    split; cbn [bytes_ first_unmarked_byte_]; auto. lia.
Qed.

Lemma MarkRange_represents n m x s e : represents n m x -> 0 <= s <= e ->
  represents n (fun i => m i || in_range s e i) (MarkRange s e x).
Proof.
  intros [Hn H] Hs. unfold MarkRange. destruct (IsComplete x) eqn:C.
  - destruct H as [F A]. unfold IsComplete in C. destruct (bytes_ x) eqn:E; [|discriminate].
    change (u64 (Z.shiftl (zlength (@nil Z)) 3)) with 0. rewrite F. change (u64 (Z.shiftl 0 3)) with 0.
    destruct (Z.leb_spec (Z.min e 0) (Z.min (Z.max s 0) 0)); [|lia].
    split; [exact Hn|]. unfold IsComplete. rewrite E. split; [exact F|]. intros i Hi. now rewrite A.
  - destruct H as [L B T F K O]. rewrite !(bits_size n) by lia. set (len := zlength (bytes_ x)) in *.
    set (fi := first_unmarked_byte_ x) in *.
    assert (P : forall i, 0 <= i < 8 * fi -> bit (bytes_ x) i = true).
    { intros i Hi. pose proof (Z.div_mod i 8 ltac:(lia)). pose proof (Z.mod_pos_bound i 8 ltac:(lia)).
      apply (proj1 (byte_bits (bytes_ x) (i / 8) true B ltac:(lia))); [apply K|]; lia. }
    set (s1 := Z.min (Z.max s (8 * fi)) (8 * len)). set (e1 := Z.min e (8 * len)).
    assert (Q : forall i, 0 <= i < 8 * len -> bit (bytes_ x) i || in_range s1 e1 i = (m i || in_range s e i) || (n <=? i)).
    { intros i Hi. rewrite T by exact Hi. destruct (Z.ltb_spec i (8 * fi)) as [J|J].
      - specialize (P i ltac:(lia)). rewrite T in P by exact Hi. destruct (m i); [reflexivity|]. cbn [orb] in P |- *.
        rewrite P. now rewrite orb_true_r.
      - assert (in_range s1 e1 i = in_range s e i) as ->.
        { unfold in_range, s1, e1. destruct (Z.leb_spec (Z.min (Z.max s (8 * fi)) (8 * len)) i), (Z.ltb_spec i (Z.min e (8 * len))),
            (Z.leb_spec s i), (Z.ltb_spec i e); try reflexivity; lia. }
        destruct (m i), (in_range s e i), (n <=? i); reflexivity. }
    destruct (Z.leb_spec e1 s1) as [J|J].
    + split; [exact Hn|]. rewrite C. split; auto. intros i Hi. rewrite <- Q by exact Hi. unfold in_range.
      destruct (Z.leb_spec s1 i), (Z.ltb_spec i e1); try lia; now rewrite orb_false_r.
    + destruct (mark_bits_spec s1 e1 (bytes_ x)) as (L1 & B1 & T1); [lia|fold len; lia|exact B|].
      apply finish_mark; auto; try lia.
      * intros i Hi. rewrite T1 by lia. apply Q. lia.
      * intros k Hk. apply (byte_bits _ k true B1 (proj1 Hk)). intros j Hj. rewrite T1, P by lia. reflexivity.
Qed.

Lemma bit_zeros k i : bit (repeat 0 k) i = false.
Proof.
  unfold bit, byte_at. replace (nth _ (repeat 0 k) 0) with 0; [apply Z.bits_0|].
  destruct (nth_in_or_default (Z.to_nat (i / 8)) (repeat 0 k) 0) as [H|H]; [|now rewrite H].
  symmetry. now apply repeat_spec in H.
Qed.

(** Marking the padding of the last byte. *)
Lemma mark_padding n : let k := (n + 7) / 8 in
  0 < n < 2 ^ 64 - 7 ->
  let b := bytes_ (MarkRange n (k * 8) {| bytes_ := repeat 0 (Z.to_nat k); first_unmarked_byte_ := 0 |}) in
  zlength b = k /\ bytes b /\ forall i, 0 <= i < 8 * k -> bit b i = (n <=? i).
Proof.
  intros k Hn. set (z := repeat 0 (Z.to_nat k)).
  pose proof (Z.div_mod (n + 7) 8 ltac:(lia)) as D. pose proof (Z.mod_pos_bound (n + 7) 8 ltac:(lia)). fold k in D.
  assert (Lz : zlength z = k) by (unfold zlength, z; rewrite repeat_length, Z2Nat.id; lia).
  assert (Bz : bytes z) by (apply Forall_forall; intros v Hv; apply repeat_spec in Hv; subst v; unfold is_byte; lia).
  unfold MarkRange. cbn [bytes_ first_unmarked_byte_]. rewrite Lz, !(bits_size n) by (fold k; lia).
  replace (Z.min (k * 8) (8 * k)) with (8 * k) by lia. replace (Z.min (Z.max n (8 * 0)) (8 * k)) with n by lia.
  destruct (Z.leb_spec (8 * k) n); cbn [bytes_]; cbv zeta.
  - split; [exact Lz|]. split; [exact Bz|]. intros i Hi. unfold z. rewrite bit_zeros. symmetry. apply Z.leb_gt. lia.
  - destruct (mark_bits_spec n (8 * k) z) as (L1 & B1 & T1); [lia|lia|exact Bz|].
    assert (T2 : forall i, 0 <= i < 8 * k -> bit (mark_bits n (8 * k) z) i = (n <=? i)).
    { intros i Hi. rewrite T1 by lia. unfold z at 1. rewrite bit_zeros. unfold in_range. cbn [orb].
      destruct (Z.ltb_spec i (8 * k)); [|lia]. now rewrite andb_true_r. }
    destruct (byte_loop_spec 255 (mark_bits n (8 * k) z) 0 ltac:(lia)) as (_ & _ & R3 & _).
    destruct (Z.leb_spec (zlength (mark_bits n (8 * k) z)) (byte_loop 255 (mark_bits n (8 * k) z) 0)) as [Le|];
      cbn [bytes_]; [|rewrite L1; auto].
    destruct (R3 0 ltac:(lia)) as [_ R]. pose proof (proj1 (byte_bits _ 0 true B1 ltac:(lia)) R 0 ltac:(lia)) as X.
    rewrite T2 in X by lia. apply Z.leb_le in X. lia.
Qed.

Lemma Init_represents alloc n x : 0 <= n < 2 ^ 64 - 7 -> Bitmap_Init alloc n = Some x ->
  represents n (fun _ => false) x.
Proof.
  intros Hn E. unfold Bitmap_Init in E. rewrite (wrap_small 64 (n + 7)) in E by lia.
  destruct (Z.ltb_spec (n + 7) n); [lia|]. destruct (alloc _); [|discriminate]. cbn [negb] in E.
  injection E as <-. split; [exact Hn|].
  destruct (Z.eq_dec n 0) as [->|N]; [split; [reflexivity|lia]|].
  destruct (mark_padding n ltac:(lia)) as (L & B & T). set (b := bytes_ (MarkRange _ _ _)) in *.
  pose proof (Z.div_mod (n + 7) 8 ltac:(lia)). pose proof (Z.mod_pos_bound (n + 7) 8 ltac:(lia)).
  unfold IsComplete. cbn [bytes_]. destruct b as [|v b0] eqn:E; [change (zlength (@nil Z)) with 0 in L; lia|].
  rewrite <- E in *. split; cbn [bytes_ first_unmarked_byte_]; auto; try lia.
  - intros i Hi. rewrite T by lia. reflexivity.
  - intros X. pose proof (proj1 (byte_bits _ 0 true B ltac:(lia)) X 0 ltac:(lia)) as Y. rewrite T in Y by lia.
    apply Z.leb_le in Y. lia.
Qed.

(** ** The next range *)

Lemma next_unique n m s a e : s <= a < e -> e <= n -> (forall i, s <= i < a -> m i = true) ->
  (forall i, a <= i < e -> m i = false) -> (e = n \/ m e = true) ->
  next_unmarked n m s = {| range_start := a; range_end := e |}.
Proof.
  intros H1 H2 H3 H4 H5. unfold next_unmarked.
  destruct (while_loop_spec m (Z.to_nat (n - s)) s) as (A1 & A2 & A3). set (r := while_loop m _ s) in *.
  rewrite Z2Nat.id in A1, A3 by lia.
  assert (r = a) as ->.
  { destruct (Z.lt_trichotomy r a) as [L|[L|L]]; [|exact L|].
    - destruct A3 as [A3|A3]; [lia|]. rewrite H3 in A3 by lia. discriminate.
    - specialize (H4 a ltac:(lia)). rewrite A2 in H4 by lia. discriminate. }
  destruct (Z.leb_spec n a); [lia|]. f_equal.
  destruct (while_loop_spec (fun i => negb (m i)) (Z.to_nat (n - a)) a) as (B1 & B2 & B3). set (q := while_loop _ _ a) in *.
  rewrite Z2Nat.id in B1, B3 by lia. destruct (Z.lt_trichotomy q e) as [L|[L|L]]; [|exact L|].
  - destruct B3 as [B3|B3]; [lia|]. rewrite H4 in B3 by lia. discriminate.
  - destruct H5 as [->|H5]; [lia|]. specialize (B2 e ltac:(lia)). rewrite H5 in B2. discriminate.
Qed.

Lemma next_none n m s : (forall i, s <= i < n -> m i = true) -> next_unmarked n m s = {| range_start := 0; range_end := 0 |}.
Proof.
  intros H. unfold next_unmarked. destruct (while_loop_spec m (Z.to_nat (n - s)) s) as (A1 & _ & A3).
  set (r := while_loop m _ s) in *. destruct (Z.leb_spec n r); [reflexivity|]. destruct A3 as [A3|A3]; [lia|].
  rewrite H in A3 by lia. discriminate.
Qed.

(** The same, from the bits: padding is marked. *)
Lemma next_from_bits n m x s a e : 0 <= n -> shows n m x -> 0 <= s <= a -> a < e -> e <= 8 * zlength (bytes_ x) ->
  (forall i, s <= i < a -> bit (bytes_ x) i = true) -> (forall i, a <= i < e -> bit (bytes_ x) i = false) ->
  (e = 8 * zlength (bytes_ x) \/ bit (bytes_ x) e = true) ->
  next_unmarked n m s = {| range_start := a; range_end := e |}.
Proof.
  intros Hn [L B T F K O] Ha He Hl H1 H2 H3.
  pose proof (Z.div_mod (n + 7) 8 ltac:(lia)). pose proof (Z.mod_pos_bound (n + 7) 8 ltac:(lia)).
  assert (U : forall i, a <= i < e -> m i = false /\ i < n).
  { intros i Hi. specialize (H2 i Hi). rewrite T in H2 by lia. apply orb_false_iff in H2 as [U1 U2].
    apply Z.leb_gt in U2. auto. }
  destruct (U (e - 1) ltac:(lia)) as [_ En]. apply next_unique; try lia.
  - intros i Hi. specialize (H1 i Hi). rewrite T in H1 by lia. destruct (Z.leb_spec n i); [lia|].
    now rewrite orb_false_r in H1.
  - intros i Hi. apply U. exact Hi.
  - destruct (Z.eq_dec e n) as [|N]; [now left|right]. destruct H3 as [H3|H3]; [lia|]. rewrite T in H3 by lia.
    destruct (Z.leb_spec n e); [lia|]. now rewrite orb_false_r in H3.
Qed.

(** From a byte that is not full, once everything before it is known to be
    marked: the rest of [NextUnmarkedRange]. *)
Definition range_from (b : list Z) (idx byte : Z) : Range :=
  let range := FirstUnmarkedRangeInByte byte in
  let s := range_start range + Z.shiftl idx 3 in
  if negb (range_end range =? 8) then {| range_start := s; range_end := range_end range + Z.shiftl idx 3 |}
  else
    let idx := byte_loop 0 b (idx + 1) in
    let e := Z.shiftl idx 3 in
    let extra := FirstUnmarkedRangeInByte (byte_at b idx) in
    {| range_start := s;
       range_end := if (idx <? zlength b) && (range_start extra =? 0) then e + range_end extra else e |}.

Lemma bit_of b idx k : 0 <= idx -> 0 <= k < 8 -> bit b (8 * idx + k) = Z.testbit (byte_at b idx) k.
Proof.
  intros Hi Hk. unfold bit. replace ((8 * idx + k) / 8) with idx by (apply (Z.div_unique _ 8 idx k); lia).
  now replace ((8 * idx + k) mod 8) with k by (apply (Z.mod_unique _ 8 idx k); lia).
Qed.

(** How far the clear bits reach that start before byte [idx]. *)
Lemma clear_run b idx : bytes b -> 0 <= idx <= zlength b ->
  let i := byte_loop 0 b idx in
  let extra := FirstUnmarkedRangeInByte (byte_at b i) in
  let e := if (i <? zlength b) && (range_start extra =? 0) then Z.shiftl i 3 + range_end extra else Z.shiftl i 3 in
  8 * idx <= e <= 8 * zlength b /\ (forall j, 8 * idx <= j < e -> bit b j = false) /\
  (e = 8 * zlength b \/ bit b e = true).
Proof.
  intros Hb Hi. destruct (byte_loop_spec 0 b idx (proj1 Hi)) as (R1 & R2 & R3 & R4). cbv zeta.
  set (i := byte_loop 0 b idx) in *. specialize (R2 (proj2 Hi)). rewrite Z.shiftl_mul_pow2 by lia.
  assert (C : forall j, 8 * idx <= j < 8 * i -> bit b j = false).
  { intros j Hj. pose proof (Z.div_mod j 8 ltac:(lia)). pose proof (Z.mod_pos_bound j 8 ltac:(lia)).
    apply (proj1 (byte_bits b (j / 8) false Hb ltac:(lia))); [apply R3|]; lia. }
  destruct (Z.ltb_spec i (zlength b)) as [L|L]; cbn [andb]; [|replace i with (zlength b) in * by lia; split; [lia|]; split; [intros j Hj; apply C; lia|left; lia]].
  destruct (FirstUnmarked_spec (byte_at b i) (bytes_byte_at b i Hb)) as (F1 & F2 & F3 & F4 & F5 & F6 & _).
  set (r := FirstUnmarkedRangeInByte (byte_at b i)) in *.
  destruct (Z.eqb_spec (range_start r) 0) as [Z0|Z0].
  - assert (E8 : range_end r < 8).
    { destruct (Z.ltb_spec (range_end r) 8); [assumption|]. elim (R4 L). apply (byte_all_bits _ false (bytes_byte_at b i Hb)).
      intros k Hk. apply F4. lia. }
    split; [lia|]. split.
    + intros j Hj. destruct (Z.ltb_spec j (8 * i)); [apply C; lia|].
      replace j with (8 * i + (j - 8 * i)) by lia. rewrite bit_of by lia. apply F4. lia.
    + right. replace (i * 2 ^ 3 + range_end r) with (8 * i + range_end r) by lia. rewrite bit_of by lia. auto.
  - split; [lia|]. split; [intros j Hj; apply C; lia|]. right. replace (i * 2 ^ 3) with (8 * i + 0) by lia.
    rewrite bit_of by lia. apply F3. lia.
Qed.

Lemma range_from_spec n m x s idx byte : 0 <= n -> shows n m x -> 0 <= s -> 0 <= idx < zlength (bytes_ x) ->
  is_byte byte -> byte <> 255 -> (forall i, s <= i < 8 * idx -> bit (bytes_ x) i = true) ->
  (forall k, 0 <= k < 8 -> Z.testbit byte k = bit (bytes_ x) (8 * idx + k) || (8 * idx + k <? s)) ->
  range_from (bytes_ x) idx byte = next_unmarked n m s.
Proof.
  intros Hn S Hs Hi Hb N M1 M2. unfold range_from.
  destruct (FirstUnmarked_spec byte Hb) as (F1 & F2 & F3 & F4 & F5 & F6 & F7). specialize (F7 N). specialize (F5 F7).
  set (r := FirstUnmarkedRangeInByte byte) in *. rewrite Z.shiftl_mul_pow2 by lia.
  replace (idx * 2 ^ 3) with (8 * idx) by lia. set (a := range_start r + 8 * idx).
  assert (A : s <= a).
  { pose proof (F4 (range_start r) ltac:(lia)) as X. rewrite M2 in X by lia. apply orb_false_iff in X as [_ X].
    apply Z.ltb_ge in X. unfold a. lia. }
  assert (B : forall i, s <= i < a -> bit (bytes_ x) i = true).
  { intros i Hj. destruct (Z.ltb_spec i (8 * idx)); [apply M1; lia|]. pose proof (F3 (i - 8 * idx) ltac:(unfold a in Hj; lia)) as X.
    rewrite M2 in X by (unfold a in Hj; lia). replace (8 * idx + (i - 8 * idx)) with i in X by lia.
    destruct (Z.ltb_spec i s); [lia|]. now rewrite orb_false_r in X. }
  assert (C : forall i, a <= i < range_end r + 8 * idx -> bit (bytes_ x) i = false).
  { intros i Hj. pose proof (F4 (i - 8 * idx) ltac:(unfold a in Hj; lia)) as X. rewrite M2 in X by (unfold a in Hj; lia).
    replace (8 * idx + (i - 8 * idx)) with i in X by lia. now apply orb_false_iff in X. }
  symmetry. destruct (Z.eqb_spec (range_end r) 8) as [E|E]; cbn [negb].
  - destruct (clear_run (bytes_ x) (idx + 1) (sh_bytes _ _ _ S) ltac:(lia)) as (G1 & G2 & G3). cbv zeta in G1, G2, G3.
    match type of G1 with _ <= ?y <= _ => set (e := y) in * end. apply (next_from_bits n m x s a e); auto; try (unfold a; lia).
    intros i Hj. destruct (Z.ltb_spec i (8 * (idx + 1))); [apply C; lia|apply G2; lia].
  - apply (next_from_bits n m x s a (range_end r + 8 * idx)); auto; try (unfold a; lia).
    right. pose proof (F6 ltac:(lia)) as X. rewrite M2 in X by lia.
    destruct (Z.ltb_spec (8 * idx + range_end r) s); [unfold a in A; lia|]. rewrite orb_false_r in X.
    now replace (range_end r + 8 * idx) with (8 * idx + range_end r) by lia.
Qed.

Lemma next_marked_below n m s t : s <= t -> (forall i, s <= i < t -> i < n -> m i = true) ->
  next_unmarked n m s = next_unmarked n m t.
Proof.
  intros H A. unfold next_unmarked at 2. destruct (while_loop_spec m (Z.to_nat (n - t)) t) as (A1 & A2 & A3).
  set (a := while_loop m _ t) in *. destruct (Z.leb_spec n a) as [L|L].
  - apply next_none. intros i Hi. destruct (Z.ltb_spec i t); [apply A; lia|]. apply A2. lia.
  - rewrite Z2Nat.id in A1, A3 by lia. destruct A3 as [A3|A3]; [lia|].
    destruct (while_loop_spec (fun i => negb (m i)) (Z.to_nat (n - a)) a) as (B1 & B2 & B3). set (e := while_loop _ _ a) in *.
    rewrite Z2Nat.id in B1, B3 by lia.
    assert (a < e). { destruct (Z.eq_dec a e) as [E|]; [|lia]. destruct B3 as [B3|B3]; [lia|]. rewrite <- E, A3 in B3. discriminate. }
    apply next_unique; try lia.
    + intros i Hi. destruct (Z.ltb_spec i t); [apply A; lia|]. apply A2. lia.
    + intros i Hi. specialize (B2 i Hi). now destruct (m i).
    + destruct B3 as [B3|B3]; [left; lia|]. right. now destruct (m e).
Qed.

Lemma NextUnmarkedRange_spec n m x s : represents n m x -> 0 <= s -> NextUnmarkedRange s x = next_unmarked n m s.
Proof.
  intros [Hn H] Hs. unfold NextUnmarkedRange. destruct (IsComplete x) eqn:C.
  { destruct H as [F A]. unfold IsComplete in C. destruct (bytes_ x); [|discriminate].
    change (zlength (@nil Z)) with 0. rewrite F, shiftr3. change (u64 (Z.shiftl 0 3)) with 0.
    pose proof (Z.div_pos (Z.max s 0) 8 ltac:(lia) ltac:(lia)). destruct (Z.leb_spec 0 (Z.max s 0 / 8)); [|lia].
    symmetry. apply next_none. intros i Hi. apply A. lia. }
  pose proof H as [L B T F K O]. rewrite (bits_size n) by lia. set (b := bytes_ x) in *.
  set (fi := first_unmarked_byte_ x) in *. set (t := Z.max s (8 * fi)).
  assert (P : forall i, 0 <= i < 8 * fi -> bit b i = true).
  { intros i Hi. pose proof (Z.div_mod i 8 ltac:(lia)). pose proof (Z.mod_pos_bound i 8 ltac:(lia)).
    apply (proj1 (byte_bits b (i / 8) true B ltac:(lia))); [apply K|]; lia. }
  rewrite (next_marked_below n m s t); [|unfold t; lia|].
  2: { intros i Hi Hin. specialize (P i ltac:(unfold t in Hi; lia)). rewrite T in P by (unfold t in Hi; lia).
       destruct (Z.leb_spec n i); [lia|]. now rewrite orb_false_r in P. }
  assert (Ht : 0 <= t) by (unfold t; lia). clearbody t. clear P K O Hs.
  pose proof (Z.div_mod (n + 7) 8 ltac:(lia)). pose proof (Z.mod_pos_bound (n + 7) 8 ltac:(lia)).
  pose proof (Z.div_mod t 8 ltac:(lia)). pose proof (Z.mod_pos_bound t 8 ltac:(lia)).
  rewrite shiftr3, land7. set (idx := t / 8) in *. destruct (Z.leb_spec (zlength b) idx) as [J|J].
  { symmetry. apply next_none. intros i Hi. lia. }
  set (byte := Z.lor (byte_at b idx) (BitRange 0 (t mod 8))).
  assert (M2 : forall k, 0 <= k < 8 -> Z.testbit byte k = bit b (8 * idx + k) || (8 * idx + k <? t)).
  { intros k Hk. unfold byte. rewrite Z.lor_spec, BitRange_bits, bit_of by lia. f_equal. unfold in_range.
    destruct (Z.leb_spec 0 k), (Z.ltb_spec k (t mod 8)), (Z.ltb_spec (8 * idx + k) t); try reflexivity; lia. }
  assert (Yb : is_byte byte) by (apply lor_byte; auto using bytes_byte_at, BitRange_byte).
  destruct (Z.eqb_spec byte 255) as [Fu|Nf]; cbn [andb].
  2: { apply (range_from_spec n m x t idx byte); auto; fold b; try lia. }
  destruct (byte_loop_spec 255 b (idx + 1) ltac:(lia)) as (R1 & R2 & R3 & R4). set (i2 := byte_loop 255 b (idx + 1)) in *.
  specialize (R2 ltac:(lia)).
  assert (M1 : forall i, t <= i < 8 * i2 -> bit b i = true).
  { intros i Hi. pose proof (Z.div_mod i 8 ltac:(lia)). pose proof (Z.mod_pos_bound i 8 ltac:(lia)).
    destruct (Z.ltb_spec i (8 * (idx + 1))).
    - pose proof (proj1 (byte_all_bits byte true Yb) Fu (i - 8 * idx) ltac:(lia)) as X. rewrite M2 in X by lia.
      replace (8 * idx + (i - 8 * idx)) with i in X by lia. destruct (Z.ltb_spec i t); [lia|]. now rewrite orb_false_r in X.
    - apply (proj1 (byte_bits b (i / 8) true B ltac:(lia))); [apply R3|]; lia. }
  destruct (Z.leb_spec (zlength b) i2) as [E|E].
  - symmetry. apply next_none. intros i Hi. specialize (M1 i ltac:(lia)). rewrite T in M1 by lia.
    destruct (Z.leb_spec n i); [lia|]. now rewrite orb_false_r in M1.
  - apply (range_from_spec n m x t i2 (byte_at b i2)); auto using bytes_byte_at; fold b; try lia.
    intros k Hk. fold b. rewrite bit_of by lia. destruct (Z.ltb_spec (8 * i2 + k) t); [lia|]. now rewrite orb_false_r.
Qed.

(** ** The marked positions of a bitmap *)

Definition marked (x : DTLSMessageBitmap) (i : Z) : bool := IsComplete x || bit (bytes_ x) i.

Lemma represents_marked n m x : represents n m x ->
  represents n (marked x) x /\ forall i, 0 <= i < n -> marked x i = m i.
Proof.
  intros R. assert (Em : forall i, 0 <= i < n -> marked x i = m i).
  { intros i Hi. destruct R as [Hn H]. unfold marked. destruct (IsComplete x); [symmetry; now apply H|].
    destruct H as [L _ T _ _ _]. cbn [orb]. rewrite T by (rewrite L; pose proof (Z.div_mod (n + 7) 8 ltac:(lia));
      pose proof (Z.mod_pos_bound (n + 7) 8 ltac:(lia)); lia).
    destruct (Z.leb_spec n i); [lia|]. apply orb_false_r. }
  split; [|exact Em]. apply (represents_ext n m); [|exact R]. intros i Hi. now rewrite Em.
Qed.

(** The next range: none, or the first unmarked positions from [s]. *)
Lemma next_range n m x s : represents n m x -> 0 <= s ->
  let r := NextUnmarkedRange s x in
  (range_end r = range_start r /\ forall i, s <= i < n -> m i = true) \/
  (s <= range_start r < range_end r /\ range_end r <= n /\ (forall i, s <= i < range_start r -> m i = true) /\
   forall i, range_start r <= i < range_end r -> m i = false).
Proof.
  intros R Hs r. unfold r. rewrite (NextUnmarkedRange_spec _ _ _ s R Hs). unfold next_unmarked.
  destruct (while_loop_spec m (Z.to_nat (n - s)) s) as (A1 & A2 & A3). set (a := while_loop m _ s) in *.
  destruct (Z.leb_spec n a) as [H|H]; cbn [range_start range_end].
  - left. split; [reflexivity|]. intros i Hi. apply A2. lia.
  - right. destruct (while_loop_spec (fun i => negb (m i)) (Z.to_nat (n - a)) a) as (B1 & B2 & B3).
    set (e := while_loop _ _ a) in *. rewrite Z2Nat.id in B1, B3 by lia.
    assert (Ha : m a = false) by (destruct A3 as [A3|A3]; [lia|exact A3]).
    assert (a < e) by (destruct B3 as [B3|B3]; [lia|]; destruct (Z.eq_dec a e) as [<-|]; [rewrite Ha in B3; discriminate|lia]).
    repeat split; try lia; [exact A2|]. intros i Hi. specialize (B2 i Hi). now destruct (m i).
Qed.

(** ** A bitmap after any calls *)

Definition mark_all (ranges : list (Z * Z)) (x : DTLSMessageBitmap) : DTLSMessageBitmap :=
  fold_left (fun x r => MarkRange (fst r) (snd r) x) ranges x.

Definition covered (ranges : list (Z * Z)) (i : Z) : bool := existsb (fun r => in_range (fst r) (snd r) i) ranges.

Lemma all_marked_spec n m : 0 <= n -> (all_marked n m = true <-> forall i, 0 <= i < n -> m i = true).
Proof.
  intros Hn. unfold all_marked. rewrite Z.leb_le. destruct (while_loop_spec m (Z.to_nat n) 0) as (A1 & A2 & A3).
  rewrite Z2Nat.id in A1, A3 by lia. set (r := while_loop m _ 0) in *. split.
  - intros H i Hi. apply A2. lia.
  - intros H. destruct A3 as [A3|A3]; [lia|]. destruct (Z.ltb_spec r n); [|lia]. rewrite H in A3 by lia. discriminate.
Qed.

Lemma mark_all_represents n ranges : forall m x, represents n m x -> Forall (fun r => 0 <= fst r <= snd r) ranges ->
  represents n (fun i => m i || covered ranges i) (mark_all ranges x).
Proof.
  induction ranges as [|r ranges IH]; intros m x R F; cbn [mark_all fold_left].
  - apply (represents_ext n m); [|exact R]. intros i _. symmetry. apply orb_false_r.
  - inversion_clear F as [|? ? Fr Fs].
    apply (represents_ext n (fun i => (m i || in_range (fst r) (snd r) i) || covered ranges i)).
    + intros i _. cbn [covered existsb]. symmetry. apply orb_assoc.
    + apply IH; [|exact Fs]. now apply MarkRange_represents.
Qed.

(** C37: After [Init] and any sequence of [MarkRange] calls, overlapping or out of
    range, the bitmap answers like the list of ranges itself looked through
    position by position: it is complete exactly when every position below
    [num_bits] is in one of the ranges, and [NextUnmarkedRange] is the next
    maximal range of positions in none of them, from any start.  [Init] fails
    exactly when there is no memory. *)
Theorem bitmap_is_reference alloc num_bits ranges :
  0 <= num_bits < 2 ^ 64 - 7 -> Forall (fun r => 0 <= fst r <= snd r) ranges ->
  match Bitmap_Init alloc num_bits with
  | Some x =>
      let y := mark_all ranges x in
      IsComplete y = all_marked num_bits (covered ranges) /\
      forall start, 0 <= start -> NextUnmarkedRange start y = next_unmarked num_bits (covered ranges) start
  | None => alloc ((num_bits + 7) / 8) = false
  end.
Proof.
  intros Hn F. destruct (Bitmap_Init alloc num_bits) as [x|] eqn:E.
  - pose proof (mark_all_represents num_bits ranges _ x (Init_represents alloc num_bits x Hn E) F) as R.
    split; [|intros start Hs; now rewrite (NextUnmarkedRange_spec _ _ _ start R Hs)].
    apply eq_true_iff_eq. rewrite (IsComplete_spec _ _ _ R), all_marked_spec by lia. reflexivity.
  - unfold Bitmap_Init in E. rewrite wrap_small in E by lia. destruct (Z.ltb_spec (num_bits + 7) num_bits); [lia|].
    now destruct (alloc _).
Qed.

Definition demo_ranges : list (Z * Z) := [(25, 27); (3, 17); (10, 40)].

Lemma bitmap_is_reference_witness :
  match Bitmap_Init (fun _ => true) 29 with
  | Some x => NextUnmarkedRange 1 (mark_all demo_ranges x) = {| range_start := 1; range_end := 3 |} /\
              IsComplete (mark_all demo_ranges x) = false
  | None => False
  end.
Proof.
  pose proof (bitmap_is_reference (fun _ => true) 29 demo_ranges ltac:(lia) ltac:(repeat constructor; cbn; lia)) as H.
  destruct (Bitmap_Init (fun _ => true) 29) as [x|]; [|discriminate]. destruct H as [H1 H2].
  rewrite H2 by lia. rewrite H1. split; vm_compute; reflexivity.
Defined.
