(* ===== verification/DtlsMessages.v ===== *)
(** * Reassembly of DTLS handshake messages: [ssl/d1_both.cc]

    Handshake messages arrive in fragments, in any order, repeated and
    overlapping.  [incoming_messages] is a ring of the next seven messages; each
    has its buffer and the bitmap of the bytes that are there.  The loop over the
    fragments of a record reports whether there was an implicit acknowledgement
    and whether fragments were skipped; the timers and acknowledgements that
    follow from it are in [DtlsFlight]. *)
From S2P Require Import Prelude Cbs Cbb SslVersions SslAead TlsRecord DtlsWindow DtlsRecord Transition DtlsBitmap.
From Stdlib Require Import ZArith List Lia Bool.
Import ListNotations.
Open Scope Z_scope.

Definition DTLS1_HM_HEADER_LENGTH : Z := 12.
Definition SSL_MAX_HANDSHAKE_FLIGHT : Z := 7.

Record hm_header_st := { hm_type : Z; hm_msg_len : Z; hm_seq : Z; hm_frag_off : Z; hm_frag_len : Z }.

Record DTLSIncomingMessage := {
  im_type : Z;
  im_seq : Z;
  im_data : list Z;          (* with the message header *)
  im_reassembly : DTLSMessageBitmap
}.

Definition im_msg (m : DTLSIncomingMessage) : list Z := skipn (Z.to_nat DTLS1_HM_HEADER_LENGTH) (im_data m).

(** The fields of [DTLS1_STATE] and [SSL3_STATE] that receiving messages uses. *)
Record DTLS1_READ := {
  handshake_read_seq : Z;
  handshake_read_overflow : bool;
  incoming_messages : list (option DTLSIncomingMessage);
  s3_has_message : bool;
  outgoing_messages_complete : bool;
  flight_has_reply : bool
}.

Definition with_incoming (d : DTLS1_READ) (l : list (option DTLSIncomingMessage)) : DTLS1_READ :=
  {| handshake_read_seq := handshake_read_seq d; handshake_read_overflow := handshake_read_overflow d;
     incoming_messages := l; s3_has_message := s3_has_message d;
     outgoing_messages_complete := outgoing_messages_complete d; flight_has_reply := flight_has_reply d |}.

(** ** Fragments *)

Definition dtls1_parse_fragment : st CBS (hm_header_st * CBS) :=
  let* type := CBS_get_u8 in
  let* msg_len := CBS_get_u24 in
  let* seq := CBS_get_u16 in
  let* frag_off := CBS_get_u24 in
  let* frag_len := CBS_get_u24 in
  let* body := CBS_get_bytes frag_len in
  ret ({| hm_type := type; hm_msg_len := msg_len; hm_seq := seq; hm_frag_off := frag_off; hm_frag_len := frag_len |}, body).

(** The header of the whole message, which [dtls_new_incoming_message] writes
    with a fixed builder over the first twelve bytes of the buffer. *)
Definition message_header (type msg_len seq : Z) : list Z :=
  [type] ++ be_split 3 msg_len ++ be_split 2 seq ++ be_split 3 0 ++ be_split 3 msg_len.

Section Messages.
Context {E : Env}.

Definition dtls_new_incoming_message (hdr : hm_header_st) : option DTLSIncomingMessage :=
  if negb (alloc_ok (DTLS1_HM_HEADER_LENGTH + hm_msg_len hdr)) then None
  else
    let body := repeat uninit (Z.to_nat (hm_msg_len hdr)) in
    match Bitmap_Init alloc_ok (hm_msg_len hdr) with
    | None => None
    | Some bitmap =>
        Some {| im_type := hm_type hdr; im_seq := hm_seq hdr;
                im_data := message_header (hm_type hdr) (hm_msg_len hdr) (hm_seq hdr) ++ body;
                im_reassembly := bitmap |}
    end.

(** A slot of the ring. *)
Definition slot (seq : Z) : nat := Z.to_nat (seq mod SSL_MAX_HANDSHAKE_FLIGHT).
Definition incoming (d : DTLS1_READ) (seq : Z) : option DTLSIncomingMessage := nth (slot seq) (incoming_messages d) None.
Definition set_incoming (seq : Z) (m : option DTLSIncomingMessage) (d : DTLS1_READ) : DTLS1_READ :=
  with_incoming d (set_nth (slot seq) m (incoming_messages d)).

Definition dtls1_is_current_message_complete (d : DTLS1_READ) : bool :=
  match incoming d (handshake_read_seq d) with Some frag => IsComplete (im_reassembly frag) | None => false end.

(** The message of a fragment, or the alert. *)
Definition dtls1_get_incoming_message (hdr : hm_header_st) (d : DTLS1_READ)
  : (Z + DTLSIncomingMessage) * DTLS1_READ :=
  if (hm_seq hdr <? handshake_read_seq d) || (SSL_MAX_HANDSHAKE_FLIGHT <=? hm_seq hdr - handshake_read_seq d)
  then (inl SSL_AD_INTERNAL_ERROR, d)
  else
    match incoming d (hm_seq hdr) with
    | Some frag =>
        if negb (im_type frag =? hm_type hdr) || negb (zlength (im_msg frag) =? hm_msg_len hdr)
        then (inl SSL_AD_ILLEGAL_PARAMETER, d) else (inr frag, d)
    | None =>
        match dtls_new_incoming_message hdr with
        | None => (inl SSL_AD_INTERNAL_ERROR, set_incoming (hm_seq hdr) None d)
        | Some frag => (inr frag, set_incoming (hm_seq hdr) (Some frag) d)
        end
    end.

(** The body copied into the message, and marked. *)
Definition add_fragment (hdr : hm_header_st) (body : CBS) (frag : DTLSIncomingMessage) : DTLSIncomingMessage :=
  {| im_type := im_type frag; im_seq := im_seq frag;
     im_data := firstn (Z.to_nat DTLS1_HM_HEADER_LENGTH) (im_data frag) ++ buf_write (im_msg frag) (hm_frag_off hdr) body;
     im_reassembly := MarkRange (hm_frag_off hdr) (hm_frag_off hdr + hm_frag_len hdr) (im_reassembly frag) |}.

(** What the connection is when a record of handshake fragments arrives: whether
    the record is from the latest epoch ([record_number.epoch()] against
    [read_epoch] and [next_read_epoch]), the limit on messages, and whether
    fragments acknowledge our last flight. *)
Record fragment_context := { latest_epoch : bool; max_message_len : Z; acknowledges : bool }.

Definition context_of_record (ssl : DTLS) (number : DTLSRecordNumber) (max_len : Z) : fragment_context :=
  {| latest_epoch := (number_epoch number =? re_epoch (read_epoch ssl)) &&
       match next_read_epoch ssl with Some _ => false | None => true end;
     max_message_len := max_len;
     acknowledges :=
       match d_hs ssl with None => false | Some h => negb (handshake_finalized h) end &&
       ssl_has_final_version (d_version ssl) (d_hs ssl) && is_tls13 (d_version ssl) |}.

(** One round of the loop: the alert, or whether the fragment acknowledges and
    whether it was skipped. *)
Definition process_fragment (cx : fragment_context) (hdr : hm_header_st) (body : CBS) (d : DTLS1_READ)
  : (Z + bool * bool) * DTLS1_READ :=
  if (hm_frag_off hdr >? hm_msg_len hdr) || (hm_frag_len hdr >? hm_msg_len hdr - hm_frag_off hdr)
  then (inl SSL_AD_ILLEGAL_PARAMETER, d)
  else if (hm_seq hdr <? handshake_read_seq d) || handshake_read_overflow d then (inr (false, false), d)
  else if negb (latest_epoch cx) then (inl SSL_AD_UNEXPECTED_MESSAGE, d)
  else if hm_msg_len hdr >? max_message_len cx then (inl SSL_AD_ILLEGAL_PARAMETER, d)
  else if SSL_MAX_HANDSHAKE_FLIGHT <=? hm_seq hdr - handshake_read_seq d then (inr (acknowledges cx, true), d)
  else
    match dtls1_get_incoming_message hdr d with
    | (inl alert, d) => (inl alert, d)
    | (inr frag, d) =>
        if IsComplete (im_reassembly frag) then (inr (acknowledges cx, false), d)
        else (inr (acknowledges cx, false), set_incoming (hm_seq hdr) (Some (add_fragment hdr body frag)) d)
    end.

(** The loop of [dtls1_process_handshake_fragments]; every round takes at least a
    header from the record. *)
Fixpoint fragments_loop (fuel : nat) (cx : fragment_context) (cbs : CBS) (ack skipped : bool) (d : DTLS1_READ)
  : (Z + bool * bool) * DTLS1_READ :=
  match cbs, fuel with
  | [], _ | _, O => (inr (ack, skipped), d)
  | _, S fuel' =>
      match dtls1_parse_fragment cbs with
      | (None, _) => (inl SSL_AD_DECODE_ERROR, d)
      | (Some (hdr, body), rest) =>
          match process_fragment cx hdr body d with
          | (inl alert, d) => (inl alert, d)
          | (inr (a, s), d) => fragments_loop fuel' cx rest (ack || a) (skipped || s) d
          end
      end
  end.

Definition handshake_fragments (cx : fragment_context) (record : list Z) (d : DTLS1_READ)
  : (Z + bool * bool) * DTLS1_READ := fragments_loop (length record) cx record false false d.

(** ** Messages *)

(** Type, raw message and body of the current message. *)
Definition dtls1_get_message (d : DTLS1_READ) : option (Z * list Z * list Z) * DTLS1_READ :=
  if negb (dtls1_is_current_message_complete d) then (None, d)
  else
    match incoming d (handshake_read_seq d) with
    | None => (None, d)
    | Some frag =>
        (Some (im_type frag, im_data frag, im_msg frag),
         {| handshake_read_seq := handshake_read_seq d; handshake_read_overflow := handshake_read_overflow d;
            incoming_messages := incoming_messages d; s3_has_message := true;
            outgoing_messages_complete := outgoing_messages_complete d; flight_has_reply := flight_has_reply d |})
    end.

Definition dtls1_next_message (d : DTLS1_READ) : DTLS1_READ :=
  let seq := u16 (handshake_read_seq d + 1) in
  {| handshake_read_seq := seq;
     handshake_read_overflow := if seq =? 0 then true else handshake_read_overflow d;
     incoming_messages := set_nth (slot (handshake_read_seq d)) None (incoming_messages d);
     s3_has_message := false;
     outgoing_messages_complete := outgoing_messages_complete d;
     flight_has_reply := if outgoing_messages_complete d then true else flight_has_reply d |}.

Definition dtls_has_unprocessed_handshake_data (d : DTLS1_READ) : bool :=
  existsb (fun i => negb (s3_has_message d && Nat.eqb i (slot (handshake_read_seq d))) &&
                    match nth i (incoming_messages d) None with Some _ => true | None => false end)
    (seq 0 (Z.to_nat SSL_MAX_HANDSHAKE_FLIGHT)).

End Messages.

(** ** A sender's messages, in pieces *)

Section Reassembly.
Context {E : Env}.

(** Type and body of the message with each number. *)
Variable messages : Z -> Z * list Z.

(** A piece: the number of the message, offset and length. *)
Record piece := { pc_seq : Z; pc_off : Z; pc_len : Z }.

Definition body_of (q : Z) : list Z := snd (messages q).
Definition whole (q : Z) : list Z := message_header (fst (messages q)) (zlength (body_of q)) q ++ body_of q.
Definition slice (p : piece) : list Z := firstn (Z.to_nat (pc_len p)) (skipn (Z.to_nat (pc_off p)) (body_of (pc_seq p))).

Definition header_of (p : piece) : hm_header_st :=
  {| hm_type := fst (messages (pc_seq p)); hm_msg_len := zlength (body_of (pc_seq p)); hm_seq := pc_seq p;
     hm_frag_off := pc_off p; hm_frag_len := pc_len p |}.

(** The fragment on the wire. *)
Definition fragment_bytes (p : piece) : list Z :=
  [fst (messages (pc_seq p))] ++ be_split 3 (zlength (body_of (pc_seq p))) ++ be_split 2 (pc_seq p) ++
  be_split 3 (pc_off p) ++ be_split 3 (pc_len p) ++ slice p.

Definition piece_ok (p : piece) : Prop :=
  0 <= pc_seq p < 2 ^ 16 /\ 0 <= pc_off p /\ 0 <= pc_len p /\ pc_off p + pc_len p <= zlength (body_of (pc_seq p)).

Hypothesis lengths : forall q, zlength (body_of q) < 2 ^ 24.

Lemma zlength_slice p : piece_ok p -> zlength (slice p) = pc_len p.
Proof.
  intros (_ & H1 & H2 & H3). unfold slice, zlength in *. rewrite length_firstn, length_skipn. lia.
Qed.

Lemma get_u24_split v rest : 0 <= v < 2 ^ 24 -> CBS_get_u24 (be_split 3 v ++ rest) = (Some v, rest).
Proof.
  intros Hv. unfold CBS_get_u24, bind. change 3 with (Z.of_nat 3) at 1.
  rewrite cbs_get_u_split by (change (256 ^ Z.of_nat 3) with (2 ^ 24); lia). unfold ret. now rewrite wrap_small by lia.
Qed.

Lemma parse_fragment_bytes p rest : piece_ok p ->
  dtls1_parse_fragment (fragment_bytes p ++ rest) = (Some (header_of p, slice p), rest).
Proof.
  intros H. pose proof H as (H0 & H1 & H2 & H3). specialize (lengths (pc_seq p)).
  unfold fragment_bytes. rewrite <- !app_assoc. cbn [app]. unfold dtls1_parse_fragment, bind.
  rewrite CBS_get_u8_cons, get_u24_split by (pose proof (zlength_nonneg (body_of (pc_seq p))); lia).
  rewrite get_u16_split, get_u24_split, get_u24_split by lia.
  unfold CBS_get_bytes. rewrite <- (zlength_slice p H) at 1. now rewrite cbs_get_app.
Qed.

Lemma fragments_loop_pieces cx ps : forall fuel d ack skipped,
  Forall piece_ok ps -> (length (concat (map fragment_bytes ps)) <= fuel)%nat ->
  fragments_loop fuel cx (concat (map fragment_bytes ps)) ack skipped d =
  fold_left (fun r p => match r with
                        | (inl alert, d) => (inl alert, d)
                        | (inr (a, s), d) =>
                            match process_fragment cx (header_of p) (slice p) d with
                            | (inl alert, d) => (inl alert, d)
                            | (inr (a', s'), d) => (inr (a || a', s || s'), d)
                            end
                        end) ps (inr (ack, skipped), d).
Proof.
  induction ps as [|p ps IH]; intros fuel d ack skipped F Hf; [now destruct fuel|].
  inversion_clear F as [|? ? Fp Fs]. cbn [map concat fold_left] in *. rewrite length_app in Hf.
  assert (L : (0 < length (fragment_bytes p))%nat) by (unfold fragment_bytes; cbn [app length]; lia).
  destruct fuel as [|fuel]; [lia|].
  destruct (fragment_bytes p ++ concat (map fragment_bytes ps)) as [|b l] eqn:C.
  { apply app_eq_nil in C as [C _]. rewrite C in L. cbn in L. lia. }
  cbn [fragments_loop]. rewrite <- C, parse_fragment_bytes by exact Fp.
  destruct (process_fragment cx (header_of p) (slice p) d) as [[alert|[a s]] d'].
  - clear. induction ps as [|p' ps IH]; [reflexivity|exact IH].
  - apply IH; [exact Fs|lia].
Qed.
(** ** What has arrived *)

(** Whether byte [i] of message [q] is in one of the pieces. *)
Definition got (acc : list piece) (q i : Z) : bool :=
  existsb (fun p => (pc_seq p =? q) && in_range (pc_off p) (pc_off p + pc_len p) i) acc.

(** A message with the bytes of [q] that have arrived. *)
Definition partial (acc : list piece) (q : Z) (im : DTLSIncomingMessage) : Prop :=
  im_type im = fst (messages q) /\
  exists b, im_data im = message_header (fst (messages q)) (zlength (body_of q)) q ++ b /\
    zlength b = zlength (body_of q) /\ represents (zlength (body_of q)) (got acc q) (im_reassembly im) /\
    forall i, 0 <= i < zlength (body_of q) -> got acc q i = true -> nth (Z.to_nat i) b 0 = nth (Z.to_nat i) (body_of q) 0.

(** A slot of the ring against the pieces of message [q] accepted so far. *)
Definition slot_ok (acc : list piece) (q : Z) (m : option DTLSIncomingMessage) : Prop :=
  match m with
  | None => forall p, In p acc -> pc_seq p <> q
  | Some im => (exists p, In p acc /\ pc_seq p = q) /\ partial acc q im
  end.

Record reads (acc : list piece) (r : Z) (d : DTLS1_READ) : Prop := {
  rd_seq : handshake_read_seq d = r;
  rd_range : 0 <= r < 2 ^ 16;
  rd_overflow : handshake_read_overflow d = false;
  rd_ring : length (incoming_messages d) = 7%nat;
  rd_known : forall p, In p acc -> pc_seq p < r + SSL_MAX_HANDSHAKE_FLIGHT;
  rd_slots : forall q, r <= q < r + SSL_MAX_HANDSHAKE_FLIGHT -> slot_ok acc q (incoming d q) }.

Lemma slot_range q : (slot q < 7)%nat.
Proof. unfold slot, SSL_MAX_HANDSHAKE_FLIGHT. pose proof (Z.mod_pos_bound q 7 ltac:(lia)). lia. Qed.

Lemma slot_same q q' r : r <= q < r + 7 -> r <= q' < r + 7 -> slot q = slot q' -> q = q'.
Proof.
  unfold slot, SSL_MAX_HANDSHAKE_FLIGHT. intros H H' Eq. pose proof (Z.mod_pos_bound q 7 ltac:(lia)).
  pose proof (Z.mod_pos_bound q' 7 ltac:(lia)). apply Z2Nat.inj in Eq; [|lia|lia].
  pose proof (Z.div_mod q 7 ltac:(lia)). pose proof (Z.div_mod q' 7 ltac:(lia)). lia.
Qed.

Lemma incoming_set q q' r m d : length (incoming_messages d) = 7%nat -> r <= q < r + 7 -> r <= q' < r + 7 ->
  incoming (set_incoming q m d) q' = if q' =? q then m else incoming d q'.
Proof.
  intros L H H'. unfold incoming, set_incoming, with_incoming. cbn [incoming_messages].
  rewrite nth_set_nth_default by (rewrite L; apply slot_range).
  destruct (Z.eqb_spec q' q) as [->|N]; [now rewrite Nat.eqb_refl|].
  destruct (Nat.eqb_spec (slot q') (slot q)) as [Eq|]; [|reflexivity]. elim N. exact (slot_same _ _ r H' H Eq).
Qed.

Lemma got_snoc acc p q i :
  got (acc ++ [p]) q i = got acc q i || ((pc_seq p =? q) && in_range (pc_off p) (pc_off p + pc_len p) i).
Proof. unfold got. rewrite existsb_app. cbn [existsb]. now rewrite orb_false_r. Qed.

Lemma partial_ext acc acc' q im : (forall i, 0 <= i < zlength (body_of q) -> got acc q i = got acc' q i) ->
  partial acc q im -> partial acc' q im.
Proof.
  intros G (T & b & D & L & R & C). split; [exact T|]. exists b. refine (conj D (conj L (conj _ _))).
  - now apply (represents_ext _ (got acc q)).
  - intros i Hi. rewrite <- G by exact Hi. auto.
Qed.

(** A piece of another message changes nothing. *)
Lemma slot_ok_other acc p q m : pc_seq p <> q -> slot_ok acc q m -> slot_ok (acc ++ [p]) q m.
Proof.
  intros N. destruct m as [im|]; cbn [slot_ok].
  - intros ((p' & Hp & Hq) & P). split; [exists p'; split; [apply in_or_app; now left|exact Hq]|].
    apply (partial_ext acc); [|exact P]. intros i _. rewrite got_snoc.
    destruct (Z.eqb_spec (pc_seq p) q); [easy|]. symmetry. apply orb_false_r.
  - intros H p' Hp. apply in_app_or in Hp as [Hp|[<-|[]]]; auto.
Qed.

Lemma reads_same acc r d p : reads acc r d -> r <= pc_seq p < r + SSL_MAX_HANDSHAKE_FLIGHT ->
  slot_ok (acc ++ [p]) (pc_seq p) (incoming d (pc_seq p)) -> reads (acc ++ [p]) r d.
Proof.
  intros [R1 R2 R3 R4 R5 R6] Hq Hm. split; auto.
  - intros p' Hi. apply in_app_or in Hi as [Hi|[<-|[]]]; [auto|lia].
  - intros q H. destruct (Z.eq_dec q (pc_seq p)) as [->|N]; [exact Hm|]. apply slot_ok_other; auto.
Qed.

(** The ring with the slot of an accepted piece replaced. *)
Lemma reads_set acc r d p m : reads acc r d -> piece_ok p -> r <= pc_seq p < r + SSL_MAX_HANDSHAKE_FLIGHT ->
  slot_ok (acc ++ [p]) (pc_seq p) m -> reads (acc ++ [p]) r (set_incoming (pc_seq p) m d).
Proof.
  intros [R1 R2 R3 R4 R5 R6] Hp Hq Hm. split; auto.
  - cbn [set_incoming with_incoming incoming_messages]. now rewrite length_set_nth.
  - intros p' Hi. apply in_app_or in Hi as [Hi|[<-|[]]]; [auto|lia].
  - intros q H. rewrite (incoming_set _ _ r) by (auto; lia). destruct (Z.eqb_spec q (pc_seq p)) as [->|N]; [exact Hm|].
    apply slot_ok_other; auto.
Qed.

Lemma length_header type n q : length (message_header type n q) = 12%nat.
Proof. unfold message_header. cbn [app length]. rewrite !length_app, !length_be_split. reflexivity. Qed.

Lemma msg_of im type n q b : im_data im = message_header type n q ++ b -> im_msg im = b.
Proof.
  intros D. unfold im_msg. rewrite D. change (Z.to_nat DTLS1_HM_HEADER_LENGTH) with 12%nat.
  rewrite <- (length_header type n q) at 1. rewrite skipn_app, skipn_all, Nat.sub_diag. reflexivity.
Qed.

(** ** Fragments arrive *)

Lemma nth_buf_write (m b : list Z) off i : 0 <= off -> off + zlength b <= zlength m -> 0 <= i ->
  nth (Z.to_nat i) (buf_write m off b) 0 =
  if in_range off (off + zlength b) i then nth (Z.to_nat (i - off)) b 0 else nth (Z.to_nat i) m 0.
Proof.
  unfold zlength, in_range, buf_write. intros Ho Hl Hi.
  assert (L : length (firstn (Z.to_nat off) m) = Z.to_nat off) by (rewrite length_firstn; lia).
  destruct (Z.leb_spec off i); cbn [andb].
  - rewrite app_nth2 by lia. rewrite L. replace (Z.to_nat i - Z.to_nat off)%nat with (Z.to_nat (i - off)) by lia.
    destruct (Z.ltb_spec i (off + Z.of_nat (length b))); [apply app_nth1; lia|].
    rewrite app_nth2, nth_skipn by lia. f_equal. lia.
  - rewrite app_nth1 by lia. rewrite <- (firstn_skipn (Z.to_nat off) m) at 2. now rewrite app_nth1 by lia.
Qed.

Lemma nth_slice p i : 0 <= pc_off p -> pc_off p <= i < pc_off p + pc_len p ->
  nth (Z.to_nat (i - pc_off p)) (slice p) 0 = nth (Z.to_nat i) (body_of (pc_seq p)) 0.
Proof.
  intros Ho Hi. unfold slice. rewrite nth_firstn, nth_skipn.
  destruct (Nat.ltb_spec (Z.to_nat (i - pc_off p)) (Z.to_nat (pc_len p))); [|lia]. f_equal. lia.
Qed.

Lemma add_fragment_partial acc p im : piece_ok p -> partial acc (pc_seq p) im ->
  partial (acc ++ [p]) (pc_seq p) (add_fragment (header_of p) (slice p) im).
Proof.
  intros Hp (T & b & D & L & R & C). pose proof Hp as (_ & H1 & H2 & H3). pose proof (zlength_slice p Hp) as Ls.
  split; [exact T|]. cbn [add_fragment im_data im_reassembly header_of hm_frag_off hm_frag_len].
  exists (buf_write b (pc_off p) (slice p)). refine (conj _ (conj _ (conj _ _))).
  - rewrite (msg_of im _ _ _ b D), D. reflexivity.
  - rewrite <- L. unfold zlength, buf_write in *. rewrite !length_app, length_firstn, length_skipn. lia.
  - apply (represents_ext _ (fun i => got acc (pc_seq p) i || in_range (pc_off p) (pc_off p + pc_len p) i)).
    + intros i _. now rewrite got_snoc, Z.eqb_refl.
    + apply MarkRange_represents; [exact R|lia].
  - intros i Hi. rewrite got_snoc, Z.eqb_refl. cbn [andb]. rewrite nth_buf_write, Ls by lia. unfold in_range.
    destruct (Z.leb_spec (pc_off p) i), (Z.ltb_spec i (pc_off p + pc_len p)); cbn [andb]; rewrite ?orb_false_r; auto.
    intros _. apply nth_slice; lia.
Qed.

Lemma new_message_partial acc p : (forall n, alloc_ok n = true) -> (forall p', In p' acc -> pc_seq p' <> pc_seq p) ->
  exists im, dtls_new_incoming_message (header_of p) = Some im /\ partial acc (pc_seq p) im.
Proof.
  intros A N. unfold dtls_new_incoming_message. cbn [header_of hm_msg_len hm_type hm_seq]. rewrite A. cbn [negb].
  set (n := zlength (body_of (pc_seq p))). assert (Hn : 0 <= n < 2 ^ 64 - 7).
  { pose proof (zlength_nonneg (body_of (pc_seq p))). specialize (lengths (pc_seq p)). unfold n. lia. }
  destruct (Bitmap_Init alloc_ok n) as [x|] eqn:I.
  2: { unfold Bitmap_Init in I. rewrite wrap_small, A in I by lia. destruct (Z.ltb_spec (n + 7) n); [lia|discriminate]. }
  eexists. split; [reflexivity|]. split; [reflexivity|]. exists (repeat uninit (Z.to_nat n)).
  assert (G : forall i, got acc (pc_seq p) i = false).
  { intros i. unfold got. destruct (existsb _ acc) eqn:X; [|reflexivity]. apply existsb_exists in X as (p' & Hp & X).
    apply andb_true_iff in X as [X _]. apply Z.eqb_eq in X. now elim (N p' Hp). }
  refine (conj eq_refl (conj _ (conj _ _))).
  - unfold zlength at 1. rewrite repeat_length, Z2Nat.id; [reflexivity|lia].
  - apply (represents_ext _ (fun _ => false)); [intros i _; now rewrite G|]. exact (Init_represents _ _ _ Hn I).
  - intros i _. rewrite G. discriminate.
Qed.

Definition accepted (r : Z) (p : piece) : bool := in_range r (r + SSL_MAX_HANDSHAKE_FLIGHT) (pc_seq p).

Definition context_ok (cx : fragment_context) : Prop :=
  latest_epoch cx = true /\ forall q, zlength (body_of q) <= max_message_len cx.

(** The message of an accepted piece, found or created. *)
Lemma get_incoming_partial acc r d p : (forall n, alloc_ok n = true) -> reads acc r d -> piece_ok p ->
  r <= pc_seq p < r + SSL_MAX_HANDSHAKE_FLIGHT ->
  exists im d0, dtls1_get_incoming_message (header_of p) d = (inr im, d0) /\ partial acc (pc_seq p) im /\
    (d0 = d /\ incoming d (pc_seq p) = Some im \/ d0 = set_incoming (pc_seq p) (Some im) d).
Proof.
  intros A [R1 R2 R3 R4 R5 R6] Hp Hq. unfold dtls1_get_incoming_message. cbn [header_of hm_seq hm_type hm_msg_len].
  rewrite R1. destruct (Z.ltb_spec (pc_seq p) r), (Z.leb_spec SSL_MAX_HANDSHAKE_FLIGHT (pc_seq p - r)); try lia. cbn [orb].
  pose proof (R6 (pc_seq p) ltac:(lia)) as S. destruct (incoming d (pc_seq p)) as [im|] eqn:Ei.
  - destruct S as [_ (T & b & D & L & S)]. rewrite T, (msg_of im _ _ _ b D), L, !Z.eqb_refl. cbn [negb orb].
    exists im, d. split; [reflexivity|]. split; [exact (conj T (ex_intro _ b (conj D (conj L S))))|]. auto.
  - destruct (new_message_partial acc p A S) as (im & En & P). rewrite En. exists im. eexists.
    split; [reflexivity|]. split; [exact P|]. now right.
Qed.

Lemma process_fragment_reads cx acc r d p : (forall n, alloc_ok n = true) -> context_ok cx -> reads acc r d -> piece_ok p ->
  exists a s d', process_fragment cx (header_of p) (slice p) d = (inr (a, s), d') /\
    reads (if accepted r p then acc ++ [p] else acc) r d'.
Proof.
  intros A (X1 & X2) R Hp. pose proof Hp as (H0 & H1 & H2 & H3). pose proof R as [R1 R2 R3 R4 R5 R6].
  unfold process_fragment. cbn [header_of hm_frag_off hm_frag_len hm_msg_len hm_seq]. rewrite R1, R3, X1, !Z.gtb_ltb.
  destruct (Z.ltb_spec (zlength (body_of (pc_seq p))) (pc_off p)); [lia|].
  destruct (Z.ltb_spec (zlength (body_of (pc_seq p)) - pc_off p) (pc_len p)); [lia|]. cbn [orb negb].
  specialize (X2 (pc_seq p)). destruct (Z.ltb_spec (max_message_len cx) (zlength (body_of (pc_seq p)))); [lia|].
  unfold accepted, in_range. destruct (Z.ltb_spec (pc_seq p) r) as [J|J]; cbn [orb].
  { destruct (Z.leb_spec r (pc_seq p)); [lia|]. eauto 10. }
  destruct (Z.leb_spec SSL_MAX_HANDSHAKE_FLIGHT (pc_seq p - r)) as [K|K].
  { destruct (Z.leb_spec r (pc_seq p)), (Z.ltb_spec (pc_seq p) (r + SSL_MAX_HANDSHAKE_FLIGHT)); try lia. eauto 10. }
  destruct (Z.leb_spec r (pc_seq p)), (Z.ltb_spec (pc_seq p) (r + SSL_MAX_HANDSHAKE_FLIGHT)); try lia. cbn [andb].
  destruct (get_incoming_partial acc r d p A R Hp ltac:(lia)) as (im & d0 & -> & P & D0).
  assert (In' : exists p', In p' (acc ++ [p]) /\ pc_seq p' = pc_seq p) by (exists p; split; [apply in_or_app; right; now left|reflexivity]).
  destruct (IsComplete (im_reassembly im)) eqn:Ic; do 3 eexists; (split; [reflexivity|]).
  - assert (S : slot_ok (acc ++ [p]) (pc_seq p) (Some im)).
    { split; [exact In'|]. apply (partial_ext acc); [|exact P]. intros i Hi. rewrite got_snoc.
      destruct P as (_ & b & _ & _ & Rp & _). rewrite (proj1 (IsComplete_spec _ _ _ Rp) Ic i Hi). reflexivity. }
    destruct D0 as [[-> Ei]| ->]; [apply reads_same; auto; now rewrite Ei|apply reads_set; auto; lia].
  - assert (S : slot_ok (acc ++ [p]) (pc_seq p) (Some (add_fragment (header_of p) (slice p) im)))
      by (split; [exact In'|now apply add_fragment_partial]).
    destruct D0 as [[-> _]| ->]; [apply reads_set; auto; lia|].
    replace (set_incoming (pc_seq p) (Some (add_fragment (header_of p) (slice p) im)) (set_incoming (pc_seq p) (Some im) d))
      with (set_incoming (pc_seq p) (Some (add_fragment (header_of p) (slice p) im)) d).
    + apply reads_set; auto; lia.
    + unfold set_incoming, with_incoming. cbn. f_equal. symmetry. apply set_nth_twice.
Qed.

(** ** Records and messages in any order *)

Inductive reading : Type :=
  | Arrives (cx : fragment_context) (ps : list piece)    (* a record with these fragments *)
  | TakeMessage.                                         (* dtls1_get_message, dtls1_next_message *)

Definition reading_ok (e : reading) : Prop :=
  match e with Arrives cx ps => context_ok cx /\ Forall piece_ok ps | TakeMessage => True end.

(** The alerts raised, the messages taken, and the pieces that arrived while
    their message was among the next seven. *)
Fixpoint receive (es : list reading) (acc : list piece) (d : DTLS1_READ)
  : list Z * list (Z * list Z * list Z) * list piece * DTLS1_READ :=
  match es with
  | [] => ([], [], acc, d)
  | Arrives cx ps :: es' =>
      let '(r, d1) := handshake_fragments cx (concat (map fragment_bytes ps)) d in
      let '(alerts, taken, acc', d2) :=
        receive es' (acc ++ filter (accepted (handshake_read_seq d)) ps) d1 in
      (match r with inl alert => [alert] | inr _ => [] end ++ alerts, taken, acc', d2)
  | TakeMessage :: es' =>
      match dtls1_get_message d with
      | (Some m, d1) =>
          let '(alerts, taken, acc', d2) := receive es' acc (dtls1_next_message d1) in (alerts, m :: taken, acc', d2)
      | (None, d1) => receive es' acc d1
      end
  end.

Lemma pieces_read cx ps : (forall n, alloc_ok n = true) -> context_ok cx -> Forall piece_ok ps ->
  forall acc r d a s, reads acc r d -> exists a' s' d',
  fold_left (fun r p => match r with
                        | (inl alert, d) => (inl alert, d)
                        | (inr (a, s), d) =>
                            match process_fragment cx (header_of p) (slice p) d with
                            | (inl alert, d) => (inl alert, d)
                            | (inr (a', s'), d) => (inr (a || a', s || s'), d)
                            end
                        end) ps (inr (a, s), d) = (inr (a', s'), d') /\ reads (acc ++ filter (accepted r) ps) r d'.
Proof.
  intros A X F. induction F as [|p ps Hp F IH]; intros acc r d a s R; cbn [fold_left filter].
  - exists a, s, d. now rewrite app_nil_r.
  - destruct (process_fragment_reads cx acc r d p A X R Hp) as (a1 & s1 & d1 & -> & R1).
    destruct (IH _ r d1 (a || a1) (s || s1) R1) as (a2 & s2 & d2 & E2 & R2). exists a2, s2, d2. split; [exact E2|].
    destruct (accepted r p); [now rewrite <- app_assoc in R2|exact R2].
Qed.

(** When the current message is complete, it is the sender's. *)
Lemma current_message acc r d : reads acc r d ->
  (dtls1_is_current_message_complete d = true <->
   (exists p, In p acc /\ pc_seq p = r) /\ forall i, 0 <= i < zlength (body_of r) -> got acc r i = true) /\
  (dtls1_is_current_message_complete d = true ->
   exists d', dtls1_get_message d = (Some (fst (messages r), whole r, body_of r), d') /\ dtls1_next_message d' = dtls1_next_message d).
Proof.
  intros [R1 R2 R3 R4 R5 R6]. unfold dtls1_get_message, dtls1_is_current_message_complete. rewrite R1.
  pose proof (R6 r ltac:(unfold SSL_MAX_HANDSHAKE_FLIGHT; lia)) as S. destruct (incoming d r) as [im|].
  - destruct S as (Ex & T & b & D & L & R & C). pose proof (IsComplete_spec _ _ _ R) as I. split.
    + rewrite I. tauto.
    + intros Ic. rewrite Ic. cbn [negb].
      assert (b = body_of r) as ->.
      { apply (nth_ext _ _ 0 0); [unfold zlength in L; lia|]. intros k Hk. specialize (C (Z.of_nat k)).
        rewrite Nat2Z.id in C. apply C; [unfold zlength in *; lia|]. apply I; [exact Ic|unfold zlength in *; lia]. }
      rewrite T, (msg_of im _ _ _ _ D), D. eexists. split; [reflexivity|].
      unfold dtls1_next_message. cbn. now rewrite R1.
  - split; [|discriminate]. split; [discriminate|]. intros ((p & Hp & Hq) & _). now elim (S p Hp).
Qed.

Lemma reads_next acc r d : reads acc r d -> r + 1 < 2 ^ 16 -> reads acc (r + 1) (dtls1_next_message d).
Proof.
  intros [R1 R2 R3 R4 R5 R6] H. unfold dtls1_next_message. rewrite R1, wrap_small by lia. split; cbn.
  - reflexivity.
  - lia.
  - destruct (Z.eqb_spec (r + 1) 0); [lia|exact R3].
  - now rewrite length_set_nth.
  - intros p Hp. specialize (R5 p Hp). lia.
  - intros q Hq. unfold incoming. cbn [incoming_messages]. rewrite nth_set_nth_default by (rewrite R4; apply slot_range).
    unfold SSL_MAX_HANDSHAKE_FLIGHT in *. destruct (Nat.eqb_spec (slot q) (slot r)) as [Eq|N].
    + assert (q = r + 7) as ->.
      { destruct (Z.eq_dec q (r + 7)); [assumption|]. pose proof (slot_same q r r ltac:(lia) ltac:(lia) Eq). lia. }
      intros p Hp. specialize (R5 p Hp). lia.
    + apply R6. destruct (Z.eq_dec q (r + 7)) as [->|]; [|lia]. elim N. unfold slot, SSL_MAX_HANDSHAKE_FLIGHT.
      f_equal. replace (r + 7) with (r + 1 * 7) by lia. apply Z.mod_add. lia.
Qed.

Lemma receive_reads es : (forall n, alloc_ok n = true) -> Forall reading_ok es -> forall acc r d alerts taken acc' d',
  reads acc r d -> r + zlength es < 2 ^ 16 -> receive es acc d = (alerts, taken, acc', d') ->
  alerts = [] /\ reads acc' (r + zlength taken) d' /\
  taken = map (fun k => let q := r + Z.of_nat k in (fst (messages q), whole q, body_of q)) (seq 0 (length taken)).
Proof.
  intros A F. induction F as [|e es He F IH]; intros acc r d alerts taken acc' d' R Hr Ev; cbn [receive] in Ev.
  - injection Ev as <- <- <- <-. change (zlength (@nil (Z * list Z * list Z))) with 0. rewrite Z.add_0_r. auto.
  - rewrite zlength_cons in Hr. pose proof (zlength_nonneg es). destruct e as [cx ps|].
    + destruct He as [X Fp]. unfold handshake_fragments in Ev.
      rewrite fragments_loop_pieces in Ev by auto.
      destruct (pieces_read cx ps A X Fp acc r d false false R) as (a & s & d1 & E1 & R1).
      rewrite E1, (rd_seq _ _ _ R) in Ev.
      destruct (receive es (acc ++ filter (accepted r) ps) d1) as [[[al tk] ac] d2] eqn:E2. injection Ev as <- <- <- <-.
      apply (IH _ r d1 _ _ _ _ R1 ltac:(lia) E2).
    + destruct (current_message acc r d R) as [_ M]. destruct (dtls1_is_current_message_complete d) eqn:Ic.
      * destruct (M eq_refl) as (d1 & Em & En). rewrite Em, En in Ev.
        destruct (receive es acc (dtls1_next_message d)) as [[[al tk] ac] d2] eqn:E2. injection Ev as <- <- <- <-.
        destruct (IH acc (r + 1) _ _ _ _ _ (reads_next _ _ _ R ltac:(lia)) ltac:(lia) E2) as (I1 & I2 & I3).
        rewrite zlength_cons. split; [exact I1|]. split; [now replace (r + (1 + zlength tk)) with (r + 1 + zlength tk) by lia|].
        cbn [length seq map]. rewrite Z.add_0_r. f_equal. rewrite I3 at 1. rewrite <- seq_shift, map_map. apply map_ext.
        intros k. now replace (r + Z.of_nat (S k)) with (r + 1 + Z.of_nat k) by lia.
      * unfold dtls1_get_message in Ev. rewrite Ic in Ev. cbn [negb] in Ev. apply (IH acc r d); auto. lia.
Qed.

Definition fresh_reading (d : DTLS1_READ) : Prop :=
  handshake_read_seq d = 0 /\ handshake_read_overflow d = false /\ incoming_messages d = repeat None 7.

Lemma fresh_reads d : fresh_reading d -> reads [] 0 d.
Proof.
  intros (F1 & F2 & F3). split; auto; try lia; try easy.
  - now rewrite F3.
  - intros q _. unfold incoming. rewrite F3.
    destruct (nth_in_or_default (slot q) (repeat (@None DTLSIncomingMessage) 7) None) as [H|H]; [apply repeat_spec in H|]; rewrite H; now cbn.
Qed.

(** C33: Handshake messages are reassembled exactly.  Let a sender's messages
    arrive cut into pieces in any way, in any order, repeated, overlapping,
    several to a record, too early or too late, while the receiver takes
    complete messages whenever it likes.  No alert is raised; the messages taken
    are the sender's messages 0, 1, 2, ... with their types, headers and bodies;
    and the current one can be taken exactly when every byte of it has arrived
    since it was among the next seven (an empty message: once any piece of it
    has). *)
Theorem messages_reassembled es d :
  (forall n, alloc_ok n = true) -> Forall reading_ok es -> zlength es < 2 ^ 16 -> fresh_reading d ->
  let '(alerts, taken, acc, d') := receive es [] d in
  let r := zlength taken in
  alerts = [] /\
  taken = map (fun k => let q := Z.of_nat k in (fst (messages q), whole q, body_of q)) (seq 0 (length taken)) /\
  handshake_read_seq d' = r /\
  (fst (dtls1_get_message d') <> None <->
   (exists p, In p acc /\ pc_seq p = r) /\ forall i, 0 <= i < zlength (body_of r) -> got acc r i = true).
Proof.
  intros A F Hl Fr. destruct (receive es [] d) as [[[alerts taken] acc] d'] eqn:Ev.
  destruct (receive_reads es A F [] 0 d _ _ _ _ (fresh_reads d Fr) ltac:(lia) Ev) as (I1 & I2 & I3).
  destruct (current_message acc _ d' I2) as [M1 M2]. split; [exact I1|]. split; [exact I3|].
  split; [exact (rd_seq _ _ _ I2)|]. rewrite Z.add_0_l in M1. rewrite <- M1. split.
  - unfold dtls1_get_message. destruct (dtls1_is_current_message_complete d'); [auto|]. intros H. now elim H.
  - intros Ic. destruct (M2 Ic) as (d2 & -> & _). discriminate.
Qed.

End Reassembly.

(** ** Whatever a peer sends *)

Section Bounds.
Context {E : Env}.

(** Message [seq] of the ring: its number and the sizes of its parts. *)
Definition message_bounded (limit seq : Z) (m : option DTLSIncomingMessage) : Prop :=
  match m with
  | None => True
  | Some im => (im_seq im = seq /\ seq < 2 ^ 16) /\ DTLS1_HM_HEADER_LENGTH <= zlength (im_data im) /\ zlength (im_msg im) <= limit /\
               exists marked, represents (zlength (im_msg im)) marked (im_reassembly im)
  end.

Definition ring_bounded (limit : Z) (d : DTLS1_READ) : Prop :=
  length (incoming_messages d) = 7%nat /\
  forall q, handshake_read_seq d <= q < handshake_read_seq d + SSL_MAX_HANDSHAKE_FLIGHT ->
    message_bounded limit q (incoming d q).

Lemma ring_bounded_set limit d q m : ring_bounded limit d ->
  handshake_read_seq d <= q < handshake_read_seq d + SSL_MAX_HANDSHAKE_FLIGHT ->
  message_bounded limit q m -> ring_bounded limit (set_incoming q m d).
Proof.
  intros [L H] Hq Hm. split; [cbn; now rewrite length_set_nth|]. intros q' Hq'. cbn [set_incoming with_incoming handshake_read_seq] in Hq'.
  rewrite (incoming_set _ _ (handshake_read_seq d)) by auto. destruct (Z.eqb_spec q' q) as [->|]; auto.
Qed.

Lemma new_message_inv hdr im : dtls_new_incoming_message hdr = Some im ->
  im_seq im = hm_seq hdr /\ Bitmap_Init alloc_ok (hm_msg_len hdr) = Some (im_reassembly im) /\
  im_data im = message_header (hm_type hdr) (hm_msg_len hdr) (hm_seq hdr) ++ repeat uninit (Z.to_nat (hm_msg_len hdr)).
Proof.
  unfold dtls_new_incoming_message. destruct (negb _); [discriminate|].
  destruct (Bitmap_Init alloc_ok (hm_msg_len hdr)) as [x|]; [|discriminate]. intros En. injection En as <-. auto.
Qed.

Lemma new_message_length hdr im : 0 <= hm_msg_len hdr -> dtls_new_incoming_message hdr = Some im ->
  zlength (im_msg im) = hm_msg_len hdr.
Proof.
  intros Hn En. destruct (new_message_inv hdr im En) as (_ & _ & D). rewrite (msg_of _ _ _ _ _ D).
  unfold zlength. rewrite repeat_length. lia.
Qed.

Lemma new_message_bounded limit hdr im : 0 <= hm_msg_len hdr < 2 ^ 32 -> hm_seq hdr < 2 ^ 16 -> hm_msg_len hdr <= limit ->
  dtls_new_incoming_message hdr = Some im -> message_bounded limit (hm_seq hdr) (Some im).
Proof.
  intros Hn Hq Hl En. destruct (new_message_inv hdr im En) as (S & I & D). cbn [message_bounded].
  rewrite (new_message_length hdr im) by (auto; lia). split; [auto|]. split; [|split; [exact Hl|]].
  - rewrite D, zlength_app. pose proof (zlength_nonneg (repeat uninit (Z.to_nat (hm_msg_len hdr)))).
    unfold DTLS1_HM_HEADER_LENGTH, zlength at 1. rewrite length_header. lia.
  - exists (fun _ => false). apply (Init_represents alloc_ok); [lia|exact I].
Qed.

Lemma add_fragment_bounded limit q hdr body im : 0 <= hm_frag_off hdr -> 0 <= hm_frag_len hdr ->
  zlength body = hm_frag_len hdr -> hm_frag_off hdr + hm_frag_len hdr <= zlength (im_msg im) ->
  message_bounded limit q (Some im) -> message_bounded limit q (Some (add_fragment hdr body im)).
Proof.
  intros H1 H2 H3 H4 (S & D & M & marked & R).
  assert (L12 : length (firstn 12 (im_data im)) = 12%nat) by (rewrite length_firstn; unfold zlength, DTLS1_HM_HEADER_LENGTH in D; lia).
  assert (Em : im_msg (add_fragment hdr body im) = buf_write (im_msg im) (hm_frag_off hdr) body).
  { unfold im_msg at 1. cbn [add_fragment im_data]. change (Z.to_nat DTLS1_HM_HEADER_LENGTH) with 12%nat.
    rewrite skipn_app, L12, Nat.sub_diag, skipn_all2 by lia. reflexivity. }
  assert (Lm : zlength (buf_write (im_msg im) (hm_frag_off hdr) body) = zlength (im_msg im)).
  { unfold zlength, buf_write in *. rewrite !length_app, length_firstn, length_skipn. lia. }
  cbn [message_bounded]. rewrite Em, Lm. split; [exact S|]. split; [|split; [exact M|]].
  - cbn [add_fragment im_data]. change (Z.to_nat DTLS1_HM_HEADER_LENGTH) with 12%nat. unfold zlength, DTLS1_HM_HEADER_LENGTH.
    rewrite length_app, L12. lia.
  - eexists. cbn [add_fragment im_reassembly]. apply MarkRange_represents; [exact R|lia].
Qed.

Lemma get_u24_inv s v r : CBS_get_u24 s = (Some v, r) -> 0 <= v < 2 ^ 32 /\ (length r < length s)%nat.
Proof.
  intros H. apply bind_some_inv in H as (x & s1 & H & Hv). apply bind_some_inv in H as (y & s2 & H & Hx).
  injection Hx as <- <-. injection Hv as <- <-. apply cbs_get_inv in H as [-> Hl]; [|lia].
  split; [apply wrap_range; lia|]. rewrite length_app. unfold zlength in Hl. lia.
Qed.

(** A fragment takes bytes from the record, and its body is as long as it says. *)
Lemma parse_fragment_inv cbs hdr body rest : dtls1_parse_fragment cbs = (Some (hdr, body), rest) ->
  0 <= hm_msg_len hdr < 2 ^ 32 /\ 0 <= hm_seq hdr < 2 ^ 16 /\ 0 <= hm_frag_off hdr /\ 0 <= hm_frag_len hdr /\
  zlength body = hm_frag_len hdr /\ (length rest < length cbs)%nat.
Proof.
  intros H. unfold dtls1_parse_fragment in H.
  apply bind_some_inv in H as (type & s1 & H1 & H). apply bind_some_inv in H as (len & s2 & H2 & H).
  apply bind_some_inv in H as (sq & s3 & H3 & H). apply bind_some_inv in H as (off & s4 & H4 & H).
  apply bind_some_inv in H as (flen & s5 & H5 & H). apply bind_some_inv in H as (bd & s6 & H6 & H).
  injection H as <- <- <-. cbn [hm_msg_len hm_seq hm_frag_off hm_frag_len].
  apply CBS_get_u8_inv in H1. apply get_u24_inv in H2, H4, H5.
  apply bind_some_inv in H3 as (x & s7 & H3 & Hx). injection Hx as <- <-. apply bind_some_inv in H3 as (y & s8 & H3 & Hy).
  injection Hy as <- <-. apply cbs_get_inv in H3 as [-> _]; [|lia]. apply cbs_get_inv in H6 as [-> Hl]; [|lia].
  pose proof (wrap_range 16 (be_fold_u64 y) ltac:(lia)). subst cbs. rewrite !length_app in *. cbn [length].
  repeat split; try lia; exact Hl.
Qed.

Lemma process_fragment_bounded limit cx hdr body d r d' : ring_bounded limit d -> max_message_len cx <= limit ->
  0 <= hm_msg_len hdr < 2 ^ 32 -> hm_seq hdr < 2 ^ 16 -> 0 <= hm_frag_off hdr -> 0 <= hm_frag_len hdr ->
  zlength body = hm_frag_len hdr ->
  process_fragment cx hdr body d = (r, d') -> ring_bounded limit d' /\ handshake_read_seq d' = handshake_read_seq d.
Proof.
  intros R Hc Hm Hq Ho Hf Hb P. unfold process_fragment in P. rewrite !Z.gtb_ltb in P.
  destruct (Z.ltb_spec (hm_msg_len hdr) (hm_frag_off hdr)); [now injection P as <- <-|].
  destruct (Z.ltb_spec (hm_msg_len hdr - hm_frag_off hdr) (hm_frag_len hdr)); [now injection P as <- <-|]. cbn [orb] in P.
  destruct (Z.ltb_spec (hm_seq hdr) (handshake_read_seq d)); [now injection P as <- <-|]. cbn [orb] in P.
  destruct (handshake_read_overflow d); [now injection P as <- <-|].
  destruct (negb (latest_epoch cx)); [now injection P as <- <-|].
  destruct (Z.ltb_spec (max_message_len cx) (hm_msg_len hdr)); [now injection P as <- <-|].
  destruct (Z.leb_spec SSL_MAX_HANDSHAKE_FLIGHT (hm_seq hdr - handshake_read_seq d)); [now injection P as <- <-|].
  unfold dtls1_get_incoming_message in P.
  destruct (Z.ltb_spec (hm_seq hdr) (handshake_read_seq d)), (Z.leb_spec SSL_MAX_HANDSHAKE_FLIGHT (hm_seq hdr - handshake_read_seq d));
    try lia. cbn [orb] in P. pose proof (proj2 R (hm_seq hdr) ltac:(lia)) as S.
  destruct (incoming d (hm_seq hdr)) as [im|].
  - destruct (negb _ || negb _) eqn:T in P; [now injection P as <- <-|]. apply orb_false_iff in T as [_ T].
    apply negb_false_iff, Z.eqb_eq in T. destruct (IsComplete _); injection P as <- <-; [auto|]. split; [|reflexivity].
    apply ring_bounded_set; [exact R|lia|]. apply add_fragment_bounded; auto. lia.
  - destruct (dtls_new_incoming_message hdr) as [im|] eqn:En.
    2: { injection P as <- <-. split; [|reflexivity]. now apply ring_bounded_set; [|lia|]. }
    pose proof (new_message_bounded limit hdr im Hm Hq ltac:(lia) En) as B.
    assert (R1 : ring_bounded limit (set_incoming (hm_seq hdr) (Some im) d)) by (apply ring_bounded_set; [exact R|lia|exact B]).
    destruct (IsComplete _); injection P as <- <-; [auto|]. split; [|reflexivity].
    apply ring_bounded_set; [exact R1|cbn; lia|]. apply add_fragment_bounded; auto.
    rewrite (new_message_length hdr im) by (auto; lia). lia.
Qed.

Lemma fragments_loop_bounded limit cx fuel : max_message_len cx <= limit -> forall cbs a s d, ring_bounded limit d ->
  (length cbs <= fuel)%nat ->
  let '(r, d') := fragments_loop fuel cx cbs a s d in
  ring_bounded limit d' /\ handshake_read_seq d' = handshake_read_seq d /\
  forall k, fragments_loop (fuel + k) cx cbs a s d = (r, d').
Proof.
  intros Hc. induction fuel as [|fuel IH]; intros cbs a s d R Hf.
  - destruct cbs; [|cbn in Hf; lia]. cbn. repeat split; try apply R. now intros [|k].
  - destruct cbs as [|b cbs]; [cbn; repeat split; apply R|]. cbn [fragments_loop Nat.add].
    destruct (dtls1_parse_fragment (b :: cbs)) as [[[hdr body]|] rest] eqn:P; [|repeat split; apply R].
    destruct (parse_fragment_inv _ _ _ _ P) as (H1 & H2 & H3 & H4 & H5 & H6).
    destruct (process_fragment cx hdr body d) as [r d1] eqn:Q.
    destruct (process_fragment_bounded limit cx hdr body d r d1 R Hc H1 (proj2 H2) H3 H4 H5 Q) as [R1 E1].
    destruct r as [alert|[a1 s1]]; [auto|].
    pose proof (IH rest (a || a1) (s || s1) d1 R1 ltac:(cbn [length] in *; lia)) as G.
    destruct (fragments_loop fuel cx rest (a || a1) (s || s1) d1) as [r' d']. rewrite E1 in G. exact G.
Qed.

Lemma next_bounded limit d : 0 <= handshake_read_seq d < 2 ^ 16 -> ring_bounded limit d ->
  ring_bounded limit (dtls1_next_message d) /\ 0 <= handshake_read_seq (dtls1_next_message d) < 2 ^ 16.
Proof.
  intros Hr [L H]. set (r := handshake_read_seq d) in *. split; [|apply (wrap_range 16); lia].
  split; [cbn; now rewrite length_set_nth|]. intros q Hq. cbn [dtls1_next_message handshake_read_seq] in Hq. fold r in Hq.
  unfold incoming. cbn [dtls1_next_message incoming_messages]. fold r.
  rewrite nth_set_nth_default by (rewrite L; apply slot_range).
  destruct (Nat.eqb_spec (slot q) (slot r)) as [|N]; [exact I|]. unfold SSL_MAX_HANDSHAKE_FLIGHT in *.
  destruct (Z.eq_dec r (2 ^ 16 - 1)) as [Er|Er].
  - rewrite Er in Hq. change (u16 (2 ^ 16 - 1 + 1)) with 0 in Hq.
    assert (Q : exists q', slot q' = slot q /\ r <= q' < r + 7).
    { exists (r + (q - r) mod 7). pose proof (Z.mod_pos_bound (q - r) 7 ltac:(lia)). split; [|lia].
      unfold slot, SSL_MAX_HANDSHAKE_FLIGHT. f_equal. rewrite Zplus_mod_idemp_r. f_equal. lia. }
    destruct Q as (q' & Es & Hq'). specialize (H q' ltac:(unfold SSL_MAX_HANDSHAKE_FLIGHT; lia)). unfold incoming in H. rewrite Es in H.
    destruct (nth (slot q) (incoming_messages d) None) as [im|]; [|exact I]. destruct H as ((_ & H) & _).
    assert (q' = r) by lia. subst q'. now elim N.
  - rewrite wrap_small in Hq by lia. apply H. unfold SSL_MAX_HANDSHAKE_FLIGHT.
    destruct (Z.eq_dec q (r + 7)) as [->|]; [|lia]. elim N. unfold slot, SSL_MAX_HANDSHAKE_FLIGHT.
    f_equal. replace (r + 7) with (r + 1 * 7) by lia. apply Z.mod_add. lia.
Qed.

(** The bytes held for messages that are not complete or not taken yet. *)
Definition ring_memory (d : DTLS1_READ) : Z :=
  total (fun m => match m with Some im => zlength (im_data im) | None => 0 end) (incoming_messages d).

Lemma total_bound {A} (f : A -> Z) c l : (forall k, (k < length l)%nat -> forall d, f (nth k l d) <= c) ->
  total f l <= zlength l * c.
Proof.
  induction l as [|x l IH]; intros H; cbn [total]; [reflexivity|]. rewrite zlength_cons.
  pose proof (H 0%nat ltac:(cbn; lia) x) as H0. cbn [nth] in H0. assert (total f l <= zlength l * c); [|lia].
  apply IH. intros k Hk d. exact (H (S k) ltac:(cbn; lia) d).
Qed.

Lemma ring_memory_bounded limit d : 0 <= limit -> ring_bounded limit d -> ring_memory d <= 7 * (12 + limit).
Proof.
  intros Hl [L H]. unfold ring_memory. replace 7 with (zlength (incoming_messages d)) by (unfold zlength; lia).
  apply total_bound. intros k Hk m0. rewrite (nth_indep _ m0 None Hk). set (r := handshake_read_seq d) in *.
  assert (Q : exists q, slot q = k /\ r <= q < r + 7).
  { exists (r + (Z.of_nat k - r) mod 7). pose proof (Z.mod_pos_bound (Z.of_nat k - r) 7 ltac:(lia)). split; [|lia].
    unfold slot, SSL_MAX_HANDSHAKE_FLIGHT. rewrite Zplus_mod_idemp_r. replace (r + (Z.of_nat k - r)) with (Z.of_nat k) by lia.
    rewrite Z.mod_small by lia. lia. }
  destruct Q as (q & Es & Hq). specialize (H q ltac:(unfold SSL_MAX_HANDSHAKE_FLIGHT; lia)). unfold incoming in H. rewrite Es in H.
  destruct (nth k (incoming_messages d) None) as [im|]; [|lia]. destruct H as (_ & H1 & H2 & _).
  unfold im_msg, DTLS1_HM_HEADER_LENGTH, zlength in *. rewrite length_skipn in H2. lia.
Qed.

(** Records of any contents, and messages taken when they are complete. *)
Inductive peer_event : Type :=
  | AnyRecord (cx : fragment_context) (record : list Z)
  | TakeIfComplete.

Definition peer_step (d : DTLS1_READ) (e : peer_event) : DTLS1_READ :=
  match e with
  | AnyRecord cx record => snd (handshake_fragments cx record d)
  | TakeIfComplete => match dtls1_get_message d with (Some _, d1) => dtls1_next_message d1 | (None, d1) => d1 end
  end.

Definition event_limit (limit : Z) (e : peer_event) : Prop :=
  match e with AnyRecord cx _ => max_message_len cx <= limit | TakeIfComplete => True end.

Lemma peer_step_bounded limit d e : event_limit limit e -> 0 <= handshake_read_seq d < 2 ^ 16 -> ring_bounded limit d ->
  ring_bounded limit (peer_step d e) /\ 0 <= handshake_read_seq (peer_step d e) < 2 ^ 16.
Proof.
  intros Hl Hr R. destruct e as [cx record|]; cbn [peer_step event_limit] in *.
  - pose proof (fragments_loop_bounded limit cx (length record) Hl record false false d R (le_n _)) as G.
    unfold handshake_fragments. destruct (fragments_loop _ cx record false false d) as [r d'].
    destruct G as (G1 & G2 & _). cbn [snd]. rewrite G2. auto.
  - unfold dtls1_get_message. destruct (dtls1_is_current_message_complete d); [|auto]. cbn [negb].
    destruct (incoming d (handshake_read_seq d)); [|auto]. now apply next_bounded.
Qed.

(** C36: Whatever a peer sends, what is kept for it is bounded and consistent.
    After any records (of any bytes) and any taking of messages, every message
    in the ring has the number of its slot, a buffer no longer than the limit on
    messages and a bitmap of exactly its length, so that fragments of one
    message never meet another's buffer and the assertions of the code hold; the
    ring holds at most 7 (12 + limit) bytes; and the loop over a record always
    ends. *)
Theorem reassembly_bounded limit es d :
  0 <= limit -> fresh_reading d -> Forall (event_limit limit) es ->
  let d' := fold_left peer_step es d in
  ring_bounded limit d' /\ ring_memory d' <= 7 * (12 + limit) /\
  forall cx record k, max_message_len cx <= limit ->
    fragments_loop (length record + k) cx record false false d' = handshake_fragments cx record d'.
Proof.
  intros Hl (F1 & F2 & F3) F d'.
  assert (R : ring_bounded limit d' /\ 0 <= handshake_read_seq d' < 2 ^ 16).
  { assert (R0 : ring_bounded limit d).
    { split; [now rewrite F3|]. intros q _. unfold incoming. rewrite F3.
      destruct (nth_in_or_default (slot q) (repeat (@None DTLSIncomingMessage) 7) None) as [H|H];
        [apply repeat_spec in H|]; rewrite H; exact I. }
    assert (S0 : 0 <= handshake_read_seq d < 2 ^ 16) by (rewrite F1; lia). unfold d'. clear d' F1 F2 F3.
    revert d R0 S0. induction F as [|e es He F IH]; intros d R0 S0; [auto|]. cbn [fold_left].
    destruct (peer_step_bounded limit d e He S0 R0). apply IH; assumption. }
  destruct R as [R S]. split; [exact R|]. split; [now apply ring_memory_bounded|]. intros cx record k Hc.
  pose proof (fragments_loop_bounded limit cx (length record) Hc record false false d' R (le_n _)) as G.
  unfold handshake_fragments. destruct (fragments_loop (length record) cx record false false d') as [r d2].
  destruct G as (_ & _ & G). apply G.
Qed.

End Bounds.

(** ** A run *)

#[local] Instance reading_env : Env := { uninit := 0xaa; alloc_ok := fun _ => true }.

Definition demo_messages (q : Z) : Z * list Z :=
  if q =? 0 then (2, [10; 11; 12; 13; 14; 15; 16; 17; 18; 19; 20]) else if q =? 1 then (14, []) else (20, [30; 31; 32]).

Definition demo_context : fragment_context := {| latest_epoch := true; max_message_len := 100; acknowledges := false |}.

Definition fresh_d1 : DTLS1_READ :=
  {| handshake_read_seq := 0; handshake_read_overflow := false; incoming_messages := repeat None 7;
     s3_has_message := false; outgoing_messages_complete := false; flight_has_reply := false |}.

Definition demo_piece (q off len : Z) : piece := {| pc_seq := q; pc_off := off; pc_len := len |}.

(** The tail of the first message, the third message, then the rest, with an overlap
    and a retransmission; only the middle of the third message arrives. *)
Definition demo_readings : list reading :=
  [Arrives demo_context [demo_piece 0 6 5; demo_piece 2 1 1]; TakeMessage;
   Arrives demo_context [demo_piece 1 0 0]; Arrives demo_context [demo_piece 0 0 8]; TakeMessage;
   Arrives demo_context [demo_piece 0 6 5]; TakeMessage].

Lemma messages_reassembled_witness :
  let '(alerts, taken, acc, d') := receive demo_messages demo_readings [] fresh_d1 in
  alerts = [] /\
  taken = [(2, whole demo_messages 0, body_of demo_messages 0); (14, whole demo_messages 1, [])] /\
  fst (dtls1_get_message d') = None.
Proof.
  assert (L : forall q, zlength (body_of demo_messages q) < 2 ^ 24).
  { intros q. unfold body_of, demo_messages. destruct (q =? 0), (q =? 1); vm_compute; reflexivity. }
  assert (C : context_ok demo_messages demo_context).
  { split; [reflexivity|]. intros q. unfold body_of, demo_messages. destruct (q =? 0), (q =? 1); vm_compute; discriminate. }
  assert (F : Forall (reading_ok demo_messages) demo_readings).
  { assert (P : forall ps, forallb (fun p => (0 <=? pc_off p) && (0 <=? pc_len p) && (0 <=? pc_seq p) && (pc_seq p <? 2 ^ 16) &&
                             (pc_off p + pc_len p <=? zlength (body_of demo_messages (pc_seq p)))) ps = true ->
                           Forall (piece_ok demo_messages) ps).
    { intros ps H. apply Forall_forall. intros p Hp. rewrite forallb_forall in H. specialize (H p Hp). unfold piece_ok. lia. }
    unfold demo_readings. repeat (apply Forall_cons; [first [exact I | split; [exact C|apply P; reflexivity]]|]). apply Forall_nil. }
  pose proof (messages_reassembled demo_messages L demo_readings fresh_d1 (fun _ => eq_refl) F eq_refl
                (conj eq_refl (conj eq_refl eq_refl))) as H.
  destruct (receive demo_messages demo_readings [] fresh_d1) as [[[alerts taken] acc] d'] eqn:Ev.
  destruct H as (H1 & H2 & H3 & H4). vm_compute in Ev. injection Ev as <- <- <- <-.
  split; [exact H1|]. split; [exact H2|].
  revert H4. match goal with |- _ -> ?x = None => generalize x end. intros [m|] H4; [exfalso|reflexivity].
  destruct (proj1 H4 ltac:(discriminate)) as (_ & B). specialize (B 0 ltac:(vm_compute; split; congruence)).
  vm_compute in B. discriminate.
Defined.

(** A peer that declares one message, then contradicts itself, and sends junk. *)
Definition demo_events : list peer_event :=
  [AnyRecord demo_context (fragment_bytes demo_messages (demo_piece 0 2 3)); AnyRecord demo_context [2; 0; 0; 50; 0; 0; 0; 0; 0; 0; 0; 0];
   AnyRecord demo_context [1; 2; 3]; TakeIfComplete].

Lemma reassembly_bounded_witness :
  ring_memory (fold_left peer_step demo_events fresh_d1) = 23 /\ 23 <= 7 * (12 + 100).
Proof.
  assert (F : Forall (event_limit 100) demo_events) by (repeat constructor; cbn; lia).
  destruct (reassembly_bounded 100 demo_events fresh_d1 ltac:(lia) (conj eq_refl (conj eq_refl eq_refl)) F) as (_ & H & _).
  assert (M : ring_memory (fold_left peer_step demo_events fresh_d1) = 23) by (vm_compute; reflexivity).
  rewrite M in H. split; [exact M|exact H].
Defined.
