(* ===== verification/DtlsFlight.v ===== *)
(** * Flights of DTLS handshake messages: [ssl/d1_both.cc], [ssl/d1_lib.cc],
      [ssl/d1_pkt.cc]

    A side collects its next messages in [outgoing_messages], sends them in
    fragments as large as the packets allow, and sends what is not acknowledged
    again when the timer fires.  In DTLS 1.3 it remembers what each record
    covered ([sent_records]) and marks those bytes when the record is
    acknowledged.  [sealed] and [wire] are not in the code: they keep what was
    given to [dtls_seal_record] and to the transport, for the theorems.  Message
    callbacks and [rwstate] are not observed, and small allocations of fixed
    size succeed. *)
From S2P Require Import Prelude Cbs Cbb SslVersions SslAead TlsRecord DtlsWindow DtlsRecord Transition DtlsBitmap DtlsMessages.
From Stdlib Require Import ZArith List Lia Bool.
Import ListNotations.
Open Scope Z_scope.

(** ** Queues of the latest elements *)

Section Mru.
Context {T : Type}.
Variable N : Z.

(** [MRUQueue<T, N>] *)
Record MRUQueue := { storage_ : list T; start_ : Z }.

Definition mru_new : MRUQueue := {| storage_ := []; start_ := 0 |}.
Definition mru_size (q : MRUQueue) : Z := zlength (storage_ q).
Definition mru_index (q : MRUQueue) (i : Z) : nat := Z.to_nat ((start_ q + i) mod N).
Definition mru_at (q : MRUQueue) (i : Z) : option T := nth_error (storage_ q) (mru_index q i).
Definition mru_put (q : MRUQueue) (i : Z) (t : T) : MRUQueue :=
  {| storage_ := set_nth (mru_index q i) t (storage_ q); start_ := start_ q |}.

Definition mru_push (t : T) (q : MRUQueue) : MRUQueue :=
  if mru_size q <? N then {| storage_ := storage_ q ++ [t]; start_ := start_ q |}
  else {| storage_ := storage_ (mru_put q 0 t); start_ := (start_ q + 1) mod N |}.

(** The elements, oldest first. *)
Definition mru_elements (q : MRUQueue) : list T :=
  flat_map (fun i => match mru_at q (Z.of_nat i) with Some t => [t] | None => [] end) (seq 0 (length (storage_ q))).

End Mru.
Arguments MRUQueue : clear implicits.

(** ** Timers *)

Record OPENSSL_timeval := { tv_sec : Z; tv_usec : Z }.
Record DTLSTimer := { start_time_ : Z; duration_ : Z }.

Definition kNever : Z := 2 ^ 64 - 1.
Definition ToMicros (now : OPENSSL_timeval) : Z := u64 (u64 (tv_sec now * 1000000) + tv_usec now).
Definition StartMicroseconds (now : OPENSSL_timeval) (microseconds : Z) : DTLSTimer :=
  {| start_time_ := ToMicros now; duration_ := microseconds |}.
Definition UpdateDuration (microseconds : Z) (t : DTLSTimer) : DTLSTimer :=
  {| start_time_ := start_time_ t; duration_ := microseconds |}.
Definition Stop (t : DTLSTimer) : DTLSTimer := UpdateDuration kNever t.
Definition IsSet (t : DTLSTimer) : bool := negb (duration_ t =? kNever).

Definition MicrosecondsRemaining (now : OPENSSL_timeval) (t : DTLSTimer) : Z :=
  if negb (IsSet t) then kNever
  else
    let now_us := ToMicros now in
    let expire_us := u64 (start_time_ t + duration_ t) in
    if now_us >? expire_us then 0
    else
      let remain_us := expire_us - now_us in
      if remain_us <? 15000 then 0 else remain_us.

Definition IsExpired (now : OPENSSL_timeval) (t : DTLSTimer) : bool := MicrosecondsRemaining now t =? 0.

(** ** State *)

Definition DTLS_MAX_ACK_BUFFER : Z := 32.
Definition DTLS1_MTU_TIMEOUTS : Z := 2.
Definition DTLS1_MAX_TIMEOUTS : Z := 12.
Definition kMinMTU : Z := 256 - 28.
Definition kDefaultMTU : Z := 1500 - 28.

Record DTLSOutgoingMessage := {
  om_data : list Z;
  om_epoch : Z;
  om_is_ccs : bool;
  om_acked : DTLSMessageBitmap
}.

Definition om_msg_len (m : DTLSOutgoingMessage) : Z := zlength (om_data m) - DTLS1_HM_HEADER_LENGTH.
Definition IsFullyAcked (m : DTLSOutgoingMessage) : bool := negb (om_is_ccs m) && IsComplete (om_acked m).

Record DTLSSentRecord := {
  sr_number : DTLSRecordNumber;
  sr_first_msg : nat;
  sr_last_msg : nat;
  sr_first_msg_start : Z;
  sr_last_msg_end : Z
}.

(** The transport: what [BIO_write] and [BIO_flush] return, given what was written
    before, and the answers to the MTU queries. *)
Record BIO := {
  bio_write : list (list Z) -> list Z -> Z;
  bio_flush : list (list Z) -> Z;
  bio_query_mtu : Z;
  bio_fallback_mtu : Z
}.

(** What was given to [dtls_seal_record], and what came out. *)
Record sealed_record := { sl_number : DTLSRecordNumber; sl_type : Z; sl_contents : list Z; sl_bytes : list Z }.

(** What of [DTLS1_STATE], [SSL3_STATE] and [SSL] sending uses, by purpose. *)
Record FLIGHT := {
  outgoing_messages : list DTLSOutgoingMessage;
  sent_records : option (MRUQueue DTLSSentRecord);
  outgoing_written : nat;
  outgoing_offset : Z;
  sending_flight : bool;
  handshake_write_seq : Z;
  handshake_write_overflow : bool;
  sealed : list sealed_record
}.

Record TIMERS := {
  num_timeouts : Z;
  retransmit_timer : DTLSTimer;
  ack_timer : DTLSTimer;
  timeout_duration_ms : Z;
  initial_timeout_duration_ms : Z
}.

Record ACKS := { records_to_ack : MRUQueue DTLSRecordNumber; sending_ack : bool }.

Record TRANSPORT := {
  mtu : Z;
  no_query_mtu : bool;                                   (* SSL_OP_NO_QUERY_MTU *)
  write_closed : bool;                                   (* write_shutdown is set *)
  wbio : option BIO;
  pending_flush : bool;
  wire : list (list Z)
}.

(** A connection: its epochs, what it receives, what it sends. *)
Record CONN := {
  c_ssl : DTLS; c_read : DTLS1_READ; c_flight : FLIGHT; c_timers : TIMERS; c_acks : ACKS; c_transport : TRANSPORT
}.

Definition on_ssl (g : DTLS -> DTLS) (c : CONN) : CONN :=
  {| c_ssl := g (c_ssl c); c_read := c_read c; c_flight := c_flight c; c_timers := c_timers c; c_acks := c_acks c;
     c_transport := c_transport c |}.
Definition on_read (g : DTLS1_READ -> DTLS1_READ) (c : CONN) : CONN :=
  {| c_ssl := c_ssl c; c_read := g (c_read c); c_flight := c_flight c; c_timers := c_timers c; c_acks := c_acks c;
     c_transport := c_transport c |}.
Definition on_flight (g : FLIGHT -> FLIGHT) (c : CONN) : CONN :=
  {| c_ssl := c_ssl c; c_read := c_read c; c_flight := g (c_flight c); c_timers := c_timers c; c_acks := c_acks c;
     c_transport := c_transport c |}.
Definition on_timers (g : TIMERS -> TIMERS) (c : CONN) : CONN :=
  {| c_ssl := c_ssl c; c_read := c_read c; c_flight := c_flight c; c_timers := g (c_timers c); c_acks := c_acks c;
     c_transport := c_transport c |}.
Definition on_acks (g : ACKS -> ACKS) (c : CONN) : CONN :=
  {| c_ssl := c_ssl c; c_read := c_read c; c_flight := c_flight c; c_timers := c_timers c; c_acks := g (c_acks c);
     c_transport := c_transport c |}.
Definition on_transport (g : TRANSPORT -> TRANSPORT) (c : CONN) : CONN :=
  {| c_ssl := c_ssl c; c_read := c_read c; c_flight := c_flight c; c_timers := c_timers c; c_acks := c_acks c;
     c_transport := g (c_transport c) |}.

Definition with_messages (l : list DTLSOutgoingMessage) (f : FLIGHT) : FLIGHT :=
  {| outgoing_messages := l; sent_records := sent_records f; outgoing_written := outgoing_written f;
     outgoing_offset := outgoing_offset f; sending_flight := sending_flight f;
     handshake_write_seq := handshake_write_seq f; handshake_write_overflow := handshake_write_overflow f;
     sealed := sealed f |}.
Definition with_cursor (written : nat) (offset : Z) (f : FLIGHT) : FLIGHT :=
  {| outgoing_messages := outgoing_messages f; sent_records := sent_records f; outgoing_written := written;
     outgoing_offset := offset; sending_flight := sending_flight f;
     handshake_write_seq := handshake_write_seq f; handshake_write_overflow := handshake_write_overflow f;
     sealed := sealed f |}.
Definition with_sent (q : option (MRUQueue DTLSSentRecord)) (f : FLIGHT) : FLIGHT :=
  {| outgoing_messages := outgoing_messages f; sent_records := q; outgoing_written := outgoing_written f;
     outgoing_offset := outgoing_offset f; sending_flight := sending_flight f;
     handshake_write_seq := handshake_write_seq f; handshake_write_overflow := handshake_write_overflow f;
     sealed := sealed f |}.
Definition with_sending (b : bool) (f : FLIGHT) : FLIGHT :=
  {| outgoing_messages := outgoing_messages f; sent_records := sent_records f; outgoing_written := outgoing_written f;
     outgoing_offset := outgoing_offset f; sending_flight := b;
     handshake_write_seq := handshake_write_seq f; handshake_write_overflow := handshake_write_overflow f;
     sealed := sealed f |}.
Definition with_write_seq (seq : Z) (overflow : bool) (f : FLIGHT) : FLIGHT :=
  {| outgoing_messages := outgoing_messages f; sent_records := sent_records f; outgoing_written := outgoing_written f;
     outgoing_offset := outgoing_offset f; sending_flight := sending_flight f;
     handshake_write_seq := seq; handshake_write_overflow := overflow; sealed := sealed f |}.
Definition log_sealed (number : DTLSRecordNumber) (type : Z) (contents bytes : list Z) (f : FLIGHT) : FLIGHT :=
  {| outgoing_messages := outgoing_messages f; sent_records := sent_records f; outgoing_written := outgoing_written f;
     outgoing_offset := outgoing_offset f; sending_flight := sending_flight f;
     handshake_write_seq := handshake_write_seq f; handshake_write_overflow := handshake_write_overflow f;
     sealed := sealed f ++ [{| sl_number := number; sl_type := type; sl_contents := contents; sl_bytes := bytes |}] |}.

Definition with_retransmit (t : DTLSTimer) (x : TIMERS) : TIMERS :=
  {| num_timeouts := num_timeouts x; retransmit_timer := t; ack_timer := ack_timer x;
     timeout_duration_ms := timeout_duration_ms x; initial_timeout_duration_ms := initial_timeout_duration_ms x |}.
Definition with_ack_timer (t : DTLSTimer) (x : TIMERS) : TIMERS :=
  {| num_timeouts := num_timeouts x; retransmit_timer := retransmit_timer x; ack_timer := t;
     timeout_duration_ms := timeout_duration_ms x; initial_timeout_duration_ms := initial_timeout_duration_ms x |}.
Definition with_timeouts (n duration : Z) (x : TIMERS) : TIMERS :=
  {| num_timeouts := n; retransmit_timer := retransmit_timer x; ack_timer := ack_timer x;
     timeout_duration_ms := duration; initial_timeout_duration_ms := initial_timeout_duration_ms x |}.
Definition with_acks (q : MRUQueue DTLSRecordNumber) (a : ACKS) : ACKS :=
  {| records_to_ack := q; sending_ack := sending_ack a |}.
Definition with_sending_ack (b : bool) (a : ACKS) : ACKS := {| records_to_ack := records_to_ack a; sending_ack := b |}.
Definition with_mtu (n : Z) (t : TRANSPORT) : TRANSPORT :=
  {| mtu := n; no_query_mtu := no_query_mtu t; write_closed := write_closed t; wbio := wbio t;
     pending_flush := pending_flush t; wire := wire t |}.
Definition with_pending (b : bool) (t : TRANSPORT) : TRANSPORT :=
  {| mtu := mtu t; no_query_mtu := no_query_mtu t; write_closed := write_closed t; wbio := wbio t;
     pending_flush := b; wire := wire t |}.
Definition with_wire (packet : list Z) (t : TRANSPORT) : TRANSPORT :=
  {| mtu := mtu t; no_query_mtu := no_query_mtu t; write_closed := write_closed t; wbio := wbio t;
     pending_flush := pending_flush t; wire := wire t ++ [packet] |}.

(** ** The flight is over *)

Definition dtls1_stop_timer (x : TIMERS) : TIMERS :=
  with_retransmit (Stop (retransmit_timer x)) (with_timeouts 0 (initial_timeout_duration_ms x) x).

(** An epoch is kept for the messages of it that are not acknowledged. *)
Definition dtls_clear_unused_write_epochs (msgs : list DTLSOutgoingMessage) (ssl : DTLS) : DTLS :=
  with_write ssl (write_epoch ssl)
    (filter (fun e => existsb (fun m => (om_epoch m =? we_epoch e) && negb (IsFullyAcked m)) msgs) (extra_write_epochs ssl)).

Definition with_complete (complete reply : bool) (d : DTLS1_READ) : DTLS1_READ :=
  {| handshake_read_seq := handshake_read_seq d; handshake_read_overflow := handshake_read_overflow d;
     incoming_messages := incoming_messages d; s3_has_message := s3_has_message d;
     outgoing_messages_complete := complete; flight_has_reply := reply |}.

Definition dtls_clear_outgoing_messages (c : CONN) : CONN :=
  on_ssl (dtls_clear_unused_write_epochs [])
    (on_read (with_complete false false)
       (on_flight (fun f => with_sending false (with_cursor 0 0 (with_sent None (with_messages [] f)))) c)).

Definition DTLS_MAX_EXTRA_WRITE_EPOCHS : Z := 2.

(** [dtls1_set_write_state], with the encrypter that is derived for it.  [None]:
    there is no room for another epoch, and the program stops. *)
Definition dtls1_set_write_state (level : ssl_encryption_level_t) (aead : SSLAEADContext)
    (encrypter : option RecordNumberEncrypter) (c : CONN) : option bool * CONN :=
  match next_epoch (c_ssl c) level (we_epoch (write_epoch (c_ssl c))) with
  | None => (Some false, c)
  | Some epoch =>
      let install enc :=
        if DTLS_MAX_EXTRA_WRITE_EPOCHS <=? zlength (extra_write_epochs (c_ssl c)) then (None, c)
        else
          (Some true, on_ssl (fun ssl =>
             dtls_clear_unused_write_epochs (outgoing_messages (c_flight c))
               (with_write ssl {| next_record := make_record_number epoch 0; we_aead := aead; we_encrypter := enc |}
                  (extra_write_epochs ssl ++ [write_epoch ssl]))) c) in
      if ssl_protocol_version (d_version (c_ssl c)) >? TLS1_2_VERSION then
        match encrypter with None => (Some false, c) | Some enc => install enc end
      else install (fun _ => None)
  end.

(** ** Adding messages *)

Section Sending.
Context {E : Env}.

Definition start_flight (c : CONN) : CONN :=
  if outgoing_messages_complete (c_read c)
  then dtls_clear_outgoing_messages (on_timers dtls1_stop_timer c) else c.

(** [transcript_ok]: whether the transcript, if there is one, accepts the message. *)
Definition add_outgoing (transcript_ok is_ccs : bool) (data : list Z) (c : CONN) : bool * CONN :=
  let c := start_flight c in
  let push c :=
    let m acked := {| om_data := data; om_epoch := we_epoch (write_epoch (c_ssl c)); om_is_ccs := is_ccs; om_acked := acked |} in
    let try_push m :=
      if zlength (outgoing_messages (c_flight c)) <? SSL_MAX_HANDSHAKE_FLIGHT
      then (true, on_flight (fun f => with_messages (outgoing_messages f ++ [m]) f) c) else (false, c) in
    if is_ccs then try_push (m {| bytes_ := []; first_unmarked_byte_ := 0 |})
    else match Bitmap_Init alloc_ok (Z.max (zlength data - DTLS1_HM_HEADER_LENGTH) 1) with
         | None => (false, c)
         | Some acked => try_push (m acked)
         end in
  if is_ccs then push c
  else if handshake_write_overflow (c_flight c) then (false, c)
  else if negb transcript_ok then (false, c)
  else
    let seq := u16 (handshake_write_seq (c_flight c) + 1) in
    push (on_flight (with_write_seq seq (if seq =? 0 then true else handshake_write_overflow (c_flight c))) c).

Definition dtls1_add_message (transcript_ok : bool) (data : list Z) : CONN -> bool * CONN := add_outgoing transcript_ok false data.

Definition dtls1_add_change_cipher_spec (c : CONN) : bool * CONN :=
  if ssl_protocol_version (d_version (c_ssl c)) >? TLS1_2_VERSION then (true, c) else add_outgoing true true [] c.

Definition dtls1_finish_flight (c : CONN) : CONN :=
  match outgoing_messages (c_flight c) with
  | [] => c
  | first :: _ =>
      if outgoing_messages_complete (c_read c) then c
      else
        let c := if om_epoch first <=? 2
                 then on_acks (fun _ => {| records_to_ack := mru_new; sending_ack := false |})
                        (on_timers (fun x => with_ack_timer (Stop (ack_timer x)) x) c)
                 else c in
        on_timers dtls1_stop_timer
          (on_flight (with_sending true) (on_read (fun d => with_complete true (flight_has_reply d) d) c))
  end.

Definition dtls1_schedule_ack (c : CONN) : CONN :=
  on_acks (fun a => with_sending_ack (negb (mru_size (records_to_ack a) =? 0)) a)
    (on_timers (fun x => with_ack_timer (Stop (ack_timer x)) x) c).

(** ** Packing fragments into a record *)

(** A fragment added to the builder over [size] bytes. *)
Definition fragment_cbb (size : Z) (hdr : hm_header_st) (start : Z) (frag cbb : list Z) : option (list Z) :=
  if (hm_msg_len hdr <? 2 ^ 24) && (start <? 2 ^ 24) && (zlength frag <? 2 ^ 24) && (zlength cbb + 12 + zlength frag <=? size)
  then Some (cbb ++ [hm_type hdr] ++ be_split 3 (hm_msg_len hdr) ++ be_split 2 (hm_seq hdr) ++ be_split 3 start ++
             be_split 3 (zlength frag) ++ frag)
  else None.

(** The fragments of one message: the builder or an error, the offset, and whether
    the packet is full. *)
Fixpoint pack_message (fuel : nat) (size : Z) (acked : DTLSMessageBitmap) (hdr : hm_header_st) (body : list Z)
    (offset : Z) (cbb : list Z) : option (list Z * bool) * Z :=
  let range := NextUnmarkedRange offset acked in
  let range_size := range_end range - range_start range in
  if range_size =? 0 then (Some (cbb, false), offset)
  else
    let capacity := size - zlength cbb in
    if capacity <? DTLS1_HM_HEADER_LENGTH + 1 then (Some (cbb, true), offset)
    else
      let todo := Z.min range_size (capacity - DTLS1_HM_HEADER_LENGTH) in
      let frag := match body with [] => [] | _ => firstn (Z.to_nat todo) (skipn (Z.to_nat (range_start range)) body) end in
      match fragment_cbb size hdr (range_start range) frag cbb with
      | None => (None, offset)
      | Some cbb =>
          let offset := range_start range + todo in
          if todo <? range_size then (Some (cbb, true), offset)
          else match fuel with O => (None, offset) | S fuel' => pack_message fuel' size acked hdr body offset cbb end
      end.

(** The messages of one epoch: the builder and [should_continue], or an error. *)
Fixpoint pack_messages (fuel : nat) (size epoch : Z) (allow_multiple : bool) (msgs : list DTLSOutgoingMessage)
    (written : nat) (offset : Z) (cbb : list Z) : option (list Z * bool) * nat * Z :=
  match nth_error msgs written, fuel with
  | None, _ => (Some (cbb, false), written, offset)
  | Some _, O => (None, written, offset)
  | Some msg, S fuel' =>
      if negb (om_epoch msg =? epoch) || om_is_ccs msg then (Some (cbb, true), written, offset)
      else
        match dtls1_parse_fragment (om_data msg) with
        | (Some (hdr, body), []) =>
            if negb (hm_frag_off hdr =? 0) || negb (hm_frag_len hdr =? zlength body) || negb (hm_msg_len hdr =? zlength body)
            then (None, written, offset)
            else
              match pack_message (Z.to_nat size) size (om_acked msg) hdr body offset cbb with
              | (None, offset) => (None, written, offset)
              | (Some (cbb, true), offset) => (Some (cbb, false), written, offset)
              | (Some (cbb, false), _) =>
                  if allow_multiple then pack_messages fuel' size epoch allow_multiple msgs (S written) 0 cbb
                  else (Some (cbb, true), S written, 0)
              end
        | _ => (None, written, offset)
        end
  end.

(** ** Sealing packets *)

Inductive seal_result_t := seal_error | seal_continue | seal_flush.

Variable RAND_bytes : Z -> option (list Z).

Fixpoint skip_acked (fuel : nat) (f : FLIGHT) : FLIGHT :=
  match nth_error (outgoing_messages f) (outgoing_written f), fuel with
  | Some m, S fuel' => if IsFullyAcked m then skip_acked fuel' (with_cursor (S (outgoing_written f)) 0 f) else f
  | _, _ => f
  end.

(** [sent_records->PushBack], with the queue created first. *)
Definition remember (r : DTLSSentRecord) (f : FLIGHT) : FLIGHT :=
  with_sent (Some (mru_push DTLS_MAX_ACK_BUFFER r (match sent_records f with Some q => q | None => mru_new end))) f.

(** What was sealed, and the connection's epochs and flight. *)
Definition seal_next_record (out_size : Z) (ssl : DTLS) (f : FLIGHT) : seal_result_t * list Z * DTLS * FLIGHT :=
  let f := skip_acked (length (outgoing_messages f)) f in
  match nth_error (outgoing_messages f) (outgoing_written f) with
  | None => (seal_flush, [], ssl, f)
  | Some first_msg =>
      let epoch := om_epoch first_msg in
      let prefix_len := dtls_seal_prefix_len ssl epoch in
      let max_in_len := dtls_seal_max_input_len ssl epoch out_size in
      if max_in_len =? 0 then (seal_flush, [], ssl, f)
      else if om_is_ccs first_msg then
        match dtls_seal_record RAND_bytes out_size SSL3_RT_CHANGE_CIPHER_SPEC [SSL3_MT_CCS] epoch ssl with
        | (None, ssl) => (seal_error, [], ssl, f)
        | (Some (number, out), ssl) =>
            (seal_continue, out, ssl,
             log_sealed number SSL3_RT_CHANGE_CIPHER_SPEC [SSL3_MT_CCS] out (with_cursor (S (outgoing_written f)) 0 f))
        end
      else
        let size := Z.min max_in_len (out_size - prefix_len) in
        match pack_messages (length (outgoing_messages f)) size epoch (negb (epoch =? 0)) (outgoing_messages f)
                (outgoing_written f) (outgoing_offset f) [] with
        | (None, written, offset) => (seal_error, [], ssl, with_cursor written offset f)
        | (Some (cbb, should_continue), written, offset) =>
            let first_msg := outgoing_written f in
            let first_msg_start := outgoing_offset f in
            let f := with_cursor written offset f in
            if zlength cbb =? 0 then (seal_flush, [], ssl, f)
            else
              match dtls_seal_record RAND_bytes out_size SSL3_RT_HANDSHAKE cbb epoch ssl with
              | (None, ssl) => (seal_error, [], ssl, f)
              | (Some (number, out), ssl) =>
                  let f := log_sealed number SSL3_RT_HANDSHAKE cbb out f in
                  let f := if (d_version ssl =? 0) || is_tls13 (d_version ssl)
                           then remember {| sr_number := number; sr_first_msg := first_msg; sr_last_msg := written;
                                            sr_first_msg_start := first_msg_start; sr_last_msg_end := offset |} f
                           else f in
                  (if should_continue then seal_continue else seal_flush, out, ssl, f)
              end
        end
  end.

(** Records until the packet is complete; every round but the last writes a
    message. *)
Fixpoint seal_next_packet (fuel : nat) (out_size : Z) (ssl : DTLS) (f : FLIGHT) : option (list Z) * DTLS * FLIGHT :=
  match seal_next_record out_size ssl f with
  | (seal_error, _, ssl, f) => (None, ssl, f)
  | (seal_flush, out, ssl, f) => (Some out, ssl, f)
  | (seal_continue, out, ssl, f) =>
      match fuel with
      | O => (None, ssl, f)
      | S fuel' =>
          match seal_next_packet fuel' (out_size - zlength out) ssl f with
          | (Some rest, ssl, f) => (Some (out ++ rest), ssl, f)
          | (None, ssl, f) => (None, ssl, f)
          end
      end
  end.

(** ** Sending *)

Definition dtls1_min_mtu : Z := kMinMTU.
Definition mtu_usable (n : Z) : bool := (n >=? 0) && (n <=? 2 ^ 30) && (n >=? dtls1_min_mtu).

(** The calls on the BIO, if there is one. *)
Definition query_mtu (t : TRANSPORT) : Z := match wbio t with Some bio => bio_query_mtu bio | None => 0 end.
Definition fallback_mtu (t : TRANSPORT) : Z := match wbio t with Some bio => bio_fallback_mtu bio | None => 0 end.
Definition flush_result (t : TRANSPORT) : Z := match wbio t with Some bio => bio_flush bio (wire t) | None => 0 end.

(** [BIO_write]: what it returns, and the packet on the wire when it was taken. *)
Definition write_packet (packet : list Z) (c : CONN) : Z * CONN :=
  let ret := match wbio (c_transport c) with Some bio => bio_write bio (wire (c_transport c)) packet | None => -2 end in
  (ret, if 0 <? ret then on_transport (with_wire packet) c else c).

(** [BIO_CTRL_DGRAM_SET_MTU] is not observed. *)
Definition dtls1_update_mtu (t : TRANSPORT) : TRANSPORT :=
  if (mtu t <? dtls1_min_mtu) && negb (no_query_mtu t)
  then with_mtu (if mtu_usable (query_mtu t) then query_mtu t else kDefaultMTU) t
  else t.

(** The loop of [send_flight]: packets until every message is written. *)
Fixpoint send_packets (fuel : nat) (c : CONN) : Z * CONN :=
  let f := c_flight c in
  if (outgoing_written f <? length (outgoing_messages f))%nat then
    match seal_next_packet (length (outgoing_messages f)) (mtu (c_transport c)) (c_ssl c) f with
    | (None, ssl, f') => (-1, on_ssl (fun _ => ssl) (on_flight (fun _ => f') c))
    | (Some packet, ssl, f') =>
        let c := on_ssl (fun _ => ssl) (on_flight (fun _ => f') c) in
        if zlength packet =? 0 then
          if (outgoing_written f' <? length (outgoing_messages f'))%nat then (0, c)
          else match fuel with O => (-1, c) | S fuel' => send_packets fuel' c end
        else
          match write_packet packet c with
          | (ret, c) =>
              if ret <=? 0
              then (ret, on_flight (fun f' => with_cursor (outgoing_written f) (outgoing_offset f) f') c)
              else match fuel with O => (-1, c) | S fuel' => send_packets fuel' c end
          end
    end
  else (1, c).

(** Every packet advances; a message is at most 2^24 bytes and its header. *)
Definition packets_bound (msgs : list DTLSOutgoingMessage) : nat :=
  fold_right (fun m n => (length (om_data m) + 2 + n)%nat) 1%nat msgs.

Definition send_flight (c : CONN) : Z * CONN :=
  if write_closed (c_transport c) then (-1, c)
  else
    match wbio (c_transport c) with
    | None => (-1, c)
    | Some _ =>
        if num_timeouts (c_timers c) >? DTLS1_MAX_TIMEOUTS then (-1, c)
        else
          let c := on_transport dtls1_update_mtu c in
          if negb (alloc_ok (mtu (c_transport c))) then (-1, c)
          else
            match send_packets (packets_bound (outgoing_messages (c_flight c))) c with
            | (ret, c) => (ret, if ret =? 1 then on_transport (with_pending true) c else c)
            end
    end.

(** [std::sort] on record numbers. *)
Fixpoint insert_number (n : DTLSRecordNumber) (l : list DTLSRecordNumber) : list DTLSRecordNumber :=
  match l with [] => [n] | x :: l' => if n <=? x then n :: l else x :: insert_number n l' end.
Definition sort_numbers (l : list DTLSRecordNumber) : list DTLSRecordNumber := fold_right insert_number [] l.

Definition ack_contents (numbers : list DTLSRecordNumber) : list Z :=
  let body := concat (map (fun n => be_split 8 (number_epoch n) ++ be_split 8 (number_sequence n)) numbers) in
  be_split 2 (zlength body) ++ body.

Definition SSL3_RT_ACK : Z := 26.

Definition send_ack (c : CONN) : Z * CONN :=
  let c := on_transport dtls1_update_mtu c in
  let epoch := we_epoch (write_epoch (c_ssl c)) in
  let max_plaintext := dtls_seal_max_input_len (c_ssl c) epoch (mtu (c_transport c)) in
  if max_plaintext <? 2 + 16 then (-1, c)
  else
    let queue := mru_elements DTLS_MAX_ACK_BUFFER (records_to_ack (c_acks c)) in
    let num_acks := Z.min ((max_plaintext - 2) / 16) (zlength queue) in
    let sorted := sort_numbers (skipn (Z.to_nat (zlength queue - num_acks)) queue) in
    let contents := ack_contents sorted in
    let record_size := DTLS1_3_RECORD_HEADER_WRITE_LENGTH + (2 + 16 * DTLS_MAX_ACK_BUFFER) + 1 + EVP_AEAD_MAX_OVERHEAD in
    match dtls_seal_record RAND_bytes record_size SSL3_RT_ACK contents epoch (c_ssl c) with
    | (None, ssl) => (-1, on_ssl (fun _ => ssl) c)
    | (Some (number, record), ssl) =>
        let c := on_flight (log_sealed number SSL3_RT_ACK contents record) (on_ssl (fun _ => ssl) c) in
        match write_packet record c with
        | (ret, c) => if ret <=? 0 then (ret, c) else (1, on_transport (with_pending true) c)
        end
    end.

Definition in_init (ssl : DTLS) : bool := match d_hs ssl with None => false | Some h => negb (handshake_finalized h) end.

(** After a flight: the cursor back at its start, and the next timeout. *)
Definition flight_sent (now : OPENSSL_timeval) (c : CONN) : CONN :=
  let c := on_flight (fun f => with_sending false (with_cursor 0 0 f)) c in
  if in_init (c_ssl c) || is_tls13 (d_version (c_ssl c)) then
    on_timers (fun x =>
      let duration := if num_timeouts x =? 0 then initial_timeout_duration_ms x
                      else Z.min (u32 (timeout_duration_ms x * 2)) 60000 in
      with_retransmit (StartMicroseconds now (duration * 1000)) (with_timeouts (num_timeouts x) duration x)) c
  else c.

Definition flush_pending (c : CONN) : Z * CONN :=
  if pending_flush (c_transport c) then
    if flush_result (c_transport c) <=? 0 then (-1, c) else (1, on_transport (with_pending false) c)
  else (1, c).

Definition dtls1_flush (now : OPENSSL_timeval) (c : CONN) : Z * CONN :=
  let '(ret, c) :=
    if sending_ack (c_acks c) then
      match send_ack c with
      | (ret, c) => (ret, if ret <=? 0 then c else on_acks (with_sending_ack false) c)
      end
    else (1, c) in
  if ret <=? 0 then (ret, c)
  else
    let '(ret, c) :=
      if sending_flight (c_flight c) then
        match send_flight c with (ret, c) => (ret, if ret <=? 0 then c else flight_sent now c) end
      else (1, c) in
    if ret <=? 0 then (ret, c) else flush_pending c.

(** [DTLSv1_handle_timeout] for a DTLS connection. *)
Definition DTLSv1_handle_timeout (now : OPENSSL_timeval) (c : CONN) : Z * CONN :=
  let x := c_timers c in
  if negb (IsSet (ack_timer x)) && negb (IsSet (retransmit_timer x)) then (0, c)
  else
    let ack_expired := IsExpired now (ack_timer x) in
    let c := if ack_expired
             then on_timers (fun x => with_ack_timer (Stop (ack_timer x)) x) (on_acks (with_sending_ack true) c) else c in
    let retransmit_expired := IsExpired now (retransmit_timer x) in
    let c :=
      if retransmit_expired then
        let c := on_timers (fun x => with_timeouts (u32 (num_timeouts x + 1)) (timeout_duration_ms x)
                                       (with_retransmit (Stop (retransmit_timer x)) x)) (on_flight (with_sending true) c) in
        if (num_timeouts (c_timers c) >? DTLS1_MTU_TIMEOUTS) && negb (no_query_mtu (c_transport c)) &&
           mtu_usable (fallback_mtu (c_transport c))
        then on_transport (fun t => with_mtu (fallback_mtu t) t) c else c
      else c in
    if negb (ack_expired || retransmit_expired) then (0, c) else dtls1_flush now c.

(** ** Acknowledgements *)

(** [None]: the index is not one of a message, and the program stops. *)
Definition mark_message (i : nat) (start end_ : Z) (msgs : list DTLSOutgoingMessage) : option (list DTLSOutgoingMessage) :=
  let? m := nth_error msgs i in
  Some (set_nth i {| om_data := om_data m; om_epoch := om_epoch m; om_is_ccs := om_is_ccs m;
                     om_acked := MarkRange start end_ (om_acked m) |} msgs).

Fixpoint mark_between (n i : nat) (msgs : list DTLSOutgoingMessage) : option (list DTLSOutgoingMessage) :=
  match n with
  | O => Some msgs
  | S n' => let? msgs := mark_message i 0 SIZE_MAX msgs in mark_between n' (S i) msgs
  end.

Definition mark_sent (r : DTLSSentRecord) (msgs : list DTLSOutgoingMessage) : option (list DTLSOutgoingMessage) :=
  if Nat.eqb (sr_first_msg r) (sr_last_msg r)
  then mark_message (sr_first_msg r) (sr_first_msg_start r) (sr_last_msg_end r) msgs
  else
    let? msgs := mark_message (sr_first_msg r) (sr_first_msg_start r) SIZE_MAX msgs in
    let? msgs := mark_between (sr_last_msg r - S (sr_first_msg r)) (S (sr_first_msg r)) msgs in
    if sr_last_msg_end r =? 0 then Some msgs else mark_message (sr_last_msg r) 0 (sr_last_msg_end r) msgs.

Definition cleared (r : DTLSSentRecord) : DTLSSentRecord :=
  {| sr_number := sr_number r; sr_first_msg := 0; sr_last_msg := 0; sr_first_msg_start := 0; sr_last_msg_end := 0 |}.

Definition find_sent (number : DTLSRecordNumber) (q : MRUQueue DTLSSentRecord) : option Z :=
  find (fun i => match mru_at DTLS_MAX_ACK_BUFFER q i with Some r => sr_number r =? number | None => false end)
    (map Z.of_nat (seq 0 (length (storage_ q)))).

(** One acknowledged number. *)
Definition ack_number (number : DTLSRecordNumber) (f : FLIGHT) : option FLIGHT :=
  match sent_records f with
  | None => Some f
  | Some q =>
      match find_sent number q with
      | None => Some f
      | Some i =>
          let? r := mru_at DTLS_MAX_ACK_BUFFER q i in
          let? msgs := mark_sent r (outgoing_messages f) in
          Some (with_sent (Some (mru_put DTLS_MAX_ACK_BUFFER q i (cleared r))) (with_messages msgs f))
      end
  end.

(** The loop over the numbers of an ACK record: the alert, the program stopped, or
    all of them marked. *)
Inductive ack_outcome := AckStopped | AckRefused (alert : Z) | AckDone.

Fixpoint ack_loop (fuel : nat) (ack_epoch : Z) (cbs : CBS) (f : FLIGHT) : ack_outcome * FLIGHT :=
  match cbs, fuel with
  | [], _ | _, O => (AckDone, f)
  | _, S fuel' =>
      match (let* epoch := CBS_get_u64 in let* seq := CBS_get_u64 in ret (epoch, seq)) cbs with
      | (None, _) => (AckRefused SSL_AD_DECODE_ERROR, f)
      | (Some (epoch, seq), rest) =>
          if ((ack_epoch <? level_number ssl_encryption_application) && (epoch >? ack_epoch)) || (epoch >? 0xffff) || (seq >? kMaxSequence)
          then (AckRefused SSL_AD_ILLEGAL_PARAMETER, f)
          else match ack_number (make_record_number epoch seq) f with
               | None => (AckStopped, f)
               | Some f => ack_loop fuel' ack_epoch rest f
               end
      end
  end.

(** [dtls1_process_ack] without the key update that may have waited for the
    flight to be acknowledged: [AckDone] is discarded after that. *)
Definition process_ack (ack_number : DTLSRecordNumber) (data : list Z) (c : CONN) : ack_outcome * CONN :=
  let version := d_version (c_ssl c) in
  if negb (ssl_has_final_version version (d_hs (c_ssl c))) then (AckDone, c)
  else if negb (is_tls13 version) then (AckRefused SSL_AD_UNEXPECTED_MESSAGE, c)
  else
    match CBS_get_u16_length_prefixed data with
    | (Some record_numbers, []) =>
        match ack_loop (length record_numbers) (number_epoch ack_number) record_numbers (c_flight c) with
        | (AckDone, f) =>
            let c := on_flight (fun _ => f) c in
            if forallb IsFullyAcked (outgoing_messages f)
            then (AckDone, dtls_clear_outgoing_messages (on_timers dtls1_stop_timer c))
            else (AckDone, on_ssl (dtls_clear_unused_write_epochs (outgoing_messages f)) c)
        | (r, f) => (r, on_flight (fun _ => f) c)
        end
    | _ => (AckRefused SSL_AD_DECODE_ERROR, c)
    end.

(** ** A record of handshake fragments *)

Definition dtls1_process_handshake_fragments (max_len : Z) (now : OPENSSL_timeval) (number : DTLSRecordNumber)
    (record : list Z) (c : CONN) : option Z * CONN :=
  match handshake_fragments (context_of_record (c_ssl c) number max_len) record (c_read c) with
  | (inl alert, d) => (Some alert, on_read (fun _ => d) c)
  | (inr (implicit_ack, skipped_fragments), d) =>
      let c := on_read (fun _ => d) c in
      let c := if implicit_ack then dtls_clear_outgoing_messages (on_timers dtls1_stop_timer c) else c in
      if skipped_fragments then (None, c)
      else
        let c := on_acks (fun a => with_acks (mru_push DTLS_MAX_ACK_BUFFER number (records_to_ack a)) a) c in
        if ssl_has_final_version (d_version (c_ssl c)) (d_hs (c_ssl c)) && is_tls13 (d_version (c_ssl c)) &&
           negb (IsSet (ack_timer (c_timers c))) && negb (sending_ack (c_acks c))
        then (None, on_timers (fun x => with_ack_timer (StartMicroseconds now (timeout_duration_ms x * 1000 / 4)) x) c)
        else (None, c)
  end.

End Sending.
