(* ===== verification/DtlsDelivery.v ===== *)
(** * Delivery of flights

    What [DtlsFlight] sends, what the peer acknowledges and what [DtlsMessages]
    receives, put together.  A byte counts as acknowledged only when a record
    that carried it was acknowledged; a flight that is sent carries every other
    byte; and a peer that has processed those records can take every message. *)
From S2P Require Import Prelude Cbs Cbb SslVersions SslAead TlsRecord DtlsWindow DtlsRecord Transition DtlsBitmap DtlsMessages DtlsFlight.
From Stdlib Require Import ZArith List Lia Bool.
Import ListNotations.
Open Scope Z_scope.

Section Delivery.
Context {E : Env}.
Variable messages : Z -> Z * list Z.
Hypothesis lengths : forall q, zlength (body_of messages q) < 2 ^ 24.

(** The positions of a message: an empty one has one, for its header. *)
Definition bits (q : Z) : Z := Z.max (zlength (body_of messages q)) 1.

(** Position [i] of message [q] is in one of the pieces. *)
Definition carries (ps : list piece) (q i : Z) : Prop :=
  exists p, In p ps /\ pc_seq p = q /\ (pc_off p <= i < pc_off p + pc_len p \/ body_of messages q = []).

Definition contents (ps : list piece) : list Z := concat (map (fragment_bytes messages) ps).

Lemma contents_cons p ps : contents (p :: ps) = fragment_bytes messages p ++ contents ps.
Proof. reflexivity. Qed.

Lemma contents_one p : contents [p] = fragment_bytes messages p.
Proof. apply app_nil_r. Qed.

Lemma contents_app ps ps' : contents (ps ++ ps') = contents ps ++ contents ps'.
Proof. unfold contents. now rewrite map_app, concat_app. Qed.

Lemma carries_app ps ps' q i : carries (ps ++ ps') q i <-> carries ps q i \/ carries ps' q i.
Proof.
  unfold carries. split.
  - intros (p & Hp & H). apply in_app_or in Hp as [Hp|Hp]; [left|right]; now exists p.
  - intros [(p & Hp & H)|(p & Hp & H)]; exists p; split; auto; apply in_or_app; auto.
Qed.

Definition entire (q : Z) : piece := {| pc_seq := q; pc_off := 0; pc_len := zlength (body_of messages q) |}.

Lemma whole_entire q : whole messages q = fragment_bytes messages (entire q).
Proof.
  unfold whole, fragment_bytes, message_header, entire, slice. cbn [pc_seq pc_off pc_len]. rewrite <- !app_assoc.
  cbn [Z.to_nat skipn]. unfold zlength at 5. rewrite Nat2Z.id, firstn_all. reflexivity.
Qed.

Lemma entire_ok q : 0 <= q < 2 ^ 16 -> piece_ok messages (entire q).
Proof. intros Hq. unfold piece_ok, entire. cbn. pose proof (zlength_nonneg (body_of messages q)). lia. Qed.

Lemma slice_entire q : slice messages (entire q) = body_of messages q.
Proof. unfold slice, entire. cbn [pc_seq pc_off pc_len Z.to_nat skipn]. unfold zlength. rewrite Nat2Z.id. apply firstn_all. Qed.

Lemma parse_whole q : 0 <= q < 2 ^ 16 ->
  dtls1_parse_fragment (whole messages q) = (Some (header_of messages (entire q), body_of messages q), []).
Proof.
  intros Hq. rewrite whole_entire, <- (app_nil_r (fragment_bytes messages (entire q))).
  rewrite (parse_fragment_bytes messages lengths) by now apply entire_ok. now rewrite slice_entire.
Qed.

Lemma zlength_fragment p : piece_ok messages p -> zlength (fragment_bytes messages p) = 12 + pc_len p.
Proof.
  intros Hp. unfold fragment_bytes. rewrite !zlength_app, (zlength_slice messages p Hp).
  unfold zlength. rewrite !length_be_split. cbn [length]. lia.
Qed.

(** ** Packing *)

(** The piece that [pack_message] takes of a range. *)
Definition piece_of (q start todo : Z) : piece :=
  {| pc_seq := q; pc_off := start; pc_len := if zlength (body_of messages q) =? 0 then 0 else todo |}.

Lemma fragment_cbb_piece q start todo size cbb : 0 <= q < 2 ^ 16 -> 0 <= start -> 0 < todo -> start + todo <= bits q ->
  zlength cbb + 12 + todo <= size ->
  piece_ok messages (piece_of q start todo) /\
  fragment_cbb size (header_of messages (entire q)) start
    (match body_of messages q with [] => [] | _ => firstn (Z.to_nat todo) (skipn (Z.to_nat start) (body_of messages q)) end) cbb =
  Some (cbb ++ fragment_bytes messages (piece_of q start todo)).
Proof.
  intros Hq Hs Ht Hb Hc. pose proof (lengths q) as Hl. pose proof (zlength_nonneg (body_of messages q)). unfold bits in Hb.
  assert (Es : match body_of messages q with [] => [] | _ => firstn (Z.to_nat todo) (skipn (Z.to_nat start) (body_of messages q)) end
               = slice messages (piece_of q start todo)).
  { unfold slice, piece_of. cbn [pc_seq pc_off pc_len]. destruct (body_of messages q) as [|b l] eqn:B.
    - reflexivity.
    - destruct (Z.eqb_spec (zlength (b :: l)) 0) as [X|]; [|reflexivity]. unfold zlength in X. cbn in X. lia. }
  assert (Hp : piece_ok messages (piece_of q start todo)).
  { unfold piece_ok, piece_of. cbn [pc_seq pc_off pc_len]. destruct (Z.eqb_spec (zlength (body_of messages q)) 0); lia. }
  split; [exact Hp|]. rewrite Es. pose proof (zlength_slice messages _ Hp) as Ls. unfold fragment_cbb. rewrite Ls.
  assert (Hlen : 0 <= pc_len (piece_of q start todo) <= todo).
  { unfold piece_of. cbn [pc_len]. destruct (_ =? _); lia. }
  cbn [header_of entire pc_seq hm_msg_len hm_type hm_seq].
  destruct (Z.ltb_spec (zlength (body_of messages q)) (2 ^ 24)), (Z.ltb_spec start (2 ^ 24)),
    (Z.ltb_spec (pc_len (piece_of q start todo)) (2 ^ 24)),
    (Z.leb_spec (zlength cbb + 12 + pc_len (piece_of q start todo)) size); try lia. reflexivity.
Qed.

Lemma carries_piece q start todo i : start <= i < start + todo -> 0 <= i < bits q -> carries [piece_of q start todo] q i.
Proof.
  intros Hi Hb. exists (piece_of q start todo). split; [now left|]. split; [reflexivity|].
  unfold piece_of. cbn [pc_off pc_len]. destruct (Z.eqb_spec (zlength (body_of messages q)) 0) as [Z0|]; [right|left; lia].
  destruct (body_of messages q); [reflexivity|unfold zlength in Z0; cbn in Z0; lia].
Qed.

(** What [pack_message] adds to the builder, from [offset] on. *)
Lemma pack_message_spec q acked mk size : 0 <= q < 2 ^ 16 -> represents (bits q) mk acked ->
  forall fuel offset cbb, 0 <= offset <= bits q -> zlength cbb <= Z.max 0 size -> (Z.to_nat (size - zlength cbb) <= fuel)%nat ->
  exists full offset' ps,
    pack_message fuel size acked (header_of messages (entire q)) (body_of messages q) offset cbb =
      (Some (cbb ++ contents ps, full), offset') /\
    zlength (cbb ++ contents ps) <= Z.max 0 size /\ Forall (piece_ok messages) ps /\
    (full = true -> offset <= offset' <= bits q /\ (ps <> [] -> offset < offset')) /\
    forall i, offset <= i < (if full then offset' else bits q) -> mk i = true \/ carries ps q i.
Proof.
  intros Hq R fuel. induction fuel as [|fuel IH]; intros offset cbb Ho Hc Hf.
  all: destruct (next_range _ _ _ offset R (proj1 Ho)) as [[N1 N2]|(N1 & N2 & N3 & N4)].
  1, 3: exists false, offset, []; cbn [pack_message]; rewrite N1, Z.sub_diag; cbn [Z.eqb];
    rewrite app_nil_r; repeat split; auto; discriminate.
  all: cbn [pack_message]; set (r := NextUnmarkedRange offset acked) in *; unfold DTLS1_HM_HEADER_LENGTH;
    destruct (Z.eqb_spec (range_end r - range_start r) 0); [lia|];
    destruct (Z.ltb_spec (size - zlength cbb) (12 + 1)).
  1, 3: exists true, offset, []; rewrite app_nil_r; repeat split; auto; try lia; try easy; lia.
  1: lia.
  set (todo := Z.min (range_end r - range_start r) (size - zlength cbb - 12)).
  destruct (fragment_cbb_piece q (range_start r) todo size cbb Hq ltac:(lia) ltac:(lia) ltac:(lia) ltac:(lia)) as [Hp ->].
  pose proof (zlength_fragment _ Hp) as Lf. set (p := piece_of q (range_start r) todo) in *.
  assert (Hl : 0 <= pc_len p <= todo) by (subst p; unfold piece_of; cbn [pc_len]; destruct (_ =? _); lia).
  assert (C : forall i, offset <= i < range_start r + todo -> mk i = true \/ carries [p] q i).
  { intros i Hi. destruct (Z.ltb_spec i (range_start r)); [left; apply N3; lia|right; apply carries_piece; lia]. }
  destruct (Z.ltb_spec todo (range_end r - range_start r)).
  - exists true, (range_start r + todo), [p]. rewrite contents_one.
    split; [reflexivity|]. rewrite zlength_app. split; [lia|]. split; [now constructor|]. split; [intros _; split; intros; lia|]. exact C.
  - destruct (IH (range_start r + todo) (cbb ++ fragment_bytes messages p)) as (full & offset' & ps & E1 & E2 & E3 & E4 & E5);
      [lia|rewrite zlength_app; lia|rewrite zlength_app; lia|].
    exists full, offset', (p :: ps). rewrite contents_cons, app_assoc. split; [exact E1|]. split; [exact E2|].
    split; [now constructor|]. split; [intros F; destruct (E4 F); split; intros; lia|]. intros i Hi.
    change (p :: ps) with ([p] ++ ps). rewrite carries_app.
    destruct (Z.ltb_spec i (range_start r + todo)); [destruct (C i ltac:(lia)); auto|]. destruct (E5 i ltac:(lia)); auto.
Qed.

(** ** Messages of a flight, and positions in it *)

(** The number in the header of a message. *)
Definition seq_of (m : DTLSOutgoingMessage) : Z :=
  match dtls1_parse_fragment (om_data m) with (Some (hdr, _), _) => hm_seq hdr | _ => 0 end.

(** A handshake message is the sender's message with that number. *)
Record handshake_msg (m : DTLSOutgoingMessage) : Prop := {
  hs_ccs : om_is_ccs m = false;
  hs_range : 0 <= seq_of m < 2 ^ 16;
  hs_data : om_data m = whole messages (seq_of m);
  hs_acked : represents (bits (seq_of m)) (marked (om_acked m)) (om_acked m) }.

Definition msg_ok (m : DTLSOutgoingMessage) : Prop := om_is_ccs m = true \/ handshake_msg m.

Definition width (m : DTLSOutgoingMessage) : Z := if om_is_ccs m then 0 else bits (seq_of m).

Record cursor_ok (msgs : list DTLSOutgoingMessage) (w : nat) (o : Z) : Prop := {
  cu_written : (w <= length msgs)%nat;
  cu_nonneg : 0 <= o;
  cu_offset : match nth_error msgs w with Some m => o <= width m | None => o = 0 end }.

(** The positions from [(w, o)] to [(w', o')] are acknowledged or in [P]. *)
Definition passed (msgs : list DTLSOutgoingMessage) (w : nat) (o : Z) (w' : nat) (o' : Z) (P : Z -> Z -> Prop) : Prop :=
  forall k m i, nth_error msgs k = Some m -> om_is_ccs m = false -> (w <= k <= w')%nat -> (k = w -> o <= i) -> (k = w' -> i < o') ->
    0 <= i < bits (seq_of m) -> marked (om_acked m) i = true \/ P (seq_of m) i.

Definition before (w : nat) (o : Z) (w' : nat) (o' : Z) : Prop := (w < w')%nat \/ w = w' /\ o <= o'.
Definition just_before (w : nat) (o : Z) (w' : nat) (o' : Z) : Prop := (w < w')%nat \/ w = w' /\ o < o'.

Lemma passed_trans msgs w o w1 o1 w2 o2 (P : Z -> Z -> Prop) : before w o w1 o1 -> before w1 o1 w2 o2 ->
  passed msgs w o w1 o1 P -> passed msgs w1 o1 w2 o2 P -> passed msgs w o w2 o2 P.
Proof.
  unfold before. intros B1 B2 H1 H2 k m i Hk Hc Hw Ho Ho' Hi.
  destruct (Nat.lt_trichotomy k w1) as [L|[->|L]].
  - apply (H1 k m i); auto; lia.
  - destruct (Z.ltb_spec i o1); [apply (H1 w1 m i)|apply (H2 w1 m i)]; auto; lia.
  - apply (H2 k m i); auto; lia.
Qed.

Lemma passed_mono msgs w o w' o' (P Q : Z -> Z -> Prop) : (forall q i, P q i -> Q q i) ->
  passed msgs w o w' o' P -> passed msgs w o w' o' Q.
Proof. intros H F k m i Hk Hc Hw Ho Ho' Hi. destruct (F k m i Hk Hc Hw Ho Ho' Hi); auto. Qed.

(** The current message is passed. *)
Lemma passed_message msgs w o m (P : Z -> Z -> Prop) : nth_error msgs w = Some m ->
  (om_is_ccs m = false -> forall i, o <= i < bits (seq_of m) -> marked (om_acked m) i = true \/ P (seq_of m) i) ->
  passed msgs w o (S w) 0 P.
Proof.
  intros Hm H k m' i Hk Hc Hw Ho Ho' Hi. destruct (Nat.eq_dec k w) as [->|]; [|lia].
  rewrite Hm in Hk. injection Hk as <-. apply H; [exact Hc|]. specialize (Ho eq_refl). lia.
Qed.

Lemma cursor_next msgs w m : nth_error msgs w = Some m -> cursor_ok msgs (S w) 0.
Proof.
  intros Hm. assert (w < length msgs)%nat by (apply nth_error_Some; now rewrite Hm). split; [lia|lia|].
  destruct (nth_error msgs (S w)) as [m'|]; [|reflexivity]. unfold width, bits. destruct (om_is_ccs m'); lia.
Qed.

(** ** Packing messages *)

Lemma contents_nil ps : zlength (contents ps) = 0 -> ps = [].
Proof.
  destruct ps as [|p ps]; [reflexivity|]. rewrite contents_cons, zlength_app. unfold fragment_bytes.
  rewrite zlength_app. change (zlength [fst (messages (pc_seq p))]) with 1.
  pose proof (zlength_nonneg (contents ps)). match goal with |- 1 + zlength ?l + _ = _ -> _ => pose proof (zlength_nonneg l) end. lia.
Qed.

Definition all_handshake (msgs : list DTLSOutgoingMessage) (w w' : nat) : Prop :=
  forall k, (w <= k < w')%nat -> exists m, nth_error msgs k = Some m /\ om_is_ccs m = false.

(** What was packed into a record between two positions. *)
Record packed (msgs : list DTLSOutgoingMessage) (w : nat) (o : Z) (w' : nat) (o' : Z) (ps : list piece) : Prop := {
  pk_pieces : Forall (piece_ok messages) ps;
  pk_cursor : cursor_ok msgs w' o';
  pk_before : before w o w' o';
  pk_progress : ps <> [] -> just_before w o w' o';
  pk_handshake : all_handshake msgs w w';
  pk_passed : passed msgs w o w' o' (carries ps) }.

Lemma packed_nothing msgs w o : cursor_ok msgs w o -> packed msgs w o w o [].
Proof.
  intros C. split; auto; [right; lia|easy|intros k Hk; lia|].
  intros k m i _ _ Hw Ho Ho' _. assert (k = w) as -> by lia. specialize (Ho eq_refl). specialize (Ho' eq_refl). lia.
Qed.

(** Part of the current message, or the rest of it. *)
Lemma packed_part msgs w o o' m ps : cursor_ok msgs w o -> nth_error msgs w = Some m -> om_is_ccs m = false ->
  Forall (piece_ok messages) ps -> o <= o' <= bits (seq_of m) -> (ps <> [] -> o < o') ->
  (forall i, o <= i < o' -> marked (om_acked m) i = true \/ carries ps (seq_of m) i) -> packed msgs w o w o' ps.
Proof.
  intros [C1 C2 C3] Hm Hc Fp Ho Hp H. split; auto.
  - split; [exact C1|lia|]. rewrite Hm. unfold width. rewrite Hc. lia.
  - right. lia.
  - intros Hn. right. specialize (Hp Hn). lia.
  - intros k Hk. lia.
  - intros k m' i Hk _ Hw Ho1 Ho2 Hi. assert (k = w) as -> by lia. rewrite Hm in Hk. injection Hk as <-.
    apply H. specialize (Ho1 eq_refl). specialize (Ho2 eq_refl). lia.
Qed.

Lemma packed_rest msgs w o m ps : nth_error msgs w = Some m -> om_is_ccs m = false -> Forall (piece_ok messages) ps ->
  (forall i, o <= i < bits (seq_of m) -> marked (om_acked m) i = true \/ carries ps (seq_of m) i) -> packed msgs w o (S w) 0 ps.
Proof.
  intros Hm Hc Fp H. split; auto.
  - exact (cursor_next msgs w m Hm).
  - left. lia.
  - intros _. left. lia.
  - intros k Hk. assert (k = w) as -> by lia. now exists m.
  - now apply (passed_message msgs w o m).
Qed.

Lemma packed_trans msgs w o w1 o1 w2 o2 ps ps2 : (w < w1)%nat -> packed msgs w o w1 o1 ps -> packed msgs w1 o1 w2 o2 ps2 ->
  packed msgs w o w2 o2 (ps ++ ps2).
Proof.
  intros L [A1 A2 A3 A4 A5 A6] [B1 B2 B3 B4 B5 B6]. assert (Lt : (w < w2)%nat) by (unfold before in *; lia). split; auto.
  - now apply Forall_app.
  - now left.
  - now left.
  - intros k Hk. destruct (Nat.lt_ge_cases k w1); [apply A5|apply B5]; lia.
  - apply (passed_trans _ _ _ w1 o1); [exact A3|exact B3| |].
    + apply (passed_mono _ _ _ _ _ (carries ps)); [|exact A6]. intros q i H. apply carries_app. now left.
    + apply (passed_mono _ _ _ _ _ (carries ps2)); [|exact B6]. intros q i H. apply carries_app. now right.
Qed.

Lemma pack_messages_spec size epoch allow msgs : Forall msg_ok msgs -> forall fuel w o cbb,
  cursor_ok msgs w o -> (length msgs - w <= fuel)%nat -> zlength cbb <= Z.max 0 size ->
  exists cont w' o' ps,
    pack_messages fuel size epoch allow msgs w o cbb = (Some (cbb ++ contents ps, cont), w', o') /\
    packed msgs w o w' o' ps /\
    (cont = true -> (forall m, nth_error msgs w = Some m -> om_epoch m = epoch /\ om_is_ccs m = false) -> (w < w')%nat).
Proof.
  intros F fuel. induction fuel as [|fuel IH]; intros w o cbb C Hf Hc.
  all: pose proof C as [C1 C2 C3]; destruct (nth_error msgs w) as [m|] eqn:Hm.
  1: { assert (w < length msgs)%nat by (apply nth_error_Some; now rewrite Hm). lia. }
  1, 3: exists false, w, o, []; rewrite app_nil_r; cbn [pack_messages]; rewrite Hm;
    (split; [reflexivity|]); (split; [now apply packed_nothing|discriminate]).
  cbn [pack_messages]. rewrite Hm. destruct (negb (om_epoch m =? epoch) || om_is_ccs m) eqn:G.
  { exists true, w, o, []. rewrite app_nil_r. split; [reflexivity|]. split; [now apply packed_nothing|].
    intros _ H. destruct (H m eq_refl) as [He Hn]. rewrite He, Hn, Z.eqb_refl in G. discriminate. }
  apply orb_false_iff in G as [_ Gc]. rewrite Forall_forall in F.
  destruct (F m (nth_error_In _ _ Hm)) as [X|[Hcc Hq Hd Ha]]; [rewrite X in Gc; discriminate|].
  unfold width in C3. rewrite Hcc in C3. rewrite Hd, parse_whole by exact Hq.
  cbn [header_of entire hm_frag_off hm_frag_len hm_msg_len pc_off pc_len pc_seq]. rewrite !Z.eqb_refl. cbn [negb orb].
  destruct (pack_message_spec (seq_of m) (om_acked m) (marked (om_acked m)) size Hq Ha (Z.to_nat size) o cbb)
    as (full & o1 & ps & E1 & E2 & E3 & E4 & E5); [lia|exact Hc|pose proof (zlength_nonneg cbb); lia|].
  rewrite E1. destruct full.
  { destruct (E4 eq_refl) as [E6 E7]. exists false, w, o1, ps. split; [reflexivity|]. split; [|discriminate].
    now apply (packed_part msgs w o o1 m ps C Hm). }
  pose proof (packed_rest msgs w o m ps Hm Hcc E3 E5) as Pm.
  assert (Hw : (w < length msgs)%nat) by (apply nth_error_Some; now rewrite Hm).
  destruct allow; [|exists true, (S w), 0, ps; auto].
  destruct (IH (S w) 0 (cbb ++ contents ps) (cursor_next msgs w m Hm) ltac:(lia) E2) as (cont & w2 & o2 & ps2 & R1 & R2 & R3).
  exists cont, w2, o2, (ps ++ ps2). rewrite contents_app, app_assoc. split; [exact R1|].
  split; [exact (packed_trans msgs w o (S w) 0 w2 o2 ps ps2 (Nat.lt_succ_diag_r w) Pm R2)|]. intros _ _. pose proof (pk_before _ _ _ _ _ _ R2). unfold before in *. lia.
Qed.

(** ** What is known of a flight *)

(** One of the records is a handshake record with this number and these pieces. *)
Definition handshake_record (records : list sealed_record) (n : DTLSRecordNumber) (ps : list piece) : Prop :=
  (exists s, In s records /\ sl_number s = n /\ sl_type s = SSL3_RT_HANDSHAKE /\ sl_contents s = contents ps) /\
  Forall (piece_ok messages) ps.

(** Position [i] of message [q] was in one of the records. *)
Definition carried_in (records : list sealed_record) (q i : Z) : Prop :=
  exists n ps, handshake_record records n ps /\ carries ps q i.

(** ... in one that the peer has acknowledged. *)
Definition justified (records : list sealed_record) (acks : list DTLSRecordNumber) (q i : Z) : Prop :=
  exists n ps, handshake_record records n ps /\ In n acks /\ carries ps q i.

Lemma handshake_record_more records new new' n ps : handshake_record new n ps -> handshake_record (records ++ new ++ new') n ps.
Proof.
  intros [(s & H & R) F]. split; [|exact F]. exists s. split; [|exact R]. apply in_or_app. right. apply in_or_app. now left.
Qed.

(** A remembered record covers what it carried, and perhaps more that was
    acknowledged already. *)
Record covers (msgs : list DTLSOutgoingMessage) (records : list sealed_record) (r : DTLSSentRecord) : Prop := {
  cv_first : exists m, nth_error msgs (sr_first_msg r) = Some m /\ om_is_ccs m = false;
  cv_order : before (sr_first_msg r) (sr_first_msg_start r) (sr_last_msg r) (sr_last_msg_end r);
  cv_range : 0 <= sr_first_msg_start r < 2 ^ 24 /\ 0 <= sr_last_msg_end r;
  cv_between : all_handshake msgs (sr_first_msg r) (sr_last_msg r);
  cv_last : 0 < sr_last_msg_end r -> exists m, nth_error msgs (sr_last_msg r) = Some m /\ om_is_ccs m = false;
  cv_carried : exists ps, handshake_record records (sr_number r) ps /\
    passed msgs (sr_first_msg r) (sr_first_msg_start r) (sr_last_msg r) (sr_last_msg_end r) (carries ps) }.

Definition sent_ok (msgs : list DTLSOutgoingMessage) (records : list sealed_record) (r : DTLSSentRecord) : Prop :=
  (r = cleared r /\ msgs <> []) \/ covers msgs records r.

Record flight_inv (acks : list DTLSRecordNumber) (f : FLIGHT) : Prop := {
  fi_msgs : Forall msg_ok (outgoing_messages f);
  fi_cursor : cursor_ok (outgoing_messages f) (outgoing_written f) (outgoing_offset f);
  fi_marked : forall m i, In m (outgoing_messages f) -> om_is_ccs m = false -> 0 <= i < bits (seq_of m) ->
    marked (om_acked m) i = true -> justified (sealed f) acks (seq_of m) i;
  fi_sent : forall q r, sent_records f = Some q -> In r (storage_ q) -> sent_ok (outgoing_messages f) (sealed f) r;
  fi_seq : 0 <= handshake_write_seq f < 2 ^ 16 }.

Lemma justified_more records new acks acks' q i : (forall n, In n acks -> In n acks') ->
  justified records acks q i -> justified (records ++ new) acks' q i.
Proof. intros H (n & ps & H1 & H2 & H3). exists n, ps. split; [now apply (handshake_record_more [])|]. auto. Qed.

Lemma sent_ok_more msgs records new r : sent_ok msgs records r -> sent_ok msgs (records ++ new) r.
Proof.
  intros [H|[C1 C2 C3 C4 C5 (ps & H1 & H2)]]; [now left|]. right. split; auto.
  exists ps. split; [now apply (handshake_record_more [])|exact H2].
Qed.

(** The cursor moved, a record logged, a sent record remembered. *)
Lemma inv_cursor acks f w o : flight_inv acks f -> cursor_ok (outgoing_messages f) w o -> flight_inv acks (with_cursor w o f).
Proof. intros [F1 F2 F3 F4 F5] C. split; auto. Qed.

Lemma inv_logged acks f n t b out : flight_inv acks f -> flight_inv acks (log_sealed n t b out f).
Proof.
  intros [F1 F2 F3 F4 F5]. split; auto; cbn [log_sealed sealed outgoing_messages sent_records].
  - intros m i H1 H2 H3 H4. eapply justified_more; [|now apply F3]. auto.
  - intros q r H1 H2. apply sent_ok_more. exact (F4 q r H1 H2).
Qed.

Lemma in_set_nth {A} k (x y : A) l : In x (set_nth k y l) -> x = y \/ In x l.
Proof.
  revert k. induction l as [|z l IH]; intros [|k]; cbn [set_nth In]; [tauto|tauto|intuition congruence|].
  intros [H|H]; [tauto|]. destruct (IH k H); tauto.
Qed.

Lemma in_mru_push {A} N (x y : A) q : In x (storage_ (mru_push N y q)) -> x = y \/ In x (storage_ q).
Proof.
  unfold mru_push. destruct (_ <? _); cbn [storage_ mru_put].
  - intros H. apply in_app_or in H as [H|[H|[]]]; auto.
  - apply in_set_nth.
Qed.

Lemma inv_remember acks f r : flight_inv acks f -> sent_ok (outgoing_messages f) (sealed f) r -> flight_inv acks (remember r f).
Proof.
  intros [F1 F2 F3 F4 F5] H. split; auto. cbn [remember with_sent sent_records outgoing_messages sealed].
  intros q x Eq Hx. injection Eq as <-. apply in_mru_push in Hx as [->|Hx]; [exact H|].
  destruct (sent_records f) as [q|] eqn:Es; [exact (F4 q x eq_refl Hx)|destruct Hx].
Qed.

(** ** Sealing *)

Variable RAND_bytes : Z -> option (list Z).

(** Where a step of sending leaves the flight: nothing but the cursor, the
    records and their log has changed. *)
Record sends (acks : list DTLSRecordNumber) (f f' : FLIGHT) (new : list sealed_record) : Prop := {
  se_inv : flight_inv acks f';
  se_msgs : outgoing_messages f' = outgoing_messages f;
  se_log : sealed f' = sealed f ++ new;
  se_before : before (outgoing_written f) (outgoing_offset f) (outgoing_written f') (outgoing_offset f');
  se_passed : passed (outgoing_messages f) (outgoing_written f) (outgoing_offset f) (outgoing_written f') (outgoing_offset f')
                (carried_in new) }.

(** The same of a step that failed: it may have moved the cursor for nothing. *)
Definition keeps (acks : list DTLSRecordNumber) (f f' : FLIGHT) (new : list sealed_record) : Prop :=
  flight_inv acks f' /\ outgoing_messages f' = outgoing_messages f /\ sealed f' = sealed f ++ new.

Lemma sends_keeps acks f f' new : sends acks f f' new -> keeps acks f f' new.
Proof. intros [S1 S2 S3 _ _]. now split. Qed.

Lemma before_refl w o : before w o w o.
Proof. right. lia. Qed.

Lemma before_trans w o w1 o1 w2 o2 : before w o w1 o1 -> before w1 o1 w2 o2 -> before w o w2 o2.
Proof. unfold before. lia. Qed.

Lemma passed_refl msgs w o P : passed msgs w o w o P.
Proof. intros k m i _ _ Hw Ho Ho' _. assert (k = w) as -> by lia. specialize (Ho eq_refl). specialize (Ho' eq_refl). lia. Qed.

Lemma carried_more records new new' q i : carried_in new q i -> carried_in (records ++ new ++ new') q i.
Proof. intros (n & ps & H1 & H2). exists n, ps. split; [now apply handshake_record_more|exact H2]. Qed.

Lemma sends_refl acks f : flight_inv acks f -> sends acks f f [].
Proof. intros H. split; auto using before_refl, passed_refl. now rewrite app_nil_r. Qed.

Lemma sends_trans acks f f1 f2 new new' : sends acks f f1 new -> sends acks f1 f2 new' -> sends acks f f2 (new ++ new').
Proof.
  intros [A1 A2 A3 A4 A5] [B1 B2 B3 B4 B5]. rewrite A2 in B2, B5. split; auto.
  - now rewrite B3, A3, app_assoc.
  - now apply (before_trans _ _ _ _ _ _ A4).
  - apply (passed_trans _ _ _ _ _ _ _ _ A4 B4).
    + apply (passed_mono _ _ _ _ _ (carried_in new)); [|exact A5]. intros q i. apply (carried_more []).
    + apply (passed_mono _ _ _ _ _ (carried_in new')); [|exact B5]. intros q i H. rewrite <- (app_nil_r new'). now apply carried_more.
Qed.

Lemma skip_acked_sends acks fuel : forall f, flight_inv acks f -> sends acks f (skip_acked fuel f) [].
Proof.
  induction fuel as [|fuel IH]; intros f I; cbn [skip_acked];
    destruct (nth_error (outgoing_messages f) (outgoing_written f)) as [m|] eqn:Hm; try now apply sends_refl.
  destruct (IsFullyAcked m) eqn:Fa; [|now apply sends_refl].
  pose proof (cursor_next _ _ _ Hm) as C. set (f1 := with_cursor (S (outgoing_written f)) 0 f).
  apply (sends_trans acks f f1 _ [] []); [|apply IH; now apply inv_cursor].
  split; cbn; auto; [now apply inv_cursor|now rewrite app_nil_r|left; lia|].
  apply (passed_message _ _ _ m); [exact Hm|]. intros Hc i Hi. left. apply andb_true_iff in Fa as [_ Fa].
  unfold marked. now rewrite Fa.
Qed.

Lemma contents_not_nil ps : zlength (contents ps) <> 0 -> ps <> [].
Proof. intros H ->. now elim H. Qed.

(** The current message of a valid cursor with a positive offset is a handshake
    message. *)
Lemma cursor_handshake msgs w o : cursor_ok msgs w o -> 0 < o -> exists m, nth_error msgs w = Some m /\ om_is_ccs m = false.
Proof.
  intros [_ _ C] H. destruct (nth_error msgs w) as [m|]; [|lia]. exists m. split; [reflexivity|].
  unfold width in C. destruct (om_is_ccs m); [lia|reflexivity].
Qed.

(** A record logged: a ChangeCipherSpec, or packed messages that may be remembered. *)
Lemma ccs_sends acks f m n out : flight_inv acks f -> nth_error (outgoing_messages f) (outgoing_written f) = Some m -> om_is_ccs m = true ->
  sends acks f (log_sealed n SSL3_RT_CHANGE_CIPHER_SPEC [SSL3_MT_CCS] out (with_cursor (S (outgoing_written f)) 0 f))
    [{| sl_number := n; sl_type := SSL3_RT_CHANGE_CIPHER_SPEC; sl_contents := [SSL3_MT_CCS]; sl_bytes := out |}].
Proof.
  intros I Hm Hc. pose proof (cursor_next _ _ _ Hm) as C. split; auto; [now apply inv_logged, inv_cursor|left; cbn; lia|].
  cbn. apply (passed_message _ _ _ m); [exact Hm|]. intros X. congruence.
Qed.

Lemma packed_sends acks f m w o ps n out (b : bool) : flight_inv acks f ->
  nth_error (outgoing_messages f) (outgoing_written f) = Some m -> om_is_ccs m = false ->
  packed (outgoing_messages f) (outgoing_written f) (outgoing_offset f) w o ps ->
  let f3 := log_sealed n SSL3_RT_HANDSHAKE (contents ps) out (with_cursor w o f) in
  sends acks f
    (if b then remember {| sr_number := n; sr_first_msg := outgoing_written f; sr_last_msg := w;
                           sr_first_msg_start := outgoing_offset f; sr_last_msg_end := o |} f3 else f3)
    [{| sl_number := n; sl_type := SSL3_RT_HANDSHAKE; sl_contents := contents ps; sl_bytes := out |}].
Proof.
  intros I Hm Hc [Fp Cu B _ A P] f3. set (x := {| sl_number := n |}).
  assert (H : handshake_record [x] n ps) by (split; [exists x; repeat split; now left|exact Fp]).
  assert (I3 : flight_inv acks f3) by now apply inv_logged, inv_cursor.
  assert (Px : passed (outgoing_messages f) (outgoing_written f) (outgoing_offset f) w o (carried_in [x])).
  { apply (passed_mono _ _ _ _ _ (carries ps)); [|exact P]. intros q i Hq. now exists n, ps. }
  destruct b; split; auto. apply inv_remember; [exact I3|]. right.
  split; cbn [sr_first_msg sr_last_msg sr_first_msg_start sr_last_msg_end sr_number]; auto.
  - now exists m.
  - split; [|apply Cu]. destruct (fi_cursor _ _ I) as [_ C2 C3]. rewrite Hm in C3. unfold width, bits in C3. rewrite Hc in C3.
    pose proof (lengths (seq_of m)). lia.
  - now apply cursor_handshake.
  - exists ps. split; [|exact P]. change (handshake_record (sealed f ++ [x] ++ []) n ps). now apply handshake_record_more.
Qed.

(** What a step of sealing gives: [res], the bytes written, and the flight. *)
Definition seals (acks : list DTLSRecordNumber) (f : FLIGHT) (res : seal_result_t) (out : list Z) (f' : FLIGHT) : Prop :=
  exists new, keeps acks f f' new /\
    (res <> seal_error -> sends acks f f' new /\ out = concat (map sl_bytes new)) /\
    (res = seal_continue -> (outgoing_written f < outgoing_written f')%nat) /\
    (out <> [] -> just_before (outgoing_written f) (outgoing_offset f) (outgoing_written f') (outgoing_offset f')).

Lemma seals_nothing acks f f' res : sends acks f f' [] -> res <> seal_continue -> seals acks f res [] f'.
Proof. intros S Hr. exists []. split; [now apply sends_keeps|]. split; [auto|]. split; [congruence|easy]. Qed.

Lemma seals_failed acks f f' : keeps acks f f' [] -> seals acks f seal_error [] f'.
Proof. intros K. exists []. split; [exact K|]. split; [congruence|]. split; [discriminate|easy]. Qed.

Lemma seals_record acks f f' r res : sends acks f f' [r] -> res <> seal_error ->
  (res = seal_continue -> (outgoing_written f < outgoing_written f')%nat) ->
  just_before (outgoing_written f) (outgoing_offset f) (outgoing_written f') (outgoing_offset f') ->
  seals acks f res (sl_bytes r) f'.
Proof.
  intros S Hr Hw J. exists [r]. split; [now apply sends_keeps|]. split; [|auto]. intros _. split; [exact S|].
  cbn. now rewrite app_nil_r.
Qed.

Lemma seal_next_record_seals acks out_size ssl f : flight_inv acks f ->
  let '(res, out, ssl', f') := seal_next_record RAND_bytes out_size ssl f in seals acks f res out f'.
Proof.
  intros I. unfold seal_next_record. pose proof (skip_acked_sends acks (length (outgoing_messages f)) f I) as S1.
  set (f1 := skip_acked _ f) in *. pose proof S1 as [I1 M1 L1 B1 _]. pose proof I1 as [F1 F2 F3 F4 F5].
  destruct (nth_error (outgoing_messages f1) (outgoing_written f1)) as [m|] eqn:Hm; [|now apply seals_nothing].
  destruct (dtls_seal_max_input_len ssl (om_epoch m) out_size =? 0); [now apply seals_nothing|].
  destruct (om_is_ccs m) eqn:Hc.
  { destruct (dtls_seal_record _ _ _ _ _ ssl) as [[[n out]|] ssl']; [|now apply seals_nothing].
    pose proof (sends_trans _ _ _ _ _ _ S1 (ccs_sends acks f1 m n out I1 Hm Hc)) as S3.
    apply (seals_record _ _ _ _ _ S3); unfold before, just_before in *; [discriminate|intros _; cbn; lia|cbn; lia]. }
  set (size := Z.min _ _).
  destruct (pack_messages_spec size (om_epoch m) (negb (om_epoch m =? 0)) _ F1 (length (outgoing_messages f1))
              (outgoing_written f1) (outgoing_offset f1) [] F2 ltac:(lia) ltac:(change (zlength (@nil Z)) with 0; lia))
    as (cont & w & o & ps & -> & P & Pc). cbn [app] in *.
  destruct (Z.eqb_spec (zlength (contents ps)) 0) as [Hz|Hz].
  { apply contents_nil in Hz as ->. apply seals_nothing; [|discriminate]. apply (sends_trans _ _ f1 _ [] [] S1).
    destruct P as [_ P1 P2 _ _ P3]. split; auto; [now apply inv_cursor|now rewrite app_nil_r|].
    apply (passed_mono _ _ _ _ _ (carries [])); [|exact P3]. intros q i (p & [] & _). }
  apply contents_not_nil in Hz. pose proof (pk_progress _ _ _ _ _ _ P Hz) as J.
  destruct (dtls_seal_record _ _ _ _ _ ssl) as [[[n out]|] ssl'].
  2: { apply seals_failed. split; [apply inv_cursor; [exact I1|apply P]|]. split; [exact M1|].
       cbn [with_cursor sealed]. now rewrite L1, app_nil_r. }
  set (b := (d_version ssl' =? 0) || is_tls13 (d_version ssl')).
  pose proof (sends_trans _ _ _ _ _ _ S1 (packed_sends acks f1 m w o ps n out b I1 Hm Hc P)) as S3.
  apply (seals_record _ _ _ _ _ S3); unfold before, just_before in *; [now destruct cont| |destruct b; cbn; lia].
  destruct cont; [|discriminate]. intros _.
  assert (Hw : (outgoing_written f1 < w)%nat).
  { apply Pc; [reflexivity|]. intros m' H. rewrite Hm in H. injection H as <-. auto. }
  destruct b; cbn; lia.
Qed.

(** ** Packets *)

Lemma just_before_left w o w1 o1 w2 o2 : just_before w o w1 o1 -> before w1 o1 w2 o2 -> just_before w o w2 o2.
Proof. unfold before, just_before. lia. Qed.

Lemma just_before_right w o w1 o1 w2 o2 : before w o w1 o1 -> just_before w1 o1 w2 o2 -> just_before w o w2 o2.
Proof. unfold before, just_before. lia. Qed.

Lemma keeps_trans acks f f1 f2 new new' : keeps acks f f1 new -> keeps acks f1 f2 new' -> keeps acks f f2 (new ++ new').
Proof. intros (A1 & A2 & A3) (B1 & B2 & B3). split; [exact B1|]. now rewrite B2, B3, A2, A3, app_assoc. Qed.

Lemma seal_next_packet_sends acks fuel : forall out_size ssl f, flight_inv acks f ->
  (length (outgoing_messages f) - outgoing_written f <= fuel)%nat ->
  let '(res, ssl', f') := seal_next_packet RAND_bytes fuel out_size ssl f in
  (exists new, keeps acks f f' new /\
    forall packet, res = Some packet -> sends acks f f' new /\ packet = concat (map sl_bytes new) /\
      (packet <> [] -> just_before (outgoing_written f) (outgoing_offset f) (outgoing_written f') (outgoing_offset f'))) /\
  forall k, seal_next_packet RAND_bytes (fuel + k) out_size ssl f = (res, ssl', f').
Proof.
  induction fuel as [|fuel IH]; intros out_size ssl f I Hf; cbn [seal_next_packet];
    pose proof (seal_next_record_seals acks out_size ssl f I) as R.
  - destruct (seal_next_record RAND_bytes out_size ssl f) as [[[res out] ssl1] f1] eqn:Er. destruct R as (new & R1 & R2 & R3 & R4).
    destruct res.
    + split; [|intros [|k]; cbn [seal_next_packet Nat.add]; now rewrite Er]. exists new. split; [exact R1|discriminate].
    + exfalso. specialize (R3 eq_refl). destruct R1 as (R1 & M & _). destruct R1 as [_ [C _ _] _ _ _]. rewrite M in C. lia.
    + split; [|intros [|k]; cbn [seal_next_packet Nat.add]; now rewrite Er]. exists new. split; [exact R1|].
      intros packet Ep. injection Ep as <-. destruct (R2 ltac:(discriminate)). auto.
  - cbn [Nat.add seal_next_packet].
    destruct (seal_next_record RAND_bytes out_size ssl f) as [[[res out] ssl1] f1] eqn:Er. destruct R as (new & R1 & R2 & R3 & R4).
    destruct res; [split; [|auto]| |split; [|auto]].
    + exists new. split; [exact R1|discriminate].
    + specialize (R3 eq_refl). destruct (R2 ltac:(discriminate)) as [S1 Eo]. pose proof S1 as [I1 M1 _ B1 _].
      pose proof (IH (out_size - zlength out) ssl1 f1 I1 ltac:(rewrite M1; lia)) as G.
      destruct (seal_next_packet RAND_bytes fuel (out_size - zlength out) ssl1 f1) as [[res2 ssl2] f2].
      destruct G as [(new2 & K2 & H2) Hk].
      destruct res2 as [rest|]; (split; [|intros k; now rewrite Hk]); (exists (new ++ new2); split; [now apply (keeps_trans _ _ f1)|]); [|discriminate].
      intros packet Ep. injection Ep as <-. destruct (H2 rest eq_refl) as (S2 & E2 & J2). split; [now apply (sends_trans _ _ f1)|].
      split; [now rewrite map_app, concat_app, Eo, E2|]. intros _.
      apply (just_before_left _ _ (outgoing_written f1) (outgoing_offset f1)); [left; exact R3|apply S2].
    + exists new. split; [exact R1|]. intros packet Ep. injection Ep as <-. destruct (R2 ltac:(discriminate)). auto.
Qed.

(** ** Flights *)

(** What is left to send from a cursor, at most. *)
Definition remaining (msgs : list DTLSOutgoingMessage) (w : nat) (o : Z) : Z :=
  total (fun m => width m + 1) (skipn w msgs) - o.

Lemma width_nonneg m : 0 <= width m.
Proof. unfold width, bits. destruct (om_is_ccs m); lia. Qed.

Lemma total_skipn {A} (f : A -> Z) : (forall x, 0 <= f x) -> forall n l, total f (skipn n l) <= total f l.
Proof.
  intros Hf n. induction n as [|n IH]; intros [|x l]; cbn [skipn total]; try lia. specialize (IH l). specialize (Hf x). lia.
Qed.

Lemma skipn_nth {A} (l : list A) w x : nth_error l w = Some x -> skipn w l = x :: skipn (S w) l.
Proof.
  revert l. induction w as [|w IH]; intros [|y l] H; cbn in *; try discriminate; [congruence|]. now apply IH.
Qed.

Lemma remaining_range msgs w o : cursor_ok msgs w o ->
  0 <= remaining msgs w o /\ ((w < length msgs)%nat -> 0 < remaining msgs w o).
Proof.
  intros [C1 C2 C3]. unfold remaining. assert (N : forall m, 0 <= width m + 1) by (intros m; pose proof (width_nonneg m); lia).
  pose proof (total_nonneg _ (skipn (S w) msgs) N) as T. destruct (nth_error msgs w) as [m|] eqn:Hm.
  - rewrite (skipn_nth _ _ _ Hm). cbn [total]. lia.
  - apply nth_error_None in Hm. rewrite skipn_all2 by lia. cbn [total]. lia.
Qed.

Lemma remaining_less msgs w o w' o' : cursor_ok msgs w o -> cursor_ok msgs w' o' -> just_before w o w' o' ->
  remaining msgs w' o' < remaining msgs w o.
Proof.
  intros [C1 C2 C3] [D1 D2 D3] [L|[-> L]]; unfold remaining; [|lia].
  destruct (nth_error msgs w) as [m|] eqn:Hm; [|apply nth_error_None in Hm; lia].
  assert (N : forall m, 0 <= width m + 1) by (intros x; pose proof (width_nonneg x); lia).
  rewrite (skipn_nth _ _ _ Hm). cbn [total]. pose proof (total_skipn _ N (w' - S w) (skipn (S w) msgs)) as T.
  rewrite skipn_skipn in T. replace (w' - S w + S w)%nat with w' in T by lia. lia.
Qed.

(** What sending gives: the messages are all written when it succeeds, and what was
    sealed is on the wire. *)
Definition flight_result (acks : list DTLSRecordNumber) (c : CONN) (ret : Z) (c' : CONN) : Prop :=
  exists new, keeps acks (c_flight c) (c_flight c') new /\
    (ret = 1 -> sends acks (c_flight c) (c_flight c') new /\
      outgoing_written (c_flight c') = length (outgoing_messages (c_flight c)) /\
      exists packets, wire (c_transport c') = wire (c_transport c) ++ packets /\ concat packets = concat (map sl_bytes new)).

Lemma result_done acks c : flight_inv acks (c_flight c) ->
  (length (outgoing_messages (c_flight c)) <= outgoing_written (c_flight c))%nat -> flight_result acks c 1 c.
Proof.
  intros I H. pose proof (cu_written _ _ _ (fi_cursor _ _ I)). exists [].
  split; [now apply sends_keeps, sends_refl|]. intros _. split; [now apply sends_refl|]. split; [lia|].
  exists []. now rewrite app_nil_r.
Qed.

Lemma result_failed acks c ret c' new : keeps acks (c_flight c) (c_flight c') new -> ret <> 1 -> flight_result acks c ret c'.
Proof. intros K N. exists new. split; [exact K|easy]. Qed.

(** A packet, and what follows it. *)
Lemma result_packet acks c c1 ret c' new packet pk :
  sends acks (c_flight c) (c_flight c1) new -> packet = concat (map sl_bytes new) ->
  wire (c_transport c1) = wire (c_transport c) ++ pk -> concat pk = packet ->
  flight_result acks c1 ret c' -> flight_result acks c ret c'.
Proof.
  intros S1 Ep Wp Cp (new2 & K2 & G). exists (new ++ new2).
  split; [exact (keeps_trans _ _ _ _ _ _ (sends_keeps _ _ _ _ S1) K2)|]. intros E1. destruct (G E1) as (S2 & W2 & pk2 & Wk & Ck).
  split; [now apply (sends_trans _ _ (c_flight c1))|]. split; [now rewrite W2, (se_msgs _ _ _ _ S1)|].
  exists (pk ++ pk2). rewrite Wk, Wp, app_assoc. split; [reflexivity|]. now rewrite map_app, !concat_app, Cp, Ck, Ep.
Qed.

Definition left_to_send (f : FLIGHT) : nat := Z.to_nat (remaining (outgoing_messages f) (outgoing_written f) (outgoing_offset f)).

Lemma left_less acks f f1 new : flight_inv acks f -> sends acks f f1 new ->
  just_before (outgoing_written f) (outgoing_offset f) (outgoing_written f1) (outgoing_offset f1) ->
  (left_to_send f1 < left_to_send f)%nat.
Proof.
  intros I [I1 M1 _ _ _] J. pose proof (fi_cursor _ _ I1) as C1. unfold left_to_send. rewrite M1 in *.
  pose proof (remaining_less _ _ _ _ _ (fi_cursor _ _ I) C1 J). pose proof (remaining_range _ _ _ C1). lia.
Qed.

Lemma send_packets_sends acks fuel : forall c, flight_inv acks (c_flight c) -> (left_to_send (c_flight c) <= fuel)%nat ->
  let '(ret, c') := send_packets RAND_bytes fuel c in
  flight_result acks c ret c' /\ forall k, send_packets RAND_bytes (fuel + k) c = (ret, c').
Proof.
  induction fuel as [|fuel IH]; intros c I Hf; set (f := c_flight c) in *; pose proof (remaining_range _ _ _ (fi_cursor _ _ I)) as [R1 R2].
  - assert (W : (length (outgoing_messages f) <= outgoing_written f)%nat) by (unfold left_to_send in Hf; lia).
    assert (X : forall k, send_packets RAND_bytes k c = (1, c)).
    { intros [|k]; cbn [send_packets]; fold f; destruct (Nat.ltb_spec (outgoing_written f) (length (outgoing_messages f))); auto; lia. }
    rewrite X. split; [now apply result_done|]. intros k. apply X.
  - cbn [send_packets Nat.add]. fold f. destruct (Nat.ltb_spec (outgoing_written f) (length (outgoing_messages f))) as [W|W];
      [|split; [now apply result_done|reflexivity]].
    pose proof (seal_next_packet_sends acks (length (outgoing_messages f)) (mtu (c_transport c)) (c_ssl c) f I ltac:(lia)) as P.
    destruct (seal_next_packet RAND_bytes (length (outgoing_messages f)) (mtu (c_transport c)) (c_ssl c) f) as [[res ssl1] f1].
    destruct P as [(new & K & P) _].
    destruct res as [packet|]; [|split; [now apply (result_failed _ _ _ _ new)|reflexivity]].
    destruct (P packet eq_refl) as (S1 & Ep & J). pose proof S1 as [I1 M1 _ _ _].
    assert (Rec : forall c1 pk, c_flight c1 = f1 -> just_before (outgoing_written f) (outgoing_offset f) (outgoing_written f1) (outgoing_offset f1) ->
      wire (c_transport c1) = wire (c_transport c) ++ pk -> concat pk = packet ->
      let '(ret, c') := send_packets RAND_bytes fuel c1 in
      flight_result acks c ret c' /\ forall k, send_packets RAND_bytes (fuel + k) c1 = (ret, c')).
    { intros c1 pk E1 J1 Wp Cp. subst f1. pose proof (left_less _ _ _ _ I S1 J1).
      pose proof (IH c1 I1 ltac:(lia)) as G. destruct (send_packets RAND_bytes fuel c1) as [ret c']. destruct G as [G Gk].
      split; [|exact Gk]. exact (result_packet _ _ _ _ _ _ _ _ S1 Ep Wp Cp G). }
    destruct (Z.eqb_spec (zlength packet) 0) as [Hz|Hz].
    + cbn [c_flight on_ssl on_flight].
      destruct (Nat.ltb_spec (outgoing_written f1) (length (outgoing_messages f1))) as [L|L];
        [split; [now apply (result_failed _ _ _ _ new)|reflexivity]|].
      apply (Rec _ []); [reflexivity|left; rewrite M1 in L; lia|cbn; now rewrite app_nil_r|].
      destruct packet; [reflexivity|unfold zlength in Hz; cbn in Hz; lia].
    + assert (Hp : packet <> []) by (intros ->; now elim Hz).
      unfold write_packet. set (ret := match wbio _ with Some _ => _ | None => _ end).
      destruct (Z.leb_spec ret 0) as [Hr|Hr], (Z.ltb_spec 0 ret); try lia.
      * split; [|reflexivity]. apply (result_failed _ _ _ _ new); [|lia]. destruct K as (K1 & K2 & K3). split; [|now split].
        apply inv_cursor; [exact K1|]. cbn [c_flight on_ssl on_flight]. rewrite K2. apply I.
      * apply (Rec _ [packet]); [reflexivity|exact (J Hp)|reflexivity|apply app_nil_r].
Qed.

(** ** A flight that is sent *)

Lemma packets_bound_enough msgs : Forall msg_ok msgs -> total (fun m => width m + 1) msgs <= Z.of_nat (packets_bound msgs).
Proof.
  induction 1 as [|m msgs H F IH]; cbn [total packets_bound fold_right]; [lia|]. fold (packets_bound msgs).
  assert (width m + 1 <= Z.of_nat (length (om_data m)) + 2); [|lia]. unfold width.
  destruct H as [->|[-> Hq Hd _]]; [lia|]. rewrite Hd. unfold whole. rewrite length_app, length_header.
  unfold bits, zlength. lia.
Qed.

(** ... is enough for what is left of a flight. *)
Lemma packets_fuel acks f : flight_inv acks f ->
  (left_to_send f <= packets_bound (outgoing_messages f))%nat.
Proof.
  intros I. pose proof (packets_bound_enough _ (fi_msgs _ _ I)) as B. pose proof (cu_nonneg _ _ _ (fi_cursor _ _ I)).
  assert (N : forall m, 0 <= width m + 1) by (intros x; pose proof (width_nonneg x); lia).
  pose proof (total_skipn _ N (outgoing_written f) (outgoing_messages f)). unfold left_to_send, remaining. lia.
Qed.

Lemma send_flight_sends acks c : flight_inv acks (c_flight c) ->
  let '(ret, c') := send_flight RAND_bytes c in flight_result acks c ret c'.
Proof.
  intros I. unfold send_flight.
  assert (Same : forall c', c_flight c' = c_flight c -> flight_result acks c (-1) c').
  { intros c' E'. apply (result_failed _ _ _ _ []); [|discriminate]. rewrite E'. now apply sends_keeps, sends_refl. }
  destruct (write_closed _); [now apply Same|]. destruct (wbio _); [|now apply Same].
  destruct (_ >? _); [now apply Same|]. set (c0 := on_transport dtls1_update_mtu c).
  destruct (negb _); [now apply Same|]. clear Same.
  assert (Ww : wire (c_transport c0) = wire (c_transport c)) by (cbn; unfold dtls1_update_mtu; now destruct (_ && _)).
  pose proof (send_packets_sends acks (packets_bound (outgoing_messages (c_flight c0))) c0 I (packets_fuel _ _ I)) as G.
  destruct (send_packets RAND_bytes _ c0) as [ret c']. destruct G as [(new & K & G) _]. exists new.
  destruct (Z.eqb_spec ret 1) as [->|N]; [|split; [exact K|easy]]. split; [exact K|]. intros _.
  destruct (G eq_refl) as (S1 & W1 & pk & Wp & Cp). split; [exact S1|]. split; [exact W1|]. exists pk. now rewrite <- Ww.
Qed.

(** ** Acknowledgements *)

(** Messages whose bitmaps have been marked, at most in [M]. *)
Definition remarked (M : nat -> Z -> Prop) (msgs msgs' : list DTLSOutgoingMessage) : Prop :=
  length msgs' = length msgs /\
  forall k m', nth_error msgs' k = Some m' -> exists m, nth_error msgs k = Some m /\
    om_data m' = om_data m /\ om_is_ccs m' = om_is_ccs m /\ (handshake_msg m -> handshake_msg m') /\
    (handshake_msg m -> forall i, 0 <= i < bits (seq_of m) ->
       (marked (om_acked m) i = true -> marked (om_acked m') i = true) /\
       (marked (om_acked m') i = true -> marked (om_acked m) i = true \/ M k i)).

Lemma seq_of_data m m' : om_data m' = om_data m -> seq_of m' = seq_of m.
Proof. intros H. unfold seq_of. now rewrite H. Qed.

Lemma remarked_refl msgs : remarked (fun _ _ => False) msgs msgs.
Proof. split; [reflexivity|]. intros k m H. exists m. tauto. Qed.

Lemma remarked_mono (M M' : nat -> Z -> Prop) msgs msgs' : (forall k i, M k i -> M' k i) -> remarked M msgs msgs' -> remarked M' msgs msgs'.
Proof.
  intros H [L R]. split; [exact L|]. intros k m' Hk. destruct (R k m' Hk) as (m & R1 & R2 & R3 & R4 & R5). exists m.
  do 4 (split; [auto|]). intros Hm i Hi. destruct (R5 Hm i Hi) as [A B]. split; [exact A|]. intros X. destruct (B X); auto.
Qed.

Lemma remarked_trans M msgs msgs1 msgs2 : remarked M msgs msgs1 -> remarked M msgs1 msgs2 -> remarked M msgs msgs2.
Proof.
  intros [L1 R1] [L2 R2]. split; [congruence|]. intros k m2 Hk. destruct (R2 k m2 Hk) as (m1 & A1 & A2 & A3 & A4 & A5).
  destruct (R1 k m1 A1) as (m & B1 & B2 & B3 & B4 & B5). exists m. split; [exact B1|]. split; [congruence|]. split; [congruence|].
  split; [auto|]. intros Hm i Hi. specialize (A5 (B4 Hm) i ltac:(now rewrite (seq_of_data _ _ B2))). specialize (B5 Hm i Hi). tauto.
Qed.

Lemma mark_message_remarked k s e msgs m : nth_error msgs k = Some m -> 0 <= s <= e ->
  exists msgs', mark_message k s e msgs = Some msgs' /\ remarked (fun k' i => k' = k /\ s <= i < e) msgs msgs'.
Proof.
  intros Hm Hs. unfold mark_message. rewrite Hm. eexists. split; [reflexivity|]. set (m1 := {| om_data := om_data m |}).
  split; [apply length_set_nth|]. intros k' m' Hk. rewrite (nth_set_nth k k' m1 m _ Hm) in Hk.
  destruct (Nat.eqb_spec k' k) as [->|N]; [|exists m'; tauto]. injection Hk as <-. exists m.
  assert (R : handshake_msg m -> represents (bits (seq_of m)) (fun i => marked (om_acked m) i || in_range s e i) (om_acked m1)).
  { intros [_ _ _ H4]. now apply MarkRange_represents. }
  split; [exact Hm|]. split; [reflexivity|]. split; [reflexivity|]. split.
  - intros H. pose proof (proj1 (represents_marked _ _ _ (R H))) as Rm. destruct H as [H1 H2 H3 H4]. now split.
  - intros H i Hi. rewrite (proj2 (represents_marked _ _ _ (R H)) i Hi). unfold in_range.
    destruct (marked (om_acked m) i); [auto|]. cbn [orb]. split; [discriminate|]. intros X. right. lia.
Qed.

Lemma mark_between_remarked n : forall i msgs, (forall k, (i <= k < i + n)%nat -> exists m, nth_error msgs k = Some m) ->
  exists msgs', mark_between n i msgs = Some msgs' /\ remarked (fun k _ => (i <= k < i + n)%nat) msgs msgs'.
Proof.
  induction n as [|n IH]; intros i msgs H; cbn [mark_between].
  - exists msgs. split; [reflexivity|]. apply (remarked_mono (fun _ _ => False)); [easy|apply remarked_refl].
  - destruct (H i ltac:(lia)) as [m Hm]. destruct (mark_message_remarked i 0 SIZE_MAX msgs m Hm ltac:(unfold SIZE_MAX; lia)) as (msgs1 & -> & R1).
    cbn [obind]. destruct (IH (S i) msgs1) as (msgs2 & -> & R2).
    + intros k Hk. destruct R1 as [L _]. destruct (H k ltac:(lia)) as [mk Hmk].
      destruct (nth_error msgs1 k) as [x|] eqn:X; [eauto|]. apply nth_error_None in X.
      assert (k < length msgs)%nat by (apply nth_error_Some; now rewrite Hmk). lia.
    + exists msgs2. split; [reflexivity|]. apply (remarked_trans _ _ msgs1); [|].
      * apply (remarked_mono (fun k' i0 => k' = i /\ 0 <= i0 < SIZE_MAX)); [intros k x [-> _]; lia|exact R1].
      * apply (remarked_mono (fun k _ => (S i <= k < S i + n)%nat)); [intros k x Hx; lia|exact R2].
Qed.

(** What the record found covers. *)
Definition in_sent (r : DTLSSentRecord) (k : nat) (i : Z) : Prop :=
  (sr_first_msg r <= k <= sr_last_msg r)%nat /\ (k = sr_first_msg r -> sr_first_msg_start r <= i) /\
  (k = sr_last_msg r -> i < sr_last_msg_end r).

Lemma nth_some_length {A B} (l : list A) (l' : list B) k x : length l' = length l -> nth_error l k = Some x ->
  exists y, nth_error l' k = Some y.
Proof.
  intros L H. destruct (nth_error l' k) as [y|] eqn:X; [now exists y|]. apply nth_error_None in X.
  assert (k < length l)%nat by (apply nth_error_Some; now rewrite H). lia.
Qed.

Lemma mark_sent_remarked msgs records r : Forall msg_ok msgs -> sent_ok msgs records r ->
  exists msgs', mark_sent r msgs = Some msgs' /\ remarked (in_sent r) msgs msgs'.
Proof.
  intros F [[Ec Hn]|[(m & Hm & Hc) B [N1 N2] A La _]].
  { rewrite Ec. destruct msgs as [|m msgs]; [easy|].
    destruct (mark_message_remarked 0 0 0 (m :: msgs) m eq_refl ltac:(lia)) as (msgs1 & E1 & R1). exists msgs1. split; [exact E1|].
    apply (remarked_mono (fun k' i => k' = 0%nat /\ 0 <= i < 0)); [intros; lia|exact R1]. }
  unfold mark_sent, before in *. destruct (Nat.eqb_spec (sr_first_msg r) (sr_last_msg r)) as [Eq|Ne].
  { destruct (mark_message_remarked _ (sr_first_msg_start r) (sr_last_msg_end r) msgs m Hm ltac:(lia)) as (msgs1 & E1 & R1).
    exists msgs1. split; [exact E1|]. eapply remarked_mono; [|exact R1]. intros k i [-> Hi]. unfold in_sent. repeat split; intros; lia. }
  destruct (mark_message_remarked _ (sr_first_msg_start r) SIZE_MAX msgs m Hm ltac:(unfold SIZE_MAX; lia)) as (msgs1 & -> & R1).
  cbn [obind]. destruct (mark_between_remarked (sr_last_msg r - S (sr_first_msg r)) (S (sr_first_msg r)) msgs1) as (msgs2 & -> & R2).
  { intros k Hk. destruct (A k ltac:(lia)) as (mk & Hmk & _). exact (nth_some_length msgs msgs1 k mk (proj1 R1) Hmk). }
  cbn [obind]. assert (R : remarked (in_sent r) msgs msgs2).
  { apply (remarked_trans _ _ msgs1); [eapply remarked_mono; [|exact R1]|eapply remarked_mono; [|exact R2]].
    - intros k i [-> Hi]. unfold in_sent. repeat split; intros; lia.
    - intros k i Hk. cbv beta in Hk. unfold in_sent. repeat split; intros; lia. }
  destruct (Z.eqb_spec (sr_last_msg_end r) 0) as [Z0|Nz]; [now exists msgs2|].
  destruct (La ltac:(lia)) as (ml & Hml & _). destruct (nth_some_length msgs msgs2 _ ml (proj1 R) Hml) as [ml2 Hml2].
  destruct (mark_message_remarked _ 0 (sr_last_msg_end r) msgs2 ml2 Hml2 ltac:(lia)) as (msgs3 & E3 & R3). exists msgs3.
  split; [exact E3|]. apply (remarked_trans _ _ msgs2); [exact R|]. eapply remarked_mono; [|exact R3].
  intros k i [-> Hi]. unfold in_sent. repeat split; intros; lia.
Qed.

(** ** The invariant after an acknowledgement *)

Lemma inv_acks acks acks' f : (forall n, In n acks -> In n acks') -> flight_inv acks f -> flight_inv acks' f.
Proof.
  intros H [F1 F2 F3 F4 F5]. split; auto. intros m i H1 H2 H3 H4. rewrite <- (app_nil_r (sealed f)).
  apply (justified_more _ _ acks); auto.
Qed.

Lemma remarked_sent_ok M msgs msgs' records r : Forall msg_ok msgs -> remarked M msgs msgs' -> sent_ok msgs records r ->
  sent_ok msgs' records r.
Proof.
  intros F [L R] [[Ec Hn]|[C1 C2 C3 C4 C5 (ps & C6 & C7)]].
  { left. split; [exact Ec|]. destruct msgs, msgs'; try easy. }
  assert (Hs : forall k, (exists m, nth_error msgs k = Some m /\ om_is_ccs m = false) ->
               exists m, nth_error msgs' k = Some m /\ om_is_ccs m = false).
  { intros k (m & Hk & Hc). destruct (nth_some_length msgs msgs' k m L Hk) as [m' Hk']. exists m'. split; [exact Hk'|].
    destruct (R k m' Hk') as (m0 & H0 & _ & H2 & _). congruence. }
  right. split; auto; [intros k Hk; auto|]. exists ps. split; [exact C6|].
  intros k m' i Hk Hc Hw Ho Ho' Hi. destruct (R k m' Hk) as (m & R1 & R2 & R3 & R4 & R5).
  rewrite (seq_of_data _ _ R2) in *. rewrite R3 in Hc. rewrite Forall_forall in F.
  destruct (F m (nth_error_In _ _ R1)) as [X|Hm]; [congruence|].
  destruct (C7 k m i R1 Hc Hw Ho Ho' Hi) as [H|H]; [left; now apply R5|now right].
Qed.

Lemma remarked_msg_ok M msgs msgs' : Forall msg_ok msgs -> remarked M msgs msgs' -> Forall msg_ok msgs'.
Proof.
  intros F [_ R]. rewrite Forall_forall in *. intros m' H. apply In_nth_error in H as [k Hk].
  destruct (R k m' Hk) as (m & R1 & _ & R3 & R4 & _). destruct (F m (nth_error_In _ _ R1)) as [X|Hm]; [left; congruence|right; auto].
Qed.

Lemma remarked_cursor M msgs msgs' w o : remarked M msgs msgs' -> cursor_ok msgs w o -> cursor_ok msgs' w o.
Proof.
  intros [L R] [C1 C2 C3]. split; [lia|exact C2|]. destruct (nth_error msgs' w) as [m'|] eqn:H.
  - destruct (R w m' H) as (m & R1 & R2 & R3 & _). rewrite R1 in C3. unfold width in *. now rewrite R3, (seq_of_data _ _ R2).
  - apply nth_error_None in H. assert (nth_error msgs w = None) as Hn by (apply nth_error_None; lia). now rewrite Hn in C3.
Qed.

(** A record that is acknowledged: what it covers has reached the peer. *)
Lemma ack_number_inv acks n f : flight_inv acks f -> In n acks -> exists f', ack_number n f = Some f' /\ flight_inv acks f'.
Proof.
  intros I Hn. pose proof I as [F1 F2 F3 F4 F5]. unfold ack_number. destruct (sent_records f) as [q|] eqn:Es; [|now exists f].
  destruct (find_sent n q) as [i|] eqn:Ef; [|now exists f]. apply find_some in Ef as [_ Ef].
  destruct (mru_at DTLS_MAX_ACK_BUFFER q i) as [r|] eqn:Er; [|discriminate]. apply Z.eqb_eq in Ef. cbn [obind].
  pose proof (F4 q r eq_refl (nth_error_In _ _ Er)) as Hr.
  destruct (mark_sent_remarked _ _ r F1 Hr) as (msgs' & -> & R). cbn [obind]. eexists. split; [reflexivity|].
  split; cbn [with_sent with_messages outgoing_messages outgoing_written outgoing_offset sealed sent_records handshake_write_seq]; auto.
  - exact (remarked_msg_ok _ _ _ F1 R).
  - exact (remarked_cursor _ _ _ _ _ R F2).
  - intros m' i' Hin Hc Hi Hmk. apply In_nth_error in Hin as [k Hk]. destruct R as [_ R].
    destruct (R k m' Hk) as (m & R1 & R2 & R3 & R4 & R5). rewrite (seq_of_data _ _ R2) in *. rewrite R3 in Hc.
    rewrite Forall_forall in F1. destruct (F1 m (nth_error_In _ _ R1)) as [X|Hm]; [congruence|].
    destruct (proj2 (R5 Hm i' Hi) Hmk) as [H|H]; [apply F3; auto; exact (nth_error_In _ _ R1)|].
    destruct H as (H1 & H2 & H3). destruct Hr as [[Ec _]|[_ _ _ _ _ (ps & C6 & C7)]].
    + rewrite Ec in H1, H2, H3. cbn in H1, H2, H3. lia.
    + destruct (C7 k m i' R1 Hc H1 H2 H3 Hi) as [H|H]; [apply F3; auto; exact (nth_error_In _ _ R1)|].
      exists n, ps. rewrite <- Ef. split; [exact C6|]. split; [now rewrite Ef|exact H].
  - intros q' x Eq Hx. injection Eq as <-. cbn [storage_ mru_put] in Hx.
    assert (Sx : sent_ok (outgoing_messages f) (sealed f) x).
    { apply in_set_nth in Hx as [->|Hx]; [|exact (F4 q x eq_refl Hx)]. left. split; [reflexivity|].
      destruct Hr as [[_ H]|[(m & H & _) _ _ _ _ _]]; [exact H|]. intros Z. rewrite Z in H. now destruct (sr_first_msg r). }
    exact (remarked_sent_ok _ _ _ _ _ F1 R Sx).
Qed.

(** The numbers listed in an ACK record. *)
Fixpoint list_numbers (fuel : nat) (cbs : CBS) : list DTLSRecordNumber :=
  match fuel with
  | O => []
  | S fuel' =>
      match (let* epoch := CBS_get_u64 in let* seq := CBS_get_u64 in ret (epoch, seq)) cbs with
      | (Some (epoch, seq), rest) => make_record_number epoch seq :: list_numbers fuel' rest
      | (None, _) => []
      end
  end.

Definition numbers_of (data : list Z) : list DTLSRecordNumber :=
  match CBS_get_u16_length_prefixed data with (Some numbers, []) => list_numbers (length numbers) numbers | _ => [] end.

Lemma ack_loop_inv acks ack_epoch fuel : forall cbs f, flight_inv acks f -> (forall n, In n (list_numbers fuel cbs) -> In n acks) ->
  let '(r, f') := ack_loop fuel ack_epoch cbs f in r <> AckStopped /\ flight_inv acks f'.
Proof.
  induction fuel as [|fuel IH]; intros cbs f I H; [now destruct cbs|]. destruct cbs as [|b cbs]; [easy|].
  cbn [ack_loop list_numbers] in *.
  destruct ((let* epoch := CBS_get_u64 in let* seq := CBS_get_u64 in ret (epoch, seq)) (b :: cbs)) as [[[epoch sq]|] rest]; [|easy].
  destruct (_ || _ || _); [easy|].
  destruct (ack_number_inv acks (make_record_number epoch sq) f I) as (f1 & -> & I1); [apply H; now left|].
  apply IH; [exact I1|]. intros n Hn. apply H. now right.
Qed.

Lemma inv_cleared acks f : flight_inv acks f ->
  flight_inv acks (with_sending false (with_cursor 0 0 (with_sent None (with_messages [] f)))).
Proof.
  intros [F1 F2 F3 F4 F5]. split; cbn; auto; [split; cbn; lia|intros m i []|discriminate].
Qed.

Lemma process_ack_inv acks n data c : flight_inv acks (c_flight c) -> (forall x, In x (numbers_of data) -> In x acks) ->
  let '(r, c') := process_ack n data c in r <> AckStopped /\ flight_inv acks (c_flight c').
Proof.
  intros I H. unfold process_ack, numbers_of in *. destruct (negb _); [easy|]. destruct (negb _); [easy|].
  destruct (CBS_get_u16_length_prefixed data) as [[numbers|] [|b rest]]; [|easy|easy|easy].
  pose proof (ack_loop_inv acks (number_epoch n) (length numbers) numbers (c_flight c) I H) as G.
  destruct (ack_loop _ _ numbers (c_flight c)) as [r f]. destruct G as [G1 G2].
  destruct r; [easy|easy|]. destruct (forallb _ _); (split; [discriminate|]); [|exact G2]. cbn. now apply inv_cleared.
Qed.

(** ** Everything a connection does *)

Inductive event : Type :=
  | AddMessage (transcript_ok : bool)        (* the next message, with the next number *)
  | AddChangeCipherSpec
  | FinishFlight
  | SetWriteState (level : ssl_encryption_level_t) (aead : SSLAEADContext) (encrypter : option RecordNumberEncrypter)
  | Flush (now : OPENSSL_timeval)
  | Timeout (now : OPENSSL_timeval)
  | ScheduleAck
  | AckRecord (number : DTLSRecordNumber) (data : list Z)
  | HandshakeRecord (max_len : Z) (now : OPENSSL_timeval) (number : DTLSRecordNumber) (record : list Z)
  | NextMessage.

Definition conn_step (c : CONN) (e : event) : CONN :=
  match e with
  | AddMessage t => snd (dtls1_add_message t (whole messages (handshake_write_seq (c_flight c))) c)
  | AddChangeCipherSpec => snd (dtls1_add_change_cipher_spec c)
  | FinishFlight => dtls1_finish_flight c
  | SetWriteState level aead encrypter => snd (dtls1_set_write_state level aead encrypter c)
  | Flush now => snd (dtls1_flush RAND_bytes now c)
  | Timeout now => snd (DTLSv1_handle_timeout RAND_bytes now c)
  | ScheduleAck => dtls1_schedule_ack c
  | AckRecord number data => snd (process_ack number data c)
  | HandshakeRecord max_len now number record => snd (dtls1_process_handshake_fragments max_len now number record c)
  | NextMessage => on_read dtls1_next_message c
  end.

(** The numbers the peer has acknowledged. *)
Definition event_acks (e : event) : list DTLSRecordNumber :=
  match e with AckRecord _ data => numbers_of data | _ => [] end.

Lemma start_flight_inv acks c : flight_inv acks (c_flight c) -> flight_inv acks (c_flight (start_flight c)) /\
  handshake_write_seq (c_flight (start_flight c)) = handshake_write_seq (c_flight c).
Proof. intros I. unfold start_flight. destruct (outgoing_messages_complete _); cbn; auto using inv_cleared. Qed.

(** A message added at the end. *)
Lemma inv_push acks f m : flight_inv acks f -> msg_ok m ->
  (om_is_ccs m = false -> forall i, 0 <= i < bits (seq_of m) -> marked (om_acked m) i = false) ->
  flight_inv acks (with_messages (outgoing_messages f ++ [m]) f).
Proof.
  intros [F1 [C1 C2 C3] F3 F4 F5] Hm Hn.
  assert (Ap : forall k x, nth_error (outgoing_messages f) k = Some x -> nth_error (outgoing_messages f ++ [m]) k = Some x).
  { intros k x H. rewrite nth_error_app1; [exact H|]. apply nth_error_Some. now rewrite H. }
  split; cbn [with_messages outgoing_messages outgoing_written outgoing_offset sealed sent_records handshake_write_seq]; auto.
  - apply Forall_app. auto.
  - split; [rewrite length_app; lia|exact C2|]. destruct (nth_error (outgoing_messages f) (outgoing_written f)) as [x|] eqn:Hx.
    + now rewrite (Ap _ _ Hx).
    + subst. destruct (nth_error (outgoing_messages f ++ [m]) _); [|exact C3]. rewrite C3. apply width_nonneg.
  - intros x i Hx Hc Hi Hk. apply in_app_or in Hx as [Hx|[<-|[]]]; [now apply F3|]. rewrite Hn in Hk by auto. discriminate.
  - intros q r Eq Hr. destruct (F4 q r Eq Hr) as [[Ec H]|[C4 C5 C6 C7 C8 (ps & C9 & C10)]].
    + left. split; [exact Ec|]. intros X. apply app_eq_nil in X as [X _]. auto.
    + right. split; auto.
      * destruct C4 as (x & Hx & Hc). exists x. auto.
      * intros k Hk. destruct (C7 k Hk) as (x & Hx & Hc). exists x. auto.
      * intros H. destruct (C8 H) as (x & Hx & Hc). exists x. auto.
      * exists ps. split; [exact C9|]. intros k x i Hk Hc Hw Ho Ho' Hi.
        destruct (nth_error (outgoing_messages f) k) as [y|] eqn:Hy.
        { rewrite (Ap _ _ Hy) in Hk. injection Hk as <-. now apply (C10 k y i). }
        apply nth_error_None in Hy. destruct (Nat.eq_dec k (sr_last_msg r)) as [->|].
        { specialize (Ho' eq_refl). destruct (C8 ltac:(lia)) as (z & Hz & _).
          assert (sr_last_msg r < length (outgoing_messages f))%nat by (apply nth_error_Some; now rewrite Hz). lia. }
        destruct (C7 k ltac:(lia)) as (z & Hz & _).
        assert (k < length (outgoing_messages f))%nat by (apply nth_error_Some; now rewrite Hz). lia.
Qed.

Lemma new_handshake_msg q epoch x : 0 <= q < 2 ^ 16 ->
  Bitmap_Init alloc_ok (Z.max (zlength (whole messages q) - DTLS1_HM_HEADER_LENGTH) 1) = Some x ->
  let m := {| om_data := whole messages q; om_epoch := epoch; om_is_ccs := false; om_acked := x |} in
  handshake_msg m /\ forall i, 0 <= i < bits (seq_of m) -> marked (om_acked m) i = false.
Proof.
  intros Hq Ei m. assert (Es : seq_of m = q) by (unfold seq_of; cbn [m om_data]; now rewrite parse_whole).
  assert (El : Z.max (zlength (whole messages q) - DTLS1_HM_HEADER_LENGTH) 1 = bits q).
  { unfold bits, whole, DTLS1_HM_HEADER_LENGTH. rewrite zlength_app. unfold zlength at 1. rewrite length_header. f_equal. lia. }
  rewrite El in Ei. apply Init_represents in Ei; [|unfold bits; pose proof (lengths q); lia].
  destruct (represents_marked _ _ _ Ei) as [R M]. split; [split; rewrite ?Es; auto|]. now rewrite Es.
Qed.

Lemma inv_write_seq acks f n b : flight_inv acks f -> 0 <= n < 2 ^ 16 -> flight_inv acks (with_write_seq n b f).
Proof. intros [F1 F2 F3 F4 F5] H. split; auto. Qed.

Lemma add_outgoing_inv acks t (ccs : bool) c : flight_inv acks (c_flight c) ->
  flight_inv acks (c_flight (snd (add_outgoing t ccs (if ccs then [] else whole messages (handshake_write_seq (c_flight c))) c))).
Proof.
  intros I. unfold add_outgoing. destruct (start_flight_inv acks c I) as [I1 Eseq]. set (c1 := start_flight c) in *.
  destruct ccs.
  { destruct (_ <? _); [|exact I1]. cbn [snd c_flight on_flight]. apply inv_push; [exact I1|now left|discriminate]. }
  destruct (handshake_write_overflow _); [exact I1|]. destruct (negb t); [exact I1|].
  rewrite <- Eseq. pose proof (fi_seq _ _ I1) as Hq. set (q := handshake_write_seq (c_flight c1)) in *.
  set (f2 := with_write_seq (u16 (q + 1)) (if u16 (q + 1) =? 0 then true else false) (c_flight c1)).
  assert (I2 : flight_inv acks f2) by (apply inv_write_seq; [exact I1|apply (wrap_range 16); lia]).
  destruct (Bitmap_Init _ _) as [x|] eqn:Ei; [|exact I2].
  destruct (_ <? _); [|exact I2]. cbn [snd c_flight on_flight]. fold f2.
  destruct (new_handshake_msg q (we_epoch (write_epoch (c_ssl c1))) x Hq Ei) as [H1 H2].
  apply inv_push; [exact I2|now right|intros _; exact H2].
Qed.

Lemma send_ack_flight acks c : flight_inv acks (c_flight c) -> flight_inv acks (c_flight (snd (send_ack RAND_bytes c))).
Proof.
  intros I. unfold send_ack. destruct (_ <? _); [exact I|]. destruct (dtls_seal_record _ _ _ _ _ _) as [[[n out]|] ssl]; [|exact I].
  unfold write_packet. set (ret := match wbio _ with Some _ => _ | None => _ end).
  destruct (ret <=? 0), (0 <? ret); cbn; now apply inv_logged.
Qed.

Lemma flush_inv acks now c : flight_inv acks (c_flight c) -> flight_inv acks (c_flight (snd (dtls1_flush RAND_bytes now c))).
Proof.
  intros I. unfold dtls1_flush.
  set (r := if sending_ack (c_acks c) then _ else _).
  assert (I1 : flight_inv acks (c_flight (snd r))).
  { subst r. destruct (sending_ack _); [|exact I]. pose proof (send_ack_flight acks c I) as G.
    destruct (send_ack RAND_bytes c) as [ret c1]. cbn [snd] in *. now destruct (ret <=? 0). }
  destruct r as [ret c1]. cbn [snd] in I1. destruct (ret <=? 0); [exact I1|].
  set (r := if sending_flight (c_flight c1) then _ else _).
  assert (I2 : flight_inv acks (c_flight (snd r))).
  { subst r. destruct (sending_flight _); [|exact I1]. pose proof (send_flight_sends acks c1 I1) as G.
    destruct (send_flight RAND_bytes c1) as [ret1 c2]. destruct G as (new & (G & _) & _). cbn [snd].
    destruct (ret1 <=? 0); [exact G|].
    assert (Gx : flight_inv acks (with_sending false (with_cursor 0 0 (c_flight c2)))).
    { destruct (inv_cursor acks (c_flight c2) 0 0 G) as [F1 F2 F3 F4 F5]; [|split; auto]. split; [lia|lia|].
      destruct (nth_error _ 0); [apply width_nonneg|reflexivity]. }
    unfold flight_sent. destruct (_ || _); exact Gx. }
  destruct r as [ret1 c2]. cbn [snd] in I2. destruct (ret1 <=? 0); [exact I2|].
  unfold flush_pending. destruct (pending_flush _); [|exact I2]. destruct (_ <=? 0); exact I2.
Qed.

Lemma inv_sending acks f b : flight_inv acks f -> flight_inv acks (with_sending b f).
Proof. intros [F1 F2 F3 F4 F5]. split; auto. Qed.

Lemma timeout_inv acks now c : flight_inv acks (c_flight c) -> flight_inv acks (c_flight (snd (DTLSv1_handle_timeout RAND_bytes now c))).
Proof.
  intros I. unfold DTLSv1_handle_timeout. destruct (_ && _); [exact I|].
  destruct (IsExpired now (ack_timer (c_timers c))), (IsExpired now (retransmit_timer (c_timers c))); cbn [negb orb];
    [| | |exact I]; apply flush_inv; try exact I; destruct (_ && _); cbn; now apply inv_sending.
Qed.

Lemma conn_step_inv acks c e : flight_inv acks (c_flight c) -> flight_inv (acks ++ event_acks e) (c_flight (conn_step c e)).
Proof.
  intros I. assert (I' : flight_inv (acks ++ event_acks e) (c_flight c)).
  { apply (inv_acks acks); [|exact I]. intros n H. apply in_or_app. now left. }
  destruct e; cbn [conn_step]; auto using flush_inv, timeout_inv.
  - apply (add_outgoing_inv _ transcript_ok false); exact I'.
  - unfold dtls1_add_change_cipher_spec. destruct (_ >? _); [exact I'|]. apply (add_outgoing_inv _ true true c I').
  - unfold dtls1_finish_flight. destruct (outgoing_messages (c_flight c)) as [|m l]; [exact I'|].
    destruct (outgoing_messages_complete _); [exact I'|]. destruct (_ <=? 2); cbn; now apply inv_sending.
  - unfold dtls1_set_write_state. destruct (next_epoch _ _ _); [|exact I']. destruct (_ >? _); [destruct encrypter; [|exact I']|]; destruct (_ <=? _); exact I'.
  - pose proof (process_ack_inv (acks ++ numbers_of data) number data c) as G. cbn [event_acks] in *.
    destruct (process_ack number data c) as [r c']. apply G; [exact I'|]. intros x H. apply in_or_app. now right.
  - unfold dtls1_process_handshake_fragments. destruct (handshake_fragments _ _ _) as [[alert|[ack skipped]] d]; [exact I'|].
    destruct ack, skipped; cbn [snd]; try exact I'; try (destruct (_ && _ && _ && _); exact I');
      try (destruct (_ && _ && _ && _)); cbn; now apply inv_cleared.
Qed.

(** ** Runs *)

Definition fresh_flight (f : FLIGHT) : Prop :=
  outgoing_messages f = [] /\ sent_records f = None /\ outgoing_written f = 0%nat /\ outgoing_offset f = 0 /\
  handshake_write_seq f = 0.

Definition run (c : CONN) (es : list event) : CONN := fold_left conn_step es c.
Definition acks_of (es : list event) : list DTLSRecordNumber := concat (map event_acks es).

Lemma run_inv es c : fresh_flight (c_flight c) -> flight_inv (acks_of es) (c_flight (run c es)).
Proof.
  intros (F1 & F2 & F3 & F4 & F5).
  assert (I0 : flight_inv [] (c_flight c)).
  { split; rewrite ?F1, ?F2, ?F3, ?F4, ?F5; [constructor|split; cbn; lia|intros m i []|discriminate|lia]. }
  unfold run, acks_of. change (concat (map event_acks es)) with ([] ++ concat (map event_acks es)).
  clear F1 F2 F3 F4 F5. revert c I0. generalize (@nil DTLSRecordNumber). induction es as [|e es IH]; intros acks c I; cbn [fold_left map concat].
  - now rewrite app_nil_r.
  - rewrite app_assoc. apply IH. now apply conn_step_inv.
Qed.

(** C35: A byte counts as acknowledged only when the peer has acknowledged a record
    that carried it.  After any messages, flights, timeouts, epochs, records and
    acknowledgements (honest or not), every marked byte of every message in the
    flight was in a handshake record that was sealed and whose number was
    acknowledged; no ACK record, whatever it lists, makes the program index
    outside of the flight; and sending the flight always ends. *)
Theorem acknowledged_was_carried es c : fresh_flight (c_flight c) ->
  let c' := run c es in
  (forall m i, In m (outgoing_messages (c_flight c')) -> om_is_ccs m = false -> 0 <= i < bits (seq_of m) ->
     marked (om_acked m) i = true -> justified (sealed (c_flight c')) (acks_of es) (seq_of m) i) /\
  (forall number data, fst (process_ack number data c') <> AckStopped) /\
  forall k, send_packets RAND_bytes (packets_bound (outgoing_messages (c_flight c')) + k) c' =
            send_packets RAND_bytes (packets_bound (outgoing_messages (c_flight c'))) c'.
Proof.
  intros F c'. pose proof (run_inv es c F) as I. fold c' in I. split; [apply I|]. split.
  2: { intros k. pose proof (send_packets_sends _ (packets_bound (outgoing_messages (c_flight c'))) c' I (packets_fuel _ _ I)) as G.
       destruct (send_packets RAND_bytes (packets_bound (outgoing_messages (c_flight c'))) c') as [ret c2]. apply G. }
  intros number data.
  pose proof (process_ack_inv (acks_of es ++ numbers_of data) number data c') as G.
  destruct (process_ack number data c') as [r c2]. apply G; [|intros x H; apply in_or_app; now right].
  apply (inv_acks (acks_of es)); [|exact I]. intros n H. apply in_or_app. now left.
Qed.

(** ** The receiver *)

Lemma receive_app es es' : forall acc d,
  receive messages (es ++ es') acc d =
  let '(alerts, taken, acc1, d1) := receive messages es acc d in
  let '(alerts', taken', acc2, d2) := receive messages es' acc1 d1 in
  (alerts ++ alerts', taken ++ taken', acc2, d2).
Proof.
  induction es as [|[cx ps|] es IH]; intros acc d; cbn [app receive].
  - now destruct (receive messages es' acc d) as [[[a t] acc2] d2].
  - destruct (handshake_fragments _ _ d) as [r d1]. rewrite IH.
    destruct (receive messages es _ d1) as [[[a t] acc2] d2]. destruct (receive messages es' acc2 d2) as [[[a' t'] acc3] d3].
    now rewrite app_assoc.
  - destruct (dtls1_get_message d) as [[m|] d1]; rewrite IH; [|reflexivity].
    destruct (receive messages es acc _) as [[[a t] acc2] d2]. now destruct (receive messages es' acc2 d2) as [[[a' t'] acc3] d3].
Qed.

Lemma taken_le es : forall acc d, let '(_, taken, _, _) := receive messages es acc d in zlength taken <= zlength es.
Proof.
  induction es as [|[cx ps|] es IH]; intros acc d; cbn [receive]; [reflexivity| |].
  - destruct (handshake_fragments _ _ d) as [r d1]. specialize (IH (acc ++ filter (accepted (handshake_read_seq d)) ps) d1).
    destruct (receive messages es _ d1) as [[[a t] acc2] d2]. rewrite zlength_cons. lia.
  - destruct (dtls1_get_message d) as [[m|] d1].
    + specialize (IH acc (dtls1_next_message d1)). destruct (receive messages es acc _) as [[[a t] acc2] d2]. rewrite !zlength_cons. lia.
    + specialize (IH acc d1). destruct (receive messages es acc d1) as [[[a t] acc2] d2]. rewrite zlength_cons. lia.
Qed.

Definition sent_message (q : Z) : Z * list Z * list Z := (fst (messages q), whole messages q, body_of messages q).

Definition arrived (acc : list piece) (q : Z) : Prop :=
  (exists p, In p acc /\ pc_seq p = q) /\ forall i, 0 <= i < zlength (body_of messages q) -> got acc q i = true.

Lemma take_all acc k : forall r d, reads messages acc r d -> r + Z.of_nat k < 2 ^ 16 ->
  (forall q, r <= q < r + Z.of_nat k -> arrived acc q) ->
  exists d', receive messages (repeat TakeMessage k) acc d = ([], map (fun j => sent_message (r + Z.of_nat j)) (seq 0 k), acc, d').
Proof.
  induction k as [|k IH]; intros r d R Hr H; cbn [repeat receive]; [now exists d|].
  destruct (current_message messages acc r d R) as [C1 C2].
  destruct (C2 (proj2 C1 (H r ltac:(lia)))) as (d1 & -> & En). rewrite En.
  destruct (IH (r + 1) (dtls1_next_message d)) as (d2 & ->).
  - apply reads_next; [exact R|lia].
  - lia.
  - intros q Hq. apply H. lia.
  - exists d2. cbn [seq map]. rewrite Z.add_0_r, <- seq_shift, map_map.
    rewrite (map_ext (fun j => sent_message (r + 1 + Z.of_nat j)) (fun j => sent_message (r + Z.of_nat (S j)))); [reflexivity|].
    intros j. f_equal. lia.
Qed.

Lemma carries_arrived acc q : (forall i, 0 <= i < bits q -> carries acc q i) -> arrived acc q.
Proof.
  intros H. split.
  - destruct (H 0) as (p & Hp & Eq & _); [unfold bits; lia|]. now exists p.
  - intros i Hi. destruct (H i) as (p & Hp & Eq & [Hi'|Hb]); [unfold bits; lia| |rewrite Hb in Hi; cbn in Hi; lia].
    apply existsb_exists. exists p. split; [exact Hp|]. unfold in_range. rewrite Eq, Z.eqb_refl. cbn [andb]. lia.
Qed.

(** C34: A flight reaches the peer.  Let a side that has done anything before send
    its flight from the start, successfully.  Everything it wrote is on the wire;
    and if the peer has processed, in any order and with any others, the
    handshake records sealed by this call and those it acknowledged before, it
    can take every message of the flight, one after the other, exactly as it was
    added. *)
Theorem flight_received es c c2 es' d alerts taken acc d' k :
  fresh_flight (c_flight c) ->
  let c1 := run c es in
  outgoing_written (c_flight c1) = 0%nat -> outgoing_offset (c_flight c1) = 0 -> send_flight RAND_bytes c1 = (1, c2) ->
  (forall n, alloc_ok n = true) -> Forall (reading_ok messages) es' -> zlength es' + Z.of_nat k < 2 ^ 16 -> fresh_reading d ->
  receive messages es' [] d = (alerts, taken, acc, d') ->
  (forall q, zlength taken <= q < zlength taken + Z.of_nat k ->
     exists m, In m (outgoing_messages (c_flight c1)) /\ om_is_ccs m = false /\ seq_of m = q) ->
  (forall new, sealed (c_flight c2) = sealed (c_flight c1) ++ new ->
     forall n ps p, handshake_record new n ps \/ handshake_record (sealed (c_flight c1)) n ps /\ In n (acks_of es) ->
       In p ps -> In p acc \/ pc_seq p < zlength taken) ->
  (exists packets new, sealed (c_flight c2) = sealed (c_flight c1) ++ new /\
     wire (c_transport c2) = wire (c_transport c1) ++ packets /\ concat packets = concat (map sl_bytes new)) /\
  exists d'', receive messages (es' ++ repeat TakeMessage k) [] d =
    (alerts, taken ++ map (fun j => sent_message (zlength taken + Z.of_nat j)) (seq 0 k), acc, d'').
Proof.
  intros F c1 W0 O0 Es A Fr Hl Fd Er Hm Hp. pose proof (run_inv es c F) as I. fold c1 in I.
  pose proof (send_flight_sends (acks_of es) c1 I) as G. rewrite Es in G. destruct G as (new & _ & G).
  destruct (G eq_refl) as ([I2 M2 L2 B2 P2] & W2 & packets & Wp & Cp). specialize (Hp new L2).
  split; [exists packets, new; auto|]. rewrite W0, O0, W2 in P2.
  assert (Hr : reads messages acc (0 + zlength taken) d').
  { pose proof (zlength_nonneg es').
    apply (receive_reads messages lengths es' A Fr [] 0 d alerts taken acc d' (fresh_reads messages d Fd) ltac:(lia) Er). }
  rewrite Z.add_0_l in Hr.
  destruct (take_all acc k (zlength taken) d' Hr) as (d2 & Et).
  - pose proof (taken_le es' [] d) as T. rewrite Er in T. lia.
  - intros q Hq. apply carries_arrived. intros i Hi. destruct (Hm q Hq) as (m & Hin & Hc & Eq). subst q.
    assert (C : exists n ps, (handshake_record new n ps \/ handshake_record (sealed (c_flight c1)) n ps /\ In n (acks_of es)) /\ carries ps (seq_of m) i).
    { apply In_nth_error in Hin as [j Hj]. assert (j < length (outgoing_messages (c_flight c1)))%nat by (apply nth_error_Some; now rewrite Hj).
      destruct (P2 j m i Hj Hc) as [Hk|(n & ps & H1 & H2)]; try lia.
      - destruct (fi_marked _ _ I m i (nth_error_In _ _ Hj) Hc Hi Hk) as (n & ps & H1 & H2 & H3). exists n, ps. auto.
      - exists n, ps. auto. }
    destruct C as (n & ps & Hn & p & Hps & Eq & Hip). exists p. split; [|auto]. destruct (Hp n ps p Hn Hps) as [Ha|Ha]; [exact Ha|lia].
  - exists d2. rewrite receive_app, Er, Et. now rewrite app_nil_r.
Qed.

(** A record's contents determine its pieces. *)
Lemma contents_inj ps : forall ps', Forall (piece_ok messages) ps -> Forall (piece_ok messages) ps' -> contents ps = contents ps' -> ps = ps'.
Proof.
  assert (Ne : forall p l, fragment_bytes messages p ++ l <> []) by (intros p l; unfold fragment_bytes; discriminate).
  induction ps as [|p ps IH]; intros [|p' ps'] F F' Eq; [reflexivity| | |].
  - rewrite contents_cons in Eq. now elim (Ne p' (contents ps')).
  - rewrite contents_cons in Eq. now elim (Ne p (contents ps)).
  - inversion_clear F as [|? ? Fp Fs]. inversion_clear F' as [|? ? Fp' Fs']. rewrite !contents_cons in Eq.
    pose proof (parse_fragment_bytes messages lengths p (contents ps) Fp) as P.
    rewrite Eq, (parse_fragment_bytes messages lengths p' (contents ps') Fp') in P.
    injection P as E1 E2 E3 E4 E5 _ E6. rewrite (IH ps' Fs Fs' (eq_sym E6)). f_equal.
    destruct p, p'. cbn in *. congruence.
Qed.

End Delivery.
