(* ===== verification/DtlsDemo.v ===== *)
(** * A flight on a lossy transport

    Concrete connections for the theorems of [DtlsDelivery]: a flight of two
    messages in two epochs, of which the first needs two packets; and a case
    in which sending the rest of a flight is refused. *)
From S2P Require Import Prelude Cbs Cbb SslVersions SslAead TlsRecord DtlsWindow DtlsRecord Transition DtlsBitmap DtlsMessages DtlsFlight DtlsDelivery.
From Stdlib Require Import ZArith List Lia Bool.
Import ListNotations.
Open Scope Z_scope.

#[local] Instance flight_env : Env := { uninit := 0; alloc_ok := fun _ => true }.

Definition flight_messages (q : Z) : Z * list Z := if q =? 0 then (2, repeat 7 400) else (8, [1; 2; 3]).

Lemma flight_lengths q : zlength (body_of flight_messages q) < 2 ^ 24.
Proof. unfold body_of, flight_messages. destruct (q =? 0); vm_compute; reflexivity. Qed.

Definition stopped : DTLSTimer := {| start_time_ := 0; duration_ := kNever |}.

(** A transport that takes all packets but the one after [n] others. *)
Definition blocking_bio (n : nat) : BIO :=
  {| bio_write := fun sent packet => if Nat.eqb (length sent) n then -1 else zlength packet; bio_flush := fun _ => 1;
     bio_query_mtu := 0; bio_fallback_mtu := 0 |}.

Definition flight_conn (bio : BIO) : CONN :=
  {| c_ssl := demo_dtls DTLS1_3_VERSION 0 0 CreateNullCipher; c_read := fresh_d1;
     c_flight := {| outgoing_messages := []; sent_records := None; outgoing_written := 0; outgoing_offset := 0;
                    sending_flight := false; handshake_write_seq := 0; handshake_write_overflow := false; sealed := [] |};
     c_timers := {| num_timeouts := 0; retransmit_timer := stopped; ack_timer := stopped; timeout_duration_ms := 400;
                    initial_timeout_duration_ms := 400 |};
     c_acks := {| records_to_ack := mru_new; sending_ack := false |};
     c_transport := {| mtu := 300; no_query_mtu := false; write_closed := false; wbio := Some bio; pending_flush := false;
                       wire := [] |} |}.

Definition at_second (s : Z) : OPENSSL_timeval := {| tv_sec := s; tv_usec := 0 |}.

(** Two messages, sent; then the peer acknowledges the second record. *)
Definition flight_events : list event :=
  [AddMessage true; SetWriteState ssl_encryption_handshake (demo_aead true) (Some demo_encrypter); AddMessage true;
   FinishFlight; Flush (at_second 0)].
Definition tail_acked : event := AckRecord (make_record_number 2 0) (ack_contents [make_record_number 0 1]).

Lemma flight_conn_fresh bio : fresh_flight (c_flight (flight_conn bio)).
Proof. repeat split. Qed.

Lemma acknowledged_witness :
  let c := run flight_messages no_rand (flight_conn (blocking_bio 9)) (flight_events ++ [tail_acked]) in
  exists m, nth_error (outgoing_messages (c_flight c)) 0 = Some m /\ IsFullyAcked m = false /\
    justified flight_messages (sealed (c_flight c)) [make_record_number 0 1] (seq_of m) 300.
Proof.
  set (es := flight_events ++ [tail_acked]).
  destruct (acknowledged_was_carried flight_messages flight_lengths no_rand es (flight_conn (blocking_bio 9))
              (flight_conn_fresh _)) as [H _].
  set (c := run flight_messages no_rand (flight_conn (blocking_bio 9)) es) in *.
  destruct (nth_error (outgoing_messages (c_flight c)) 0) as [m|] eqn:Hm; [|vm_compute in Hm; discriminate].
  exists m. split; [exact Hm|]. split; [vm_compute in Hm; injection Hm as <-; reflexivity|].
  change [make_record_number 0 1] with (acks_of [tail_acked]). apply H; [exact (nth_error_In _ _ Hm)| | |];
    vm_compute in Hm; injection Hm as <-; [reflexivity| |reflexivity]. split; [discriminate|reflexivity].
Defined.

(** The peer has the end of the first message and gets the rest out of order. *)
Definition peer_context : fragment_context := {| latest_epoch := true; max_message_len := 1000; acknowledges := false |}.
Definition head_piece : piece := demo_piece 0 0 275.
Definition tail_piece : piece := demo_piece 0 275 125.
Definition second_piece : piece := demo_piece 1 0 3.
Definition peer_readings : list reading :=
  [Arrives peer_context [tail_piece]; TakeMessage; Arrives peer_context [second_piece]; TakeMessage; Arrives peer_context [head_piece]].

(** Records with known pieces have no others. *)
Lemma known_pieces records l n ps :
  map (fun s => (sl_number s, sl_contents s)) records = map (fun x => (fst x, contents flight_messages (snd x))) l ->
  Forall (fun x => Forall (piece_ok flight_messages) (snd x)) l -> handshake_record flight_messages records n ps -> In (n, ps) l.
Proof.
  intros Em F [(s & Hs & En & _ & Ec) Fp]. apply (in_map (fun s => (sl_number s, sl_contents s))) in Hs. rewrite Em in Hs.
  apply in_map_iff in Hs as ([n' ps'] & Ex & Hx). cbn [fst snd] in Ex. injection Ex as E1 E2.
  rewrite Forall_forall in F. specialize (F _ Hx). cbn [snd] in F.
  rewrite (contents_inj flight_messages flight_lengths ps ps'); [congruence|exact Fp|exact F|congruence].
Qed.

Definition first_sent : list (DTLSRecordNumber * list piece) :=
  [(0, [head_piece]); (1, [tail_piece]); (make_record_number 2 0, [second_piece])].
Definition sent_again : list (DTLSRecordNumber * list piece) := [(2, [head_piece]); (make_record_number 2 1, [second_piece])].

Lemma demo_pieces_ok : Forall (fun x => Forall (piece_ok flight_messages) (snd x)) (first_sent ++ sent_again).
Proof.
  repeat (apply Forall_cons; [apply Forall_cons; [unfold piece_ok; vm_compute; intuition congruence|apply Forall_nil]|]). apply Forall_nil.
Qed.

Lemma flight_received_witness :
  let c1 := run flight_messages no_rand (flight_conn (blocking_bio 9)) (flight_events ++ [tail_acked]) in
  exists c2 taken acc d'', send_flight no_rand c1 = (1, c2) /\
    receive flight_messages (peer_readings ++ repeat TakeMessage 2) [] fresh_d1 = ([], taken, acc, d'') /\
    taken = [sent_message flight_messages 0; sent_message flight_messages 1].
Proof.
  set (es := flight_events ++ [tail_acked]). set (c := flight_conn (blocking_bio 9)).
  intros c1. destruct (send_flight no_rand c1) as [ret c2] eqn:Es.
  destruct (receive flight_messages peer_readings [] fresh_d1) as [[[alerts taken] acc] d'] eqn:Er.
  assert (ret = 1) as -> by (vm_compute in Es; congruence).
  assert (Hal : alerts = [] /\ taken = [] /\ acc = [tail_piece; second_piece; head_piece]) by (vm_compute in Er; injection Er as <- <- <- <-; auto).
  destruct Hal as (-> & -> & ->).
  assert (F : Forall (reading_ok flight_messages) peer_readings).
  { assert (C : context_ok flight_messages peer_context).
    { split; [reflexivity|]. intros q. unfold body_of, flight_messages. destruct (q =? 0); vm_compute; discriminate. }
    pose proof demo_pieces_ok as P. rewrite Forall_forall in P.
    assert (P1 : forall x, In x (first_sent ++ sent_again) -> Forall (piece_ok flight_messages) (snd x)) by exact P.
    unfold peer_readings. repeat (apply Forall_cons; [first [exact I|split; [exact C|]]|]); [| | |apply Forall_nil].
    - apply (P1 (1, [tail_piece])). cbn. auto.
    - apply (P1 (make_record_number 2 0, [second_piece])). cbn. auto.
    - apply (P1 (0, [head_piece])). cbn. auto. }
  assert (M : forall q, zlength (@nil (Z * list Z * list Z)) <= q < zlength (@nil (Z * list Z * list Z)) + Z.of_nat 2 ->
    exists m, In m (outgoing_messages (c_flight c1)) /\ om_is_ccs m = false /\ seq_of m = q).
  { intros q Hq. change (zlength _) with 0 in Hq. destruct (nth_error (outgoing_messages (c_flight c1)) (Z.to_nat q)) as [m|] eqn:Hm.
    - exists m. split; [exact (nth_error_In _ _ Hm)|]. assert (Q : q = 0 \/ q = 1) by lia.
      destruct Q as [-> | ->]; vm_compute in Hm; injection Hm as <-; split; vm_compute; reflexivity.
    - assert (Q : q = 0 \/ q = 1) by lia. destruct Q as [-> | ->]; vm_compute in Hm; discriminate. }
  assert (Hp : forall new, sealed (c_flight c2) = sealed (c_flight c1) ++ new ->
     forall n ps p, handshake_record flight_messages new n ps \/
                    handshake_record flight_messages (sealed (c_flight c1)) n ps /\ In n (acks_of es) ->
       In p ps -> In p [tail_piece; second_piece; head_piece] \/ pc_seq p < zlength (@nil (Z * list Z * list Z))).
  { intros new En n ps p H Hin. left. pose proof demo_pieces_ok as P. apply Forall_app in P as [P1 P2].
    assert (Hk : In (n, ps) sent_again \/ In (n, ps) first_sent).
    { destruct H as [H|[H _]].
      - left. apply (known_pieces new sent_again n ps); [|exact P2|exact H].
        assert (new = skipn (length (sealed (c_flight c1))) (sealed (c_flight c2))) as -> by (rewrite En, skipn_app, skipn_all, Nat.sub_diag; reflexivity).
        assert (c2 = snd (send_flight no_rand c1)) as -> by now rewrite Es. vm_compute. reflexivity.
      - right. apply (known_pieces (sealed (c_flight c1)) first_sent n ps); [|exact P1|exact H]. vm_compute. reflexivity. }
    assert (Hx : In ps [[head_piece]; [tail_piece]; [second_piece]]) by (cbn in Hk |- *; intuition congruence).
    destruct Hx as [<-|[<-|[<-|[]]]]; destruct Hin as [<-|[]]; cbn; auto. }
  destruct (flight_received flight_messages flight_lengths no_rand es c c2 peer_readings fresh_d1 [] [] [tail_piece; second_piece; head_piece] d' 2)
    as [_ (d'' & R)]; auto; try reflexivity; [apply flight_conn_fresh|repeat split|].
  exists c2. do 3 eexists. split; [reflexivity|]. split; [exact R|reflexivity].
Defined.

(** ** A flight that cannot be completed *)

(** The flight is sent again, and the transport blocks after its first packet;
    then the acknowledgement of the end of the first message arrives. *)
Definition retry_events : list event := flight_events ++ [Timeout (at_second 2); tail_acked].

Definition unblocked (t : TRANSPORT) : TRANSPORT :=
  {| mtu := mtu t; no_query_mtu := no_query_mtu t; write_closed := write_closed t; wbio := Some (blocking_bio 9);
     pending_flush := pending_flush t; wire := wire t |}.

(** When the peer acknowledges the rest of a message while sending is held up in
    the middle of it, and the next message is of another epoch (or the epoch is
    0), the next attempt to flush is refused as if the MTU were too small, with
    nothing written: [seal_next_record] meets a message it has nothing to send
    of and ends the packet.  From the start of the flight, sending succeeds. *)
Theorem retry_after_ack_refused :
  let c := on_transport unblocked (run flight_messages no_rand (flight_conn (blocking_bio 3)) retry_events) in
  let r := dtls1_flush no_rand (at_second 2) c in
  fst r = 0 /\ wire (c_transport (snd r)) = wire (c_transport c) /\
  forallb (fun m => negb (IsFullyAcked m)) (outgoing_messages (c_flight c)) = true /\
  fst (send_flight no_rand (on_flight (with_cursor 0 0) c)) = 1.
Proof. vm_compute. repeat split. Qed.
