(* ===== verification/CMemory.v ===== *)
(** * The caller's memory

    The C interface of the proxy exchanges bytes through pointers of its
    caller.  Memory is a total map from addresses to bytes, an address is a
    [Z], and the null pointer is 0.  Regions are given by their first address
    and their size; a [size_t] occupies eight bytes, least significant first. *)
From S2P Require Import Prelude.
From Stdlib Require Import ZArith List Lia Bool Morphisms.
Import ListNotations.
Open Scope Z_scope.

Definition memory : Type := Z -> Z.

Definition in_region (p n a : Z) : Prop := p <= a < p + n.
Definition in_regionb (p n a : Z) : bool := (p <=? a) && (a <? p + n).

(** Two regions without a common address; an empty region meets none. *)
Definition disjoint (p n q k : Z) : Prop := n <= 0 \/ k <= 0 \/ p + n <= q \/ q + k <= p.

Definition load_bytes (m : memory) (p n : Z) : list Z :=
  map (fun i => m (p + Z.of_nat i)) (seq 0 (Z.to_nat n)).

Definition store_bytes (m : memory) (p : Z) (l : list Z) : memory :=
  fun a => if in_regionb p (zlength l) a then nth (Z.to_nat (a - p)) l 0 else m a.

(** Little-endian integers, as the supported targets store them. *)
Definition le_split (n : nat) (v : Z) : list Z := rev (be_split n v).
Definition le_combine (l : list Z) : Z := be_combine (rev l).

Definition load_le (m : memory) (p : Z) (n : nat) : Z := le_combine (load_bytes m p (Z.of_nat n)).
Definition store_le (m : memory) (p : Z) (n : nat) (v : Z) : memory := store_bytes m p (le_split n v).

Definition load_u32 (m : memory) (p : Z) : Z := load_le m p 4.
Definition store_u32 (m : memory) (p v : Z) : memory := store_le m p 4 v.
Definition load_u64 (m : memory) (p : Z) : Z := load_le m p 8.
Definition store_u64 (m : memory) (p v : Z) : memory := store_le m p 8 v.

(** Memories that agree everywhere. *)
Definition mem_eq (m m' : memory) : Prop := forall a, m' a = m a.

#[export] Instance mem_eq_equivalence : Equivalence mem_eq.
Proof.
  split; red; unfold mem_eq; [easy|now intros m m' H a|].
  intros m1 m2 m3 H1 H2 a. now rewrite H2.
Qed.

(** [m'] differs from [m] inside the given regions only. *)
Definition only_changed (rs : list (Z * Z)) (m m' : memory) : Prop :=
  forall a, Forall (fun r => ~ in_region (fst r) (snd r) a) rs -> m' a = m a.

Lemma in_regionb_spec p n a : reflect (in_region p n a) (in_regionb p n a).
Proof.
  apply iff_reflect. unfold in_regionb, in_region.
  now rewrite andb_true_iff, Z.leb_le, Z.ltb_lt.
Qed.

Lemma zlength_le_split n v : zlength (le_split n v) = Z.of_nat n.
Proof. unfold le_split, zlength. rewrite length_rev, length_be_split. reflexivity. Qed.

Lemma zlength_load_bytes m p n : 0 <= n -> zlength (load_bytes m p n) = n.
Proof. intros. unfold load_bytes, zlength. rewrite length_map, length_seq. lia. Qed.

Lemma store_inside m p l a :
  in_region p (zlength l) a -> store_bytes m p l a = nth (Z.to_nat (a - p)) l 0.
Proof. unfold store_bytes. now destruct (in_regionb_spec p (zlength l) a). Qed.

Lemma store_outside m p l a : ~ in_region p (zlength l) a -> store_bytes m p l a = m a.
Proof. unfold store_bytes. now destruct (in_regionb_spec p (zlength l) a). Qed.

Lemma store_nil m p a : store_bytes m p [] a = m a.
Proof. apply store_outside. unfold in_region. rewrite zlength_nil. lia. Qed.

Lemma load_ext m m' p n :
  (forall a, in_region p n a -> m' a = m a) -> load_bytes m' p n = load_bytes m p n.
Proof.
  intros H. unfold load_bytes. apply map_ext_in. intros i Hi. apply in_seq in Hi.
  apply H. unfold in_region. lia.
Qed.

#[export] Instance load_bytes_proper : Proper (mem_eq ==> eq ==> eq ==> eq) load_bytes.
Proof. intros m m' H p ? <- n ? <-. symmetry. apply load_ext. intros. apply H. Qed.

Lemma load_store_same m p l : load_bytes (store_bytes m p l) p (zlength l) = l.
Proof.
  unfold load_bytes. replace (Z.to_nat (zlength l)) with (length l) by (unfold zlength; lia).
  apply nth_ext with (d := 0) (d' := 0); [now rewrite length_map, length_seq|].
  rewrite length_map, length_seq. intros i Hi.
  erewrite nth_indep by (rewrite length_map, length_seq; lia).
  rewrite (map_nth (fun i => store_bytes m p l (p + Z.of_nat i)) _ 0%nat).
  rewrite seq_nth by lia. rewrite store_inside by (unfold in_region, zlength; lia).
  f_equal. lia.
Qed.

Lemma load_store_disjoint m p l q n :
  disjoint p (zlength l) q n -> load_bytes (store_bytes m p l) q n = load_bytes m q n.
Proof.
  intros D. apply load_ext. intros a Ha. apply store_outside.
  unfold in_region, disjoint in *. lia.
Qed.

Lemma load_le_store_le m p n v :
  0 <= v < 256 ^ Z.of_nat n -> load_le (store_le m p n v) p n = v.
Proof.
  intros Hv. unfold load_le, store_le. rewrite <- (zlength_le_split n v), load_store_same.
  unfold le_combine, le_split. rewrite rev_involutive, be_combine_split. now apply Z.mod_small.
Qed.

Lemma load_u64_store m p v : 0 <= v < 2 ^ 64 -> load_u64 (store_u64 m p v) p = v.
Proof. intros. apply load_le_store_le. exact H. Qed.

Lemma load_u32_store m p v : 0 <= v < 2 ^ 32 -> load_u32 (store_u32 m p v) p = v.
Proof. intros. apply load_le_store_le. exact H. Qed.

Lemma load_u64_disjoint m p l q :
  disjoint p (zlength l) q 8 -> load_u64 (store_bytes m p l) q = load_u64 m q.
Proof. intros. unfold load_u64, load_le. now rewrite load_store_disjoint. Qed.

Lemma load_bytes_store_u64 m p v q n :
  disjoint p 8 q n -> load_bytes (store_u64 m p v) q n = load_bytes m q n.
Proof. intros. apply load_store_disjoint. now rewrite zlength_le_split. Qed.

(** Writing the same [size_t] again hides the earlier write. *)
Lemma store_u64_twice m p v v' a : store_u64 (store_u64 m p v) p v' a = store_u64 m p v' a.
Proof.
  unfold store_u64, store_le, store_bytes. rewrite !zlength_le_split.
  now destruct (in_regionb p (Z.of_nat 8) a).
Qed.

Lemma only_changed_refl rs m : only_changed rs m m.
Proof. now intros a _. Qed.

Lemma only_changed_trans rs m1 m2 m3 :
  only_changed rs m1 m2 -> only_changed rs m2 m3 -> only_changed rs m1 m3.
Proof. intros H1 H2 a Ha. now rewrite H2, H1. Qed.

Lemma only_changed_store rs m p l :
  In (p, zlength l) rs -> only_changed rs m (store_bytes m p l).
Proof.
  intros Hin a Ha. apply store_outside.
  rewrite Forall_forall in Ha. exact (Ha _ Hin).
Qed.

Lemma only_changed_store_u64 rs m p v : In (p, 8) rs -> only_changed rs m (store_u64 m p v).
Proof. intros. apply only_changed_store. now rewrite zlength_le_split. Qed.

Lemma only_changed_incl rs rs' m m' :
  incl rs rs' -> only_changed rs m m' -> only_changed rs' m m'.
Proof.
  intros Hi H a Ha. apply H. rewrite Forall_forall in *. intros r Hr. apply Ha, Hi, Hr.
Qed.

Create HintDb cmem.
#[export] Hint Resolve only_changed_refl : cmem.
