(* ===== verification/CApi.v ===== *)
(** * The host contract: [crates/ffi/include/clyntis.h]

    The header declares the C functions through which a host application
    drives the proxy and documents, in comments, what each promises.  This
    file turns the declarations and those promises into definitions: the
    status codes, the hooks structure and its layout, what a host can observe
    ([view]), and one contract per function, a relation between the arguments,
    the observations before the call, the returned status and the observations
    after it.  The files that follow model the implementation
    ([crates/ffi/src]) and show that it meets the contracts.

    What the header says only in words about other parts of the program (the
    legacy encryption, the YAML and rule syntax, the routing files, the core
    behind a handle) is the class [ApiSemantics]: the contracts are stated
    against it and the implementation instantiates it. *)
From S2P Require Import Prelude CMemory.
From Stdlib Require Import String Ascii ZArith List Lia Bool.
Import ListNotations.
Open Scope Z_scope.

(** Texts and packets are byte strings. *)
Definition text : Type := list Z.

(** A string literal, as its bytes. *)
Definition lit (s : string) : text :=
  map (fun c => Z.of_nat (nat_of_ascii c)) (list_ascii_of_string s).

Definition text_eqb (a b : text) : bool := if list_eq_dec Z.eq_dec a b then true else false.

Lemma text_eqb_eq a b : text_eqb a b = true -> a = b.
Proof. unfold text_eqb. now destruct (list_eq_dec Z.eq_dec a b). Qed.

Definition thread : Type := Z.

(** ** Status codes, handles and hooks *)

Inductive meta_status : Type := META_OK | META_ERROR | META_WOULD_BLOCK | META_BUFFER_TOO_SMALL.

Definition status_code (s : meta_status) : Z :=
  match s with
  | META_OK => 0
  | META_ERROR => 1
  | META_WOULD_BLOCK => 2
  | META_BUFFER_TOO_SMALL => 3
  end.

Definition meta_status_eqb (a b : meta_status) : bool := status_code a =? status_code b.

Definition meta_handle : Type := Z.

(** Function pointers and the context are addresses; 0 is null. *)
Record meta_hooks_v1 : Type := {
  size : Z;
  version : Z;
  context : Z;
  protect_socket : Z;
  packet_ready : Z }.

(** The structure as a 64-bit C compiler lays it out. *)
Definition sizeof_meta_hooks_v1 : Z := 32.

Definition load_meta_hooks_v1 (m : memory) (p : Z) : meta_hooks_v1 :=
  {| size := load_u32 m p;
     version := load_u32 m (p + 4);
     context := load_u64 m (p + 8);
     protect_socket := load_u64 m (p + 16);
     packet_ready := load_u64 m (p + 24) |}.

Definition store_meta_hooks_v1 (m : memory) (p : Z) (h : meta_hooks_v1) : memory :=
  store_bytes m p (le_split 4 (size h) ++ le_split 4 (version h) ++ le_split 8 (context h) ++
                   le_split 8 (protect_socket h) ++ le_split 8 (packet_ready h)).

(** "Set size=sizeof(meta_hooks_v1), version=1 ... unsupported sizes are
    rejected.  Hooks are optional except Android requires protect_socket." *)
Definition hooks_supported (android : bool) (hooks : option meta_hooks_v1) : bool :=
  match hooks with
  | None => negb android
  | Some h => (size h =? sizeof_meta_hooks_v1) && (version h =? 1) &&
              (negb android || negb (protect_socket h =? 0))
  end.

(** "Return zero on successful protection": a host without the hook protects
    nothing and rejects nothing. *)
Definition socket_protected (hook returned : Z) : bool := (hook =? 0) || (returned =? 0).

(** "packet_ready ... is not sent again until a read has returned
    META_WOULD_BLOCK": after the first, every notification is preceded by such
    a read of its own. *)
Definition packet_ready_promise (notifications would_blocks : Z) : bool := notifications <=? would_blocks + 1.

(** ** What the contracts are about

    [Env] is everything outside the process (files, network, clock) and [Core]
    the state behind a handle.  Answers given as JSON are their bytes. *)

Inductive resource_state : Type := Current | Expired | Missing.

(** The settings of a core that the host contract names. *)
Record host_settings : Type := {
  hs_packet_io : bool;               (* tun.enable *)
  hs_mtu : Z;
  hs_dns_interception : list text;
  hs_listeners : list Z;             (* ports of the HTTP, SOCKS and mixed listeners *)
  hs_dns_listener : bool;
  hs_controller : option text;
  hs_native_routes : bool;
  hs_native_dns : bool;
  hs_native_interface : bool;
  hs_directory : text }.

Class ApiSemantics : Type := {
  Env : Type;
  Core : Type;
  Policy : Type;                     (* credentials and routing policy *)
  utf8 : text -> bool;
  (* configuration files *)
  legacy_decrypt : text -> text -> option text;       (* ciphertext, password *)
  legacy_encrypt : text -> text -> option text;       (* plaintext, password *)
  yaml_valid : text -> bool;
  yaml_policy : text -> option Policy;
  rule_valid : text -> bool;
  rule_targets : text -> option text;
  rules_applied : text -> text -> option text;        (* configuration, rules *)
  overrides_applied : text -> text -> option text;    (* configuration, overrides *)
  yaml_first_error : text -> option text;
  cos_target : text -> option text;
  put_object : Env -> text -> text -> bool * Env;     (* request, data *)
  prefetch : Env -> text -> text -> bool * Env;       (* configuration, directory *)
  resources : Env -> text -> text -> option resource_state;
  directory_usable : Env -> text -> bool;             (* absolute and existing *)
  (* the core behind a handle *)
  settings : Core -> host_settings;
  policy : Core -> Policy;
  packet_queue : Core -> bool;                        (* packets go through the calls *)
  packet_room : Core -> bool;                         (* the core's queue has room for a packet *)
  packets_taken : Core -> bool;                       (* the core still takes packets *)
  packets_ended : Core -> bool;                       (* the core will send no more packets *)
  started : Core -> bool;
  stopped : Core -> bool;
  tunnel : Core -> bool;                              (* tun.enable *)
  snapshot_json : Core -> option text;
  connection_count : Core -> Z;
  upload : Core -> Z;
  download : Core -> Z;
  status_json : bool -> Z -> Z -> Z -> option text;
  select_node : Core -> text -> text -> bool * Core;  (* group, node *)
  close_one : Core -> text -> Core;
  close_all : Core -> Core;
  report_network : Core -> text -> bool * Core;
  note_network_change : Core -> Core;
  Json : Type;
  json_object : text -> option (list (text * Json));
  set_exceptions : Core -> Json -> bool * Core;       (* adblock-allow *)
  set_policy : Core -> option Json -> option Json -> bool * Core;   (* mode, rules *)
  probe_shown : Core -> text -> option (Z + text);    (* a delay or an error, by name *)
  dns_audit_json : Core -> option text }.

Section Observations.
Context {sem : ApiSemantics}.

(** ** What a host observes *)

Record view : Type := {
  v_mem : memory;                          (* the memory of the host *)
  v_error : thread -> text;                (* what meta_error_v1 reports on a thread *)
  v_cores : list (meta_handle * Core);     (* the handles calls accept *)
  v_readable : meta_handle -> list text;   (* packets waiting to be read *)
  v_written : meta_handle -> list text;    (* packets handed to the core *)
  v_logs : list text;                      (* buffered log lines, oldest first *)
  v_env : Env }.

Definition v_live (v : view) : list meta_handle := map fst (v_cores v).

Fixpoint assoc {A} (h : Z) (l : list (Z * A)) : option A :=
  match l with
  | [] => None
  | (k, x) :: l' => if k =? h then Some x else assoc h l'
  end.

Definition v_core (v : view) (h : meta_handle) : option Core := assoc h (v_cores v).

Definition contract : Type := thread -> view -> meta_status -> view -> Prop.

Definition set_at {A} (k : Z) (x : A) (f : Z -> A) : Z -> A :=
  fun i => if i =? k then x else f i.

(** A pointer that may be null, with the region it gives access to. *)
Definition target (p n : Z) : list (Z * Z) := if p =? 0 then [] else [(p, n)].

(** Errors are thread-local: only on META_ERROR, and only for the calling
    thread, may the text change.  That it is then the text of this call is not a
    relation of one run; [error_recorded] of [ApiContract] says it. *)
Definition error_frame (t : thread) (v : view) (s : meta_status) (v' : view) : Prop :=
  match s with
  | META_ERROR => exists e, forall t', v_error v' t' = set_at t e (v_error v) t'
  | _ => forall t', v_error v' t' = v_error v t'
  end.

(** "On META_BUFFER_TOO_SMALL, length reports required capacity and no bytes
    are written ... Null output with zero capacity is a size query. Output
    buffers and length fields must not overlap." *)
Definition caller_buffer (payload : text) (buffer capacity length : Z)
    (m : memory) (s : meta_status) (m' : memory) : Prop :=
  length <> 0 /\
  (zlength payload <= SIZE_MAX -> disjoint buffer capacity length 8 ->
   load_u64 m' length = zlength payload) /\
  match s with
  | META_OK => zlength payload <= capacity /\ (payload <> [] -> buffer <> 0) /\
      load_bytes m' buffer (zlength payload) = payload /\
      only_changed [(length, 8); (buffer, zlength payload)] m m'
  | META_BUFFER_TOO_SMALL => capacity < zlength payload /\ only_changed [(length, 8)] m m'
  | _ => False
  end.

(** The arguments with which an answer can be delivered or its size queried. *)
Definition can_answer (buffer capacity length : Z) : Prop :=
  length <> 0 /\ (buffer <> 0 \/ capacity = 0).

(** A call that reads nothing but its arguments and answers with a text, or
    fails when there is none. *)
Definition text_query (answer : option text) (buffer capacity length : Z) : contract :=
  fun t v s v' =>
    error_frame t v s v' /\ v_cores v' = v_cores v /\
    match s with
    | META_OK | META_BUFFER_TOO_SMALL =>
        exists p, answer = Some p /\ caller_buffer p buffer capacity length (v_mem v) s (v_mem v')
    | META_ERROR => only_changed (target length 8) (v_mem v) (v_mem v') /\
        (can_answer buffer capacity length -> answer = None)
    | META_WOULD_BLOCK => False
    end.

(** A call without an output: it succeeds exactly when [accepted]. *)
Definition plain_call (accepted : bool) : contract :=
  fun t v s v' =>
    error_frame t v s v' /\ mem_eq (v_mem v) (v_mem v') /\
    s = if accepted then META_OK else META_ERROR.

(** An input argument: [None] when the implementation cannot take it. *)
Definition argument (limit : Z) (m : memory) (p n : Z) : option text :=
  if (n <=? limit) && ((n =? 0) || negb (p =? 0)) then Some (load_bytes m p n) else None.

Definition MiB : Z := 1024 * 1024.
Definition input_limit : Z := 16 * MiB.

(** An argument that must be UTF-8. *)
Definition utf8_argument (m : memory) (p n : Z) : option text :=
  let? a := argument input_limit m p n in if utf8 a then Some a else None.

(** ** Configuration files *)

(** ASCII whitespace, which the encrypted text may contain anywhere. *)
Definition ascii_whitespace (b : Z) : bool :=
  (b =? 32) || (b =? 9) || (b =? 10) || (b =? 12) || (b =? 13).

Definition decrypted_yaml (ciphertext password : text) : option text :=
  let? y := legacy_decrypt (filter (fun b => negb (ascii_whitespace b)) ciphertext) password in
  if (0 <? zlength y) && (zlength y <=? 16 * MiB) && yaml_valid y then Some y else None.

Definition meta_decrypt_config_v1_contract (config length password password_length
    buffer capacity output_length : Z) : contract :=
  fun t v s v' =>
    text_query (let? c := argument (24 * MiB) (v_mem v) config length in
                let? p := utf8_argument (v_mem v) password password_length in
                decrypted_yaml c p) buffer capacity output_length t v s v' /\
    (s = META_ERROR -> output_length <> 0 -> load_u64 (v_mem v') output_length = 0).

Definition encrypted_yaml (yaml password : text) : option text :=
  if negb (zlength password =? 0) && yaml_valid yaml then legacy_encrypt yaml password else None.

Definition meta_encrypt_config_v1_contract (config length password password_length
    buffer capacity output_length : Z) : contract :=
  fun t v s v' =>
    text_query (let? c := argument (16 * MiB) (v_mem v) config length in
                let? p := utf8_argument (v_mem v) password password_length in
                encrypted_yaml c p) buffer capacity output_length t v s v'.

(** ** Custom rules, overrides, editor and upload support *)

Definition meta_custom_rule_validate_v1_contract (rule length : Z) : contract :=
  fun t v s v' =>
    plain_call match utf8_argument (v_mem v) rule length with
               | Some r => rule_valid r
               | None => false
               end t v s v' /\ v_cores v' = v_cores v.

Definition meta_custom_rule_targets_v1_contract (config length buffer capacity output_length : Z) : contract :=
  fun t v => text_query (let? c := utf8_argument (v_mem v) config length in rule_targets c)
               buffer capacity output_length t v.

Definition meta_custom_rules_apply_v1_contract (config length rules rules_length
    buffer capacity output_length : Z) : contract :=
  fun t v => text_query (let? c := utf8_argument (v_mem v) config length in
                         let? r := argument input_limit (v_mem v) rules rules_length in
                         rules_applied c r) buffer capacity output_length t v.

Definition meta_overrides_apply_v1_contract (config length overrides overrides_length
    buffer capacity output_length : Z) : contract :=
  fun t v => text_query (let? c := utf8_argument (v_mem v) config length in
                         let? o := argument input_limit (v_mem v) overrides overrides_length in
                         overrides_applied c o) buffer capacity output_length t v.

Definition meta_yaml_check_v1_contract (config length buffer capacity output_length : Z) : contract :=
  fun t v => text_query (let? c := utf8_argument (v_mem v) config length in yaml_first_error c)
               buffer capacity output_length t v.

Definition meta_cos_target_v1_contract (url length buffer capacity output_length : Z) : contract :=
  fun t v => text_query (let? u := utf8_argument (v_mem v) url length in cos_target u)
               buffer capacity output_length t v.

Definition meta_cos_put_v1_contract (request request_length data length : Z) : contract :=
  fun t v s v' =>
    match argument input_limit (v_mem v) request request_length,
          argument input_limit (v_mem v) data length with
    | Some r, Some d => plain_call (fst (put_object (v_env v) r d)) t v s v' /\
                        v_env v' = snd (put_object (v_env v) r d)
    | _, _ => plain_call false t v s v' /\ v_env v' = v_env v
    end /\ v_cores v' = v_cores v.

(** ** Logs *)

Definition log_capacity : Z := 2000.

(** "newline-separated": every line is followed by a newline. *)
Definition log_text (lines : list text) : text := concat (map (fun l => l ++ [10]) lines).

Definition meta_drain_logs_v1_contract (buffer capacity output_length : Z) : contract :=
  fun t v s v' =>
    text_query (Some (log_text (v_logs v))) buffer capacity output_length t v s v' /\
    v_logs v' = (if meta_status_eqb s META_OK then [] else v_logs v).

(** ** Routing resources *)

Definition meta_prefetch_resources_v1_contract (config length directory directory_length : Z) : contract :=
  fun t v s v' =>
    match argument input_limit (v_mem v) config length,
          utf8_argument (v_mem v) directory directory_length with
    | Some c, Some d =>
        if yaml_valid c && directory_usable (v_env v) d
        then plain_call (fst (prefetch (v_env v) c d)) t v s v' /\
             v_env v' = snd (prefetch (v_env v) c d)
        else plain_call false t v s v' /\ v_env v' = v_env v
    | _, _ => plain_call false t v s v' /\ v_env v' = v_env v
    end /\ v_cores v' = v_cores v.

(** "*state is 0 current, 1 expired (usable; refresh later), 2 missing". *)
Definition meta_resources_state_v1_contract (config length directory directory_length state : Z) : contract :=
  fun t v s v' =>
    error_frame t v s v' /\ v_cores v' = v_cores v /\
    match (let? c := argument input_limit (v_mem v) config length in
           let? d := utf8_argument (v_mem v) directory directory_length in
           if yaml_valid c && negb (state =? 0) then resources (v_env v) c d else None) with
    | Some r => s = META_OK /\ load_u32 (v_mem v') state = match r with Current => 0 | Expired => 1 | Missing => 2 end /\
                only_changed [(state, 4)] (v_mem v) (v_mem v')
    | None => s = META_ERROR /\ mem_eq (v_mem v) (v_mem v')
    end.

(** ** Creating handles *)

Definition hooks_argument (m : memory) (p : Z) : option meta_hooks_v1 :=
  if p =? 0 then None else Some (load_meta_hooks_v1 m p).

(** A new handle for a core with the policy of [config]; [ok] states what is
    promised of its settings. *)
Definition create_call (android : bool) (config length hooks out : Z) (ok : Core -> Prop) : contract :=
  fun t v s v' =>
    error_frame t v s v' /\ only_changed (target out 8) (v_mem v) (v_mem v') /\
    match s with
    | META_OK => exists c y h,
        argument input_limit (v_mem v) config length = Some y /\
        yaml_policy y = Some (policy c) /\ yaml_valid y = true /\
        hooks_supported android (hooks_argument (v_mem v) hooks) = true /\
        load_u64 (v_mem v') out = h /\ h <> 0 /\ ~ In h (v_live v) /\
        v_core v' h = Some c /\ (forall h', h' <> h -> v_core v' h' = v_core v h') /\
        stopped c = false /\ ok c
    | META_ERROR => v_cores v' = v_cores v /\ (out <> 0 -> load_u64 (v_mem v') out = 0)
    | _ => False
    end.

Definition meta_create_v1_contract (android : bool) (config length hooks out : Z) : contract :=
  create_call android config length hooks out (fun _ => True).

(** "enables packet I/O, forces MTU=1280 and DNS interception, and disables
    local HTTP/SOCKS/DNS/controller listeners and native route/DNS/interface
    changes." *)
Definition packet_tunnel_settings (directory : text) (s : host_settings) : Prop :=
  hs_packet_io s = true /\ hs_mtu s = 1280 /\ hs_dns_interception s <> [] /\
  Forall (fun p => p = 0) (hs_listeners s) /\ hs_dns_listener s = false /\
  hs_controller s = None /\ hs_native_routes s = false /\ hs_native_dns s = false /\
  hs_native_interface s = false /\ hs_directory s = directory.

Definition meta_create_packet_tunnel_v1_contract (android : bool) (config length directory directory_length
    hooks out : Z) : contract :=
  fun t v s v' =>
    create_call android config length hooks out
      (fun c => exists d, utf8_argument (v_mem v) directory directory_length = Some d /\
                directory_usable (v_env v) d = true /\ packet_tunnel_settings d (settings c)) t v s v'.

(** ** Lifecycle

    "start is allowed once. stop/destroy join the worker ... Full
    configuration changes use a newly created handle after stopping the
    previous one ... destroyed handles never become valid again."  The host
    sees each handle in one of these phases; a handle without one is unknown
    or destroyed. *)
Inductive phase : Type := Created | Started | Stopped.

Inductive lifecycle_event : Type :=
  | EvCreate (h : meta_handle)
  | EvStart (h : meta_handle)
  | EvStop (h : meta_handle)       (* stop, or a start that failed *)
  | EvDestroy (h : meta_handle).

Record lifecycle : Type := {
  phase_of : meta_handle -> option phase;
  used : meta_handle -> bool }.

Definition lifecycle_init : lifecycle := {| phase_of := fun _ => None; used := fun _ => false |}.

(** [None]: the contract does not allow the event. *)
Definition lifecycle_step (l : lifecycle) (e : lifecycle_event) : option lifecycle :=
  match e with
  | EvCreate h =>
      if used l h then None
      else Some {| phase_of := set_at h (Some Created) (phase_of l); used := set_at h true (used l) |}
  | EvStart h =>
      match phase_of l h with
      | Some Created => Some {| phase_of := set_at h (Some Started) (phase_of l); used := used l |}
      | _ => None
      end
  | EvStop h =>
      match phase_of l h with
      | Some _ => Some {| phase_of := set_at h (Some Stopped) (phase_of l); used := used l |}
      | None => None
      end
  | EvDestroy h =>
      match phase_of l h with
      | Some Stopped => Some {| phase_of := set_at h None (phase_of l); used := used l |}
      | _ => None
      end
  end.

Fixpoint lifecycle_run (l : lifecycle) (es : list lifecycle_event) : option lifecycle :=
  match es with
  | [] => Some l
  | e :: es' => let? l' := lifecycle_step l e in lifecycle_run l' es'
  end.

(** ** Calls on a handle *)

(** A call that changes at most the core of its handle. *)
Definition core_call (handle : meta_handle) (run : Core -> bool * Core) : contract :=
  fun t v s v' =>
    error_frame t v s v' /\ mem_eq (v_mem v) (v_mem v') /\
    match v_core v handle with
    | Some c => s = (if fst (run c) then META_OK else META_ERROR) /\
                v_core v' handle = Some (snd (run c)) /\
                (forall h, h <> handle -> v_core v' h = v_core v h)
    | None => s = META_ERROR /\ v_cores v' = v_cores v
    end.

Definition meta_close_connections_v1_contract (handle : meta_handle) : contract :=
  core_call handle (fun c => (true, close_all c)).

Definition meta_set_network_v1_contract (handle : meta_handle) (network length : Z) : contract :=
  fun t v => core_call handle (fun c => match argument input_limit (v_mem v) network length with
                                        | Some n => report_network c n
                                        | None => (false, c)
                                        end) t v.

(** "Returns at once ... Fails only for an unknown or stopped core." *)
Definition meta_network_changed_v1_contract (handle : meta_handle) : contract :=
  core_call handle (fun c => if stopped c then (false, c) else (true, note_network_change c)).

(** Android: "Before start, duplicates a configured TUN fd ... Once set,
    meta_read/write_packet_v1 return META_ERROR".  A failed call may stop the
    core (the worker does not answer) but not close the packet queue. *)
Definition meta_set_tun_fd_v1_contract (handle : meta_handle) (fd : Z) : contract :=
  fun t v s v' =>
    error_frame t v s v' /\ mem_eq (v_mem v) (v_mem v') /\ v_live v' = v_live v /\
    (forall h, h <> handle -> v_core v' h = v_core v h) /\
    match s, v_core v handle, v_core v' handle with
    | META_OK, Some c, Some c' =>
        0 <= fd /\ tunnel c = true /\ started c = false /\ stopped c = false /\
        packet_queue c' = false /\ started c' = false /\ stopped c' = false /\
        settings c' = settings c /\ policy c' = policy c
    | META_ERROR, Some c, Some c' => packet_queue c' = packet_queue c /\ started c' = started c /\
        settings c' = settings c /\ policy c' = policy c
    | META_ERROR, None, None => True
    | _, _, _ => False
    end.

Definition meta_error_v1_contract (buffer capacity length : Z) : contract :=
  fun t v => text_query (Some (v_error v t)) buffer capacity length t v.

Definition meta_snapshot_v1_contract (handle : meta_handle) (buffer capacity length : Z) : contract :=
  fun t v => text_query (let? c := v_core v handle in snapshot_json c) buffer capacity length t v.

Definition meta_status_v1_contract (handle : meta_handle) (buffer capacity length : Z) : contract :=
  fun t v =>
    text_query (let? c := v_core v handle in
                status_json (stopped c) (connection_count c) (upload c) (download c)) buffer capacity length t v.

(** Mode, rules and advertisement exceptions can be changed online, and nothing
    else; the exceptions come first, then mode and rules together, and a part
    that fails does not undo an earlier one. *)
Definition online_keys : list text := [lit "mode"; lit "rules"; lit "adblock-allow"].

Definition member {A} (k : text) (o : list (text * A)) : option A :=
  option_map snd (find (fun m => text_eqb (fst m) k) o).

Definition online_update (c : Core) (json : text) : bool * Core :=
  match json_object json with
  | Some o =>
      if forallb (fun m => existsb (text_eqb (fst m)) online_keys) o then
        let '(ok, c1) := match member (lit "adblock-allow") o with
                         | Some allow => set_exceptions c allow
                         | None => (true, c)
                         end in
        if ok then
          match member (lit "mode") o, member (lit "rules") o with
          | None, None => (true, c1)
          | mode, rules => set_policy c1 mode rules
          end
        else (false, c1)
      else (false, c)
  | None => (false, c)
  end.

Definition meta_update_v1_contract (handle : meta_handle) (json length : Z) : contract :=
  fun t v => core_call handle (fun c => match argument input_limit (v_mem v) json length with
                                        | Some j => online_update c j
                                        | None => (false, c)
                                        end) t v.

Definition meta_select_v1_contract (handle : meta_handle) (group group_length node node_length : Z) : contract :=
  fun t v => core_call handle (fun c => match utf8_argument (v_mem v) group group_length,
                                              utf8_argument (v_mem v) node node_length with
                                        | Some g, Some n => select_node c g n
                                        | _, _ => (false, c)
                                        end) t v.

Definition meta_close_connection_v1_contract (handle : meta_handle) (id id_length : Z) : contract :=
  fun t v => core_call handle (fun c => match utf8_argument (v_mem v) id id_length with
                                        | Some i => (true, close_one c i)
                                        | None => (false, c)
                                        end) t v.

(** Calls whose answer the core computes while the caller waits: [answer] is
    what it reports, if it does.  A probe reports a delay or an error, and "the
    outcome also appears in meta_snapshot_v1's proxies"; the outcomes of other
    names stay. *)
Definition meta_probe_v1_contract (handle : meta_handle) (name name_length timeout_ms delay_ms : Z)
    (answer : text -> option (Z + text)) : contract :=
  fun t v s v' =>
    error_frame t v s v' /\ v_live v' = v_live v /\ (forall h, h <> handle -> v_core v' h = v_core v h) /\
    match v_core v handle, utf8_argument (v_mem v) name name_length, delay_ms =? 0 with
    | Some c, Some n, false => exists c', v_core v' handle = Some c' /\
        settings c' = settings c /\ policy c' = policy c /\ stopped c' = stopped c /\
        (forall m, m <> n -> probe_shown c' m = probe_shown c m) /\
        match answer n with
        | Some (inl d) => s = META_OK /\ probe_shown c' n = Some (inl d) /\
            load_u32 (v_mem v') delay_ms = Z.min d (2 ^ 32 - 1) /\
            only_changed [(delay_ms, 4)] (v_mem v) (v_mem v')
        | Some (inr e) => s = META_ERROR /\ probe_shown c' n = Some (inr e) /\ v_error v' t = e /\
            mem_eq (v_mem v) (v_mem v')
        | None => s = META_ERROR /\ c' = c /\ mem_eq (v_mem v) (v_mem v')
        end
    | _, _, _ => s = META_ERROR /\ v_cores v' = v_cores v /\ mem_eq (v_mem v) (v_mem v')
    end.

Definition meta_test_route_v1_contract (handle : meta_handle) (json length buffer capacity output_length : Z)
    (answer : text -> option text) : contract :=
  fun t v => text_query (let? _ := v_core v handle in
                         let? j := argument input_limit (v_mem v) json length in answer j)
               buffer capacity output_length t v.

Definition meta_dns_leak_v1_contract (handle : meta_handle) (online buffer capacity output_length : Z)
    (answer : Core -> option text) : contract :=
  fun t v => text_query (let? c := v_core v handle in
                         if online =? 0 then dns_audit_json c else answer c)
               buffer capacity output_length t v.

(** ** Packets *)

(** "one raw IP packet": between the shortest IPv4 header and 64 KiB. *)
Definition ip_packet (p : text) : bool :=
  (20 <=? zlength p) && (zlength p <=? 65535) &&
  match p with
  | b :: _ => (Z.shiftr b 4 =? 4) || (Z.shiftr b 4 =? 6)
  | [] => false
  end.

(** "Packet calls require tun.enable=true." *)
Definition packets_open (v : view) (handle : meta_handle) : bool :=
  match v_core v handle with Some c => packet_queue c | None => false end.

(** Packet calls change no handle but its queues. *)
Definition same_cores (v v' : view) : Prop :=
  v_live v' = v_live v /\
  forall h, option_map (fun c => (stopped c, packet_queue c, settings c, policy c)) (v_core v' h) =
            option_map (fun c => (stopped c, packet_queue c, settings c, policy c)) (v_core v h).

(** A packet is taken when it is one, the handle's queue is in use, and the core
    runs or may still be started. *)
Definition packet_accepted (v : view) (handle : meta_handle) (packet length : Z) : bool :=
  negb (packet =? 0) && ip_packet (load_bytes (v_mem v) packet length) && packets_open v handle &&
  match v_core v handle with Some c => negb (stopped c) && packets_taken c | None => false end.

(** META_WOULD_BLOCK: the queue is full. *)
Definition queue_room (v : view) (handle : meta_handle) : bool :=
  match v_core v handle with Some c => packet_room c | None => false end.

Definition meta_write_packet_v1_contract (handle : meta_handle) (packet length : Z) : contract :=
  fun t v s v' =>
    error_frame t v s v' /\ mem_eq (v_mem v) (v_mem v') /\ same_cores v v' /\
    s = (if packet_accepted v handle packet length
         then if queue_room v handle then META_OK else META_WOULD_BLOCK
         else META_ERROR) /\
    forall h, v_written v' h =
      if meta_status_eqb s META_OK && (h =? handle)
      then v_written v h ++ [load_bytes (v_mem v) packet length] else v_written v h.

(** "META_BUFFER_TOO_SMALL ... a queued packet remains available."  With a
    length to write and the queue in use the call fails only when a packet waits
    and the buffer is null, or when none waits and none will come. *)
Definition meta_read_packet_v1_contract (handle : meta_handle) (buffer capacity length : Z) : contract :=
  fun t v s v' =>
    error_frame t v s v' /\ same_cores v v' /\
    (s <> META_ERROR -> packets_open v handle = true) /\
    match s, v_readable v handle with
    | META_OK, p :: rest => caller_buffer p buffer capacity length (v_mem v) s (v_mem v') /\
        forall h, v_readable v' h = if h =? handle then rest else v_readable v h
    | META_BUFFER_TOO_SMALL, p :: _ => caller_buffer p buffer capacity length (v_mem v) s (v_mem v') /\
        forall h, v_readable v' h = v_readable v h
    | META_WOULD_BLOCK, [] => length <> 0 /\ load_u64 (v_mem v') length = 0 /\
        only_changed [(length, 8)] (v_mem v) (v_mem v') /\
        option_map packets_ended (v_core v handle) = Some false /\
        forall h, v_readable v' h = v_readable v h
    | META_ERROR, q => only_changed (target length 8) (v_mem v) (v_mem v') /\
        (forall h, v_readable v' h = v_readable v h) /\
        (length <> 0 -> packets_open v handle = true ->
         match q with
         | [] => option_map packets_ended (v_core v handle) = Some true
         | p :: _ => buffer = 0 /\ zlength p <= capacity
         end)
    | _, _ => False
    end.

End Observations.
