(* ===== verification/ConfigCrypto.v ===== *)
(** * Encrypted configurations: [crates/config/src/crypto.rs]

    The legacy format of exported configurations: AES in CFB mode under a key
    made from the password and a fixed initialisation vector, then Base64.
    The cipher and the Base64 engine are third-party crates, so they are
    parameters with the laws their documentation states. *)
From S2P Require Import Prelude CMemory CApi Base64.
From Stdlib Require Import String Ascii ZArith List Lia Bool.
Import ListNotations.
Open Scope Z_scope.

(** ** Results

    A Rust call returns, fails with an error whose text is kept, or panics. *)
Inductive outcome (A : Type) : Type :=
  | Ok (a : A)
  | Err (e : text)
  | Panic.
Arguments Ok {A} a.
Arguments Err {A} e.
Arguments Panic {A}.

Definition obnd {A B} (m : outcome A) (k : A -> outcome B) : outcome B :=
  match m with Ok a => k a | Err e => Err e | Panic => Panic end.

Definition ok_of {A} (m : outcome A) : option A :=
  match m with Ok a => Some a | _ => None end.

Lemma obnd_ok {A B} (m : outcome A) (k : A -> outcome B) b :
  obnd m k = Ok b -> exists a, m = Ok a /\ k a = Ok b.
Proof. destruct m; cbn [obnd]; [eauto|discriminate..]. Qed.

(** ** The crates *)

Inductive aes : Type := Aes128 | Aes192 | Aes256.

Definition key_size (a : aes) : Z := match a with Aes128 => 16 | Aes192 => 24 | Aes256 => 32 end.

Class CipherCrates : Type := {
  (* cfb_mode::{Encryptor, Decryptor}::<A>::new_from_slices(key, iv) *)
  cfb_encryptor : aes -> text -> text -> option (text -> text);
  cfb_decryptor : aes -> text -> text -> option (text -> text);
  (* base64::engine::general_purpose::STANDARD *)
  base64_encode : text -> text;
  base64_decode : text -> outcome text }.

Class CipherLaws (C : CipherCrates) : Prop := {
  (* new_from_slices fails on a wrong length only *)
  encryptor_new : forall a key iv, zlength key = key_size a -> zlength iv = 16 ->
    exists e, cfb_encryptor a key iv = Some e;
  decryptor_new : forall a key iv, zlength key = key_size a -> zlength iv = 16 ->
    exists d, cfb_decryptor a key iv = Some d;
  (* a stream cipher works in place and decryption inverts encryption *)
  encrypt_bytes : forall a key iv e x, cfb_encryptor a key iv = Some e -> bytes x ->
    bytes (e x) /\ zlength (e x) = zlength x;
  decrypt_encrypt : forall a key iv e d x, cfb_encryptor a key iv = Some e ->
    cfb_decryptor a key iv = Some d -> bytes x -> d (e x) = x;
  (* the standard alphabet with padding *)
  encode_length : forall x, zlength (base64_encode x) = (zlength x + 2) / 3 * 4;
  encode_visible : forall x, bytes x -> Forall (fun b => ascii_whitespace b = false) (base64_encode x);
  encode_bytes : forall x, bytes x -> bytes (base64_encode x);
  decode_encode : forall x, bytes x -> base64_decode (base64_encode x) = Ok x }.

Section Crypto.
Context {C : CipherCrates}.

(** ** The format *)

Definition IV : text := [35; 46; 57; 24; 85; 35; 25; 74; 87; 35; 88; 98; 66; 33; 14; 5].

Definition key (password : text) : text :=
  let size := if zlength password <=? 16 then 16 else if zlength password <=? 24 then 24 else 32 in
  let n := Z.min size (zlength password) in
  firstn (Z.to_nat n) password ++ repeat 48 (Z.to_nat (size - n)).

(** The [match key.len()] of both functions. *)
Definition aes_of_key (key : text) : option aes :=
  if zlength key =? 16 then Some Aes128
  else if zlength key =? 24 then Some Aes192
  else if zlength key =? 32 then Some Aes256
  else None.

Definition encrypt (plaintext password : text) : outcome text :=
  let key := key password in
  match aes_of_key key with
  | Some a =>
      match cfb_encryptor a key IV with
      | Some run => Ok (base64_encode (run plaintext))
      | None => Err (lit "invalid AES key/IV length")
      end
  | None => Panic (* unreachable!() *)
  end.

Definition decrypt (ciphertext password : text) : outcome text :=
  if 24 * 1024 * 1024 <? zlength ciphertext
  then Err (lit "encrypted configuration exceeds size limit")
  else
    let key := key password in
    obnd (base64_decode ciphertext) (fun bytes =>
    match aes_of_key key with
    | Some a =>
        match cfb_decryptor a key IV with
        | Some run => Ok (run bytes)
        | None => Err (lit "invalid AES key/IV length")
        end
    | None => Panic
    end).

(** ** Keys have one of the three AES sizes *)

Lemma key_aes password : exists a, aes_of_key (key password) = Some a /\
  zlength (key password) = key_size a.
Proof.
  assert (E : zlength (key password) =
    if zlength password <=? 16 then 16 else if zlength password <=? 24 then 24 else 32).
  { unfold key. cbv zeta. set (size := if zlength password <=? 16 then 16 else _).
    assert (0 <= zlength password) by apply zlength_nonneg.
    assert (0 <= size) by (subst size; ztest). clearbody size.
    unfold zlength in *. rewrite length_app, length_firstn, repeat_length. lia. }
  unfold aes_of_key. rewrite E. ztest; [exists Aes128|exists Aes192|exists Aes256]; easy.
Qed.

Context {laws : CipherLaws C}.

Lemma encrypt_spec plaintext password : bytes plaintext ->
  exists a e, aes_of_key (key password) = Some a /\
    cfb_encryptor a (key password) IV = Some e /\
    encrypt plaintext password = Ok (base64_encode (e plaintext)) /\
    bytes (e plaintext) /\ zlength (e plaintext) = zlength plaintext.
Proof.
  intros Hb. destruct (key_aes password) as (a & Ha & Hk).
  destruct (encryptor_new a (key password) IV Hk eq_refl) as [e He].
  exists a, e. unfold encrypt. rewrite Ha, He. repeat split; try easy;
  eapply encrypt_bytes; eauto.
Qed.

(** What [encrypt] writes, [decrypt] reads back with the same password, as long
    as the encoded text is within the limit of [decrypt]. *)
Lemma crypto_roundtrip plaintext password c :
  bytes plaintext -> encrypt plaintext password = Ok c ->
  zlength c <= 24 * 1024 * 1024 -> decrypt c password = Ok plaintext.
Proof.
  intros Hb E Hl. destruct (encrypt_spec plaintext password Hb) as (a & e & Ha & He & Hc & Hbe & _).
  rewrite Hc in E. injection E as <-. unfold decrypt.
  destruct (Z.ltb_spec (24 * 1024 * 1024) (zlength (base64_encode (e plaintext)))); [lia|].
  rewrite decode_encode by exact Hbe. cbn [obnd]. rewrite Ha.
  destruct (key_aes password) as (a' & Ha' & Hk). rewrite Ha in Ha'. injection Ha' as <-.
  destruct (decryptor_new a (key password) IV Hk eq_refl) as [d Hd]. rewrite Hd.
  f_equal. eapply decrypt_encrypt; eauto.
Qed.

(** The encoded text of a configuration of up to 16 MiB is within the limit. *)
Lemma encrypt_length plaintext password c :
  bytes plaintext -> encrypt plaintext password = Ok c ->
  zlength c = (zlength plaintext + 2) / 3 * 4.
Proof.
  intros Hb E. destruct (encrypt_spec plaintext password Hb) as (a & e & _ & _ & Hc & _ & Hn).
  rewrite Hc in E. injection E as <-. now rewrite encode_length, Hn.
Qed.

Lemma encrypt_within_limit plaintext password c :
  bytes plaintext -> encrypt plaintext password = Ok c ->
  zlength plaintext <= 16 * 1024 * 1024 -> zlength c <= 24 * 1024 * 1024.
Proof.
  intros Hb E Hl. rewrite (encrypt_length _ _ _ Hb E).
  Z.to_euclidean_division_equations. lia.
Qed.

Lemma encrypt_visible plaintext password c :
  bytes plaintext -> encrypt plaintext password = Ok c ->
  bytes c /\ Forall (fun b => ascii_whitespace b = false) c.
Proof.
  intros Hb E. destruct (encrypt_spec plaintext password Hb) as (a & e & _ & _ & Hc & Hbe & _).
  rewrite Hc in E. injection E as <-. split; [now apply encode_bytes|now apply encode_visible].
Qed.

End Crypto.
