(* ===== verification/Host.v ===== *)
(** * Behind a handle: the data of [crates/ffi/src/host.rs]

    The hooks of the host, the flag that marks a thread running a callback,
    the wake-up flag of the packet queue, the reading end of that queue and
    the [Handle] itself.  The bounded channels are tokio's: they are the class
    [Mpsc] with the documented laws.  [start_with_packets] is the guard of
    [Core::start_with_packets] ([crates/core/src/lib.rs]). *)
From S2P Require Import Prelude CMemory CApi ConfigCrypto.
From Stdlib Require Import String ZArith List Lia Bool.
Import ListNotations.
Open Scope Z_scope.

(** ** tokio's bounded channels *)

Inductive send_result : Type := Sent | SendFull | SendClosed.
Inductive recv_result : Type := Received (x : text) | RecvEmpty | RecvDisconnected.

Class Mpsc : Type := {
  channel : Type;
  mpsc_channel : Z -> channel;                       (* mpsc::channel(capacity) *)
  try_send : channel -> text -> send_result * channel;
  try_recv : channel -> recv_result * channel;
  close_channel : channel -> channel;                (* the other half is dropped *)
  (* what the documentation describes a channel by *)
  queued : channel -> list text;
  capacity : channel -> Z;
  closed : channel -> bool }.

Class MpscLaws (M : Mpsc) : Prop := {
  channel_new : forall n, queued (mpsc_channel n) = [] /\ capacity (mpsc_channel n) = n /\
    closed (mpsc_channel n) = false;
  channel_close : forall c, queued (close_channel c) = queued c /\
    capacity (close_channel c) = capacity c /\ closed (close_channel c) = true;
  send_closed : forall c x, closed c = true -> try_send c x = (SendClosed, c);
  send_full : forall c x, closed c = false -> capacity c <= zlength (queued c) ->
    try_send c x = (SendFull, c);
  send_room : forall c x, closed c = false -> zlength (queued c) < capacity c ->
    exists c', try_send c x = (Sent, c') /\ queued c' = queued c ++ [x] /\
      capacity c' = capacity c /\ closed c' = false;
  recv_some : forall c x q, queued c = x :: q ->
    exists c', try_recv c = (Received x, c') /\ queued c' = q /\
      capacity c' = capacity c /\ closed c' = closed c;
  recv_none : forall c, queued c = [] ->
    try_recv c = (if closed c then RecvDisconnected else RecvEmpty, c) }.

(** ** Hooks *)

Record HostHooks : Type := { hooks_context : Z; protect : Z; notify : Z }.

Definition HostHooks_default : HostHooks := {| hooks_context := 0; protect := 0; notify := 0 |}.

Definition HostHooks_new (hooks : meta_hooks_v1) : outcome HostHooks :=
  if (version hooks =? 1) && (size hooks =? sizeof_meta_hooks_v1)
  then Ok {| hooks_context := context hooks; protect := protect_socket hooks;
             notify := packet_ready hooks |}
  else Err (lit "unsupported host hooks version/size").

(** ** [PacketWake]

    The three operations on the flag; each returns what it gives and the flag
    it leaves. *)

Definition wake_queued (flag : bool) : bool * bool := (negb flag, true).
Definition wake_emptied (flag : bool) : bool := false.
Definition wake_draining (flag : bool) : bool := true.

Section Handles.
Context {M : Mpsc} {CoreState : Type}.

(** ** [PacketsOut] *)

Record PacketsOut : Type := {
  receiver : channel;
  pending : option text;
  wake : bool }.

(** [fill] with nothing happening between its accesses; [PacketWake] (the
    file) takes it apart into its atomic steps. *)
Definition fill (p : PacketsOut) : outcome bool * PacketsOut :=
  match pending p with
  | Some _ => (Ok true, p)
  | None =>
      match try_recv (receiver p) with
      | (Received packet, r) =>
          (Ok true, {| receiver := r; pending := Some packet; wake := wake p |})
      | (RecvEmpty, r) =>
          let flag := wake_emptied (wake p) in
          match try_recv r with
          | (Received packet, r') =>
              (Ok true, {| receiver := r'; pending := Some packet; wake := wake_draining flag |})
          | (RecvEmpty, r') => (Ok false, {| receiver := r'; pending := None; wake := flag |})
          | (RecvDisconnected, r') =>
              (Err (lit "packet channel closed"), {| receiver := r'; pending := None; wake := flag |})
          end
      | (RecvDisconnected, r) =>
          (Err (lit "packet channel closed"), {| receiver := r; pending := None; wake := wake p |})
      end
  end.

(** The packets a reader gets, in order. *)
Definition readable (p : PacketsOut) : list text :=
  match pending p with Some x => x :: queued (receiver p) | None => queued (receiver p) end.

(** ** [Handle]

    [stop] is the core's cancellation token, [tun_enable] its configuration,
    [lifecycle_started] the flag under [Core::lifecycle].  [worker] is how the
    worker thread ends while it has not been joined. *)

Inductive worker_end : Type := WorkerReturns | WorkerPanics.

Record Handle : Type := {
  core : CoreState;
  stop : bool;
  tun_enable : bool;
  lifecycle_started : bool;
  network : Z;
  worker : option worker_end;
  packet_input : option channel;
  packet_output : PacketsOut;
  packet_queue_enabled : bool }.

Definition set_core (c : CoreState) (h : Handle) : Handle :=
  {| core := c; stop := stop h; tun_enable := tun_enable h;
     lifecycle_started := lifecycle_started h; network := network h;
     worker := worker h; packet_input := packet_input h; packet_output := packet_output h;
     packet_queue_enabled := packet_queue_enabled h |}.

Definition set_stop (b : bool) (h : Handle) : Handle :=
  {| core := core h; stop := b; tun_enable := tun_enable h;
     lifecycle_started := lifecycle_started h; network := network h;
     worker := worker h; packet_input := packet_input h; packet_output := packet_output h;
     packet_queue_enabled := packet_queue_enabled h |}.

Definition set_started (b : bool) (h : Handle) : Handle :=
  {| core := core h; stop := stop h; tun_enable := tun_enable h;
     lifecycle_started := b; network := network h;
     worker := worker h; packet_input := packet_input h; packet_output := packet_output h;
     packet_queue_enabled := packet_queue_enabled h |}.

Definition set_network (n : Z) (h : Handle) : Handle :=
  {| core := core h; stop := stop h; tun_enable := tun_enable h;
     lifecycle_started := lifecycle_started h; network := n;
     worker := worker h; packet_input := packet_input h; packet_output := packet_output h;
     packet_queue_enabled := packet_queue_enabled h |}.

Definition set_input (i : option channel) (h : Handle) : Handle :=
  {| core := core h; stop := stop h; tun_enable := tun_enable h;
     lifecycle_started := lifecycle_started h; network := network h;
     worker := worker h; packet_input := i; packet_output := packet_output h;
     packet_queue_enabled := packet_queue_enabled h |}.

Definition set_output (o : PacketsOut) (h : Handle) : Handle :=
  {| core := core h; stop := stop h; tun_enable := tun_enable h;
     lifecycle_started := lifecycle_started h; network := network h;
     worker := worker h; packet_input := packet_input h; packet_output := o;
     packet_queue_enabled := packet_queue_enabled h |}.

(** The worker thread ends: it drops its halves of the channels. *)
Definition worker_joined (h : Handle) : Handle :=
  {| core := core h; stop := stop h; tun_enable := tun_enable h;
     lifecycle_started := lifecycle_started h; network := network h;
     worker := None; packet_input := option_map close_channel (packet_input h);
     packet_output := {| receiver := close_channel (receiver (packet_output h));
                         pending := pending (packet_output h); wake := wake (packet_output h) |};
     packet_queue_enabled := packet_queue_enabled h |}.

(** [Handle::new] once the core exists: channels of 256 packets, the packet
    queue enabled as [tun.enable] is.  Without it nobody holds the other half of
    the output channel. *)
Definition Handle_new (c : CoreState) (enable : bool) (ends : worker_end) : Handle :=
  {| core := c; stop := false; tun_enable := enable; lifecycle_started := false;
     network := 0; worker := Some ends;
     packet_input := if enable then Some (mpsc_channel 256) else None;
     packet_output := {| receiver := if enable then mpsc_channel 256 else close_channel (mpsc_channel 256);
                         pending := None; wake := false |};
     packet_queue_enabled := enable |}.

(** The guards of [Core::start_with_packets]; [packets] is whether a packet
    device was passed, [inner] what [start_inner] returns and the state it
    leaves the core in. *)
Definition start_with_packets (packets : bool) (inner : outcome unit * CoreState) (h : Handle)
    : outcome unit * Handle :=
  if negb (Bool.eqb (tun_enable h) packets)
  then (Err (lit "tun.enable requires a host PacketIo; disable TUN for listener-only operation"), h)
  else if negb (negb (lifecycle_started h) && negb (stop h))
  then (Err (lit "core cannot be started twice; create a new core"), h)
  else
    let h := set_core (snd inner) (set_started true h) in
    match fst inner with
    | Ok tt => (Ok tt, h)
    | Err e => (Err e, set_started false (set_stop true h))
    | Panic => (Panic, h)
    end.

(** [Handle::shutdown] after [check_lifecycle]. *)
Definition shutdown (h : Handle) : outcome unit * Handle :=
  let h := set_stop true h in
  match worker h with
  | Some WorkerReturns => (Ok tt, worker_joined h)
  | Some WorkerPanics => (Err (lit "core worker panicked"), worker_joined h)
  | None => (Ok tt, h)
  end.

(** [Handle::network_changed] after [check_lifecycle]. *)
Definition network_changed (h : Handle) : outcome unit * Handle :=
  if stop h then (Err (lit "core is stopped"), h)
  else (Ok tt, set_network (u64 (network h + 1)) h).

(** ** Commands

    [start], [probe], [test_route] and [dns_leak_test] send a command to the
    worker and wait for its answer.  What the worker does meanwhile is given
    by a [turn]: the bounded queue refuses the command, no answer comes in
    time (or the worker is gone), or the worker answers. *)
Inductive turn (A : Type) : Type :=
  | Refused
  | Unanswered
  | Answered (a : A).
Arguments Refused {A}.
Arguments Unanswered {A}.
Arguments Answered {A} a.

(** [Handle::command_within] for [Command::Start], after [check_lifecycle];
    the worker's part is [start_with_packets].  A worker that panics drops the
    reply channel. *)
Definition start (send_error recv_error : text) (t : turn (outcome unit * CoreState)) (h : Handle)
    : outcome unit * Handle :=
  if stop h then (Err (lit "core is stopped"), h)
  else
    match t with
    | Refused => (Err (lit "core command queue closed or full: " ++ send_error), h)
    | Unanswered => (Err recv_error, set_stop true h)
    | Answered inner =>
        match start_with_packets (tun_enable h) inner h with
        | (Ok tt, h') => (Ok tt, h')
        | (Err e, h') => (Err e, h')
        | (Panic, h') => (Err recv_error, set_stop true h')
        end
    end.

(** [Handle::set_fd] (Android), after [check_lifecycle]: the worker's part of
    [Command::SetFd], with [device] what [NativeTun::from_owned_fd] gives.  The
    descriptor takes the place of the host packets, which are dropped. *)
Definition packets_replaced (h : Handle) : Handle :=
  {| core := core h; stop := stop h; tun_enable := tun_enable h;
     lifecycle_started := lifecycle_started h; network := network h;
     worker := worker h; packet_input := option_map close_channel (packet_input h);
     packet_output := {| receiver := close_channel (receiver (packet_output h));
                         pending := pending (packet_output h); wake := wake (packet_output h) |};
     packet_queue_enabled := false |}.

(** The worker asks [running.is_some()]; while it is in its loop that is whether
    the core was started ([li_running] of [loop_inv] in [WorkerAgrees]). *)
Definition set_fd (send_error recv_error : text) (t : turn (outcome unit)) (h : Handle)
    : outcome unit * Handle :=
  if stop h then (Err (lit "core is stopped"), h)
  else
    match t with
    | Refused => (Err (lit "core command queue closed or full: " ++ send_error), h)
    | Unanswered => (Err recv_error, set_stop true h)
    | Answered device =>
        if lifecycle_started h || negb (tun_enable h)
        then (Err (lit "TUN fd must be set before start with tun.enable=true"), h)
        else
          match device with
          | Ok tt => (Ok tt, packets_replaced h)
          | Err e => (Err e, h)
          | Panic => (Err recv_error, set_stop true h)
          end
    end.

(** [Handle::probe], [Handle::test_route] and [Handle::dns_leak_test]. *)
Definition ask {A} (t : turn (outcome A)) : outcome A :=
  match t with
  | Refused => Err (lit "core worker is busy or stopped")
  | Unanswered => Err (lit "core worker did not answer")
  | Answered r => r
  end.

(** [Handle::check_packet_queue]. *)
Definition check_packet_queue (h : Handle) : outcome unit :=
  if packet_queue_enabled h then Ok tt
  else Err (lit "host packet queue unavailable: TUN is disabled or uses an Android fd").

End Handles.

Arguments PacketsOut {M}.
Arguments Handle {M} CoreState.
