(* ===== verification/Ffi.v ===== *)
(** * The C boundary: the shared part of [crates/ffi/src/lib.rs]

    The process-wide state (the registry of handles with its mutex, the next
    identifier, the log buffer, the per-thread error text and callback flag,
    the host's memory), the monad in which the exported functions are written,
    and [boundary], [input], [output] and [handle], which all of them use.

    The crates the functions call (configuration, core, JSON) are the class
    [Crates]; their operations may fail with a text or panic. *)
From S2P Require Import Prelude CMemory CApi ConfigCrypto Host.
From Stdlib Require Import String ZArith List Lia Bool.
Import ListNotations.
Open Scope Z_scope.

(** ** Configurations

    The fields of [Config] that the C functions read or replace ([log_level]
    and [log_path] are those of its [log], [dns_enable] that of its [dns],
    [tun_on] is [tun.enable]); [rest] is everything else, credentials and
    routing policy included. *)

Record Tun : Type := {
  tun_on : bool; auto_route : bool; auto_dns : bool; auto_detect_interface : bool;
  interface : option text; mtu : Z; dns_hijack : list text }.

Record Config (R : Type) : Type := {
  directory : text; internal_host_packet_io : bool;
  port : Z; socks_port : Z; mixed_port : Z; allow_lan : bool;
  external_controller : option text; external_ui : text;
  log_level : text; log_path : text; dns_enable : bool; tun : Tun; rest : R }.
Arguments directory {R}.
Arguments internal_host_packet_io {R}.
Arguments port {R}.
Arguments socks_port {R}.
Arguments mixed_port {R}.
Arguments allow_lan {R}.
Arguments external_controller {R}.
Arguments external_ui {R}.
Arguments log_level {R}.
Arguments log_path {R}.
Arguments dns_enable {R}.
Arguments tun {R}.
Arguments rest {R}.

(** ** The crates behind the interface *)

Class Crates : Type := {
  Os : Type;                     (* files, network, clock *)
  CoreState : Type;
  ConfigRest : Type;
  (* clyntis_config *)
  Config_parse : text -> outcome (Config ConfigRest);
  custom_validate : text -> outcome unit;
  custom_targets : text -> outcome (list text);
  custom_apply : text -> list text -> outcome (text * list (text * text));
  Overrides : Type;
  overrides_apply : Overrides -> text -> outcome text;
  SyntaxError : Type;
  syntax_check : text -> option SyntaxError;
  NetworkInfo : Type;
  (* clyntis_core *)
  CosRequest : Type;
  CosTarget : Type;
  from_url : text -> option CosTarget;
  cos_put_object : Os -> CosRequest -> text -> outcome unit * Os;
  Core_new : Os -> Config ConfigRest -> HostHooks -> outcome CoreState;
  core_config : CoreState -> Config ConfigRest;
  spawn_worker : Os -> outcome worker_end;   (* the runtime and the worker thread *)
  resource_freshness : Os -> CoreState -> outcome resource_state;
  prepare_resources : Os -> CoreState -> outcome unit * Os;
  core_connections_count : CoreState -> Z;
  core_upload : CoreState -> Z;
  core_download : CoreState -> Z;
  core_close_connections : CoreState -> CoreState;
  core_close_connection : CoreState -> text -> CoreState;
  core_set_network : CoreState -> NetworkInfo -> outcome unit * CoreState;
  core_select : CoreState -> text -> text -> outcome unit * CoreState;
  AllowList : Type;
  Mode : Type;
  core_set_adblock_allow : CoreState -> AllowList -> outcome unit * CoreState;
  core_update_policy : CoreState -> option Mode -> option (list text) -> outcome unit * CoreState;
  (* the maps policy.delay and policy.probes, by name; an entry of the latter is
     the delay, the error and the time *)
  core_insert_delay : CoreState -> text -> Z -> CoreState;
  core_insert_probe : CoreState -> text -> option Z * option text * Z -> CoreState;
  core_probes : CoreState -> text -> option (option Z * option text * Z);
  Target : Type;
  parse_test_target : text -> option Z -> outcome Target;
  RouteTest : Type;
  DnsLeakAudit : Type;
  DnsLeakTest : Type;
  core_dns_leak_audit : CoreState -> DnsLeakAudit;
  (* std::path *)
  path_is_absolute : text -> bool;
  path_is_dir : Os -> text -> bool;
  path_join : text -> text -> text;
  (* std::os::fd: BorrowedFd::try_clone_to_owned *)
  dup_fd : Os -> Z -> outcome unit;
  (* std: the text of a Utf8Error *)
  utf8_error : text -> text;
  (* tokio: the texts of a failed try_send and recv_timeout *)
  send_error : text;
  recv_error : text;
  (* serde_json *)
  Value : Type;
  from_slice : text -> outcome Value;
  strings_from_slice : text -> outcome (list text);
  overrides_from_slice : text -> outcome Overrides;
  network_from_slice : text -> outcome NetworkInfo;
  cos_request_from_slice : text -> outcome CosRequest;
  as_object : Value -> option (list (text * Value));
  as_str : Value -> option text;
  as_u64 : Value -> option Z;
  is_null : Value -> bool;
  value_index : Value -> text -> Value;
  allow_from_value : Value -> outcome AllowList;
  mode_from_value : Value -> outcome Mode;
  rules_from_value : Value -> outcome (list text);
  strings_to_vec : list text -> outcome text;
  applied_to_vec : text * list (text * text) -> outcome text;
  syntax_to_vec : option SyntaxError -> outcome text;
  cos_target_to_vec : option CosTarget -> outcome text;
  snapshot_to_vec : CoreState -> bool -> outcome text;
  status_to_vec : bool -> Z -> Z -> Z -> outcome text;
  route_to_vec : RouteTest -> outcome text;
  dns_leak_to_vec : DnsLeakAudit -> option DnsLeakTest -> outcome text }.

(** Inserting into those maps, as std's HashMap does it. *)
Class ProbeLaws (K : Crates) : Prop := {
  probes_inserted : forall c n e m,
    core_probes (core_insert_probe c n e) m = if text_eqb m n then Some e else core_probes c m;
  probes_delay : forall c n d m, core_probes (core_insert_delay c n d) m = core_probes c m;
  config_delay : forall c n d, core_config (core_insert_delay c n d) = core_config c;
  config_probe : forall c n e, core_config (core_insert_probe c n e) = core_config c }.

Section Boundary.
Context {K : Crates} {M : Mpsc}.

Abbreviation handle_t := (Handle CoreState).

(** ** Process state *)

Record world : Type := {
  mem : memory;
  error_text : thread -> text;            (* thread_local ERROR_TEXT *)
  callback : thread -> bool;              (* thread_local CALLBACK *)
  handles : list (Z * handle_t);          (* HANDLES *)
  handles_poisoned : bool;                (* its mutex, after a panic under the lock *)
  next : Z;                               (* NEXT *)
  log_lines : list text;                  (* logs::BUFFER *)
  log_filter : option text;               (* the level logs::init installed *)
  panic_file : option text;               (* logs::PANIC_FILE *)
  os : Os }.

Definition set_mem (m : memory) (w : world) : world :=
  {| mem := m; error_text := error_text w; callback := callback w; handles := handles w;
     handles_poisoned := handles_poisoned w; next := next w; log_lines := log_lines w;
     log_filter := log_filter w; panic_file := panic_file w; os := os w |}.

Definition set_error (t : thread) (e : text) (w : world) : world :=
  {| mem := mem w; error_text := set_at t e (error_text w); callback := callback w;
     handles := handles w; handles_poisoned := handles_poisoned w; next := next w;
     log_lines := log_lines w; log_filter := log_filter w; panic_file := panic_file w; os := os w |}.

Definition set_callback (t : thread) (b : bool) (w : world) : world :=
  {| mem := mem w; error_text := error_text w; callback := set_at t b (callback w);
     handles := handles w; handles_poisoned := handles_poisoned w; next := next w;
     log_lines := log_lines w; log_filter := log_filter w; panic_file := panic_file w; os := os w |}.

Definition set_registry (hs : list (Z * handle_t)) (poisoned : bool) (n : Z) (w : world) : world :=
  {| mem := mem w; error_text := error_text w; callback := callback w; handles := hs;
     handles_poisoned := poisoned; next := n; log_lines := log_lines w;
     log_filter := log_filter w; panic_file := panic_file w; os := os w |}.

Definition set_logs (lines : list text) (filter : option text) (file : option text) (w : world) : world :=
  {| mem := mem w; error_text := error_text w; callback := callback w; handles := handles w;
     handles_poisoned := handles_poisoned w; next := next w; log_lines := lines;
     log_filter := filter; panic_file := file; os := os w |}.

Definition set_os (o : Os) (w : world) : world :=
  {| mem := mem w; error_text := error_text w; callback := callback w; handles := handles w;
     handles_poisoned := handles_poisoned w; next := next w; log_lines := log_lines w;
     log_filter := log_filter w; panic_file := panic_file w; os := o |}.

(** ** Fallible operations on it *)

Definition ffi (A : Type) : Type := thread -> world -> outcome A * world.

Definition fret {A} (a : A) : ffi A := fun _ w => (Ok a, w).
Definition ferr {A} (e : text) : ffi A := fun _ w => (Err e, w).
Definition fpanic {A} : ffi A := fun _ w => (Panic, w).
Definition fbind {A B} (m : ffi A) (k : A -> ffi B) : ffi B :=
  fun t w => match m t w with
             | (Ok a, w') => k a t w'
             | (Err e, w') => (Err e, w')
             | (Panic, w') => (Panic, w')
             end.

(** [ensure!(b, e)], the [?] operator on a pure call, and state access. *)
Definition ensure (b : bool) (e : text) : ffi unit := if b then fret tt else ferr e.
Definition lift {A} (m : outcome A) : ffi A := fun _ w => (m, w).
Definition gets {A} (f : world -> A) : ffi A := fun _ w => (Ok (f w), w).
Definition modify (f : world -> world) : ffi unit := fun _ w => (Ok tt, f w).
Definition this_thread : ffi thread := fun t w => (Ok t, w).
Definition context_of {A} (o : option A) (e : text) : ffi A :=
  match o with Some a => fret a | None => ferr e end.

End Boundary.
Arguments world {K M}.

Declare Scope ffi_scope.
Delimit Scope ffi_scope with ffi.
Notation "'let!' x ':=' m 'in' k" := (fbind m (fun x => k))
  (at level 10, x pattern, m at level 100, k at level 200) : ffi_scope.
Notation "m ;! k" := (fbind m (fun _ => k))
  (at level 100, k at level 200, right associativity) : ffi_scope.
Open Scope ffi_scope.

(** ** UTF-8

    [std::str::from_utf8]: the well-formed sequences of the Unicode standard
    (no surrogates, no overlong forms, nothing above U+10FFFF). *)

Definition between (lo hi b : Z) : bool := (lo <=? b) && (b <=? hi).
Definition continuation (b : Z) : bool := between 0x80 0xbf b.

Definition second_of_three (b0 b1 : Z) : bool :=
  ((b0 =? 0xe0) && between 0xa0 0xbf b1) || (between 0xe1 0xec b0 && continuation b1) ||
  ((b0 =? 0xed) && between 0x80 0x9f b1) || (between 0xee 0xef b0 && continuation b1).

Definition second_of_four (b0 b1 : Z) : bool :=
  ((b0 =? 0xf0) && between 0x90 0xbf b1) || (between 0xf1 0xf3 b0 && continuation b1) ||
  ((b0 =? 0xf4) && between 0x80 0x8f b1).

Fixpoint utf8_valid (l : text) : bool :=
  match l with
  | [] => true
  | b0 :: l1 =>
      if b0 <? 0x80 then utf8_valid l1
      else match l1 with
           | [] => false
           | b1 :: l2 =>
               if between 0xc2 0xdf b0 then continuation b1 && utf8_valid l2
               else match l2 with
                    | [] => false
                    | b2 :: l3 =>
                        if between 0xe0 0xef b0
                        then second_of_three b0 b1 && continuation b2 && utf8_valid l3
                        else match l3 with
                             | [] => false
                             | b3 :: l4 => second_of_four b0 b1 && continuation b2 &&
                                           continuation b3 && utf8_valid l4
                             end
                    end
           end
  end.

Section Calls.
Context {K : Crates} {M : Mpsc}.

Abbreviation handle_t := (Handle CoreState).

Definition from_utf8 (l : text) : ffi text :=
  if utf8_valid l then fret l else ferr (utf8_error l).

(** ** Arguments and results *)

Definition LIMIT : Z := 16 * 1024 * 1024.

Definition input_with_limit (data len limit : Z) : ffi text :=
  ensure ((len <=? limit) && ((len =? 0) || negb (data =? 0))) (lit "invalid input buffer") ;!
  if len =? 0 then fret [] else gets (fun w => load_bytes (mem w) data len).

Definition input (data len : Z) : ffi text := input_with_limit data len LIMIT.

(** [std::str::from_utf8(input(..)?)?] *)
Definition input_str (data len : Z) : ffi text := let! b := input data len in from_utf8 b.

Definition write_mem (f : memory -> memory) : ffi unit := modify (fun w => set_mem (f (mem w)) w).

Definition output (bytes : text) (buffer capacity length : Z) : ffi meta_status :=
  ensure (negb (length =? 0)) (lit "output length is required") ;!
  write_mem (fun m => store_u64 m length (zlength bytes)) ;!
  if capacity <? zlength bytes then fret META_BUFFER_TOO_SMALL
  else
    ensure ((zlength bytes =? 0) || negb (buffer =? 0)) (lit "invalid output buffer") ;!
    (if negb (zlength bytes =? 0) then write_mem (fun m => store_bytes m buffer bytes) else fret tt) ;!
    fret META_OK.

(** [catch_unwind] and the thread-local error text. *)
Definition boundary (operation : ffi meta_status) (t : thread) (w : world) : meta_status * world :=
  match operation t w with
  | (Ok status, w') => (status, w')
  | (Err error, w') => (META_ERROR, set_error t error w')
  | (Panic, w') => (META_ERROR, set_error t (lit "panic contained at C ABI boundary") w')
  end.

(** ** The registry *)

(** [handles().lock().unwrap()]: a poisoned mutex panics. *)
Definition lock_handles : ffi unit :=
  let! poisoned := gets handles_poisoned in if (poisoned : bool) then fpanic else fret tt.

Definition handle (id : Z) : ffi handle_t :=
  lock_handles ;!
  let! hs := gets handles in
  context_of (assoc id hs) (lit "invalid or destroyed core handle").

Fixpoint assoc_set {A} (k : Z) (x : A) (l : list (Z * A)) : list (Z * A) :=
  match l with
  | [] => []
  | (i, y) :: l' => if i =? k then (i, x) :: l' else (i, y) :: assoc_set k x l'
  end.

Definition assoc_remove {A} (k : Z) (l : list (Z * A)) : list (Z * A) :=
  filter (fun e => negb (fst e =? k)) l.

(** A [Handle] is shared through an [Arc]: what a call changes in it, later
    calls on the same identifier see. *)
Definition put_handle (id : Z) (h : handle_t) : ffi unit :=
  modify (fun w => set_registry (assoc_set id h (handles w)) (handles_poisoned w) (next w) w).

Definition check_lifecycle : ffi unit :=
  let! t := this_thread in
  let! flag := gets (fun w => callback w t) in
  ensure (negb flag) (lit "lifecycle calls cannot reenter from host callbacks").

Definition meta_abi_version_v1 : Z := 1.

Definition meta_error_v1 (buffer capacity length : Z) : thread -> world -> meta_status * world :=
  boundary (
    let! t := this_thread in
    let! e := gets (fun w => error_text w t) in
    output e buffer capacity length).

End Calls.
