(* ===== verification/FfiContract.v ===== *)
(** * How the boundary meets the host contract

    The observations of the contracts as a function of the process state
    ([view_of]), the meaning the implementation gives to the words of the
    header ([api]), and the lemmas from which the contracts of the exported
    functions follow: reading arguments, writing an answer, recording an
    error. *)
From S2P Require Import Prelude CMemory CApi ConfigCrypto Host Ffi.
From Stdlib Require Import String ZArith List Lia Bool.
Import ListNotations.
Open Scope Z_scope.

Definition is_ok {A} (m : outcome A) : bool := match m with Ok _ => true | _ => false end.

(** ** The implementation's meaning of the contract *)

Section Meaning.
Context {K : Crates} {M : Mpsc} {C : CipherCrates}.

(** The core that prefetching and the resource check build for themselves. *)
Definition resource_config (c : Config ConfigRest) (dir : text) : Config ConfigRest :=
  {| directory := dir; internal_host_packet_io := internal_host_packet_io c; port := port c;
     socks_port := socks_port c; mixed_port := mixed_port c; allow_lan := allow_lan c;
     external_controller := external_controller c; external_ui := external_ui c;
     log_level := log_level c; log_path := log_path c; dns_enable := dns_enable c;
     tun := {| tun_on := false; auto_route := auto_route (tun c); auto_dns := auto_dns (tun c);
               auto_detect_interface := auto_detect_interface (tun c);
               interface := interface (tun c); mtu := mtu (tun c);
               dns_hijack := dns_hijack (tun c) |};
     rest := rest c |}.

Definition resource_core (o : Os) (config dir : text) : outcome CoreState :=
  obnd (Config_parse config) (fun c => Core_new o (resource_config c dir) HostHooks_default).

Definition prefetch_result (o : Os) (config dir : text) : bool * Os :=
  match obnd (resource_core o config dir) (fun k => obnd (resource_freshness o k) (fun f => Ok (k, f))) with
  | Ok (_, Current) => (true, o)
  | Ok (k, _) => let '(r, o') := prepare_resources o k in (is_ok r, o')
  | _ => (false, o)
  end.

Definition settings_of (c : Config ConfigRest) : host_settings :=
  {| hs_packet_io := tun_on (tun c); hs_mtu := mtu (tun c); hs_dns_interception := dns_hijack (tun c);
     hs_listeners := [port c; socks_port c; mixed_port c]; hs_dns_listener := dns_enable c;
     hs_controller := external_controller c; hs_native_routes := auto_route (tun c);
     hs_native_dns := auto_dns (tun c);
     hs_native_interface := auto_detect_interface (tun c) ||
                            match interface (tun c) with Some _ => true | None => false end;
     hs_directory := directory c |}.

(** The parts of an online update. *)
Definition optional {A} (f : Value -> outcome A) (v : option Value) : outcome (option A) :=
  match v with Some x => obnd (f x) (fun a => Ok (Some a)) | None => Ok None end.

Fixpoint field (k : text) (o : list (text * Value)) : option Value :=
  match o with
  | [] => None
  | (i, v) :: o' => if list_eq_dec Z.eq_dec i k then Some v else field k o'
  end.

Definition online_key (k : text) : bool :=
  text_eqb k (lit "mode") || text_eqb k (lit "rules") || text_eqb k (lit "adblock-allow").

Definition set_allow (h : Handle CoreState) (allow : Value) : bool * Handle CoreState :=
  match allow_from_value allow with
  | Ok a => let '(r, c) := core_set_adblock_allow (core h) a in (is_ok r, set_core c h)
  | _ => (false, h)
  end.

Definition set_mode_rules (h : Handle CoreState) (mode rules : option Value) : bool * Handle CoreState :=
  match optional mode_from_value mode, optional rules_from_value rules with
  | Ok mode, Ok rules => let '(r, c) := core_update_policy (core h) mode rules in (is_ok r, set_core c h)
  | _, _ => (false, h)
  end.

(** What a snapshot shows of the last probe of a name. *)
Definition probe_entry (h : Handle CoreState) (name : text) : option (Z + text) :=
  match core_probes (core h) name with
  | Some (Some delay, _, _) => Some (inl delay)
  | Some (None, Some error, _) => Some (inr error)
  | _ => None
  end.

#[export] Instance api : ApiSemantics := {|
  Env := Os;
  Core := Handle CoreState;
  Policy := ConfigRest;
  utf8 := utf8_valid;
  legacy_decrypt c p := ok_of (decrypt c p);
  legacy_encrypt y p := ok_of (encrypt y p);
  yaml_valid y := is_ok (Config_parse y);
  yaml_policy y := option_map rest (ok_of (Config_parse y));
  rule_valid r := is_ok (custom_validate r);
  rule_targets c := ok_of (obnd (custom_targets c) strings_to_vec);
  rules_applied c r :=
    ok_of (obnd (strings_from_slice r) (fun rs => obnd (custom_apply c rs) applied_to_vec));
  overrides_applied c o :=
    ok_of (obnd (overrides_from_slice o) (fun ov => overrides_apply ov c));
  yaml_first_error c := ok_of (syntax_to_vec (syntax_check c));
  cos_target u := ok_of (cos_target_to_vec (from_url u));
  put_object o r d :=
    match cos_request_from_slice r with
    | Ok q => (is_ok (fst (cos_put_object o q d)), snd (cos_put_object o q d))
    | _ => (false, o)
    end;
  prefetch := prefetch_result;
  resources o c d := ok_of (obnd (resource_core o c d) (resource_freshness o));
  directory_usable o d := path_is_absolute d && path_is_dir o d;
  settings h := settings_of (core_config (core h));
  policy h := rest (core_config (core h));
  packet_queue h := packet_queue_enabled h;
  packet_room h := match packet_input h with Some c => zlength (queued c) <? capacity c | None => false end;
  packets_taken h := match packet_input h with Some c => negb (closed c) | None => false end;
  packets_ended h := closed (receiver (packet_output h));
  started h := lifecycle_started h;
  stopped h := stop h;
  tunnel h := tun_enable h;
  snapshot_json h := ok_of (snapshot_to_vec (core h) (stop h));
  connection_count h := core_connections_count (core h);
  upload h := core_upload (core h);
  download h := core_download (core h);
  status_json s n u d := ok_of (status_to_vec s n u d);
  select_node h g n := let '(r, c) := core_select (core h) g n in (is_ok r, set_core c h);
  close_one h i := set_core (core_close_connection (core h) i) h;
  close_all h := set_core (core_close_connections (core h)) h;
  report_network h n :=
    match network_from_slice n with
    | Ok i => let '(r, c) := core_set_network (core h) i in (is_ok r, set_core c h)
    | _ => (false, h)
    end;
  note_network_change h := set_network (u64 (network h + 1)) h;
  Json := Value;
  json_object j := ok_of (obnd (from_slice j) (fun v => match as_object v with Some o => Ok o | None => Err [] end));
  set_exceptions := set_allow;
  set_policy := set_mode_rules;
  probe_shown := probe_entry;
  dns_audit_json h := ok_of (dns_leak_to_vec (core_dns_leak_audit (core h)) None) |}.

Definition view_of (w : world) : view :=
  {| v_mem := mem w; v_error := error_text w; v_cores := handles w;
     v_readable := fun i => match assoc i (handles w) with
                            | Some h => readable (packet_output h)
                            | None => []
                            end;
     v_written := fun i => match assoc i (handles w) with
                           | Some h => match packet_input h with
                                       | Some c => queued c
                                       | None => []
                                       end
                           | None => []
                           end;
     v_logs := log_lines w; v_env := os w |}.

End Meaning.

(** ** Reading arguments *)

Section Lemmas.
Context {K : Crates} {M : Mpsc} {C : CipherCrates}.
Implicit Types (t : thread) (w : world) (s : meta_status).

Lemma ok_of_obnd {A B} (m : outcome A) (k : A -> outcome B) :
  ok_of (obnd m k) = obind (ok_of m) (fun a => ok_of (k a)).
Proof. now destruct m. Qed.

Lemma fbind_run {A B} (m : ffi A) (k : A -> ffi B) t w r w' :
  m t w = (r, w') ->
  fbind m k t w = match r with Ok a => k a t w' | Err e => (Err e, w') | Panic => (Panic, w') end.
Proof. unfold fbind. intros ->. now destruct r. Qed.

Lemma input_run data len limit t w :
  exists r, input_with_limit data len limit t w = (r, w) /\ ok_of r = argument limit (mem w) data len.
Proof.
  unfold input_with_limit, argument, ensure.
  destruct ((len <=? limit) && ((len =? 0) || negb (data =? 0))) eqn:E; [|now eexists].
  cbn [fbind fret]. destruct (Z.eqb_spec len 0) as [->|]; eexists; split; try reflexivity.
Qed.

Lemma input_str_run data len t w :
  exists r, input_str data len t w = (r, w) /\ ok_of r = utf8_argument (mem w) data len.
Proof.
  unfold input_str, input, utf8_argument. change input_limit with LIMIT. destruct (input_run data len LIMIT t w) as (r & E & <-).
  rewrite (fbind_run _ _ _ _ _ _ E). destruct r; cbn [ok_of obind]; try now eexists.
  unfold from_utf8. cbn [utf8 api]. destruct (utf8_valid a); now eexists.
Qed.

Lemma input_eq d n t w :
  input d n t w = match argument input_limit (mem w) d n with
                  | Some x => (Ok x, w)
                  | None => (Err (lit "invalid input buffer"), w)
                  end.
Proof.
  unfold input, input_with_limit, argument, ensure. change input_limit with LIMIT.
  destruct ((n <=? LIMIT) && ((n =? 0) || negb (d =? 0))); [|reflexivity].
  cbn [fbind fret]. now destruct (Z.eqb_spec n 0) as [->|].
Qed.

(** Why a string argument was refused. *)
Definition str_error w (d n : Z) : text :=
  match argument input_limit (mem w) d n with
  | Some x => utf8_error x
  | None => lit "invalid input buffer"
  end.

Lemma input_str_eq d n t w :
  input_str d n t w = match utf8_argument (mem w) d n with
                      | Some x => (Ok x, w)
                      | None => (Err (str_error w d n), w)
                      end.
Proof.
  unfold input_str, fbind. rewrite input_eq. unfold utf8_argument, str_error.
  destruct (argument input_limit (mem w) d n) as [x|]; [|reflexivity].
  cbn [obind]. unfold from_utf8. cbn [utf8 api]. now destruct (utf8_valid x).
Qed.

Lemma handle_eq id t w : handles_poisoned w = false ->
  handle id t w = match assoc id (handles w) with
                  | Some h => (Ok h, w)
                  | None => (Err (lit "invalid or destroyed core handle"), w)
                  end.
Proof.
  intros H. unfold handle, lock_handles, gets, fbind. rewrite H.
  cbn [fret]. now destruct (assoc id (handles w)).
Qed.

Lemma assoc_set_same {A} k (x : A) l y : assoc k l = Some y -> assoc k (assoc_set k x l) = Some x.
Proof.
  induction l as [|[i z] l IH]; cbn [assoc assoc_set]; [discriminate|].
  destruct (Z.eqb_spec i k) as [->|Hn]; intros H; cbn [assoc].
  - now rewrite Z.eqb_refl.
  - destruct (Z.eqb_spec i k); [easy|]. now apply IH.
Qed.

Lemma assoc_in_keys {A} k (x : A) l : assoc k l = Some x -> In k (map fst l).
Proof.
  induction l as [|[i y] l IH]; [discriminate|]. cbn [assoc map fst].
  destruct (Z.eqb_spec i k); [now left|]. intros H. right. now apply IH.
Qed.

Lemma assoc_set_none {A} k (x : A) l : assoc k l = None -> assoc k (assoc_set k x l) = None.
Proof.
  induction l as [|[i y] l IH]; [reflexivity|]. cbn [assoc assoc_set].
  destruct (i =? k) eqn:E; [discriminate|]. cbn [assoc]. now rewrite E.
Qed.

Lemma assoc_set_other {A} k j (x : A) l : j <> k -> assoc j (assoc_set k x l) = assoc j l.
Proof.
  intros Hj. induction l as [|[i z] l IH]; [reflexivity|]. cbn [assoc_set].
  destruct (Z.eqb_spec i k) as [->|Hn]; cbn [assoc].
  - destruct (Z.eqb_spec k j); [congruence|reflexivity].
  - now rewrite IH.
Qed.

Lemma assoc_set_keys {A} k (x : A) l : map fst (assoc_set k x l) = map fst l.
Proof.
  induction l as [|[i z] l IH]; [reflexivity|]. cbn [assoc_set].
  destruct (i =? k); cbn [map fst]; [reflexivity|now rewrite IH].
Qed.

(** ** Writing an answer *)

Lemma output_run p buffer capacity length t w :
  output p buffer capacity length t w =
  if length =? 0 then (Err (lit "output length is required"), w)
  else
    let w1 := set_mem (store_u64 (mem w) length (zlength p)) w in
    if capacity <? zlength p then (Ok META_BUFFER_TOO_SMALL, w1)
    else if zlength p =? 0 then (Ok META_OK, w1)
    else if buffer =? 0 then (Err (lit "invalid output buffer"), w1)
    else (Ok META_OK, set_mem (store_bytes (store_u64 (mem w) length (zlength p)) buffer p) w).
Proof.
  unfold output, ensure, write_mem, modify, fbind, fret, ferr.
  destruct (length =? 0); cbn [negb]; [reflexivity|].
  destruct (capacity <? zlength p); [reflexivity|].
  destruct (zlength p =? 0), (buffer =? 0); reflexivity.
Qed.

(** The caller-buffer contract of [output]. *)
Lemma output_buffer p buffer capacity length t w s w' :
  output p buffer capacity length t w = (Ok s, w') ->
  caller_buffer p buffer capacity length (mem w) s (mem w') /\ w' = set_mem (mem w') w.
Proof.
  rewrite output_run. destruct (Z.eqb_spec length 0) as [|Hl]; [discriminate|]. cbv zeta.
  set (m1 := store_u64 (mem w) length (zlength p)).
  assert (Hn : zlength p <= SIZE_MAX -> load_u64 m1 length = zlength p).
  { intros. apply load_u64_store. pose proof (zlength_nonneg p). unfold SIZE_MAX in *. lia. }
  assert (O : forall rs, In (length, 8) rs -> only_changed rs (mem w) m1)
    by (intros; now apply only_changed_store_u64).
  destruct (Z.ltb_spec capacity (zlength p)).
  { intros E. injection E as <- <-. split; [|reflexivity].
    split; [easy|]. split; [intros Hs _; now apply Hn|]. split; [easy|]. apply O. now left. }
  destruct (Z.eqb_spec (zlength p) 0) as [Hz|Hz].
  { intros E. injection E as <- <-. split; [|reflexivity].
    split; [easy|]. split; [intros Hs _; now apply Hn|]. apply zlength_zero_inv in Hz as ->.
    repeat split; try easy; try lia. apply O. now left. }
  destruct (Z.eqb_spec buffer 0) as [|Hb]; [discriminate|].
  intros E. injection E as <- <-. split; [|reflexivity].
  split; [easy|]. split.
  { intros Hs D. cbn [mem set_mem]. rewrite load_u64_disjoint; [now apply Hn|].
    unfold disjoint in *. lia. }
  cbn [mem set_mem]. split; [easy|]. split; [easy|]. split; [apply load_store_same|].
  eapply only_changed_trans; [apply O; now left|].
  apply only_changed_store. right. now left.
Qed.

Lemma caller_buffer_cleared p b c l m s m' :
  caller_buffer p b c l (store_u64 m l 0) s m' -> caller_buffer p b c l m s m'.
Proof.
  assert (O : forall rs, In (l, 8) rs -> only_changed rs m (store_u64 m l 0))
    by (intros; now apply only_changed_store_u64).
  unfold caller_buffer. intros (Hl & Hn & H). split; [easy|]. split; [easy|].
  destruct s; try easy.
  - destruct H as (H1 & H2 & H3 & H4). repeat split; try easy.
    eapply only_changed_trans; [apply O; now left|exact H4].
  - destruct H as (H1 & H2). split; [easy|].
    eapply only_changed_trans; [apply O; now left|exact H2].
Qed.

Lemma output_error p buffer capacity length t w r w' :
  output p buffer capacity length t w = (r, w') -> ok_of r = None ->
  only_changed (target length 8) (mem w) (mem w') /\ w' = set_mem (mem w') w /\
  ~ can_answer buffer capacity length /\ r <> Panic.
Proof.
  rewrite output_run. unfold can_answer, target. destruct (Z.eqb_spec length 0) as [|Hl].
  { intros E _. injection E as <- <-. repeat split; try easy. now destruct w. }
  cbv zeta. destruct (Z.ltb_spec capacity (zlength p));
    [intros E H'; injection E as <- <-; discriminate|].
  destruct (Z.eqb_spec (zlength p) 0); [intros E H'; injection E as <- <-; discriminate|].
  destruct (Z.eqb_spec buffer 0) as [->|]; intros E H'; injection E as <- <-; [|discriminate].
  repeat split; try easy.
  - apply only_changed_store_u64. now left.
  - intros (_ & [? | ->]); [easy|]. pose proof (zlength_nonneg p). lia.
Qed.

(** ** Recording errors *)

Lemma boundary_run op t w r w' : op t w = (r, w') ->
  boundary op t w =
  match r with
  | Ok s => (s, w')
  | Err e => (META_ERROR, set_error t e w')
  | Panic => (META_ERROR, set_error t (lit "panic contained at C ABI boundary") w')
  end.
Proof. unfold boundary. intros ->. now destruct r. Qed.

(** An operation that fails records an error and otherwise leaves what it did. *)
Lemma boundary_fails op t w r w' : op t w = (r, w') -> ok_of r = None ->
  exists e, boundary op t w = (META_ERROR, set_error t e w').
Proof. intros E H. rewrite (boundary_run _ _ _ _ _ E). destruct r; [discriminate|eauto..]. Qed.

Lemma error_frame_fail t w w' e :
  error_text w' = error_text w ->
  error_frame t (view_of w) META_ERROR (view_of (set_error t e w')).
Proof. intros H. exists e. intros t'. cbn [view_of v_error set_error error_text]. now rewrite H. Qed.

Lemma error_frame_ok t w w' s :
  s <> META_ERROR -> error_text w' = error_text w -> error_frame t (view_of w) s (view_of w').
Proof. intros Hs H. destruct s; try easy; intros t'; cbn [view_of v_error]; now rewrite H. Qed.

(** ** Queries

    [answers op t w buffer capacity length a]: from [w] the operation writes
    the text [a], or fails without effect when there is none. *)
Definition answers (op : ffi meta_status) t w (buffer capacity length : Z) (a : option text) : Prop :=
  match a with
  | Some p => op t w = output p buffer capacity length t w
  | None => exists r, op t w = (r, w) /\ ok_of r = None
  end.

Lemma answers_output p t w b c l : answers (output p b c l) t w b c l (Some p).
Proof. reflexivity. Qed.

Lemma answers_bind {A} (m : ffi A) k t w b c l r o f :
  m t w = (r, w) -> ok_of r = o ->
  (forall a, answers (k a) t w b c l (f a)) ->
  answers (fbind m k) t w b c l (obind o f).
Proof.
  intros E <- H. unfold answers. destruct r as [x|e|]; cbn [ok_of obind].
  - specialize (H x). unfold answers in H. now rewrite (fbind_run _ _ _ _ _ _ E).
  - exists (Err e). now rewrite (fbind_run _ _ _ _ _ _ E).
  - exists Panic. now rewrite (fbind_run _ _ _ _ _ _ E).
Qed.

Lemma answers_lift {A} (m : outcome A) k t w b c l f :
  (forall a, answers (k a) t w b c l (ok_of (f a))) ->
  answers (fbind (lift m) k) t w b c l (ok_of (obnd m f)).
Proof. intros H. rewrite ok_of_obnd. now apply (answers_bind _ _ _ _ _ _ _ m). Qed.

Lemma answers_last (m : outcome text) t w b c l :
  answers (let! p := lift m in output p b c l) t w b c l (ok_of m).
Proof. unfold answers. destruct m; cbn; now eauto. Qed.

Lemma answers_input d n lim k t w b c l f :
  (forall a, answers (k a) t w b c l (f a)) ->
  answers (fbind (input_with_limit d n lim) k) t w b c l (obind (argument lim (mem w) d n) f).
Proof. destruct (input_run d n lim t w) as (r & E & H). intros. now apply (answers_bind _ _ _ _ _ _ _ r). Qed.

Lemma answers_input_str d n k t w b c l f :
  (forall a, answers (k a) t w b c l (f a)) ->
  answers (fbind (input_str d n) k) t w b c l (obind (utf8_argument (mem w) d n) f).
Proof. destruct (input_str_run d n t w) as (r & E & H). intros. now apply (answers_bind _ _ _ _ _ _ _ r). Qed.

Lemma answers_handle id k t w b c l f : handles_poisoned w = false ->
  (forall h, answers (k h) t w b c l (f h)) ->
  answers (fbind (handle id) k) t w b c l (obind (assoc id (handles w)) f).
Proof.
  intros P H. apply (answers_bind _ _ _ _ _ _ _
    (match assoc id (handles w) with
     | Some h => Ok h
     | None => Err (lit "invalid or destroyed core handle")
     end)); [rewrite handle_eq by exact P| |exact H]; now destruct (assoc id (handles w)).
Qed.

Lemma view_set_mem m w : view_of (set_mem m w) =
  {| v_mem := m; v_error := error_text w; v_cores := handles w;
     v_readable := v_readable (view_of w); v_written := v_written (view_of w);
     v_logs := log_lines w; v_env := os w |}.
Proof. reflexivity. Qed.

(** The contract of every call that answers a query. *)
Lemma answers_contract op t w b c l a s w' :
  answers op t w b c l a -> boundary op t w = (s, w') ->
  text_query a b c l t (view_of w) s (view_of w') /\
  w' = set_mem (mem w') (if meta_status_eqb s META_ERROR then set_error t (error_text w' t) w else w).
Proof.
  intros H E. destruct a as [p|]; cbn [answers] in H.
  - destruct (output p b c l t w) as [[s'|e|] w1] eqn:O.
    + rewrite (boundary_run _ _ _ _ _ H) in E. injection E as <- <-.
      destruct (output_buffer _ _ _ _ _ _ _ _ O) as [B Ew].
      destruct s' eqn:Es; try now destruct B as (_ & _ & B).
      all: split; [|exact Ew]; split; [apply error_frame_ok; [easy|now rewrite Ew]|].
      all: split; [now rewrite Ew|eauto].
    + destruct (boundary_fails _ _ _ _ _ H eq_refl) as [e' B]. rewrite B in E. injection E as <- <-.
      destruct (output_error _ _ _ _ _ _ _ _ O eq_refl) as (Oc & Ew & Na & _).
      split; [|rewrite Ew at 1; cbn; unfold set_at; now rewrite Z.eqb_refl].
      split; [apply error_frame_fail; now rewrite Ew|]. split; [now rewrite Ew|].
      split; [exact Oc|]. intros X. now destruct (Na X).
    + now destruct (output_error _ _ _ _ _ _ _ _ O eq_refl) as (_ & _ & _ & X).
  - destruct H as (r & H & Hr). destruct (boundary_fails _ _ _ _ _ H Hr) as [e' B].
    rewrite B in E. injection E as <- <-.
    split; [|cbn; unfold set_at; rewrite Z.eqb_refl; now destruct w].
    split; [now apply error_frame_fail|]. split; [easy|]. split; [|easy]. apply only_changed_refl.
Qed.

End Lemmas.

(** Follow a query to its output. *)
Ltac answer :=
  repeat lazymatch goal with
    | |- answers (output _ _ _ _) _ _ _ _ _ _ => apply answers_output
    | |- answers (fbind (input_str _ _) _) _ _ _ _ _ _ => apply answers_input_str; intros ?
    | |- answers (fbind (input _ _) _) _ _ _ _ _ _ => apply answers_input; intros ?
    | |- answers (fbind (input_with_limit _ _ _) _) _ _ _ _ _ _ => apply answers_input; intros ?
    | |- answers (fbind (handle _) _) _ _ _ _ _ _ => apply answers_handle; [assumption|]; intros ?
    | |- answers (fbind (lift _) (fun p => output p _ _ _)) _ _ _ _ _ _ => apply answers_last
    | |- answers (fbind (lift _) _) _ _ _ _ _ _ => apply answers_lift; intros ?
    end.

(** Run a call to each of its ends, by case analysis on whatever decides the
    next step in [E]. *)
Ltac run_call E :=
  unfold boundary, put_handle, context_of, lock_handles, ensure, write_mem, modify, gets, lift,
    fbind, fret, ferr, fpanic, this_thread in E;
  repeat first
    [ rewrite input_eq in E
    | rewrite input_str_eq in E
    | rewrite handle_eq in E by assumption
    | match type of E with
      | context [match ?x with _ => _ end] =>
          lazymatch x with
          | context [match _ with _ => _ end] => fail
          | _ => let X := fresh "X" in destruct x eqn:X
          end
      end ];
  apply pair_equal_spec in E; destruct E as [<- <-].

(** The parts of a contract that every call meets in the same way. *)
Ltac recorded :=
  first [ apply error_frame_fail; reflexivity | apply error_frame_ok; [discriminate|reflexivity] ].

(** Carry what [run_call] learned into the goal. *)
Ltac settle :=
  cbn [is_ok obnd obind ok_of fst snd andb negb set_os set_mem set_error set_registry mem os handles Core Env api];
  repeat (match goal with H : ?x = _ |- context [?x] => rewrite H end;
          cbn [is_ok obnd obind ok_of fst snd andb negb set_os set_mem set_error set_registry mem os handles Core Env api]).
