(* ===== verification/ConfigCalls.v ===== *)
(** * The calls without a handle

    The exported functions of [crates/ffi/src/lib.rs] that work on
    configurations and routing files: encryption and decryption, custom rules,
    overrides, the syntax check, uploads, and the routing resources.  Each is
    shown to meet its contract of [CApi]; an encrypted configuration decrypts
    to the same bytes through the C functions themselves. *)
From S2P Require Import Prelude CMemory CApi ConfigCrypto Host Ffi FfiContract.
From Stdlib Require Import String ZArith List Lia Bool.
Import ListNotations.
Open Scope Z_scope.

Section ConfigCalls.
Context {K : Crates} {M : Mpsc} {C : CipherCrates}.
Implicit Types (t : thread) (w : world) (s : meta_status).

Abbreviation call := (thread -> world -> meta_status * world).

(** [map_err(|_| anyhow!(e))]: the error is replaced, a panic is not. *)
Definition map_err {A} (m : outcome A) (e : text) : outcome A :=
  match m with Ok a => Ok a | Err _ => Err e | Panic => Panic end.

Definition meta_decrypt_config_v1 (data len password password_len buffer capacity length : Z) : call :=
  boundary (
    ensure (negb (length =? 0)) (lit "output length is required") ;!
    write_mem (fun m => store_u64 m length 0) ;!
    ensure ((capacity =? 0) || negb (buffer =? 0)) (lit "invalid output buffer") ;!
    let! ciphertext := input_with_limit data len (24 * 1024 * 1024) in
    let! password := input_str password password_len in
    let ciphertext := filter (fun byte => negb (ascii_whitespace byte)) ciphertext in
    let! plaintext := lift (map_err (decrypt ciphertext password)
      (lit "cannot decrypt configuration: check password and format")) in
    ensure (negb (zlength plaintext =? 0) && (zlength plaintext <=? LIMIT))
      (lit "decrypted configuration is empty or exceeds 16 MiB") ;!
    let! _ := lift (map_err (Config_parse plaintext)
      (lit "cannot decrypt configuration: check password and format")) in
    output plaintext buffer capacity length).

Definition meta_encrypt_config_v1 (data len password password_len buffer capacity length : Z) : call :=
  boundary (
    ensure (negb (length =? 0)) (lit "output length is required") ;!
    write_mem (fun m => store_u64 m length 0) ;!
    ensure ((capacity =? 0) || negb (buffer =? 0)) (lit "invalid output buffer") ;!
    let! plaintext := input_with_limit data len LIMIT in
    let! password := input_str password password_len in
    ensure (negb (zlength password =? 0)) (lit "password is required") ;!
    let! _ := lift (Config_parse plaintext) in
    let! encoded := lift (encrypt plaintext password) in
    output encoded buffer capacity length).

Definition meta_custom_rule_validate_v1 (rule len : Z) : call :=
  boundary (
    let! r := input_str rule len in
    lift (custom_validate r) ;!
    fret META_OK).

Definition meta_custom_rule_targets_v1 (config len buffer capacity length : Z) : call :=
  boundary (
    let! yaml := input_str config len in
    let! targets := lift (custom_targets yaml) in
    let! json := lift (strings_to_vec targets) in
    output json buffer capacity length).

Definition meta_custom_rules_apply_v1 (config len rules rules_len buffer capacity length : Z) : call :=
  boundary (
    let! yaml := input_str config len in
    let! rules := input rules rules_len in
    let! rules := lift (strings_from_slice rules) in
    let! applied := lift (custom_apply yaml rules) in
    let! json := lift (applied_to_vec applied) in
    output json buffer capacity length).

Definition meta_overrides_apply_v1 (config len overrides overrides_len buffer capacity length : Z) : call :=
  boundary (
    let! yaml := input_str config len in
    let! overrides := input overrides overrides_len in
    let! overrides := lift (overrides_from_slice overrides) in
    let! yaml := lift (overrides_apply overrides yaml) in
    output yaml buffer capacity length).

Definition meta_yaml_check_v1 (config len buffer capacity length : Z) : call :=
  boundary (
    let! yaml := input_str config len in
    let! json := lift (syntax_to_vec (syntax_check yaml)) in
    output json buffer capacity length).

Definition meta_cos_target_v1 (url len buffer capacity length : Z) : call :=
  boundary (
    let! url := input_str url len in
    let! json := lift (cos_target_to_vec (from_url url)) in
    output json buffer capacity length).

(** An operation on the outside world. *)
Definition outside {A} (f : Os -> outcome A * Os) : ffi A :=
  fun _ w => let '(r, o) := f (os w) in (r, set_os o w).

Definition meta_cos_put_v1 (request request_len data len : Z) : call :=
  boundary (
    let! request := input request request_len in
    let! request := lift (cos_request_from_slice request) in
    let! body := input data len in
    outside (fun o => cos_put_object o request body) ;!
    fret META_OK).

Definition meta_prefetch_resources_v1 (data len directory directory_len : Z) : call :=
  boundary (
    let! yaml := input data len in
    let! config := lift (Config_parse yaml) in
    let! path := input_str directory directory_len in
    let! is_dir := gets (fun w => path_is_dir (os w) path) in
    ensure (path_is_absolute path && is_dir) (lit "resource directory must exist and be absolute") ;!
    let! core := (fun t w => (Core_new (os w) (resource_config config path) HostHooks_default, w)) in
    let! freshness := (fun t w => (resource_freshness (os w) core, w)) in
    match freshness with
    | Current => fret META_OK
    | _ => outside (fun o => prepare_resources o core) ;! fret META_OK
    end).

(** The number of a freshness. *)
Definition resource_state_code (r : resource_state) : Z :=
  match r with Current => 0 | Expired => 1 | Missing => 2 end.

Definition meta_resources_state_v1 (data len directory directory_len state : Z) : call :=
  boundary (
    ensure (negb (state =? 0)) (lit "state output is required") ;!
    let! yaml := input data len in
    let! config := lift (Config_parse yaml) in
    let! path := input_str directory directory_len in
    let! core := (fun t w => (Core_new (os w) (resource_config config path) HostHooks_default, w)) in
    let! freshness := (fun t w => (resource_freshness (os w) core, w)) in
    write_mem (fun m => store_u32 m state (resource_state_code freshness)) ;!
    fret META_OK).

(** ** The contracts of the query functions *)

(** C24: The calls that answer with a text (rule targets, applied rules,
    applied overrides, syntax check, upload target) meet the caller-buffer
    contract of the header: META_OK puts exactly the answer into the buffer and
    its size into the length; META_BUFFER_TOO_SMALL reports the required size
    and writes nothing else; META_ERROR is returned only when there is no
    answer or the buffer arguments are unusable, changes at most the length and
    records an error for the calling thread alone; no handle changes. *)
Theorem text_calls_meet_contract t w s w' p n q k b c l :
  (meta_custom_rule_targets_v1 p n b c l t w = (s, w') ->
   meta_custom_rule_targets_v1_contract p n b c l t (view_of w) s (view_of w')) /\
  (meta_custom_rules_apply_v1 p n q k b c l t w = (s, w') ->
   meta_custom_rules_apply_v1_contract p n q k b c l t (view_of w) s (view_of w')) /\
  (meta_overrides_apply_v1 p n q k b c l t w = (s, w') ->
   meta_overrides_apply_v1_contract p n q k b c l t (view_of w) s (view_of w')) /\
  (meta_yaml_check_v1 p n b c l t w = (s, w') ->
   meta_yaml_check_v1_contract p n b c l t (view_of w) s (view_of w')) /\
  (meta_cos_target_v1 p n b c l t w = (s, w') ->
   meta_cos_target_v1_contract p n b c l t (view_of w) s (view_of w')).
Proof.
  split; [|split; [|split; [|split]]]; intros E;
    (eapply proj1, answers_contract; [|exact E]); cbn [rule_targets rules_applied
    overrides_applied yaml_first_error cos_target api view_of v_mem]; answer.
Qed.

(** ** Encryption and decryption *)

(** Both functions clear the length first and refuse a null buffer with a
    capacity. *)
Definition cleared_query (buffer capacity length : Z) (body : ffi meta_status) : ffi meta_status :=
  ensure (negb (length =? 0)) (lit "output length is required") ;!
  write_mem (fun m => store_u64 m length 0) ;!
  ensure ((capacity =? 0) || negb (buffer =? 0)) (lit "invalid output buffer") ;!
  body.

Lemma cleared_query_contract b c l body t w a s w' :
  answers body t (set_mem (store_u64 (mem w) l 0) w) b c l a ->
  boundary (cleared_query b c l body) t w = (s, w') ->
  text_query a b c l t (view_of w) s (view_of w') /\
  (s = META_ERROR -> l <> 0 -> load_u64 (mem w') l = 0).
Proof.
  set (w0 := set_mem _ w). intros Ha E. unfold boundary, cleared_query, ensure, write_mem, modify in E.
  destruct (Z.eqb_spec l 0) as [Hl|Hl]; cbn [negb fbind fret ferr] in E.
  { injection E as <- <-. split; [|easy]. split; [now apply error_frame_fail|].
    split; [easy|]. split; [apply only_changed_refl|]. now intros [? _]. }
  fold w0 in E. destruct ((c =? 0) || negb (b =? 0)) eqn:G; cbn [fbind fret ferr] in E.
  2: { injection E as <- <-. split; [|intros _ _; now apply load_u64_store].
    split; [now apply error_frame_fail|]. split; [easy|]. split.
    - unfold target. rewrite (proj2 (Z.eqb_neq l 0) Hl). apply only_changed_store_u64. now left.
    - intros (_ & ?). bsplit. lia. }
  change (boundary body t w0 = (s, w')) in E.
  assert (Hc : can_answer b c l).
  { split; [easy|]. apply orb_true_iff in G as [G|G]; bsplit; lia. }
  destruct (answers_contract _ _ _ _ _ _ _ _ _ Ha E) as [(Her & Hv & H) Ew].
  split; [split; [|split]|].
  - exact Her.
  - now rewrite Hv.
  - destruct s; try easy.
    + destruct H as (p & Hp & H). exists p. split; [easy|]. now apply caller_buffer_cleared.
    + destruct H as [H Hn]. split; [|easy]. eapply only_changed_trans; [|exact H].
      unfold target. rewrite (proj2 (Z.eqb_neq l 0) Hl). apply only_changed_store_u64. now left.
    + destruct H as (p & Hp & H). exists p. split; [easy|]. now apply caller_buffer_cleared.
  - intros -> _. destruct H as [_ H]. specialize (H Hc) as ->.
    destruct Ha as (r & Hr & Hn). destruct (boundary_fails _ _ _ _ _ Hr Hn) as [e He].
    rewrite He in E. injection E as <-. now apply load_u64_store.
Qed.

(** Inputs apart from the length field are read as the host left them. *)
Lemma argument_cleared lim m l p n v :
  disjoint l 8 p n -> argument lim (store_u64 m l v) p n = argument lim m p n.
Proof. intros D. unfold argument. now rewrite load_bytes_store_u64. Qed.

Lemma utf8_argument_cleared m l p n v :
  disjoint l 8 p n -> utf8_argument (store_u64 m l v) p n = utf8_argument m p n.
Proof. intros D. unfold utf8_argument. now rewrite argument_cleared. Qed.

Lemma answers_ensure (b0 : bool) e k t w b c l o :
  (b0 = true -> answers k t w b c l o) ->
  answers (ensure b0 e ;! k) t w b c l (if b0 then o else None).
Proof. destruct b0; intros H; [exact (H eq_refl)|]. now eexists. Qed.

Lemma ok_of_map_err {A} (m : outcome A) e : ok_of (map_err m e) = ok_of m.
Proof. now destruct m. Qed.

Lemma if_is_ok {A B} (m : outcome A) (o : option B) :
  (if is_ok m then o else None) = obind (ok_of m) (fun _ => o).
Proof. now destruct m. Qed.

Lemma if_andb {A} (a b : bool) (o : option A) :
  (if a && b then o else None) = if a then (if b then o else None) else None.
Proof. now destruct a. Qed.

Lemma decrypt_contract t w s w' p n q k b c l :
  disjoint l 8 p n -> disjoint l 8 q k ->
  meta_decrypt_config_v1 p n q k b c l t w = (s, w') ->
  meta_decrypt_config_v1_contract p n q k b c l t (view_of w) s (view_of w').
Proof.
  intros D1 D2 E. unfold meta_decrypt_config_v1_contract. cbn [view_of v_mem].
  eapply cleared_query_contract; [|exact E].
  rewrite <- (argument_cleared _ _ l p n 0 D1), <- (utf8_argument_cleared _ l q k 0 D2).
  apply (answers_input _ _ (24 * MiB)). intros x. apply answers_input_str. intros y.
  unfold decrypted_yaml. cbn [legacy_decrypt yaml_valid api].
  eapply answers_bind; [reflexivity|apply ok_of_map_err|]. intros z.
  replace ((0 <? zlength z) && (zlength z <=? 16 * MiB)) with
    (negb (zlength z =? 0) && (zlength z <=? LIMIT)).
  2: { f_equal. pose proof (zlength_nonneg z). destruct (Z.eqb_spec (zlength z) 0), (Z.ltb_spec 0 (zlength z)); cbn; lia. }
  rewrite if_andb, if_is_ok. apply answers_ensure. intros _.
  eapply answers_bind; [reflexivity|apply ok_of_map_err|]. intros _. apply answers_output.
Qed.

Lemma encrypt_contract t w s w' p n q k b c l :
  disjoint l 8 p n -> disjoint l 8 q k ->
  meta_encrypt_config_v1 p n q k b c l t w = (s, w') ->
  meta_encrypt_config_v1_contract p n q k b c l t (view_of w) s (view_of w') /\
  (s = META_ERROR -> l <> 0 -> load_u64 (mem w') l = 0).
Proof.
  intros D1 D2 E. unfold meta_encrypt_config_v1_contract. cbn [view_of v_mem].
  eapply cleared_query_contract; [|exact E].
  rewrite <- (argument_cleared _ _ l p n 0 D1), <- (utf8_argument_cleared _ l q k 0 D2).
  apply (answers_input _ _ (16 * MiB)). intros x. apply answers_input_str. intros y.
  unfold encrypted_yaml. cbn [legacy_encrypt yaml_valid api].
  rewrite if_andb, if_is_ok. apply answers_ensure. intros _.
  eapply answers_bind; [reflexivity|reflexivity|]. intros _. apply answers_last.
Qed.

(** C8: Decryption returns exactly the plaintext of the ciphertext without its
    whitespace, and only a non-empty plaintext of at most 16 MiB that parses as
    a configuration; encryption accepts a configuration of at most 16 MiB that
    parses and a non-empty UTF-8 password, and returns the encoded text.  Both
    answer under the caller-buffer contract, and on every error the length is
    zero and, for decryption, the output buffer untouched. *)
Theorem cipher_calls_meet_contract t w s w' p n q k b c l :
  disjoint l 8 p n -> disjoint l 8 q k ->
  (meta_decrypt_config_v1 p n q k b c l t w = (s, w') ->
   meta_decrypt_config_v1_contract p n q k b c l t (view_of w) s (view_of w')) /\
  (meta_encrypt_config_v1 p n q k b c l t w = (s, w') ->
   meta_encrypt_config_v1_contract p n q k b c l t (view_of w) s (view_of w') /\
   (s = META_ERROR -> l <> 0 -> load_u64 (mem w') l = 0)).
Proof. intros Dp Dq. split; [now apply decrypt_contract|now apply encrypt_contract]. Qed.

(** ** What is exported can be imported *)

Lemma filter_all {A} (f : A -> bool) l : Forall (fun x => f x = true) l -> filter f l = l.
Proof. induction 1; cbn [filter]; [easy|]. rewrite H. now f_equal. Qed.

Lemma decrypted_encrypted {L : CipherLaws C} y pw e :
  bytes y -> 0 < zlength y <= 16 * MiB -> encrypted_yaml y pw = Some e ->
  0 < zlength e <= 24 * MiB /\ decrypted_yaml e pw = Some y.
Proof.
  unfold encrypted_yaml, decrypted_yaml. cbn [yaml_valid legacy_encrypt legacy_decrypt api].
  intros Hb Hn E. destruct (negb (zlength pw =? 0) && is_ok (Config_parse y)) eqn:G; [|discriminate].
  apply andb_true_iff in G as [_ G]. destruct (encrypt y pw) as [x| |] eqn:Ee; try discriminate.
  cbn [ok_of] in E. injection E as ->.
  assert (Hl : zlength e <= 24 * MiB) by (eapply encrypt_within_limit; eauto; apply Hn).
  split; [split; [|exact Hl]|].
  { rewrite (encrypt_length _ _ _ Hb Ee). Z.to_euclidean_division_equations. lia. } destruct (encrypt_visible _ _ _ Hb Ee) as [_ V].
  rewrite filter_all by (eapply Forall_impl; [|exact V]; cbn; now intros ? ->).
  rewrite (crypto_roundtrip _ _ _ Hb Ee Hl). cbn [ok_of obind]. rewrite G.
  destruct (Z.ltb_spec 0 (zlength y)), (Z.leb_spec (zlength y) (16 * MiB)); try lia. reflexivity.
Qed.

Lemma only_changed_load rs m m' p n :
  only_changed rs m m' -> Forall (fun r => disjoint (fst r) (snd r) p n) rs ->
  load_bytes m' p n = load_bytes m p n.
Proof.
  intros H D. apply load_ext. intros a Ha. apply H. eapply Forall_impl; [|exact D].
  intros r. unfold disjoint, in_region in *. lia.
Qed.

Lemma argument_some lim m p n x : argument lim m p n = Some x ->
  x = load_bytes m p n /\ n <= lim /\ (n = 0 \/ p <> 0).
Proof.
  unfold argument. destruct (_ && _) eqn:E; [|discriminate]. intros H. injection H as <-.
  apply andb_true_iff in E as [E1 E2]. apply orb_true_iff in E2. repeat split; [bsplit; lia|].
  destruct E2 as [E2|E2]; bsplit; auto.
Qed.

Lemma argument_ok lim m p n : n <= lim -> p <> 0 -> argument lim m p n = Some (load_bytes m p n).
Proof.
  intros. unfold argument. rewrite (proj2 (Z.leb_le n lim)), (proj2 (Z.eqb_neq p 0)) by easy.
  cbn [negb andb]. now rewrite orb_true_r.
Qed.

(** C5: A configuration exported through [meta_encrypt_config_v1] is imported
    by [meta_decrypt_config_v1] with the same password, from the buffer the
    first call wrote and with the length it reported, to the very same bytes. *)
Theorem export_import_roundtrip {L : CipherLaws C} t w w1 p n q k b c l b2 c2 l2 :
  0 < n -> 0 <= k -> bytes (load_bytes (mem w) p n) ->
  disjoint l 8 p n -> disjoint l 8 q k -> disjoint b c l 8 -> disjoint b c q k ->
  disjoint l2 8 b c -> disjoint l2 8 q k -> disjoint b2 c2 l2 8 ->
  n <= c2 -> b2 <> 0 -> l2 <> 0 ->
  meta_encrypt_config_v1 p n q k b c l t w = (META_OK, w1) ->
  exists w2, meta_decrypt_config_v1 b (load_u64 (mem w1) l) q k b2 c2 l2 t w1 = (META_OK, w2) /\
    load_bytes (mem w2) b2 n = load_bytes (mem w) p n /\ load_u64 (mem w2) l2 = n.
Proof.
  intros Hn Hk Hb D1 D2 D3 D4 D5 D6 D7 Hc2 Hb2 Hl2 E.
  destruct (encrypt_contract _ _ _ _ _ _ _ _ _ _ _ D1 D2 E) as [(_ & _ & e & Ha & B) _].
  cbn [view_of v_mem] in Ha, B. destruct (argument _ _ p n) as [y|] eqn:Ay; [|discriminate].
  apply argument_some in Ay as (-> & Hn16 & _). cbn [obind] in Ha.
  destruct (utf8_argument _ q k) as [pw|] eqn:Ap; [|discriminate]. cbn [obind] in Ha.
  set (y := load_bytes (mem w) p n) in *.
  assert (Hy : zlength y = n) by (apply zlength_load_bytes; lia).
  assert (Hy' : 0 < zlength y <= 16 * MiB) by (rewrite Hy; split; assumption).
  destruct (decrypted_encrypted _ _ _ Hb Hy' Ha) as [[He0 He] Hd].
  destruct B as (Hl & Hlen & Hec & Hne & Hload & Hch).
  rewrite Hlen; [|unfold MiB, SIZE_MAX in *; lia|exact D3].
  destruct (meta_decrypt_config_v1 b (zlength e) q k b2 c2 l2 t w1) as [s w2] eqn:E2.
  assert (D5' : disjoint l2 8 b (zlength e)) by (unfold disjoint in *; lia).
  destruct (decrypt_contract _ _ _ _ _ _ _ _ _ _ _ D5' D6 E2) as [(_ & _ & H) _].
  cbn [view_of v_mem] in H.
  assert (A : (let? x := argument (24 * MiB) (mem w1) b (zlength e) in
               let? p := utf8_argument (mem w1) q k in decrypted_yaml x p) = Some y).
  { rewrite argument_ok; [|exact He|apply Hne; intros ->; now apply Z.lt_irrefl in He0].
    cbn [obind]. rewrite Hload.
      assert (E' : utf8_argument (mem w1) q k = Some pw).
      { rewrite <- Ap. unfold utf8_argument, argument.
        rewrite (only_changed_load _ _ _ q k Hch); [easy|].
        constructor; [exact D2|constructor; [|constructor]]. cbn [fst snd]. unfold disjoint in *; lia. }
      now rewrite E'. }
  rewrite A in H. destruct s.
  - destruct H as (y' & Ey & H). injection Ey as <-.
    exists w2. split; [easy|]. destruct H as (_ & Hlen2 & _ & _ & Hload2 & _).
    rewrite Hy in Hlen2, Hload2. split; [exact Hload2|]. apply Hlen2; [|exact D7].
    unfold SIZE_MAX, MiB in *. lia.
  - destruct H as [_ H]. discriminate H. split; auto.
  - easy.
  - destruct H as (y' & Ey & H). injection Ey as <-. destruct H as (_ & _ & H & _). lia.
Qed.

(** ** Calls without a text *)

Lemma validate_contract p n t w s w' :
  meta_custom_rule_validate_v1 p n t w = (s, w') ->
  meta_custom_rule_validate_v1_contract p n t (view_of w) s (view_of w').
Proof.
  unfold meta_custom_rule_validate_v1, meta_custom_rule_validate_v1_contract. intros E.
  cbn [view_of v_mem v_cores rule_valid api].
  run_call E; cbn [is_ok]; repeat split; try recorded.
Qed.

Lemma cos_put_contract r n d k t w s w' :
  meta_cos_put_v1 r n d k t w = (s, w') ->
  meta_cos_put_v1_contract r n d k t (view_of w) s (view_of w').
Proof.
  unfold meta_cos_put_v1, meta_cos_put_v1_contract, outside. intros E.
  cbn [view_of v_mem v_cores v_env put_object api].
  run_call E; try destruct (argument input_limit (mem w) d k);
    cbn [is_ok fst snd set_os os handles]; repeat split; recorded.
Qed.

Lemma prefetch_contract p n d k t w s w' :
  meta_prefetch_resources_v1 p n d k t w = (s, w') ->
  meta_prefetch_resources_v1_contract p n d k t (view_of w) s (view_of w').
Proof.
  unfold meta_prefetch_resources_v1, meta_prefetch_resources_v1_contract, outside. intros E.
  cbn [view_of v_mem v_cores v_env prefetch yaml_valid directory_usable api].
  unfold prefetch_result, resource_core.
  run_call E; settle; try (destruct (utf8_argument (mem w) d k); settle);
    try destruct (path_is_absolute _ && path_is_dir _ _);
    repeat split; recorded.
Qed.

Lemma resources_state_contract p n d k o t w s w' :
  meta_resources_state_v1 p n d k o t w = (s, w') ->
  meta_resources_state_v1_contract p n d k o t (view_of w) s (view_of w').
Proof.
  unfold meta_resources_state_v1, meta_resources_state_v1_contract. intros E.
  cbn [view_of v_mem v_cores v_env resources yaml_valid api].
  unfold resource_core.
  run_call E; settle; split; try recorded; (split; [reflexivity|]).
  1: { split; [easy|]. split; [apply load_u32_store; now destruct a1|]. apply only_changed_store. now left. }
  all: try (destruct (argument input_limit (mem w) p n); settle);
    try (destruct (utf8_argument (mem w) d k); settle); try easy.
  now rewrite andb_false_r.
Qed.

(** C25: The remaining calls without a handle meet their contracts.  A rule is
    accepted exactly when its syntax is; an upload and a prefetch succeed
    exactly when the outside operation does and change the outside world as it
    does, the prefetch only for a valid configuration and a usable directory;
    the resource check reports current, expired or missing as 0, 1 or 2 and
    writes nothing else; failures change no memory and no handle. *)
Theorem plain_calls_meet_contract t w s w' p n q k o :
  (meta_custom_rule_validate_v1 p n t w = (s, w') ->
   meta_custom_rule_validate_v1_contract p n t (view_of w) s (view_of w')) /\
  (meta_cos_put_v1 p n q k t w = (s, w') ->
   meta_cos_put_v1_contract p n q k t (view_of w) s (view_of w')) /\
  (meta_prefetch_resources_v1 p n q k t w = (s, w') ->
   meta_prefetch_resources_v1_contract p n q k t (view_of w) s (view_of w')) /\
  (meta_resources_state_v1 p n q k o t w = (s, w') ->
   meta_resources_state_v1_contract p n q k o t (view_of w) s (view_of w')).
Proof.
  split; [apply validate_contract|]. split; [apply cos_put_contract|].
  split; [apply prefetch_contract|apply resources_state_contract].
Qed.

End ConfigCalls.
