(* ===== verification/LogBuffer.v ===== *)
(** * The log buffer: [crates/ffi/src/logs.rs] and [meta_drain_logs_v1]

    Core log events are kept as lines in a bounded buffer until the host
    drains them: which lines are kept, in which order, and when they are removed.
    The text of a line is in [LogText]. *)
From S2P Require Import Prelude CMemory CApi ConfigCrypto Host Ffi FfiContract.
From Stdlib Require Import String ZArith List Lia Bool.
Import ListNotations.
Open Scope Z_scope.

Definition CAPACITY : Z := 2000.

(** [push]: the oldest line makes room. *)
Definition push (line : text) (buffer : list text) : list text :=
  (if zlength buffer =? CAPACITY then tl buffer else buffer) ++ [line].

(** The lines joined for the reader, each with its newline. *)
Fixpoint joined (buffer : list text) : text :=
  match buffer with
  | [] => []
  | line :: rest => line ++ [10] ++ joined rest
  end.

(** The level of [init] is chosen by the first core and never changes. *)
Definition level_filter (level : text) : text :=
  if text_eqb level (lit "debug") then lit "DEBUG"
  else if text_eqb level (lit "warning") then lit "WARN"
  else if text_eqb level (lit "error") then lit "ERROR"
  else if text_eqb level (lit "silent") then lit "OFF"
  else lit "INFO".

Section LogBuffer.
Context {K : Crates} {M : Mpsc} {C : CipherCrates}.
Implicit Types (t : thread) (w : world) (s : meta_status).

Definition init (level : text) (w : world) : world :=
  match log_filter w with
  | Some _ => w
  | None => set_logs (log_lines w) (Some (level_filter level)) (panic_file w) w
  end.

Definition set_panic_file (path : text) (w : world) : world :=
  set_logs (log_lines w) (log_filter w) (Some path) w.

(** A log event reaches the buffer. *)
Definition record_line (line : text) (w : world) : world :=
  set_logs (push line (log_lines w)) (log_filter w) (panic_file w) w.

(** [drain]: the lines are removed when [take] consumed them.  What the closure
    stores in its captured variable is the second component. *)
Definition drain {A} (take : text -> ffi (bool * A)) : ffi A :=
  let! buffer := gets log_lines in
  let! r := take (joined buffer) in
  (if fst r then modify (fun w => set_logs [] (log_filter w) (panic_file w) w) else fret tt) ;!
  fret (snd r).

Definition meta_drain_logs_v1 (buffer capacity length : Z) : thread -> world -> meta_status * world :=
  boundary (drain (fun bytes =>
    let! status := output bytes buffer capacity length in
    fret (meta_status_eqb status META_OK, status))).

Lemma joined_text buffer : joined buffer = log_text buffer.
Proof.
  unfold log_text. induction buffer as [|l b IH]; [easy|].
  change (joined (l :: b)) with (l ++ [10] ++ joined b). rewrite IH. apply app_assoc.
Qed.

(** Draining in one equation. *)
Lemma drain_run b c l t w s w' :
  meta_drain_logs_v1 b c l t w = (s, w') ->
  exists r w1, output (log_text (log_lines w)) b c l t w = (r, w1) /\
    match r with
    | Ok META_OK => s = META_OK /\ w' = set_logs [] (log_filter w1) (panic_file w1) w1
    | Ok s1 => s = s1 /\ w' = w1
    | Err e => s = META_ERROR /\ w' = set_error t e w1
    | Panic => False
    end.
Proof.
  intros E. unfold meta_drain_logs_v1, boundary, drain, fbind, gets in E. rewrite joined_text in E.
  destruct (output (log_text (log_lines w)) b c l t w) as [r w1] eqn:O. exists r, w1.
  split; [reflexivity|]. destruct r as [s1|e|].
  - destruct s1; cbn in E; injection E as <- <-; auto.
  - injection E as <- <-. auto.
  - now destruct (output_error _ _ _ _ _ _ _ _ O eq_refl) as (_ & _ & _ & X).
Qed.

Lemma drain_contract b c l t w s w' :
  meta_drain_logs_v1 b c l t w = (s, w') ->
  meta_drain_logs_v1_contract b c l t (view_of w) s (view_of w').
Proof.
  intros E. destruct (drain_run _ _ _ _ _ _ _ E) as (r & w1 & O & H).
  unfold meta_drain_logs_v1_contract. cbn [view_of v_logs].
  assert (Q : forall s0 w0, boundary (output (log_text (log_lines w)) b c l) t w = (s0, w0) ->
    text_query (Some (log_text (log_lines w))) b c l t (view_of w) s0 (view_of w0)).
  { intros s0 w0 B. eapply proj1, answers_contract; [|exact B]. reflexivity. }
  unfold boundary in Q. rewrite O in Q.
  destruct r as [s1|e|]; [|destruct H as [-> ->]|easy]; specialize (Q _ _ eq_refl).
  - destruct (output_buffer _ _ _ _ _ _ _ _ O) as [_ W].
    destruct s1; destruct H as [-> ->]; (split; [exact Q|]); cbn [meta_status_eqb status_code];
      try reflexivity; cbn; rewrite W; reflexivity.
  - destruct (output_error _ _ _ _ _ _ _ _ O eq_refl) as (_ & W & _).
    split; [exact Q|]. cbn. now rewrite W.
Qed.

(** ** What is kept *)

(** A process as the log buffer sees it: events logged by any thread and
    drains by the host. *)
Inductive log_event : Type :=
  | Logged (line : text)
  | Drained (t : thread) (buffer capacity length : Z).

Definition log_step (e : log_event) (w : world) : world :=
  match e with
  | Logged line => record_line line w
  | Drained t b c l => snd (meta_drain_logs_v1 b c l t w)
  end.

(** All lines logged since the last drain that returned META_OK. *)
Definition since_drain (e : log_event) (w : world) (lines : list text) : list text :=
  match e with
  | Logged line => lines ++ [line]
  | Drained t b c l => if meta_status_eqb (fst (meta_drain_logs_v1 b c l t w)) META_OK then [] else lines
  end.

Fixpoint log_run (es : list log_event) (w : world) (lines : list text) : world * list text :=
  match es with
  | [] => (w, lines)
  | e :: es' => log_run es' (log_step e w) (since_drain e w lines)
  end.

Definition lastn {A} (n : nat) (l : list A) : list A := skipn (length l - n) l.

Lemma skipn_S {A} k (l : list A) : skipn (S k) l = tl (skipn k l).
Proof. revert l. induction k as [|k IH]; intros [|a l]; try easy. exact (IH l). Qed.

Lemma lastn_snoc {A} n (l : list A) x :
  lastn (S n) (l ++ [x]) =
  (if Nat.eqb (length (lastn (S n) l)) (S n) then tl (lastn (S n) l) else lastn (S n) l) ++ [x].
Proof.
  unfold lastn. rewrite length_app, length_skipn. cbn [length].
  destruct (Nat.eqb_spec (length l - (length l - S n)) (S n)) as [H|H].
  - replace (length l + 1 - S n)%nat with (S (length l - S n)) by lia.
    rewrite skipn_app. replace (S (length l - S n) - length l)%nat with 0%nat by lia.
    change (skipn 0 [x]) with [x]. f_equal. apply skipn_S.
  - replace (length l + 1 - S n)%nat with 0%nat by lia.
    now replace (length l - S n)%nat with 0%nat by lia.
Qed.

Lemma push_lastn line lines :
  push line (lastn 2000 lines) = lastn 2000 (lines ++ [line]).
Proof.
  rewrite (lastn_snoc 1999). unfold push. f_equal.
  change CAPACITY with (Z.of_nat 2000). unfold zlength.
  destruct (Nat.eqb_spec (length (lastn 2000 lines)) 2000) as [H|H];
    destruct (Z.eqb_spec (Z.of_nat (length (lastn 2000 lines))) (Z.of_nat 2000)); try reflexivity; lia.
Qed.

Lemma log_step_kept e w lines :
  log_lines w = lastn 2000 lines -> log_lines (log_step e w) = lastn 2000 (since_drain e w lines).
Proof.
  intros H. destruct e as [line|t b c l]; cbn [log_step since_drain].
  - cbn [record_line set_logs log_lines]. rewrite H. apply push_lastn.
  - destruct (meta_drain_logs_v1 b c l t w) as [s w'] eqn:E.
    apply drain_contract in E as [_ E]. cbn [view_of v_logs] in E. cbn [fst snd]. rewrite E.
    now destruct (meta_status_eqb s META_OK).
Qed.

Lemma log_run_kept es : forall w lines, log_lines w = lastn 2000 lines ->
  log_lines (fst (log_run es w lines)) = lastn 2000 (snd (log_run es w lines)).
Proof. induction es as [|e es IH]; intros w lines H; [exact H|]. now apply IH, log_step_kept. Qed.

(** C21: After any sequence of log events and drains the buffer holds exactly the
    latest 2000 lines, in order, of those logged since the last successful
    drain: nothing else is dropped, and a drain that reports
    META_BUFFER_TOO_SMALL or an error removes nothing. *)
Theorem log_buffer_latest es w :
  log_lines w = [] ->
  log_lines (fst (log_run es w [])) = lastn 2000 (snd (log_run es w [])) /\
  zlength (log_lines (fst (log_run es w []))) <= CAPACITY.
Proof.
  intros H. rewrite (log_run_kept es w []) by now rewrite H. split; [reflexivity|].
  unfold lastn, zlength, CAPACITY. rewrite length_skipn. lia.
Qed.

(** ** What is delivered *)

(** The lines logged, and the texts that drains put into the host's buffer. *)
Definition logged (es : list log_event) : list text :=
  flat_map (fun e => match e with Logged line => [line] | _ => [] end) es.

Fixpoint delivered (es : list log_event) (w : world) : text :=
  match es with
  | [] => []
  | e :: es' =>
      match e with
      | Logged _ => []
      | Drained t b c l =>
          let '(s, w') := meta_drain_logs_v1 b c l t w in
          if meta_status_eqb s META_OK
          then load_bytes (mem w') b (zlength (joined (log_lines w))) else []
      end ++ delivered es' (log_step e w)
  end.

(** The host drains before the buffer is full. *)
Fixpoint in_time (es : list log_event) (w : world) : Prop :=
  match es with
  | [] => True
  | e :: es' => match e with Logged _ => zlength (log_lines w) < CAPACITY | _ => True end /\
                in_time es' (log_step e w)
  end.

Lemma log_text_app a b : log_text (a ++ b) = log_text a ++ log_text b.
Proof. unfold log_text. now rewrite map_app, concat_app. Qed.

Lemma delivered_lines es w :
  in_time es w ->
  delivered es w ++ log_text (log_lines (fst (log_run es w []))) =
  log_text (log_lines w ++ logged es).
Proof.
  generalize (@nil text) as lines. revert w.
  induction es as [|e es IH]; intros w lines H; cbn [delivered log_run logged flat_map fst].
  - now rewrite app_nil_r.
  - cbn [in_time] in H. destruct H as [Hc H]. rewrite <- app_assoc, (IH _ _ H).
    destruct e as [line|t b c l]; cbn [log_step app].
    + cbn [record_line set_logs log_lines]. unfold push.
      destruct (Z.eqb_spec (zlength (log_lines w)) CAPACITY); [lia|].
      now rewrite <- app_assoc.
    + destruct (meta_drain_logs_v1 b c l t w) as [s w'] eqn:E. cbn [snd].
      apply drain_contract in E as [(_ & _ & Q) L]. cbn [view_of v_logs v_mem] in Q, L.
      rewrite joined_text, L, !log_text_app. destruct s; try easy; cbn [meta_status_eqb status_code].
      destruct Q as (p & Ep & _ & _ & _ & _ & Ld & _). injection Ep as <-. cbn.
      now rewrite Ld.
Qed.

(** C20: A host that drains before 2000 lines have accumulated receives every
    log line exactly once and in order: the texts delivered by its drains,
    followed by what is still buffered, are the text of all lines logged,
    whatever buffers it offered on the way. *)
Theorem logs_delivered_once es w :
  in_time es w ->
  delivered es w ++ log_text (log_lines (fst (log_run es w []))) =
  log_text (log_lines w ++ logged es).
Proof. apply delivered_lines. Qed.

End LogBuffer.
