(* ===== verification/LogText.v ===== *)
(** * The text of log lines: [crates/ffi/src/logs.rs]

    What the subscriber makes of an event of the core ([BufferLayer::on_event]
    with the visitor [Fields]) and what the panic hook records
    ([record_panic]).  serde_json's text of a line and the clock are the class
    [LogCrates].  What a log is meant to contain is said apart from the code
    ([shown], [type_name], [payload], [panic_text]); a host that splits what it
    drains at the newlines and parses the pieces gets exactly that. *)
From S2P Require Import Prelude CMemory CApi ConfigCrypto Host Ffi FfiContract LogBuffer.
From Stdlib Require Import String ZArith List Lia Bool.
Import ListNotations.
Open Scope Z_scope.

(** ** serde_json and the clock *)

Class LogCrates : Type := {
  seconds : Type;                                  (* f64: seconds since the epoch *)
  seconds_text : seconds -> text;                  (* {time:.3} *)
  (* json!({"time": _, "type": _, "payload": _}).to_string() *)
  log_json : seconds -> text -> text -> text;
  (* a JSON parser of the host, on such an object *)
  log_parse : text -> option (seconds * text * text) }.

(** Compact JSON has no newline outside its strings, and in a string control
    characters are escaped; parsing inverts printing. *)
Class LogLaws (J : LogCrates) : Prop := {
  log_json_line : forall time type payload, bytes type -> bytes payload -> ~ In 10 (log_json time type payload);
  log_json_parse : forall time type payload, bytes type -> bytes payload ->
    log_parse (log_json time type payload) = Some (time, type, payload) }.

(** ** Levels *)

(** tracing::Level, and how much a filter lets through (tracing_subscriber). *)
Inductive level : Type := ERROR | WARN | INFO | DEBUG | TRACE.

Definition level_as_str (l : level) : text :=
  match l with
  | ERROR => lit "ERROR" | WARN => lit "WARN" | INFO => lit "INFO" | DEBUG => lit "DEBUG" | TRACE => lit "TRACE"
  end.

Definition verbosity (l : level) : Z :=
  match l with ERROR => 1 | WARN => 2 | INFO => 3 | DEBUG => 4 | TRACE => 5 end.

Definition filter_verbosity (filter : text) : Z :=
  if text_eqb filter (lit "TRACE") then 5
  else if text_eqb filter (lit "DEBUG") then 4
  else if text_eqb filter (lit "INFO") then 3
  else if text_eqb filter (lit "WARN") then 2
  else if text_eqb filter (lit "ERROR") then 1
  else 0.

Definition level_enabled (filter : text) (l : level) : bool := verbosity l <=? filter_verbosity filter.

Definition to_ascii_lowercase (x : text) : text :=
  map (fun b => if (65 <=? b) && (b <=? 90) then b + 32 else b) x.

(** The type of a line in [on_event]. *)
Definition level_type (l : level) : text :=
  match l with WARN => lit "warning" | _ => to_ascii_lowercase (level_as_str l) end.

(** "type":"info|warning|error|debug" *)
Definition log_types : list text := [lit "info"; lit "warning"; lit "error"; lit "debug"].

(** ** Payloads *)

(** [Fields::record_debug]; a value is its [Debug] text. *)
Definition record_debug (acc name value : text) : text :=
  (match acc with [] => [] | _ => acc ++ [32] end) ++
  (if text_eqb name (lit "message") then value else name ++ lit "=" ++ value).

(** [event.record(&mut fields)]: the fields in their order. *)
Definition record_fields (fields : list (text * text)) : text :=
  fold_left (fun acc f => record_debug acc (fst f) (snd f)) fields [].

(** The message of [record_panic]. *)
Definition panic_message (name : option text) (info backtrace : text) : text :=
  lit "panic in thread " ++ match name with Some n => n | None => lit "unnamed" end ++ lit ": " ++ info ++ [10] ++ backtrace.

(** ** What a log is meant to contain *)

(** A level shows the more severe ones too; silent shows nothing, and an unknown
    level is info.  Traces are never shown. *)
Definition shown (chosen : text) (l : level) : bool :=
  match l with
  | ERROR => negb (text_eqb chosen (lit "silent"))
  | WARN => negb (text_eqb chosen (lit "silent")) && negb (text_eqb chosen (lit "error"))
  | INFO => negb (text_eqb chosen (lit "silent")) && negb (text_eqb chosen (lit "error")) &&
            negb (text_eqb chosen (lit "warning"))
  | DEBUG => text_eqb chosen (lit "debug")
  | TRACE => false
  end.

Definition type_name (l : level) : text :=
  match l with
  | ERROR => lit "error" | WARN => lit "warning" | INFO => lit "info" | DEBUG => lit "debug" | TRACE => lit "trace"
  end.

(** The message as it is, any other field as name=value, separated by spaces;
    nothing is put before the first text that is not empty. *)
Definition field_text (f : text * text) : text :=
  if text_eqb (fst f) (lit "message") then snd f else fst f ++ [61] ++ snd f.

Fixpoint spaced (l : list text) : text :=
  match l with
  | [] => []
  | [] :: l' => spaced l'
  | x :: l' => x ++ concat (map (cons 32) l')
  end.

Definition payload (fields : list (text * text)) : text := spaced (map field_text fields).

Definition panic_text (name : option text) (info backtrace : text) : text :=
  lit "panic in thread " ++ (match name with Some n => n | None => lit "unnamed" end ++ lit ": ") ++
  (info ++ [10]) ++ backtrace.

Section LogText.
Context {K : Crates} {M : Mpsc} {C : CipherCrates} {J : LogCrates}.
Implicit Types (t : thread) (w : world).

(** ** Events *)

Definition on_event (time : seconds) (l : level) (fields : list (text * text)) (w : world) : world :=
  record_line (log_json time (level_type l) (record_fields fields)) w.

(** Every macro of tracing: the installed filter decides whether the layer sees
    the event. *)
Definition traced (time : seconds) (l : level) (fields : list (text * text)) (w : world) : world :=
  match log_filter w with
  | Some filter => if level_enabled filter l then on_event time l fields w else w
  | None => w
  end.

(** [record_panic]: the buffer and, at once, the file.  [buffer_free] and
    [file_free] are what the two [try_lock]s give, [opened] whether the file can
    be opened; the second component is what is appended to which file. *)
Definition record_panic (time : seconds) (name : option text) (info backtrace : text)
    (buffer_free file_free opened : bool) (w : world) : world * option (text * text) :=
  let message := panic_message name info backtrace in
  (if buffer_free then record_line (log_json time (lit "error") message) w else w,
   if file_free && opened
   then option_map (fun path => (path, seconds_text time ++ lit " " ++ message ++ [10])) (panic_file w)
   else None).

(** What happens to the log of a process.  The panic hook is installed with the
    filter. *)
Inductive source_event : Type :=
  | Traced (time : seconds) (l : level) (fields : list (text * text))
  | Panicked (time : seconds) (name : option text) (info backtrace : text) (buffer_free file_free opened : bool)
  | HostDrains (t : thread) (buffer capacity length : Z).

Definition source_step (e : source_event) (w : world) : world :=
  match e with
  | Traced time l fields => traced time l fields w
  | Panicked time name info backtrace bf ff op =>
      match log_filter w with
      | Some _ => fst (record_panic time name info backtrace bf ff op w)
      | None => w
      end
  | HostDrains t b c l => snd (meta_drain_logs_v1 b c l t w)
  end.

Definition source_run (es : list source_event) (w : world) : world :=
  fold_left (fun w e => source_step e w) es w.

(** The entry an event is meant to make at the chosen level. *)
Definition entry_of (chosen : text) (e : source_event) : list (seconds * text * text) :=
  match e with
  | Traced time l fields => if shown chosen l then [(time, type_name l, payload fields)] else []
  | Panicked time name info backtrace true _ _ => [(time, lit "error", panic_text name info backtrace)]
  | _ => []
  end.

Definition entry_json (x : seconds * text * text) : text := log_json (fst (fst x)) (snd (fst x)) (snd x).

(** The same events as the buffer sees them. *)
Definition buffer_events (chosen : text) (e : source_event) : list log_event :=
  match e with
  | HostDrains t b c l => [Drained t b c l]
  | _ => map (fun x => Logged (entry_json x)) (entry_of chosen e)
  end.

(** The texts in an event are Rust strings. *)
Definition string_event (e : source_event) : Prop :=
  match e with
  | Traced _ _ fields => Forall (fun f => bytes (fst f) /\ bytes (snd f)) fields
  | Panicked _ name info backtrace _ _ _ => bytes (match name with Some n => n | None => [] end) /\ bytes info /\ bytes backtrace
  | HostDrains _ _ _ _ => True
  end.

(** What the host makes of a drained text. *)
Fixpoint split_lines (line x : text) : list text :=
  match x with
  | [] => []
  | b :: x' => if b =? 10 then line :: split_lines [] x' else split_lines (line ++ [b]) x'
  end.

Definition parse_log (x : text) : list (option (seconds * text * text)) := map log_parse (split_lines [] x).

(** ** The code and what is meant *)

Lemma enabled_shown chosen l : level_enabled (level_filter chosen) l = shown chosen l.
Proof.
  unfold level_filter, shown.
  destruct (text_eqb chosen (lit "debug")) eqn:D; [apply text_eqb_eq in D as ->; now destruct l|].
  destruct (text_eqb chosen (lit "warning")) eqn:W; [apply text_eqb_eq in W as ->; now destruct l|].
  destruct (text_eqb chosen (lit "error")) eqn:E; [apply text_eqb_eq in E as ->; now destruct l|].
  destruct (text_eqb chosen (lit "silent")) eqn:S; [now destruct l|].
  now destruct l.
Qed.

Lemma level_type_name l : level_type l = type_name l.
Proof. now destruct l. Qed.

Lemma record_debug_text acc f : record_debug acc (fst f) (snd f) =
  match acc with [] => field_text f | _ => acc ++ 32 :: field_text f end.
Proof. unfold record_debug, field_text. destruct acc; [reflexivity|]. now rewrite <- app_assoc. Qed.

Lemma record_fields_payload fields : record_fields fields = payload fields.
Proof.
  assert (G : forall fs b acc, fold_left (fun acc f => record_debug acc (fst f) (snd f)) fs (b :: acc) =
    (b :: acc) ++ concat (map (cons 32) (map field_text fs))).
  { induction fs as [|f fs IH]; intros b acc; cbn [fold_left map concat]; [now rewrite app_nil_r|].
    rewrite record_debug_text. cbn [app]. rewrite IH. cbn [app]. now rewrite <- app_assoc. }
  unfold record_fields, payload. induction fields as [|f fields IH]; [reflexivity|].
  cbn [fold_left map spaced]. rewrite record_debug_text.
  destruct (field_text f) as [|b x]; [exact IH|]. apply G.
Qed.

Lemma panic_message_text name info backtrace : panic_message name info backtrace = panic_text name info backtrace.
Proof. unfold panic_message, panic_text. now rewrite <- !app_assoc. Qed.

(** ** The buffer's view *)

Lemma log_step_filter e w : log_filter (log_step e w) = log_filter w.
Proof.
  destruct e as [line|t b c l]; [reflexivity|]. cbn [log_step].
  destruct (meta_drain_logs_v1 b c l t w) as [s w'] eqn:E. destruct (drain_run _ _ _ _ _ _ _ E) as (r & w1 & O & H).
  cbn [snd]. destruct r as [s1|e|]; [|destruct H as [-> ->]|easy].
  - destruct (output_buffer _ _ _ _ _ _ _ _ O) as [_ W]. destruct s1; destruct H as [-> ->]; now rewrite W.
  - destruct (output_error _ _ _ _ _ _ _ _ O eq_refl) as (_ & W & _). now rewrite W.
Qed.

Lemma log_run_app es es' : forall w lines, log_run (es ++ es') w lines =
  log_run es' (fst (log_run es w lines)) (snd (log_run es w lines)).
Proof. induction es as [|e es IH]; intros w lines; [reflexivity|]. apply IH. Qed.

Lemma source_step_log chosen e w lines : log_filter w = Some (level_filter chosen) ->
  source_step e w = fst (log_run (buffer_events chosen e) w lines) /\
  log_filter (source_step e w) = Some (level_filter chosen).
Proof.
  intros F. destruct e as [time l fields|time name info backtrace bf ff op|t b c l]; cbn [source_step buffer_events entry_of].
  - unfold traced. rewrite F, enabled_shown, <- level_type_name, <- record_fields_payload.
    destruct (shown chosen l); split; auto.
  - rewrite F, <- panic_message_text. destruct bf; split; auto.
  - split; [reflexivity|]. change (log_filter (log_step (Drained t b c l) w) = Some (level_filter chosen)).
    now rewrite log_step_filter.
Qed.

Lemma source_run_log chosen es : forall w lines, log_filter w = Some (level_filter chosen) ->
  source_run es w = fst (log_run (flat_map (buffer_events chosen) es) w lines).
Proof.
  induction es as [|e es IH]; intros w lines F; [reflexivity|]. cbn [flat_map]. rewrite log_run_app.
  destruct (source_step_log chosen e w lines F) as [<- F']. exact (IH _ _ F').
Qed.

Lemma logged_entries chosen es :
  logged (flat_map (buffer_events chosen) es) = map entry_json (flat_map (entry_of chosen) es).
Proof.
  induction es as [|e es IH]; [reflexivity|]. cbn [flat_map]. unfold logged in *. rewrite flat_map_app, IH, map_app.
  f_equal. destruct e as [time l fields|time name info backtrace bf ff op|]; cbn [buffer_events entry_of]; try reflexivity.
  - now destruct (shown chosen l).
  - now destruct bf.
Qed.

(** ** Strings *)

Lemma bytes_join (x y : text) : bytes x -> bytes y -> bytes (x ++ y).
Proof. rewrite bytes_app. auto. Qed.

Lemma bytes_lit s : bytes (lit s).
Proof.
  unfold bytes, lit. apply Forall_map, Forall_forall. intros c _. unfold is_byte. pose proof (Ascii.nat_ascii_bounded c). lia.
Qed.

Lemma record_debug_bytes acc n v : bytes acc -> bytes n -> bytes v -> bytes (record_debug acc n v).
Proof.
  intros Ha Hn Hv. unfold record_debug. apply bytes_join.
  - destruct acc; [constructor|]. apply bytes_join; [exact Ha|]. repeat constructor; lia.
  - destruct (text_eqb n _); [exact Hv|]. auto using bytes_join, bytes_lit.
Qed.

Lemma record_fields_bytes fields : Forall (fun f => bytes (fst f) /\ bytes (snd f)) fields -> bytes (record_fields fields).
Proof.
  unfold record_fields. assert (N : bytes []) by constructor. revert N. generalize (@nil Z) as acc.
  induction fields as [|f fields IH]; intros acc N H; [exact N|]. inversion_clear H as [|? ? [H1 H2] H3].
  apply IH; [|exact H3]. now apply record_debug_bytes.
Qed.

Lemma entry_bytes chosen e x : string_event e -> In x (entry_of chosen e) -> bytes (snd (fst x)) /\ bytes (snd x).
Proof.
  destruct e as [time l fields|time name info backtrace bf ff op|]; cbn [entry_of string_event]; [| |easy].
  - intros H. destruct (shown chosen l); [|easy]. intros [<-|[]]. cbn [fst snd].
    rewrite <- record_fields_payload. split; [|now apply record_fields_bytes].
    destruct l; repeat constructor; easy.
  - destruct bf; [|easy]. intros (H1 & H2 & H3) [<-|[]]. split; [apply bytes_lit|]. cbn [snd]. unfold panic_text.
    repeat apply bytes_join; auto using bytes_lit; [destruct name; auto using bytes_lit|]. repeat constructor; easy.
Qed.

Lemma entries_bytes chosen es : Forall string_event es ->
  Forall (fun x => bytes (snd (fst x)) /\ bytes (snd x)) (flat_map (entry_of chosen) es).
Proof.
  intros H. apply Forall_forall. intros x Hx. apply in_flat_map in Hx as (e & He & Hx).
  rewrite Forall_forall in H. exact (entry_bytes chosen e x (H e He) Hx).
Qed.

(** ** Splitting and parsing *)

Lemma split_line line x : forall acc, ~ In 10 line -> split_lines acc (line ++ [10] ++ x) = (acc ++ line) :: split_lines [] x.
Proof.
  induction line as [|b line IH]; intros acc N; cbn [app split_lines].
  - rewrite Z.eqb_refl, app_nil_r. reflexivity.
  - destruct (Z.eqb_spec b 10) as [->|]; [elim N; now left|]. cbn [app] in IH. rewrite IH by (intros H; apply N; now right).
    now rewrite <- app_assoc.
Qed.

Lemma split_log_text lines : Forall (fun l => ~ In 10 l) lines -> split_lines [] (log_text lines) = lines.
Proof.
  induction 1 as [|l lines Hl H IH]; [reflexivity|]. unfold log_text in *. cbn [map concat].
  rewrite <- app_assoc, (split_line l _ []) by exact Hl. now rewrite IH.
Qed.

Context {Lw : LogLaws J}.

Lemma parse_entries xs : Forall (fun x => bytes (snd (fst x)) /\ bytes (snd x)) xs ->
  parse_log (log_text (map entry_json xs)) = map Some xs.
Proof.
  intros H. unfold parse_log. rewrite split_log_text.
  - induction H as [|[[time type] payload] xs [H1 H2] H IH]; [reflexivity|]. cbn [map]. rewrite IH. f_equal.
    now apply log_json_parse.
  - apply Forall_map. revert H. apply Forall_impl. intros [[time type] payload] [H1 H2]. now apply log_json_line.
Qed.

Lemma init_filter level w : log_filter w = None -> log_filter (init level w) = Some (level_filter level).
Proof. intros F. unfold init. now rewrite F. Qed.

Lemma init_lines level w : log_lines (init level w) = log_lines w.
Proof. unfold init. now destruct (log_filter w). Qed.

(** C13: A host that drains before 2000 lines have accumulated gets the log of
    the process back: after [init] chose the level, the texts its drains
    delivered, followed by what is still buffered, split at the newlines and
    parsed, are exactly the events that level shows and the panics, in order,
    each with its time, its type and its payload: the message, other fields as
    name=value, and for a panic the thread, the message and the backtrace,
    newlines and quotes in them included. *)
Theorem drained_log_parses level es w :
  log_filter w = None -> log_lines w = [] -> Forall string_event es ->
  in_time (flat_map (buffer_events level) es) (init level w) ->
  parse_log (delivered (flat_map (buffer_events level) es) (init level w) ++
             log_text (log_lines (source_run es (init level w)))) =
  map Some (flat_map (entry_of level) es).
Proof.
  intros F N S T. rewrite (source_run_log level es _ [] (init_filter _ _ F)), (delivered_lines _ _ T), init_lines, N, logged_entries.
  now apply parse_entries, entries_bytes.
Qed.

(** ** What kinds of lines there are *)

(** What a line that says [time], [type] and [body] comes from. *)
Definition shown_event (level : text) (es : list source_event) (time : seconds) (type body : text) : Prop :=
  exists l fields, In (Traced time l fields) es /\ shown level l = true /\ type = type_name l /\ body = payload fields.

Definition panic_event (es : list source_event) (time : seconds) (type body : text) : Prop :=
  exists name info backtrace ff op, In (Panicked time name info backtrace true ff op) es /\
    type = lit "error" /\ body = panic_text name info backtrace.

Lemma entry_source level es time type body : In (time, type, body) (flat_map (entry_of level) es) ->
  shown_event level es time type body \/ panic_event es time type body.
Proof.
  intros H. apply in_flat_map in H as (e & He & H).
  destruct e as [tm l fields|tm name info backtrace bf ff op|]; cbn [entry_of] in H; [| |easy].
  - destruct (shown level l) eqn:E; [|easy]. destruct H as [H|[]]. injection H as -> <- <-. left. now exists l, fields.
  - destruct bf; [|easy]. destruct H as [H|[]]. injection H as -> <- <-. right. now exists name, info, backtrace, ff, op.
Qed.

Lemma source_typed level es time type body :
  shown_event level es time type body \/ panic_event es time type body -> In type log_types.
Proof.
  intros [(l & fields & _ & S & -> & _)|(? & ? & ? & ? & ? & _ & -> & _)]; [|vm_compute; tauto].
  destruct l; try discriminate; vm_compute; tauto.
Qed.

Lemma silent_source es time type body : ~ shown_event (lit "silent") es time type body.
Proof. intros (l & fields & _ & S & _). destruct l; discriminate. Qed.

Lemma kept_from_logged (P : text -> Prop) es : forall w lines, Forall P (log_lines w) -> Forall P (logged es) ->
  Forall P (log_lines (fst (log_run es w lines))).
Proof.
  induction es as [|e es IH]; intros w lines Hw He; [exact Hw|]. cbn [log_run].
  unfold logged in He. cbn [flat_map] in He. apply Forall_app in He as [He Hes]. apply IH; [|exact Hes].
  destruct e as [line|t b c l]; cbn [log_step].
  - cbn [record_line set_logs log_lines]. unfold push. apply Forall_app. split; [|exact He].
    destruct (_ =? _); [|exact Hw]. destruct Hw; [constructor|assumption].
  - destruct (meta_drain_logs_v1 b c l t w) as [s w'] eqn:E. apply drain_contract in E as [_ E].
    cbn [view_of v_logs] in E. cbn [snd]. rewrite E. destruct (meta_status_eqb s META_OK); [constructor|exact Hw].
Qed.

(** C15: Whatever a process logs after [init] chose its level, every line in the
    buffer is one line of text and a JSON object whose type is one of the four
    the header names; it comes from an event that the level shows or from a
    panic, with the time, type and payload of it.  A trace is never recorded,
    and with the level silent every line comes from a panic. *)
Theorem log_lines_typed es level w :
  log_filter w = None -> log_lines w = [] -> Forall string_event es ->
  Forall (fun line => ~ In 10 line /\ exists time type body, log_parse line = Some (time, type, body) /\
            In type log_types /\
            (shown_event level es time type body \/ panic_event es time type body) /\
            (level = lit "silent" -> panic_event es time type body))
    (log_lines (source_run es (init level w))).
Proof.
  intros F N S. rewrite (source_run_log level es _ [] (init_filter _ _ F)).
  apply kept_from_logged; [rewrite init_lines, N; constructor|].
  rewrite logged_entries. apply Forall_map, Forall_forall. intros [[time type] body] Hx.
  pose proof (entries_bytes level es S) as B. rewrite Forall_forall in B. destruct (B _ Hx) as [B1 B2].
  split; [now apply log_json_line|]. exists time, type, body. split; [now apply log_json_parse|].
  apply entry_source in Hx. split; [exact (source_typed _ _ _ _ _ Hx)|]. split; [exact Hx|].
  intros ->. destruct Hx as [Hx|Hx]; [now apply silent_source in Hx|exact Hx].
Qed.

End LogText.
