(* ===== verification/HandleCalls.v ===== *)
(** * The calls on handles

    Creation, lifecycle, queries, policy updates and packets: the exported
    functions of [crates/ffi/src/lib.rs] that take a handle, on the data of
    [Host].  A call runs to its end before the next one; what the worker
    thread does while a call waits for it is the [turn] given to that call. *)
From S2P Require Import Prelude CMemory CApi ConfigCrypto Host Ffi FfiContract LogBuffer.
From Stdlib Require Import String ZArith List Lia Bool.
Import ListNotations.
Open Scope Z_scope.

Section HandleCalls.
Context {K : Crates} {M : Mpsc} {C : CipherCrates}.
Variable android : bool.
Implicit Types (t : thread) (w : world) (s : meta_status).

Abbreviation call := (thread -> world -> meta_status * world).
Abbreviation handle_t := (Handle CoreState).

(** ** Creation *)

(** What the packet-tunnel variant changes in a configuration. *)
Definition tunnel_config (c : Config ConfigRest) (path : text) : Config ConfigRest :=
  {| directory := path; internal_host_packet_io := true; port := 0; socks_port := 0; mixed_port := 0;
     allow_lan := false; external_controller := None; external_ui := []; log_level := log_level c;
     log_path := []; dns_enable := false;
     tun := {| tun_on := true; auto_route := false; auto_dns := false; auto_detect_interface := false;
               interface := None; mtu := 1280; dns_hijack := [lit "any:53"] |};
     rest := rest c |}.

(** [Handle::new]. *)
Definition new_handle (o : Os) (config : Config ConfigRest) (hooks : HostHooks) : outcome handle_t :=
  if android && (protect hooks =? 0) then Err (lit "Android host must provide socket protection")
  else obnd (Core_new o config hooks) (fun c =>
       obnd (spawn_worker o) (fun ends => Ok (Handle_new c (tun_on (tun (core_config c))) ends))).

(** The end of [create], under the registry lock: a panic poisons it. *)
Definition register (config : Config ConfigRest) (hooks : HostHooks) : ffi Z :=
  lock_handles ;!
  let! registry := gets handles in
  ensure (zlength registry <? 16) (lit "core handle capacity reached") ;!
  let! id := gets next in
  ensure (id + 1 <? 2 ^ 64) (lit "core handle identifiers exhausted") ;!
  modify (fun w => set_registry (handles w) (handles_poisoned w) (id + 1) w) ;!
  fun t w =>
    match new_handle (os w) config hooks with
    | Ok h => (Ok id, set_registry ((id, h) :: handles w) (handles_poisoned w) (next w) w)
    | Err e => (Err e, w)
    | Panic => (Panic, set_registry (handles w) true (next w) w)
    end.

(** The checks of [create] between clearing [out] and taking the lock: the
    configuration, adapted for a packet tunnel, and the hooks. *)
Definition prepare (data len hooks : Z) (dir : option (Z * Z)) : ffi (Config ConfigRest * HostHooks) :=
  check_lifecycle ;!
  let! yaml := input data len in
  let! config := lift (Config_parse yaml) in
  modify (init (log_level config)) ;!
  let! config :=
    match dir with
    | None => fret config
    | Some (path, path_len) =>
        let! path := input_str path path_len in
        let! is_dir := gets (fun w => path_is_dir (os w) path) in
        ensure (path_is_absolute path && is_dir) (lit "host directory must exist and be absolute") ;!
        modify (set_panic_file (path_join path (lit "panic.log"))) ;!
        fret (tunnel_config config path)
    end in
  let! hooks :=
    if hooks =? 0 then fret HostHooks_default
    else
      let! size := gets (fun w => load_u32 (mem w) hooks) in
      ensure (size =? sizeof_meta_hooks_v1) (lit "unsupported host hooks size") ;!
      let! h := gets (fun w => load_meta_hooks_v1 (mem w) hooks) in
      lift (HostHooks_new h) in
  fret (config, hooks).

Definition create (data len hooks out : Z) (dir : option (Z * Z)) : call :=
  boundary (
    ensure (negb (out =? 0)) (lit "handle output is required") ;!
    write_mem (fun m => store_u64 m out 0) ;!
    let! ch := prepare data len hooks dir in
    let! id := register (fst ch) (snd ch) in
    write_mem (fun m => store_u64 m out id) ;!
    fret META_OK).

Definition meta_create_v1 (data len hooks out : Z) : call := create data len hooks out None.

Definition meta_create_packet_tunnel_v1 (data len directory directory_len hooks out : Z) : call :=
  create data len hooks out (Some (directory, directory_len)).

(** ** Lifecycle *)

(** A method of [Handle] with its effect on the shared handle. *)
Definition on_handle {A} (id : Z) (h : handle_t) (f : handle_t -> outcome A * handle_t) : ffi A :=
  let '(r, h') := f h in put_handle id h' ;! lift r.

Definition meta_start_v1 (worker : turn (outcome unit * CoreState)) (id : Z) : call :=
  boundary (
    let! h := handle id in
    check_lifecycle ;!
    on_handle id h (start send_error recv_error worker) ;!
    fret META_OK).

Definition meta_stop_v1 (id : Z) : call :=
  boundary (
    let! h := handle id in
    check_lifecycle ;!
    on_handle id h shutdown ;!
    fret META_OK).

Definition meta_destroy_v1 (id : Z) : call :=
  boundary (
    let! h := handle id in
    check_lifecycle ;!
    on_handle id h shutdown ;!
    lock_handles ;!
    modify (fun w => set_registry (assoc_remove id (handles w)) (handles_poisoned w) (next w) w) ;!
    fret META_OK).

(** Exported on Android only. *)
Definition meta_set_tun_fd_v1 (worker : turn (outcome unit)) (id fd : Z) : call :=
  boundary (
    ensure (0 <=? fd) (lit "invalid TUN descriptor") ;!
    let! owned := gets (fun w => dup_fd (os w) fd) in
    lift owned ;!
    let! h := handle id in
    check_lifecycle ;!
    on_handle id h (set_fd send_error recv_error worker) ;!
    fret META_OK).

Definition meta_network_changed_v1 (id : Z) : call :=
  boundary (
    let! h := handle id in
    check_lifecycle ;!
    on_handle id h network_changed ;!
    fret META_OK).

(** ** Calls on the core *)

Definition on_core (id : Z) (h : handle_t) (f : CoreState -> outcome unit * CoreState) : ffi unit :=
  on_handle id h (fun h => let '(r, c) := f (core h) in (r, set_core c h)).

Definition meta_close_connections_v1 (id : Z) : call :=
  boundary (
    let! h := handle id in
    on_core id h (fun c => (Ok tt, core_close_connections c)) ;!
    fret META_OK).

Definition meta_set_network_v1 (id data len : Z) : call :=
  boundary (
    let! json := input data len in
    let! info := lift (network_from_slice json) in
    let! h := handle id in
    on_core id h (fun c => core_set_network c info) ;!
    fret META_OK).

Definition meta_snapshot_v1 (id buffer capacity length : Z) : call :=
  boundary (
    let! h := handle id in
    let! json := lift (snapshot_to_vec (core h) (stop h)) in
    output json buffer capacity length).

Definition meta_status_v1 (id buffer capacity length : Z) : call :=
  boundary (
    let! h := handle id in
    let! json := lift (status_to_vec (stop h) (core_connections_count (core h))
                         (core_upload (core h)) (core_download (core h))) in
    output json buffer capacity length).

Definition meta_update_v1 (id data len : Z) : call :=
  boundary (
    let! json := input data len in
    let! value := lift (from_slice json) in
    let! object := context_of (as_object value) (lit "update must be an object") in
    ensure (forallb (fun e => online_key (fst e)) object)
      (lit "only mode, rules and adblock-allow can update online") ;!
    (match field (lit "adblock-allow") object with
     | Some allow =>
         let! h := handle id in
         let! list := lift (allow_from_value allow) in
         on_core id h (fun c => core_set_adblock_allow c list)
     | None => fret tt
     end) ;!
    let! mode := lift (optional mode_from_value (field (lit "mode") object)) in
    let! rules := lift (optional rules_from_value (field (lit "rules") object)) in
    (match mode, rules with
     | None, None => fret tt
     | _, _ => let! h := handle id in on_core id h (fun c => core_update_policy c mode rules)
     end) ;!
    fret META_OK).

Definition meta_select_v1 (id group group_len node node_len : Z) : call :=
  boundary (
    let! h := handle id in
    let! g := input_str group group_len in
    let! n := input_str node node_len in
    on_core id h (fun c => core_select c g n) ;!
    fret META_OK).

Definition meta_close_connection_v1 (handle_id id id_len : Z) : call :=
  boundary (
    let! id := input_str id id_len in
    let! h := handle handle_id in
    on_core handle_id h (fun c => (Ok tt, core_close_connection c id)) ;!
    fret META_OK).

(** ** Calls that wait for the worker *)

Definition clamp (lo hi x : Z) : Z := Z.max lo (Z.min hi x).

(** [Core::probe]: [once] is what [probe_once] measures, which also keeps a delay
    by name, and [now] the seconds since the epoch.  The outcome is stored either
    way. *)
Definition core_probe (once : outcome Z) (now : Z) (name : text) (c : CoreState) : outcome Z * CoreState :=
  let c := match once with Ok elapsed => core_insert_delay c name elapsed | _ => c end in
  match once with
  | Ok delay => (Ok delay, core_insert_probe c name (Some delay, None, now))
  | Err error => (Err error, core_insert_probe c name (None, Some error, now))
  | Panic => (Panic, c)
  end.

(** [Handle::probe] with the task that answers it; a task that panics drops the
    reply.  [worker] gives the measurement and the time for a name and a
    timeout. *)
Definition probe (worker : text -> Z -> turn (outcome Z * Z)) (name : text) (timeout : Z) (h : handle_t)
    : outcome Z * handle_t :=
  match worker name timeout with
  | Refused _ => (ask (Refused _), h)
  | Unanswered _ => (ask (Unanswered _), h)
  | Answered _ (once, now) =>
      match core_probe once now name (core h) with
      | (Panic, c) => (ask (Unanswered _), set_core c h)
      | (r, c) => (ask (Answered _ r), set_core c h)
      end
  end.

Definition meta_probe_v1 (worker : text -> Z -> turn (outcome Z * Z)) (id name name_len timeout_ms delay_ms : Z) : call :=
  boundary (
    ensure (negb (delay_ms =? 0)) (lit "delay output is required") ;!
    let! name := input_str name name_len in
    let! h := handle id in
    let! delay := on_handle id h (probe worker name (clamp 100 30000 timeout_ms)) in
    write_mem (fun m => store_u32 m delay_ms (Z.min delay (2 ^ 32 - 1))) ;!
    fret META_OK).

Definition test_port (port : Value) : outcome (option Z) :=
  if is_null port then Ok None
  else match as_u64 port with
       | Some p => if (p <=? 65535) && negb (p =? 0) then Ok (Some p) else Err (lit "invalid port")
       | None => Err (lit "invalid port")
       end.

Definition meta_test_route_v1 (worker : Target -> text -> turn (outcome RouteTest))
    (id data len buffer capacity length : Z) : call :=
  boundary (
    let! json := input data len in
    let! value := lift (from_slice json) in
    let! target := context_of (as_str (value_index value (lit "target"))) (lit "target required") in
    let! port := lift (test_port (value_index value (lit "port"))) in
    let network := match as_str (value_index value (lit "network")) with Some n => n | None => lit "tcp" end in
    let! target := lift (parse_test_target target port) in
    let! h := handle id in
    let! result := lift (ask (worker target network)) in
    let! json := lift (route_to_vec result) in
    output json buffer capacity length).

Definition meta_dns_leak_v1 (worker : turn (outcome DnsLeakTest)) (id online buffer capacity length : Z) : call :=
  boundary (
    let! h := handle id in
    let audit := core_dns_leak_audit (core h) in
    let! test := if online =? 0 then fret None
                 else lift (obnd (ask worker) (fun r => Ok (Some r))) in
    let! json := lift (dns_leak_to_vec audit test) in
    output json buffer capacity length).

(** ** Packets *)

Definition meta_write_packet_v1 (id data len : Z) : call :=
  boundary (
    ensure ((20 <=? len) && (len <=? 65535)) (lit "invalid IP packet length") ;!
    let! packet := input data len in
    ensure (let v := Z.shiftr (nth 0 packet 0) 4 in (v =? 4) || (v =? 6)) (lit "invalid IP version") ;!
    let! h := handle id in
    ensure (negb (stop h)) (lit "core is stopped") ;!
    lift (check_packet_queue h) ;!
    let! chan := context_of (packet_input h) (lit "TUN is disabled") in
    match try_send chan packet with
    | (Sent, chan') => put_handle id (set_input (Some chan') h) ;! fret META_OK
    | (SendFull, _) => fret META_WOULD_BLOCK
    | (SendClosed, _) => ferr (lit "packet channel closed")
    end).

Definition meta_read_packet_v1 (id buffer capacity length : Z) : call :=
  boundary (
    ensure (negb (length =? 0)) (lit "output length is required") ;!
    write_mem (fun m => store_u64 m length 0) ;!
    let! h := handle id in
    lift (check_packet_queue h) ;!
    let '(filled, queue) := fill (packet_output h) in
    put_handle id (set_output queue h) ;!
    let! filled := lift filled in
    if negb filled then fret META_WOULD_BLOCK
    else
      let! packet := match pending queue with Some p => fret p | None => fpanic end in
      let! status := output packet buffer capacity length in
      (if meta_status_eqb status META_OK
       then put_handle id (set_output {| receiver := receiver queue; pending := None; wake := wake queue |} h)
       else fret tt) ;!
      fret status).

(** ** Contracts of the queries *)

Lemma if_obind {A B} (b : bool) (o : option A) (f : A -> option B) :
  (if b then obind o f else None) = obind (if b then o else None) f.
Proof. now destruct b. Qed.

(** C26: The calls that report on a core (snapshot, status, and the thread's last
    error) meet their contracts: the answer is the core's own data, with the
    four figures of the status call, delivered under the caller-buffer
    contract; an unknown or destroyed handle gives META_ERROR. *)
Theorem report_calls_meet_contract t w s w' h b c l :
  handles_poisoned w = false ->
  (meta_snapshot_v1 h b c l t w = (s, w') ->
   meta_snapshot_v1_contract h b c l t (view_of w) s (view_of w')) /\
  (meta_status_v1 h b c l t w = (s, w') ->
   meta_status_v1_contract h b c l t (view_of w) s (view_of w')) /\
  (meta_error_v1 b c l t w = (s, w') ->
   meta_error_v1_contract b c l t (view_of w) s (view_of w')).
Proof.
  intros P. split; [|split]; intros E; (eapply proj1, answers_contract; [|exact E]);
    cbn [snapshot_json status_json stopped connection_count upload download api]; [answer|answer|].
  unfold answers, fbind, this_thread, gets. reflexivity.
Qed.

(** ** Contracts of the calls that change a core *)

(** The goal of such a call once it has run. *)
Ltac core_goal :=
  unfold core_call, v_core; cbn [view_of v_mem v_cores v_error]; settle;
  repeat split; try recorded; try reflexivity;
  try (eapply assoc_set_same; eassumption);
  try (intros; apply assoc_set_other; congruence).

Lemma close_connections_contract h t w s w' : handles_poisoned w = false ->
  meta_close_connections_v1 h t w = (s, w') ->
  meta_close_connections_v1_contract h t (view_of w) s (view_of w').
Proof.
  intros P E. unfold meta_close_connections_v1, on_core, on_handle, put_handle in E.
  unfold meta_close_connections_v1_contract. cbn [close_all api]. run_call E; core_goal.
Qed.

Lemma set_network_contract h d n t w s w' : handles_poisoned w = false ->
  meta_set_network_v1 h d n t w = (s, w') ->
  meta_set_network_v1_contract h d n t (view_of w) s (view_of w').
Proof.
  intros P E. unfold meta_set_network_v1, on_core, on_handle, put_handle in E.
  unfold meta_set_network_v1_contract. cbn [report_network api].
  run_call E; core_goal; try (destruct (assoc h (handles w)); easy).
Qed.

Lemma select_contract h g n d k t w s w' : handles_poisoned w = false ->
  meta_select_v1 h g n d k t w = (s, w') ->
  meta_select_v1_contract h g n d k t (view_of w) s (view_of w').
Proof.
  intros P E. unfold meta_select_v1, on_core, on_handle, put_handle in E.
  unfold meta_select_v1_contract. cbn [select_node api].
  run_call E; core_goal; try (destruct (assoc h (handles w)); easy).
Qed.

Lemma close_connection_contract h d n t w s w' : handles_poisoned w = false ->
  meta_close_connection_v1 h d n t w = (s, w') ->
  meta_close_connection_v1_contract h d n t (view_of w) s (view_of w').
Proof.
  intros P E. unfold meta_close_connection_v1, on_core, on_handle, put_handle in E.
  unfold meta_close_connection_v1_contract. cbn [close_one api].
  run_call E; core_goal; try (destruct (assoc h (handles w)); easy).
Qed.

(** The worker is told of the change by advancing the watched counter. *)
Lemma network_changed_contract h t w s w' : handles_poisoned w = false -> callback w t = false ->
  meta_network_changed_v1 h t w = (s, w') ->
  meta_network_changed_v1_contract h t (view_of w) s (view_of w').
Proof.
  intros P B E. unfold meta_network_changed_v1, check_lifecycle, on_handle, put_handle, network_changed in E.
  unfold meta_network_changed_v1_contract. cbn [stopped note_network_change api].
  run_call E; try (rewrite B in *; discriminate); core_goal.
Qed.

(** The state with the handle [id] replaced. *)
Definition with_handle (id : Z) (x : handle_t) w : world :=
  set_registry (assoc_set id x (handles w)) (handles_poisoned w) (next w) w.

Lemma assoc_set_set {A} k (x y : A) l : assoc_set k x (assoc_set k y l) = assoc_set k x l.
Proof.
  induction l as [|[i z] l IH]; [reflexivity|]. cbn [assoc_set].
  destruct (i =? k) eqn:E; cbn [assoc_set]; rewrite E; [reflexivity|now rewrite IH].
Qed.

Lemma assoc_set_id {A} k (x : A) l : assoc k l = Some x -> assoc_set k x l = l.
Proof.
  induction l as [|[i z] l IH]; [reflexivity|]. cbn [assoc assoc_set].
  destruct (i =? k) eqn:E; intros H; [now injection H as ->|now rewrite IH].
Qed.

Lemma with_handle_id id x w : assoc id (handles w) = Some x -> with_handle id x w = w.
Proof. intros H. unfold with_handle. rewrite assoc_set_id by exact H. now destruct w. Qed.

Lemma member_field k (o : list (text * Value)) : member k o = field k o.
Proof.
  induction o as [|[i v] o IH]; [reflexivity|]. unfold member in *. cbn [find field fst]. unfold text_eqb.
  destruct (list_eq_dec Z.eq_dec i k); [reflexivity|exact IH].
Qed.

Lemma online_keys_checked (o : list (text * Value)) :
  forallb (fun m => existsb (text_eqb (fst m)) online_keys) o = forallb (fun e => online_key (fst e)) o.
Proof.
  induction o as [|e o IH]; [reflexivity|]. cbn [forallb]. rewrite IH. f_equal.
  unfold online_key, online_keys. cbn [existsb]. now rewrite orb_false_r, orb_assoc.
Qed.

Section OneHandle.
Variables (id : Z) (x0 : handle_t) (w : world).
Hypothesis live : assoc id (handles w) = Some x0.
Hypothesis unpoisoned : handles_poisoned w = false.

Lemma handle_with x t : handle id t (with_handle id x w) = (Ok x, with_handle id x w).
Proof.
  rewrite handle_eq by exact unpoisoned. cbn [with_handle set_registry handles].
  now rewrite (assoc_set_same _ _ _ _ live).
Qed.

Lemma on_core_with x t f :
  on_core id x f t (with_handle id x w) =
  (fst (f (core x)), with_handle id (set_core (snd (f (core x))) x) w).
Proof.
  unfold on_core, on_handle. destruct (f (core x)) as [r c]. cbn [fst snd].
  unfold put_handle, modify, lift, fbind. f_equal. unfold with_handle. cbn [set_registry handles next handles_poisoned].
  now rewrite assoc_set_set.
Qed.

(** A run that leaves the handle as [x] meets the contract of [core_call]. *)
Lemma core_call_with op t r x s w' run :
  op t w = (r, with_handle id x w) -> r = Ok META_OK \/ ok_of r = None ->
  run x0 = (is_ok r, x) -> boundary op t w = (s, w') ->
  core_call id run t (view_of w) s (view_of w').
Proof.
  intros E Hr Hx B. unfold core_call, v_core. cbn [view_of v_cores v_mem Core api].
  rewrite live, Hx. cbn [fst snd].
  assert (A : assoc id (handles (with_handle id x w)) = Some x /\
    forall h, h <> id -> assoc h (handles (with_handle id x w)) = assoc h (handles w)).
  { cbn [with_handle set_registry handles]. split; [eapply assoc_set_same, live|].
    intros. now apply assoc_set_other. }
  destruct Hr as [->|Hr].
  - rewrite (boundary_run _ _ _ _ _ E) in B. injection B as <- <-.
    split; [now apply error_frame_ok|]. split; [reflexivity|]. split; [reflexivity|exact A].
  - destruct (boundary_fails _ _ _ _ _ E Hr) as [e Eb]. rewrite Eb in B. injection B as <- <-.
    split; [now apply error_frame_fail|]. split; [reflexivity|].
    split; [now destruct r|exact A].
Qed.

(** [meta_update_v1] after its arguments, on the handle [x]. *)
Lemma update_tail_run t (o : list (text * Value)) x :
  exists r y,
    (let! mode := lift (optional mode_from_value (field (lit "mode") o)) in
     let! rules := lift (optional rules_from_value (field (lit "rules") o)) in
     (match mode, rules with
      | None, None => fret tt
      | _, _ => let! h := handle id in on_core id h (fun c => core_update_policy c mode rules)
      end) ;!
     fret META_OK) t (with_handle id x w) = (r, with_handle id y w) /\
    (r = Ok META_OK \/ ok_of r = None) /\
    match field (lit "mode") o, field (lit "rules") o with
    | None, None => (true, x)
    | mode, rules => set_mode_rules x mode rules
    end = (is_ok r, y).
Proof.
  replace (match field (lit "mode") o, field (lit "rules") o with None, None => _ | _, _ => _ end) with
    match optional mode_from_value (field (lit "mode") o), optional rules_from_value (field (lit "rules") o) with
    | Ok None, Ok None => (true, x)
    | Ok mode, Ok rules => let '(r, c) := core_update_policy (core x) mode rules in (is_ok r, set_core c x)
    | _, _ => (false, x)
    end.
  2: { unfold set_mode_rules. destruct (field (lit "mode") o) as [m|], (field (lit "rules") o) as [q|]; cbn [optional obnd];
       try destruct (mode_from_value m); cbn [obnd]; try destruct (rules_from_value q); reflexivity. }
  assert (G : forall mode rules, exists r y,
    (let! h := handle id in on_core id h (fun c => core_update_policy c mode rules) ;! fret META_OK)
      t (with_handle id x w) = (r, with_handle id y w) /\ (r = Ok META_OK \/ ok_of r = None) /\
    (let '(r, c) := core_update_policy (core x) mode rules in (is_ok r, set_core c x)) = (is_ok r, y)).
  { intros mode rules. unfold fbind. rewrite handle_with, on_core_with.
    destruct (core_update_policy (core x) mode rules) as [[[]| |] c]; cbn [fst snd];
      do 2 eexists; (split; [reflexivity|]); auto. }
  unfold fbind, lift in *.
  destruct (optional mode_from_value _) as [mode| |]; [|now do 2 eexists; eauto..].
  destruct (optional rules_from_value _) as [rules| |]; [|now destruct mode; do 2 eexists; eauto..].
  destruct mode as [m|], rules as [q|].
  4: { exists (Ok META_OK), x. auto. }
  all: match goal with |- context [core_update_policy _ ?a ?b] => destruct (G a b) as (r & y & E & H) end;
    exists r, y; (split; [|exact H]); rewrite <- E; rewrite handle_with; reflexivity.
Qed.

Lemma update_contract d n t s w' :
  meta_update_v1 id d n t w = (s, w') ->
  meta_update_v1_contract id d n t (view_of w) s (view_of w').
Proof.
  intros E. unfold meta_update_v1 in E.
  set (op := fbind (input d n) _) in E. change (boundary op t w = (s, w')) in E.
  enough (R : exists r x, op t (with_handle id x0 w) = (r, with_handle id x w) /\
    (r = Ok META_OK \/ ok_of r = None) /\
    match argument input_limit (mem w) d n with Some j => online_update (sem := api) x0 j | None => (false, x0) end = (is_ok r, x)).
  { destruct R as (r & x & R & Hr & Hu). rewrite with_handle_id in R by exact live.
    exact (core_call_with _ _ _ _ _ _ _ R Hr Hu E). }
  subst op. unfold fbind at 1. rewrite input_eq.
  change (mem (with_handle id x0 w)) with (mem w).
  destruct (argument input_limit (mem w) d n) as [j|]; [|now do 2 eexists; eauto].
  unfold online_update. cbn [json_object set_exceptions set_policy api]. unfold fbind at 1. unfold lift at 1.
  destruct (from_slice j) as [v| |]; cbn [obnd ok_of]; [|now do 2 eexists; eauto..].
  unfold fbind at 1. destruct (as_object v) as [o|]; cbn [context_of fret ferr ok_of]; [|now do 2 eexists; eauto].
  rewrite online_keys_checked, !member_field.
  unfold fbind at 1. destruct (forallb _ o); cbn [ensure fret ferr]; [|now do 2 eexists; eauto].
  unfold fbind at 1. destruct (field (lit "adblock-allow") o) as [allow|].
  2: { cbn [fret]. apply (update_tail_run t o x0). }
  unfold fbind at 1. rewrite handle_with. unfold fbind at 1. unfold lift at 1. unfold set_allow.
  destruct (allow_from_value allow) as [a| |]; [|now do 2 eexists; eauto..].
  rewrite on_core_with. destruct (core_set_adblock_allow (core x0) a) as [[[]| |] c]; cbn [fst snd is_ok].
  - apply (update_tail_run t o).
  - now do 2 eexists; eauto.
  - now do 2 eexists; eauto.
Qed.

End OneHandle.

(** ** Contracts of the calls that wait *)

(** What the route test answers to a request; a port, if there is one, is a
    number between 1 and 65535. *)
Definition asked_port (port : Value) : option (option Z) :=
  if is_null port then Some None
  else let? p := as_u64 port in if (p =? 0) || (65535 <? p) then None else Some (Some p).

Lemma test_port_asked port : ok_of (test_port port) = asked_port port.
Proof.
  unfold test_port, asked_port. destruct (is_null port); [reflexivity|].
  destruct (as_u64 port) as [p|]; [|reflexivity]. cbn [obind]. rewrite Z.ltb_antisym.
  now destruct (p =? 0), (p <=? 65535).
Qed.

Definition route_request (j : text) : option (Target * text) :=
  let? value := ok_of (from_slice j) in
  let? target := as_str (value_index value (lit "target")) in
  let? port := asked_port (value_index value (lit "port")) in
  let? target := ok_of (parse_test_target target port) in
  Some (target, match as_str (value_index value (lit "network")) with Some n => n | None => lit "tcp" end).

Definition route_answer (worker : Target -> text -> turn (outcome RouteTest)) (j : text) : option text :=
  let? r := route_request j in
  ok_of (obnd (ask (worker (fst r) (snd r))) route_to_vec).

(** What the leak test with [online] answers. *)
Definition leak_answer (worker : turn (outcome DnsLeakTest)) (x : handle_t) : option text :=
  ok_of (obnd (ask worker) (fun r => dns_leak_to_vec (core_dns_leak_audit (core x)) (Some r))).

Lemma answers_context {A} (o : option A) e k t w b c l f :
  (forall a, answers (k a) t w b c l (f a)) -> answers (fbind (context_of o e) k) t w b c l (obind o f).
Proof.
  intros H. apply (answers_bind _ _ _ _ _ _ _ (match o with Some a => Ok a | None => Err e end));
    [now destruct o|now destruct o|exact H].
Qed.

Lemma test_route_answers worker h p n b c l t w :
  handles_poisoned w = false ->
  answers (let! json := input p n in
    let! value := lift (from_slice json) in
    let! target := context_of (as_str (value_index value (lit "target"))) (lit "target required") in
    let! port := lift (test_port (value_index value (lit "port"))) in
    let! target := lift (parse_test_target target port) in
    let! x := handle h in
    let! result := lift (ask (worker target
      match as_str (value_index value (lit "network")) with Some n => n | None => lit "tcp" end)) in
    let! json := lift (route_to_vec result) in
    output json b c l) t w b c l
   (let? _ := assoc h (handles w) in let? j := argument input_limit (mem w) p n in route_answer worker j).
Proof.
  intros P.
  replace (let? _ := assoc h (handles w) in _) with
    (let? j := argument input_limit (mem w) p n in
     let? value := ok_of (from_slice j) in
     let? target := as_str (value_index value (lit "target")) in
     let? port := ok_of (test_port (value_index value (lit "port"))) in
     let? target := ok_of (parse_test_target target port) in
     let? _ := assoc h (handles w) in
     ok_of (obnd (ask (worker target
       match as_str (value_index value (lit "network")) with Some n => n | None => lit "tcp" end)) route_to_vec)).
  { apply answers_input. intros j. eapply answers_bind; [reflexivity..|]. intros v.
    apply answers_context. intros tg. eapply answers_bind; [reflexivity..|]. intros po.
    eapply answers_bind; [reflexivity..|]. intros t2. apply answers_handle; [exact P|]. intros x. answer. }
  unfold route_answer, route_request. destruct (argument _ _ _ _) as [j|]; cbn [obind]; [|now destruct (assoc _ _)].
  destruct (ok_of (from_slice j)) as [v|]; cbn [obind]; [|now destruct (assoc _ _)].
  destruct (as_str _) as [tg|]; cbn [obind]; [|now destruct (assoc _ _)].
  rewrite test_port_asked. destruct (asked_port _) as [po|]; cbn [obind]; [|now destruct (assoc _ _)].
  destruct (ok_of (parse_test_target _ _)) as [t2|]; cbn [obind]; [|now destruct (assoc _ _)].
  now destruct (assoc _ _).
Qed.

(** What a probe answers to a name, and within what time. *)
Definition probe_timeout (ms : Z) : Z := if ms <? 100 then 100 else if 30000 <? ms then 30000 else ms.

Definition probe_answer (worker : text -> Z -> turn (outcome Z * Z)) (ms : Z) (name : text) : option (Z + text) :=
  match worker name (probe_timeout ms) with
  | Answered _ (Ok delay, _) => Some (inl delay)
  | Answered _ (Err error, _) => Some (inr error)
  | _ => None
  end.

Lemma clamp_timeout ms : clamp 100 30000 ms = probe_timeout ms.
Proof. unfold clamp, probe_timeout. destruct (Z.ltb_spec ms 100), (Z.ltb_spec 30000 ms); lia. Qed.

Lemma probe_answer_delay worker ms n d : probe_answer worker ms n = Some (inl d) ->
  exists now, worker n (probe_timeout ms) = Answered _ (Ok d, now).
Proof.
  unfold probe_answer. destruct (worker n _) as [| |[[x|e|] now]]; try discriminate.
  intros E. injection E as <-. now exists now.
Qed.

Lemma text_eqb_refl x : text_eqb x x = true.
Proof. unfold text_eqb. now destruct (list_eq_dec Z.eq_dec x x). Qed.

Lemma text_eqb_neq x y : x <> y -> text_eqb x y = false.
Proof. unfold text_eqb. now destruct (list_eq_dec Z.eq_dec x y). Qed.

Context {Pr : ProbeLaws K}.

(** What a probe leaves of a handle, and in its map. *)
Lemma probe_leaves worker n ms x r y : probe worker n (clamp 100 30000 ms) x = (r, y) ->
  settings_of (core_config (core y)) = settings_of (core_config (core x)) /\
  rest (core_config (core y)) = rest (core_config (core x)) /\ stop y = stop x /\
  (forall m, m <> n -> probe_entry y m = probe_entry x m) /\
  match probe_answer worker ms n with
  | Some (inl d) => r = Ok d /\ probe_entry y n = Some (inl d)
  | Some (inr e) => r = Err e /\ probe_entry y n = Some (inr e)
  | None => ok_of r = None /\ y = x
  end.
Proof.
  rewrite clamp_timeout. unfold probe, probe_answer, core_probe, probe_entry.
  destruct (worker n _) as [| |[[d|e|] now]]; intros E; injection E as <- <-; cbn [set_core core stop ask];
    rewrite ?config_probe, ?config_delay, ?probes_inserted, ?text_eqb_refl; repeat (split; [reflexivity|]).
  1,2: auto.
  1,2: split; [intros m Hm; now rewrite ?probes_inserted, text_eqb_neq, ?probes_delay|auto].
  now destruct x.
Qed.

Lemma probe_contract worker h p n ms o t w s w' :
  handles_poisoned w = false -> (forall x d now, worker x (probe_timeout ms) = Answered _ (Ok d, now) -> 0 <= d) ->
  meta_probe_v1 worker h p n ms o t w = (s, w') ->
  meta_probe_v1_contract h p n ms o (probe_answer worker ms) t (view_of w) s (view_of w').
Proof.
  intros P Hd E. unfold meta_probe_v1, ensure, on_handle in E. unfold meta_probe_v1_contract, v_core.
  cbn [view_of v_cores v_mem v_error Core api settings policy stopped probe_shown].
  destruct (Z.eqb_spec o 0) as [->|Ho]; cbn [negb] in E.
  { run_call E. split; [recorded|]. split; [reflexivity|]. split; [reflexivity|].
    destruct (assoc h (handles w)), (utf8_argument (mem w) p n); repeat split. }
  run_call E; cbn [set_error handles set_mem mem].
  all: split; [recorded|]; split; [try apply assoc_set_keys; reflexivity|];
    split; [intros i Hi; first [reflexivity | apply assoc_set_other; exact Hi]|].
  4,5: try destruct (assoc h (handles w)); repeat split.
  all: match goal with H : probe _ _ _ _ = _ |- _ => destruct (probe_leaves _ _ _ _ _ _ H) as (L1 & L2 & L3 & L4 & L5) end.
  all: exists h1; split; [eapply assoc_set_same; eassumption|]; do 4 (split; [assumption|]).
  all: destruct (probe_answer worker ms t0) as [[d|e']|] eqn:A; destruct L5 as [L5 L6]; try discriminate.
  - injection L5 as ->. split; [reflexivity|]. split; [exact L6|]. split.
    + apply load_u32_store. apply probe_answer_delay in A as [now A]. apply Hd in A. lia.
    + apply only_changed_store. now left.
  - injection L5 as ->. split; [reflexivity|]. split; [exact L6|]. split; [|reflexivity].
    cbn [error_text set_error]. unfold set_at. now rewrite Z.eqb_refl.
  - now repeat split.
  - now repeat split.
Qed.


End HandleCalls.
