(* ===== verification/PacketCalls.v ===== *)
(** * Packets through the interface

    [meta_write_packet_v1] and [meta_read_packet_v1] against their contracts:
    packets are validated, queued and delivered in order, a packet that does
    not fit the host's buffer stays at the head of the queue, and a full or
    empty queue gives META_WOULD_BLOCK. *)
From S2P Require Import Prelude CMemory CApi ConfigCrypto Host Ffi FfiContract LogBuffer HandleCalls.
From Stdlib Require Import String ZArith List Lia Bool.
Import ListNotations.
Open Scope Z_scope.

Section PacketCalls.
Context {K : Crates} {M : Mpsc} {C : CipherCrates} {L : MpscLaws M}.
Implicit Types (t : thread) (w : world) (s : meta_status).

(** ** Filling the head of the queue *)

Lemma fill_spec p r p' : fill p = (r, p') ->
  readable p' = readable p /\
  match r with
  | Ok true => exists x, pending p' = Some x /\ readable p = x :: queued (receiver p')
  | Ok false => readable p = [] /\ closed (receiver p) = false
  | Err _ => readable p = [] /\ closed (receiver p) = true
  | Panic => False
  end.
Proof.
  unfold fill, readable. destruct (pending p) as [x|] eqn:Hp.
  { intros E. injection E as <- <-. rewrite Hp. eauto. }
  destruct (queued (receiver p)) as [|x q] eqn:Q.
  - rewrite (recv_none _ Q). destruct (closed (receiver p)) eqn:Cl.
    + intros E. injection E as <- <-. cbn [pending receiver]. auto.
    + rewrite (recv_none _ Q), Cl. intros E. injection E as <- <-. cbn [pending receiver]. auto.
  - destruct (recv_some _ _ _ Q) as (c' & Er & Eq & _). rewrite Er. intros E.
    injection E as <- <-. cbn [pending receiver]. rewrite Eq. eauto.
Qed.

Lemma view_readable_with id (x y : Handle CoreState) w : assoc id (handles w) = Some x ->
  forall h, v_readable (view_of (with_handle id y w)) h =
    if h =? id then readable (packet_output y) else v_readable (view_of w) h.
Proof.
  intros A h. cbn [view_of v_readable with_handle set_registry handles].
  destruct (Z.eqb_spec h id) as [->|Hn].
  - now rewrite (assoc_set_same _ _ _ _ A).
  - now rewrite assoc_set_other.
Qed.

Lemma view_written_with id (x y : Handle CoreState) w : assoc id (handles w) = Some x ->
  forall h, v_written (view_of (with_handle id y w)) h =
    if h =? id then match packet_input y with Some c => queued c | None => [] end
    else v_written (view_of w) h.
Proof.
  intros A h. cbn [view_of v_written with_handle set_registry handles].
  destruct (Z.eqb_spec h id) as [->|Hn].
  - now rewrite (assoc_set_same _ _ _ _ A).
  - now rewrite assoc_set_other.
Qed.

(** ** Writing *)

(** The checks of a packet, one by one, are [ip_packet] and a pointer. *)
Lemma ip_packet_checks m d n :
  negb (d =? 0) && ip_packet (load_bytes m d n) =
  ((20 <=? n) && (n <=? 65535)) &&
  match argument input_limit m d n with
  | Some x => (Z.shiftr (nth 0 x 0) 4 =? 4) || (Z.shiftr (nth 0 x 0) 4 =? 6)
  | None => false
  end.
Proof.
  unfold argument, ip_packet. destruct (Z.leb_spec 20 n) as [H1|H1].
  2: { destruct (Z.leb_spec 20 (zlength (load_bytes m d n))) as [H|H]; [|now rewrite andb_false_r].
       destruct (Z.le_gt_cases 0 n); [rewrite zlength_load_bytes in H by lia; lia|].
       destruct n; try lia. change (load_bytes m d (Z.neg p)) with (@nil Z) in H. change (zlength (@nil Z)) with 0 in H. lia. }
  rewrite zlength_load_bytes, (proj2 (Z.leb_le 20 n)) by lia. cbn [andb].
  destruct (Z.leb_spec n 65535) as [H2|H2]; cbn [andb]; [|apply andb_false_r].
  rewrite (proj2 (Z.leb_le n input_limit)) by (unfold input_limit, MiB; lia).
  rewrite (proj2 (Z.eqb_neq n 0)) by lia. cbn [andb orb]. destruct (d =? 0); [reflexivity|]. cbn [negb andb].
  destruct (load_bytes m d n) as [|b l] eqn:E; [|reflexivity].
  apply (f_equal zlength) in E. rewrite zlength_load_bytes in E by lia. change (zlength (@nil Z)) with 0 in E. lia.
Qed.

Lemma ip_packet_checked m d n x : argument input_limit m d n = Some x ->
  (20 <=? n) && (n <=? 65535) = true -> (Z.shiftr (nth 0 x 0) 4 =? 4) || (Z.shiftr (nth 0 x 0) 4 =? 6) = true ->
  ip_packet (load_bytes m d n) = true.
Proof. intros A R V. pose proof (ip_packet_checks m d n) as H. rewrite A, R, V in H. now apply andb_true_iff in H. Qed.

Lemma argument_loads m d n x : argument input_limit m d n = Some x -> x = load_bytes m d n.
Proof. unfold argument. destruct (_ && _); [|discriminate]. intros E. now injection E as <-. Qed.

Lemma same_cores_with id (x y : Handle CoreState) w : assoc id (handles w) = Some x ->
  core y = core x -> stop y = stop x -> packet_queue_enabled y = packet_queue_enabled x ->
  same_cores (view_of w) (view_of (with_handle id y w)).
Proof.
  intros A Hc Hs Hq. split.
  - unfold v_live. cbn [view_of v_cores with_handle set_registry handles]. apply assoc_set_keys.
  - intros h. unfold v_core. cbn [view_of v_cores with_handle set_registry handles Core api].
    destruct (Z.eq_dec h id) as [->|Hn].
    + rewrite (assoc_set_same _ _ _ _ A), A.
      cbn [option_map stopped packet_queue settings policy api]. now rewrite Hc, Hs, Hq.
    + now rewrite assoc_set_other.
Qed.

Lemma same_cores_trans v1 v2 v3 : same_cores v1 v2 -> same_cores v2 v3 -> same_cores v1 v3.
Proof. intros [L1 C1] [L2 C2]. split; [congruence|]. intros h. now rewrite C2, C1. Qed.

(** What [try_send] does is decided by the two ends and the room. *)
Lemma try_send_cases c x r c' : try_send c x = (r, c') ->
  match r with
  | Sent => closed c = false /\ (zlength (queued c) <? capacity c) = true /\ queued c' = queued c ++ [x]
  | SendFull => closed c = false /\ (zlength (queued c) <? capacity c) = false
  | SendClosed => closed c = true
  end.
Proof.
  intros E. destruct (closed c) eqn:Cl; [rewrite send_closed in E by exact Cl; now injection E as <- <-|].
  destruct (Z.ltb_spec (zlength (queued c)) (capacity c)) as [H|H].
  - destruct (send_room c x Cl H) as (c1 & E1 & Q & _). rewrite E1 in E. now injection E as <- <-.
  - rewrite send_full in E by trivial. now injection E as <- <-.
Qed.

Lemma write_contract h d n t w s w' :
  handles_poisoned w = false ->
  meta_write_packet_v1 h d n t w = (s, w') ->
  meta_write_packet_v1_contract h d n t (view_of w) s (view_of w').
Proof.
  intros P E. unfold meta_write_packet_v1, check_packet_queue in E. cbv zeta in E.
  unfold meta_write_packet_v1_contract, packet_accepted, queue_room, packets_open, v_core.
  rewrite ip_packet_checks.
  run_call E; cbn [view_of v_cores v_mem Core api packet_queue packet_room packets_taken stopped].
  all: repeat match goal with H : try_send _ _ = _ |- _ => apply try_send_cases in H end.
  all: split; [recorded|]; split; [reflexivity|].
  all: split; [first [split; reflexivity | apply (same_cores_with h h0); assumption || reflexivity]|].
  all: settle; try (split; [rewrite ?andb_false_r; reflexivity|reflexivity]).
  - destruct X6 as (Cl & Rm & Q). rewrite Cl, Rm. split; [reflexivity|]. intros i.
    pose proof (view_written_with h h0 (set_input (Some c0) h0) w X2 i) as V. unfold with_handle in V. rewrite P in V.
    rewrite V. clear V. change (meta_status_eqb META_OK META_OK) with true. cbn [andb].
    destruct (Z.eqb_spec i h) as [->|]; [|reflexivity].
    cbn [set_input packet_input view_of v_written]. now rewrite X2, X5, Q, (argument_loads _ _ _ _ X0).
  - destruct X6 as (Cl & Rm). now rewrite Cl, Rm.
Qed.

(** ** Reading *)

(** What a read does once the length is cleared and the handle found. *)
Definition read_result (h : Z) (x : Handle CoreState) (b c l : Z) t w : meta_status * world :=
  let '(filled, q) := fill (packet_output x) in
  let w1 := with_handle h (set_output q x) (set_mem (store_u64 (mem w) l 0) w) in
  match filled, pending q with
  | Ok true, Some p =>
      match output p b c l t w1 with
      | (Ok META_OK, w2) =>
          (META_OK, with_handle h (set_output {| receiver := receiver q; pending := None; wake := wake q |} x) w2)
      | (Ok s, w2) => (s, w2)
      | (Err e, w2) => (META_ERROR, set_error t e w2)
      | (Panic, w2) => (META_ERROR, set_error t (lit "panic contained at C ABI boundary") w2)
      end
  | Ok true, None => (META_ERROR, set_error t (lit "panic contained at C ABI boundary") w1)
  | Ok false, _ => (META_WOULD_BLOCK, w1)
  | Err e, _ => (META_ERROR, set_error t e w1)
  | Panic, _ => (META_ERROR, set_error t (lit "panic contained at C ABI boundary") w1)
  end.

Lemma put_handle_run id x t w : put_handle id x t w = (Ok tt, with_handle id x w).
Proof. reflexivity. Qed.

Lemma read_run h b c l t w :
  handles_poisoned w = false -> l <> 0 ->
  exists e, meta_read_packet_v1 h b c l t w =
    match assoc h (handles w) with
    | Some x => if packet_queue_enabled x then read_result h x b c l t w
                else (META_ERROR, set_error t e (set_mem (store_u64 (mem w) l 0) w))
    | None => (META_ERROR, set_error t e (set_mem (store_u64 (mem w) l 0) w))
    end.
Proof.
  intros P Hl. unfold meta_read_packet_v1, boundary, ensure, fbind at 1.
  rewrite (proj2 (Z.eqb_neq l 0) Hl). cbn [negb fret].
  unfold fbind at 1, write_mem, modify. unfold fbind at 1. rewrite handle_eq by exact P.
  cbn [set_mem handles]. destruct (assoc h (handles w)) as [x|]; [|now eexists].
  unfold fbind at 1, lift, check_packet_queue. destruct (packet_queue_enabled x); [|now eexists].
  exists []. unfold read_result. destruct (fill (packet_output x)) as [f q].
  unfold fbind. rewrite put_handle_run.
  destruct f as [[|]| |]; cbn [negb fret]; try reflexivity.
  destruct (pending q); cbn [fret fpanic]; [|reflexivity].
  destruct (output _ _ _ _ _ _) as [[[]| |] w2]; cbn [meta_status_eqb status_code Z.eqb]; try reflexivity.
Qed.

Lemma readable_set_output id x q w : assoc id (handles w) = Some x ->
  readable q = readable (packet_output x) ->
  forall h, v_readable (view_of (with_handle id (set_output q x) w)) h = v_readable (view_of w) h.
Proof.
  intros A Hq h. rewrite (view_readable_with _ x) by exact A.
  destruct (Z.eqb_spec h id) as [->|]; [|reflexivity].
  cbn [set_output packet_output view_of v_readable]. now rewrite A.
Qed.

Lemma output_error_buffer p b c l t w r w' : output p b c l t w = (r, w') -> ok_of r = None -> l <> 0 ->
  b = 0 /\ zlength p <= c.
Proof.
  rewrite output_run. intros E H Hl. rewrite (proj2 (Z.eqb_neq l 0) Hl) in E. cbv zeta in E.
  destruct (Z.ltb_spec c (zlength p)); [injection E as <- <-; discriminate|].
  destruct (zlength p =? 0); [injection E as <- <-; discriminate|].
  destruct (Z.eqb_spec b 0); [auto|]. injection E as <- <-. discriminate.
Qed.

(** A read that finds no queue to use only clears the length. *)
Lemma read_refused h b c l t w e m : (l <> 0 -> packets_open (view_of w) h = false) ->
  only_changed (target l 8) (mem w) m ->
  meta_read_packet_v1_contract h b c l t (view_of w) META_ERROR (view_of (set_error t e (set_mem m w))).
Proof.
  intros H O. split; [now apply error_frame_fail|]. split; [split; reflexivity|]. split; [intros X; now elim X|].
  destruct (v_readable (view_of w) h); (split; [exact O|]); (split; [reflexivity|]);
    intros Hl Ho; rewrite (H Hl) in Ho; discriminate.
Qed.

(** Reading from a queue in use. *)
Lemma read_result_contract h x b c l t w s w' :
  assoc h (handles w) = Some x -> packet_queue_enabled x = true -> l <> 0 -> read_result h x b c l t w = (s, w') ->
  meta_read_packet_v1_contract h b c l t (view_of w) s (view_of w').
Proof.
  intros A Hq Hl E. set (w0 := set_mem (store_u64 (mem w) l 0) w) in *.
  assert (Oc : only_changed [(l, 8)] (mem w) (mem w0)) by (apply only_changed_store_u64; now left).
  unfold meta_read_packet_v1_contract, packets_open, v_core, target. rewrite (proj2 (Z.eqb_neq l 0) Hl).
  cbn [view_of v_cores v_mem Core api packet_queue]. rewrite A, Hq.
  unfold read_result in E. fold w0 in E. destruct (fill (packet_output x)) as [f q] eqn:F.
  destruct (fill_spec _ _ _ F) as [Hr Hf].
  set (w1 := with_handle h (set_output q x) w0) in *.
  assert (SC : same_cores (view_of w) (view_of w1))
    by exact (same_cores_with h x (set_output q x) w0 A eq_refl eq_refl eq_refl).
  assert (VR : forall i, v_readable (view_of w1) i = v_readable (view_of w) i)
    by exact (readable_set_output h x q w0 A Hr).
  assert (VX : v_readable (view_of w) h = readable (packet_output x))
    by (cbn [view_of v_readable]; now rewrite A).
  change (match assoc h (handles w) with Some x => readable (packet_output x) | None => [] end)
    with (v_readable (view_of w) h). rewrite VX.
  destruct f as [[|]|e'|]; [|destruct Hf as [Hf Hc]; rewrite Hf in *..|easy].
  2,3: injection E as <- <-; split; [recorded|]; split; [exact SC|]; split; [auto|];
    cbn [option_map packets_ended api]; rewrite ?A; cbn [option_map]; rewrite Hc.
  2: { split; [easy|]. split; [now apply load_u64_store|]. split; [exact Oc|]. split; [reflexivity|exact VR]. }
  2: { split; [exact Oc|]. split; [exact VR|]. reflexivity. }
  destruct Hf as (p & Hp & Hx). rewrite Hp in E. rewrite Hx in *.
  destruct (output p b c l t w1) as [[s1|e'|] w2] eqn:O.
  - destruct (output_buffer _ _ _ _ _ _ _ _ O) as [B W].
    destruct s1; try now destruct B as (_ & _ & B).
    + injection E as <- <-. split; [apply error_frame_ok; [easy|now rewrite W]|].
      assert (A2 : assoc h (handles w2) = Some (set_output q x))
        by (rewrite W; apply (assoc_set_same _ _ _ _ A)).
      split; [eapply same_cores_trans; [exact SC|]; rewrite W in *;
              exact (same_cores_with h _
                (set_output {| receiver := receiver q; pending := None; wake := wake q |} x)
                (set_mem (mem w2) w1) A2 eq_refl eq_refl eq_refl)|].
      split; [auto|]. split; [now apply caller_buffer_cleared|].
      intros i. rewrite (view_readable_with _ _ _ _ A2). destruct (i =? h); [reflexivity|].
      rewrite W. apply VR.
    + injection E as <- <-. split; [apply error_frame_ok; [easy|now rewrite W]|].
      rewrite W. split; [exact SC|]. split; [auto|]. split; [now apply caller_buffer_cleared|exact VR].
  - destruct (output_error _ _ _ _ _ _ _ _ O eq_refl) as (Oc2 & W & _).
    injection E as <- <-. split; [apply error_frame_fail; now rewrite W|].
    split; [rewrite W; exact SC|]. split; [easy|].
    split; [|split; [intros i; rewrite W; apply VR|intros _ _; exact (output_error_buffer _ _ _ _ _ _ _ _ O eq_refl Hl)]].
    unfold target in Oc2. rewrite (proj2 (Z.eqb_neq l 0) Hl) in Oc2.
    eapply only_changed_trans; [exact Oc|exact Oc2].
  - now destruct (output_error _ _ _ _ _ _ _ _ O eq_refl) as (_ & _ & _ & X).
Qed.

Lemma read_contract h b c l t w s w' :
  handles_poisoned w = false ->
  meta_read_packet_v1 h b c l t w = (s, w') ->
  meta_read_packet_v1_contract h b c l t (view_of w) s (view_of w').
Proof.
  intros P E. destruct (Z.eqb_spec l 0) as [->|Hl].
  { unfold meta_read_packet_v1, boundary, ensure, fbind in E. cbn in E. injection E as <- <-.
    replace w with (set_mem (mem w) w) at 2 by now destruct w.
    apply read_refused; [now intros X|apply only_changed_refl]. }
  destruct (read_run h b c l t w P Hl) as [e R]. rewrite R in E. clear R.
  assert (Oc : only_changed (target l 8) (mem w) (store_u64 (mem w) l 0)).
  { unfold target. rewrite (proj2 (Z.eqb_neq l 0) Hl). apply only_changed_store_u64. now left. }
  destruct (assoc h (handles w)) as [x|] eqn:A; [destruct (packet_queue_enabled x) eqn:Hq|].
  - now apply (read_result_contract h x).
  - injection E as <- <-. apply read_refused; [|exact Oc]. intros _. unfold packets_open, v_core.
    cbn [view_of v_cores Core api packet_queue]. now rewrite A.
  - injection E as <- <-. apply read_refused; [|exact Oc]. intros _. unfold packets_open, v_core.
    cbn [view_of v_cores Core api]. now rewrite A.
Qed.

(** C6: The packet calls return exactly the status the situation calls for.
    Writing returns META_ERROR unless the bytes are an IP packet of 20 to 65535
    bytes, the handle is live with its packet queue in use, and the core is not
    stopped and still takes packets; otherwise META_OK when the queue has room,
    which appends exactly these bytes to the queue of that handle, and
    META_WOULD_BLOCK when it is full; nothing else changes a queue, and memory is
    only read.  Reading delivers exactly the packet at the head of the handle's
    queue and removes it on META_OK only; META_BUFFER_TOO_SMALL reports its size
    and keeps it.  With a length to write and the queue in use, META_WOULD_BLOCK
    is returned exactly when no packet waits and one may still come, and the
    length is then zero; META_ERROR only when none will come or, with a packet
    waiting, the buffer is null.  No call changes another handle's queue. *)
Theorem packet_calls_meet_contract h d n b c l t w s w' :
  handles_poisoned w = false ->
  (meta_write_packet_v1 h d n t w = (s, w') ->
   meta_write_packet_v1_contract h d n t (view_of w) s (view_of w')) /\
  (meta_read_packet_v1 h b c l t w = (s, w') ->
   meta_read_packet_v1_contract h b c l t (view_of w) s (view_of w')).
Proof. intros P. split; [now apply write_contract|now apply read_contract]. Qed.

End PacketCalls.
