(* ===== verification/PacketsIn.v ===== *)
(** * Packets from the host to the core

    [meta_write_packet_v1] puts packets into the input channel of a handle; the
    packet loop of the core takes them out with [HostPackets::recv]
    ([crates/ffi/src/host.rs]) into a buffer of 65535 bytes
    ([crates/core/src/packet.rs]).  Writes of any host threads and reads of the
    core interleave; what the core gets is what was accepted, in order. *)
From S2P Require Import Prelude CMemory CApi ConfigCrypto Host Ffi FfiContract LogBuffer HandleCalls PacketCalls.
From Stdlib Require Import String ZArith List Lia Bool.
Import ListNotations.
Open Scope Z_scope.

Section PacketsIn.
Context {K : Crates} {M : Mpsc} {C : CipherCrates} {L : MpscLaws M}.
Implicit Types (t : thread) (w : world).

(** [HostPackets::recv] with a buffer of [size] bytes; [None] while it waits for
    a packet.  A packet that is too large is lost. *)
Definition recv (size : Z) (input : channel) : option (outcome text * channel) :=
  match try_recv input with
  | (Received bytes, input') =>
      Some (if zlength bytes <=? size then Ok bytes else Err (lit "host packet buffer too small"), input')
  | (RecvEmpty, _) => None
  | (RecvDisconnected, input') => Some (Err (lit "host packet channel closed"), input')
  end.

(** The buffer of the packet loop. *)
Definition packet_buffer : Z := 65535.

(** The core of handle [id] reads. *)
Definition core_recv (id : Z) (w : world) : option (outcome text * world) :=
  match assoc id (handles w) with
  | Some h =>
      match packet_input h with
      | Some input =>
          match recv packet_buffer input with
          | Some (r, input') => Some (r, with_handle id (set_input (Some input') h) w)
          | None => None
          end
      | None => None
      end
  | None => None
  end.

Inductive input_event : Type :=
  | HostWrites (t : thread) (packet length : Z)
  | CoreReads.

(** What the host wrote with META_OK and what the core's reads returned; a read
    that finds nothing waits and is tried again later. *)
Fixpoint input_history (id : Z) (es : list input_event) (w : world) : list text * list (outcome text) * world :=
  match es with
  | [] => ([], [], w)
  | HostWrites t packet length :: es' =>
      let '(s, w1) := meta_write_packet_v1 id packet length t w in
      let '(accepted, got, w2) := input_history id es' w1 in
      ((if meta_status_eqb s META_OK then [load_bytes (mem w) packet length] else []) ++ accepted, got, w2)
  | CoreReads :: es' =>
      match core_recv id w with
      | Some (r, w1) =>
          let '(accepted, got, w2) := input_history id es' w1 in (accepted, r :: got, w2)
      | None => input_history id es' w
      end
  end.

(** The input channel of a handle that is in use. *)
Definition input_open (id : Z) (q : list text) (w : world) : Prop :=
  exists h c, assoc id (handles w) = Some h /\ packet_input h = Some c /\ queued c = q /\
    closed c = false /\ capacity c = 256 /\ zlength q <= 256 /\ Forall (fun x => ip_packet x = true) q.

Lemma write_run id d n t w s w' q :
  handles_poisoned w = false -> input_open id q w -> meta_write_packet_v1 id d n t w = (s, w') ->
  handles_poisoned w' = false /\
  input_open id (q ++ if meta_status_eqb s META_OK then [load_bytes (mem w) d n] else []) w'.
Proof.
  intros P (h & c & A & I & Q & Cl & Ca & Le & F) E. unfold meta_write_packet_v1, check_packet_queue in E. cbv zeta in E.
  assert (Keep : forall w1, handles w1 = handles w -> handles_poisoned w1 = handles_poisoned w ->
    handles_poisoned w1 = false /\ input_open id (q ++ []) w1).
  { intros w1 Hh Hp. rewrite app_nil_r. split; [congruence|]. exists h, c. rewrite Hh. auto 10. }
  run_call E; cbn [meta_status_eqb status_code Z.eqb]; try (apply Keep; reflexivity).
  assert (h0 = h) as -> by congruence. assert (c0 = c) as -> by congruence.
  pose proof (ip_packet_checked _ _ _ _ X0 X X1) as IP. apply argument_loads in X0 as ->.
  assert (R : zlength (queued c) < capacity c).
  { destruct (Z.lt_ge_cases (zlength (queued c)) (capacity c)) as [|G]; [assumption|].
    rewrite (send_full c _ Cl G) in X6. discriminate. }
  destruct (send_room c (load_bytes (mem w) d n) Cl R) as (c2 & E2 & Q2 & Ca2 & Cl2). rewrite E2 in X6.
  injection X6 as ->. split; [exact P|]. exists (set_input (Some c1) h), c1.
  refine (conj _ (conj _ (conj _ (conj _ (conj _ (conj _ _)))))); try easy.
  - exact (assoc_set_same _ _ _ _ X2).
  - now rewrite Q2, Q.
  - congruence.
  - rewrite zlength_app. change (zlength [load_bytes (mem w) d n]) with 1. rewrite Q, Ca in R. lia.
  - apply Forall_app. auto.
Qed.

Lemma recv_run id w q : handles_poisoned w = false -> input_open id q w ->
  match q with
  | [] => core_recv id w = None
  | x :: q' => exists w', core_recv id w = Some (Ok x, w') /\ handles_poisoned w' = false /\ input_open id q' w'
  end.
Proof.
  intros P (h & c & A & I & Q & Cl & Ca & Le & F). unfold core_recv, recv. rewrite A, I.
  destruct q as [|x q'].
  - now rewrite (recv_none _ Q), Cl.
  - destruct (recv_some _ _ _ Q) as (c' & E & Q' & Ca' & Cl'). rewrite E.
    inversion_clear F as [|? ? Fx Fq]. unfold ip_packet in Fx. bsplit.
    rewrite (proj2 (Z.leb_le (zlength x) packet_buffer)) by (unfold packet_buffer; lia).
    eexists. split; [reflexivity|]. split; [exact P|]. exists (set_input (Some c') h), c'.
    rewrite zlength_cons in Le.
    refine (conj _ (conj _ (conj _ (conj _ (conj _ (conj _ _)))))); try easy; try congruence; [|lia].
    exact (assoc_set_same _ _ _ _ A).
Qed.

Lemma input_history_queue id es : forall w q accepted got w',
  handles_poisoned w = false -> input_open id q w -> input_history id es w = (accepted, got, w') ->
  exists q', handles_poisoned w' = false /\ input_open id q' w' /\ map Ok (q ++ accepted) = got ++ map Ok q'.
Proof.
  induction es as [|[t d n|] es IH]; intros w q accepted got w' P O E; cbn [input_history] in E.
  - injection E as <- <- <-. exists q. now rewrite app_nil_r.
  - destruct (meta_write_packet_v1 id d n t w) as [s w1] eqn:W.
    destruct (write_run _ _ _ _ _ _ _ _ P O W) as [P1 O1].
    destruct (input_history id es w1) as [[acc g] w2] eqn:R. injection E as <- <- <-.
    destruct (IH _ _ _ _ _ P1 O1 R) as (q' & P' & O' & H). exists q'. now rewrite app_assoc.
  - pose proof (recv_run id w q P O) as H. destruct q as [|x q].
    + rewrite H in E. exact (IH _ _ _ _ _ P O E).
    + destruct H as (w1 & H & P1 & O1). rewrite H in E.
      destruct (input_history id es w1) as [[acc g] w2] eqn:R. injection E as <- <- <-.
      destruct (IH _ _ _ _ _ P1 O1 R) as (q' & P' & O' & G). exists q'. split; [exact P'|]. split; [exact O'|].
      cbn [app map]. now rewrite G.
Qed.

(** C10: Packets the host writes reach the core exactly once, whole and in order.
    Whatever the writes (of any threads, accepted or not) and the reads of the
    core, the packets accepted with META_OK are those the core got followed by
    those still queued; no read fails or loses a packet because it is too large
    for the core's buffer; the queue holds at most 256 packets; the next read
    gets its head, and waits only when it is empty. *)
Theorem packets_reach_core id es w accepted got w' :
  handles_poisoned w = false -> input_open id [] w -> input_history id es w = (accepted, got, w') ->
  let queue := v_written (view_of w') id in
  map Ok accepted = got ++ map Ok queue /\ zlength queue <= 256 /\
  match queue with
  | [] => core_recv id w' = None
  | x :: _ => exists w'', core_recv id w' = Some (Ok x, w'')
  end.
Proof.
  intros P O E queue. destruct (input_history_queue id es w [] accepted got w' P O E) as (q & P' & O' & H).
  assert (queue = q) as -> by (destruct O' as (h & c & A & I & Q & _); unfold queue; cbn [view_of v_written]; now rewrite A, I).
  split; [exact H|]. split; [now destruct O' as (h & c & _ & _ & _ & _ & _ & Le & _)|].
  pose proof (recv_run id w' q P' O') as R. destruct q; [exact R|]. destruct R as (w2 & R & _). eauto.
Qed.

End PacketsIn.
