(* ===== verification/PacketWake.v ===== *)
(** * Wake-ups of the packet reader, step by step

    Packets leave the core through [HostPackets::send], which any number of
    tasks may run at once, and reach the host through [PacketsOut::fill] in
    [meta_read_packet_v1] ([crates/ffi/src/host.rs]).  The two sides share the
    channel and the flag of [PacketWake] and nothing else, so every access to
    either is a step here and the steps of all tasks interleave freely.

    The host follows the header: after packet_ready it reads until a read
    returns META_WOULD_BLOCK.  A notification that arrives during such a drain
    is served after it.  The host may also start a drain of its own. *)
From S2P Require Import Prelude Transition CMemory CApi ConfigCrypto Host.
From Stdlib Require Import String ZArith List Lia Bool.
Import ListNotations.
Open Scope Z_scope.

(** ** State *)

(** Where a task is in [send]: outside; after [output.send]; after [queued]
    returned true, before the callback. *)
Inductive sender : Type := SendIdle | SendQueued | SendNotify.

(** Where the reader is in a call: outside; at the start of [fill]; after the
    first [try_recv] found nothing; after [emptied]; holding the packet that
    the second [try_recv] found; with [pending] set. *)
Inductive reader : Type :=
  | ReadIdle | ReadFill | ReadEmpty | ReadRearmed | ReadFound (packet : text) | ReadHave.

Record wstate : Type := {
  chan : list text;        (* the channel, oldest packet first *)
  held : option text;      (* PacketsOut::pending *)
  flag : bool;             (* PacketWake *)
  senders : list sender;
  rd : reader;
  notified : bool;         (* packet_ready was called and not yet served *)
  drain_on : bool;         (* the host is draining *)
  (* history *)
  sent : list text;
  got : list text;
  notifications : Z;       (* calls of packet_ready decided so far *)
  found_empty : Z;         (* reads that found the queue empty once *)
  would_blocks : Z }.      (* reads that returned META_WOULD_BLOCK *)

Definition chan_capacity : Z := 256.

Definition initial (n : nat) : wstate :=
  {| chan := []; held := None; flag := false; senders := repeat SendIdle n; rd := ReadIdle;
     notified := false; drain_on := false; sent := []; got := []; notifications := 0;
     found_empty := 0; would_blocks := 0 |}.

(** ** Steps *)

Inductive label : Type :=
  | Push (i : nat) (packet : text)  (* output.send(packet).await *)
  | Swap (i : nat)                  (* wake.queued() *)
  | Notify (i : nat)                (* notify(context) *)
  | Drain                           (* the host serves a notification *)
  | Poll                            (* the host reads unasked *)
  | Read                            (* meta_read_packet_v1 is called *)
  | Recv1                           (* pending is checked, try_recv *)
  | Rearm                           (* wake.emptied() *)
  | Recv2                           (* try_recv again *)
  | Mark                            (* wake.draining(), pending is set *)
  | Deliver                         (* the packet fits: META_OK *)
  | TooSmall.                       (* it does not: META_BUFFER_TOO_SMALL *)

(** Sender steps: channel, flag, senders and the notification. *)
Definition sender_step (c : list text) (f : bool) (ss : list sender) (n : bool) (st : list text) (k : Z)
    (s : wstate) : wstate :=
  {| chan := c; held := held s; flag := f; senders := ss; rd := rd s; notified := n;
     drain_on := drain_on s; sent := st; got := got s; notifications := k;
     found_empty := found_empty s; would_blocks := would_blocks s |}.

(** Reader steps: channel, pending, flag, position. *)
Definition reader_step (c : list text) (h : option text) (f : bool) (r : reader) (s : wstate) : wstate :=
  {| chan := c; held := h; flag := f; senders := senders s; rd := r; notified := notified s;
     drain_on := drain_on s; sent := sent s; got := got s; notifications := notifications s;
     found_empty := found_empty s; would_blocks := would_blocks s |}.

(** Host steps: the drain and what the reads returned. *)
Definition host_step (n d : bool) (g : list text) (e b : Z) (s : wstate) : wstate :=
  {| chan := chan s; held := held s; flag := flag s; senders := senders s; rd := rd s; notified := n;
     drain_on := d; sent := sent s; got := g; notifications := notifications s;
     found_empty := e; would_blocks := b |}.

Definition step (a : label) (s : wstate) : option wstate :=
  match a with
  | Push i packet =>
      match nth_error (senders s) i with
      | Some SendIdle =>
          if zlength (chan s) <? chan_capacity
          then Some (sender_step (chan s ++ [packet]) (flag s) (set_nth i SendQueued (senders s))
                       (notified s) (sent s ++ [packet]) (notifications s) s)
          else None
      | _ => None
      end
  | Swap i =>
      match nth_error (senders s) i with
      | Some SendQueued =>
          let '(notify, f) := wake_queued (flag s) in
          Some (sender_step (chan s) f
                  (set_nth i (if notify then SendNotify else SendIdle) (senders s))
                  (notified s) (sent s) (if notify then notifications s + 1 else notifications s) s)
      | _ => None
      end
  | Notify i =>
      match nth_error (senders s) i with
      | Some SendNotify =>
          Some (sender_step (chan s) (flag s) (set_nth i SendIdle (senders s)) true (sent s)
                  (notifications s) s)
      | _ => None
      end
  | Drain =>
      if notified s && negb (drain_on s)
      then Some (host_step false true (got s) (found_empty s) (would_blocks s) s) else None
  | Poll =>
      if drain_on s then None
      else Some (host_step (notified s) true (got s) (found_empty s) (would_blocks s) s)
  | Read =>
      match rd s with
      | ReadIdle => if drain_on s then Some (reader_step (chan s) (held s) (flag s) ReadFill s) else None
      | _ => None
      end
  | Recv1 =>
      match rd s with
      | ReadFill =>
          match held s, chan s with
          | Some _, _ => Some (reader_step (chan s) (held s) (flag s) ReadHave s)
          | None, x :: q => Some (reader_step q (Some x) (flag s) ReadHave s)
          | None, [] => Some (reader_step [] None (flag s) ReadEmpty s)
          end
      | _ => None
      end
  | Rearm =>
      match rd s with
      | ReadEmpty =>
          Some (reader_step (chan s) (held s) (wake_emptied (flag s)) ReadRearmed
                  (host_step (notified s) (drain_on s) (got s) (found_empty s + 1) (would_blocks s) s))
      | _ => None
      end
  | Recv2 =>
      match rd s with
      | ReadRearmed =>
          match chan s with
          | x :: q => Some (reader_step q (held s) (flag s) (ReadFound x) s)
          | [] => Some (reader_step [] (held s) (flag s) ReadIdle
                    (host_step (notified s) false (got s) (found_empty s) (would_blocks s + 1) s))
          end
      | _ => None
      end
  | Mark =>
      match rd s with
      | ReadFound x => Some (reader_step (chan s) (Some x) (wake_draining (flag s)) ReadHave s)
      | _ => None
      end
  | Deliver =>
      match rd s, held s with
      | ReadHave, Some x =>
          Some (reader_step (chan s) None (flag s) ReadIdle
                  (host_step (notified s) (drain_on s) (got s ++ [x]) (found_empty s) (would_blocks s) s))
      | _, _ => None
      end
  | TooSmall =>
      match rd s with
      | ReadHave => Some (reader_step (chan s) (held s) (flag s) ReadIdle s)
      | _ => None
      end
  end.

Abbreviation run := (run_labels step).

Definition reachable (n : nat) (s : wstate) : Prop := reaches step (initial n) s.

(** ** The atomic [fill] of [Host] is the run of its steps without interference *)

Section Sequential.
Context {M : Mpsc} {L : MpscLaws M}.

Definition fill_labels (s : wstate) : list label :=
  match held s, chan s with
  | None, [] => [Recv1; Rearm; Recv2]
  | _, _ => [Recv1]
  end.

Lemma fill_is_steps (p : PacketsOut) s r p' :
  closed (receiver p) = false -> rd s = ReadFill ->
  chan s = queued (receiver p) -> held s = pending p -> flag s = wake p ->
  fill p = (r, p') ->
  exists s', run s (fill_labels s) = Some s' /\
    chan s' = queued (receiver p') /\ held s' = pending p' /\ flag s' = wake p' /\
    r = Ok (match rd s' with ReadHave => true | _ => false end).
Proof.
  intros Cl R Hc Hh Hf. unfold fill, fill_labels. rewrite Hh, Hc.
  destruct (pending p) as [x|] eqn:Hp.
  { intros E. injection E as <- <-. cbn [run_labels step obind]. rewrite R, Hh, Hp.
    eexists. split; [reflexivity|]. cbn. auto. }
  destruct (queued (receiver p)) as [|x q] eqn:Q.
  - rewrite (recv_none _ Q), Cl. rewrite (recv_none _ Q), Cl. intros E. injection E as <- <-.
    cbn [run_labels step obind]. rewrite R, Hh, Hc. cbn. eexists. split; [reflexivity|]. cbn. now rewrite Q.
  - destruct (recv_some _ _ _ Q) as (c' & Er & Eq & _). rewrite Er. intros E. injection E as <- <-.
    cbn [run_labels step obind]. rewrite R, Hh, Hc. eexists. split; [reflexivity|]. cbn. now rewrite Eq.
Qed.

End Sequential.

(** ** The invariant *)

Definition opt_list {A} (o : option A) : list A := match o with Some x => [x] | None => [] end.
Definition in_hand (r : reader) : list text := match r with ReadFound x => [x] | _ => [] end.

(** Someone is going to read: the host drains, has been notified, is about to
    be, or a task has yet to look at the flag. *)
Definition attended (s : wstate) : Prop :=
  drain_on s = true \/ notified s = true \/ In SendNotify (senders s).

Record wake_inv (s : wstate) : Prop := {
  inv_reading : rd s <> ReadIdle -> drain_on s = true;
  inv_flag : flag s = true -> attended s;
  inv_rearmed : rd s = ReadRearmed -> flag s = true -> notified s = true \/ In SendNotify (senders s);
  inv_queue : chan s <> [] \/ held s <> None -> attended s \/ In SendQueued (senders s);
  inv_held : match rd s with
             | ReadEmpty | ReadRearmed | ReadFound _ => held s = None
             | ReadHave => held s <> None
             | _ => True
             end;
  inv_fifo : got s ++ opt_list (held s) ++ in_hand (rd s) ++ chan s = sent s;
  inv_coalesced : notifications s + (if flag s then 0 else 1) <= found_empty s + 1;
  inv_capacity : zlength (chan s) <= chan_capacity }.

Lemma set_nth_keeps' {A} i (x y z : A) l :
  nth_error l i = Some y -> y <> z -> In z l -> In z (set_nth i x l).
Proof. intros. apply (set_nth_keeps i x y); auto. Qed.

Create HintDb wake.
#[local] Hint Resolve set_nth_in set_nth_keeps' : wake.
#[local] Hint Extern 1 (_ <> _) => discriminate : wake.

Lemma initial_inv n : wake_inv (initial n).
Proof.
  split; cbn; try discriminate; try easy.
  intros [?|?]; contradiction.
Qed.

(** The components of the invariant after a step, the easy ones discharged. *)
Ltac after_step :=
  split; unfold attended; cbn [sender_step reader_step host_step wake_emptied wake_draining chan held flag
    senders rd notified drain_on sent got notifications found_empty would_blocks]; auto; try discriminate.

Section Preservation.
Variable s : wstate.
Hypothesis I : wake_inv s.

Lemma push_inv i p s' : step (Push i p) s = Some s' -> wake_inv s'.
Proof.
  destruct I as [I0 I1 I2 I3 I4 I5 I6 I7]. unfold attended in *. cbn [step].
  destruct (nth_error (senders s) i) as [[]|] eqn:N; try discriminate.
  destruct (zlength (chan s) <? chan_capacity) eqn:Hc; [|discriminate]. intros E. injection E as <-.
  after_step.
  - intros H. destruct (I1 H) as [?|[?|?]]; eauto with wake.
  - intros H1 H2. destruct (I2 H1 H2); eauto with wake.
  - intros _. right. eauto with wake.
  - rewrite <- I5, <- !app_assoc. reflexivity.
  - rewrite zlength_app. change (zlength [p]) with 1. bsplit. lia.
Qed.

Lemma swap_inv i s' : step (Swap i) s = Some s' -> wake_inv s'.
Proof.
  destruct I as [I0 I1 I2 I3 I4 I5 I6 I7]. unfold attended in *. cbn [step].
  destruct (nth_error (senders s) i) as [[]|] eqn:N; try discriminate.
  unfold wake_queued. intros E. injection E as <-.
  destruct (flag s) eqn:F; cbn [negb]; after_step; try lia.
  - intros _. destruct (I1 eq_refl) as [?|[?|?]]; eauto with wake.
  - intros H _. destruct (I2 H eq_refl); eauto with wake.
  - intros _. left. destruct (I1 eq_refl) as [?|[?|?]]; eauto with wake.
  - eauto with wake.
  - eauto with wake.
  - eauto with wake.
Qed.

Lemma notify_inv i s' : step (Notify i) s = Some s' -> wake_inv s'.
Proof.
  destruct I as [I0 I1 I2 I3 I4 I5 I6 I7]. unfold attended in *. cbn [step].
  destruct (nth_error (senders s) i) as [[]|]; try discriminate. intros E. injection E as <-. after_step.
Qed.

Lemma host_inv a s' : a = Drain \/ a = Poll -> step a s = Some s' -> wake_inv s'.
Proof.
  destruct I as [I0 I1 I2 I3 I4 I5 I6 I7]. unfold attended in *. intros [-> | ->]; cbn [step].
  - destruct (notified s && negb (drain_on s)) eqn:B; [|discriminate]. intros E. injection E as <-.
    apply andb_true_iff in B as [_ B]. apply negb_true_iff in B. after_step.
    intros H _. rewrite I0 in B; [discriminate|now rewrite H].
  - destruct (drain_on s); [discriminate|]. intros E. injection E as <-. after_step.
Qed.

Lemma read_inv a s' : a = Read \/ a = Recv1 \/ a = TooSmall -> step a s = Some s' -> wake_inv s'.
Proof.
  destruct I as [I0 I1 I2 I3 I4 I5 I6 I7]. unfold attended in *. intros [-> |[-> | ->]]; cbn [step].
  - destruct (rd s) eqn:R; try discriminate. destruct (drain_on s) eqn:B; [|discriminate].
    intros E. injection E as <-. after_step.
  - destruct (rd s) eqn:R; try discriminate. assert (D : drain_on s = true) by now apply I0.
    destruct (held s) as [x|] eqn:Hh; [|destruct (chan s) as [|x q] eqn:Hq]; intros E; injection E as <-;
      after_step.
    rewrite zlength_cons in I7. lia.
  - destruct (rd s) eqn:R; try discriminate. assert (D : drain_on s = true) by now apply I0.
    intros E. injection E as <-. after_step.
Qed.

Lemma rearm_inv s' : step Rearm s = Some s' -> wake_inv s'.
Proof.
  destruct I as [I0 I1 I2 I3 I4 I5 I6 I7]. unfold attended in *. cbn [step].
  destruct (rd s) eqn:R; try discriminate. assert (D : drain_on s = true) by now apply I0.
  intros E. injection E as <-. after_step. destruct (flag s); lia.
Qed.

Lemma recv2_inv s' : step Recv2 s = Some s' -> wake_inv s'.
Proof.
  destruct I as [I0 I1 I2 I3 I4 I5 I6 I7]. unfold attended in *. cbn [step].
  destruct (rd s) eqn:R; try discriminate. assert (D : drain_on s = true) by now apply I0.
  destruct (chan s) as [|x q] eqn:Hq; intros E; injection E as <-; after_step; try easy.
  - intros [H|H]; [easy|now rewrite I4 in H].
  - rewrite zlength_cons in I7. lia.
Qed.

Lemma deliver_inv a s' : a = Mark \/ a = Deliver -> step a s = Some s' -> wake_inv s'.
Proof.
  destruct I as [I0 I1 I2 I3 I4 I5 I6 I7]. unfold attended in *. intros [-> | ->]; cbn [step].
  - destruct (rd s) eqn:R; try discriminate. assert (D : drain_on s = true) by now apply I0.
    intros E. injection E as <-. after_step.
    + rewrite <- I5, I4. reflexivity.
    + destruct (flag s); lia.
  - destruct (rd s) eqn:R; try discriminate. destruct (held s) as [x|] eqn:Hh; [|discriminate].
    assert (D : drain_on s = true) by now apply I0.
    intros E. injection E as <-. after_step. rewrite <- I5, <- app_assoc. reflexivity.
Qed.

Lemma step_inv a s' : step a s = Some s' -> wake_inv s'.
Proof.
  destruct a; eauto using push_inv, swap_inv, notify_inv, host_inv, read_inv, rearm_inv, recv2_inv, deliver_inv.
Qed.

End Preservation.

Lemma reachable_inv n s : reachable n s -> wake_inv s.
Proof.
  apply (reaches_invariant step wake_inv); [|apply initial_inv]. intros a x y I E. exact (step_inv x I a y E).
Qed.

(** ** No wake-up is lost *)

(** Nothing is under way: no task inside [send], no notification unserved, the
    host not draining. *)
Definition quiescent (s : wstate) : Prop :=
  Forall (fun p => p = SendIdle) (senders s) /\ drain_on s = false /\ notified s = false.

Lemma all_idle_not_in s x : Forall (fun p => p = SendIdle) s -> x <> SendIdle -> ~ In x s.
Proof. intros F Hx Hi. rewrite Forall_forall in F. now apply Hx, F. Qed.

Lemma quiescent_delivered s : wake_inv s -> quiescent s -> got s = sent s.
Proof.
  intros I (Hs & Hd & Hn).
  assert (E : chan s = [] /\ held s = None).
  { destruct (chan s) eqn:Hc, (held s) eqn:Hh; auto; exfalso;
      (destruct (inv_queue _ I) as [[?|[?|?]]|?];
        [rewrite ?Hc, ?Hh; try (now left); right; discriminate|congruence|congruence|..];
        eapply all_idle_not_in; eauto; discriminate). }
  assert (R : rd s = ReadIdle).
  { destruct (rd s) eqn:R; [reflexivity|..]; rewrite (inv_reading _ I) in Hd; discriminate || now rewrite R. }
  rewrite <- (inv_fifo _ I), R. destruct E as [-> ->]. cbn. now rewrite app_nil_r.
Qed.

(** C2: In every interleaving of senders, notifications and reads, packets
    are delivered in the order they were queued, and once nothing is under way
    every packet queued has been delivered: no wake-up is lost. *)
Theorem no_packet_left_behind n s : reachable n s ->
  (exists waiting, sent s = got s ++ waiting) /\ (quiescent s -> got s = sent s).
Proof.
  intros R. apply reachable_inv in R. split; [|now apply quiescent_delivered].
  exists (opt_list (held s) ++ in_hand (rd s) ++ chan s). symmetry. apply (inv_fifo _ R).
Qed.

(** ** Every packet is delivered in the end *)

(** The steps that the tasks and a draining host with large enough buffers
    take by themselves. *)
Definition internal (a : label) : bool :=
  match a with Push _ _ | Poll | TooSmall => false | _ => true end.

Abbreviation inevitably := (inevitable step internal).

Definition sender_weight (p : sender) : Z :=
  match p with SendIdle => 0 | SendNotify => 7 | SendQueued => 8 end.

Definition reader_weight (r : reader) : Z :=
  match r with
  | ReadIdle => 5 | ReadFill => 4 | ReadEmpty => 3 | ReadRearmed => 2 | ReadFound _ => 9 | ReadHave => 0
  end.

Abbreviation senders_weight := (total sender_weight).

Definition weight (s : wstate) : Z :=
  10 * zlength (chan s) + (match held s with Some _ => 8 | None => 0 end) + senders_weight (senders s) +
  (if notified s then 6 else 0) + (if drain_on s then reader_weight (rd s) else 0).

Lemma senders_weight_nonneg l : 0 <= senders_weight l.
Proof. apply total_nonneg. now intros []. Qed.

Lemma weight_nonneg s : 0 <= weight s.
Proof.
  unfold weight. pose proof (zlength_nonneg (chan s)). pose proof (senders_weight_nonneg (senders s)).
  destruct (held s), (notified s), (drain_on s), (rd s); cbn [reader_weight]; lia.
Qed.

Ltac weigh := unfold weight; cbn [sender_step reader_step host_step chan held flag senders rd notified
  drain_on reader_weight].

Lemma step_weight a s s' : wake_inv s -> internal a = true -> step a s = Some s' ->
  weight s' < weight s /\ sent s' = sent s.
Proof.
  intros I Hi E. pose proof (inv_reading _ I) as I0. pose proof (inv_held _ I) as I4.
  destruct a as [i p|i|i| | | | | | | | |]; try discriminate; cbn [step] in E.
  1,2: destruct (nth_error (senders s) i) as [[]|] eqn:N; try discriminate.
  - unfold wake_queued in E. injection E as <-. split; [|reflexivity]. weigh.
    rewrite (total_set _ _ _ _ _ N). destruct (flag s); cbn [negb sender_weight]; lia.
  - injection E as <-. split; [|reflexivity]. weigh.
    rewrite (total_set _ _ _ _ _ N). cbn [sender_weight]. destruct (notified s); lia.
  - destruct (notified s && negb (drain_on s)) eqn:B; [|discriminate]. injection E as <-.
    apply andb_true_iff in B as [B1 B2]. apply negb_true_iff in B2. split; [|reflexivity]. weigh.
    rewrite B1, B2. destruct (rd s); cbn [reader_weight]; try lia; rewrite I0 in B2; discriminate.
  - destruct (rd s) eqn:R; try discriminate. destruct (drain_on s) eqn:B; [|discriminate].
    injection E as <-. split; [|reflexivity]. weigh. rewrite R, B. cbn [reader_weight]. lia.
  - destruct (rd s) eqn:R; try discriminate. specialize (I0 ltac:(discriminate)).
    destruct (held s) eqn:Hh; [|destruct (chan s) as [|x q] eqn:Hc]; injection E as <-; (split; [|reflexivity]);
      weigh; rewrite R, I0, Hh, ?Hc, ?zlength_cons; cbn [reader_weight]; lia.
  - destruct (rd s) eqn:R; try discriminate. specialize (I0 ltac:(discriminate)).
    injection E as <-. split; [|reflexivity]. weigh. rewrite R, I0. cbn [reader_weight]. lia.
  - destruct (rd s) eqn:R; try discriminate. specialize (I0 ltac:(discriminate)).
    destruct (chan s) as [|x q] eqn:Hc; injection E as <-; (split; [|reflexivity]);
      weigh; rewrite R, I0, ?Hc, ?zlength_cons; cbn [reader_weight]; lia.
  - destruct (rd s) eqn:R; try discriminate. specialize (I0 ltac:(discriminate)).
    injection E as <-. split; [|reflexivity]. weigh. rewrite R, I0, I4. cbn [reader_weight]. lia.
  - destruct (rd s) eqn:R; try discriminate. specialize (I0 ltac:(discriminate)).
    destruct (held s) eqn:Hh; [|discriminate]. injection E as <-. split; [|reflexivity]. weigh.
    rewrite R, I0, Hh. cbn [reader_weight]. lia.
Qed.

(** As long as something is under way, some step of it can be taken. *)
Lemma internal_progress s : wake_inv s ->
  quiescent s \/ exists a s', internal a = true /\ step a s = Some s'.
Proof.
  intros I. destruct (drain_on s) eqn:D.
  { right. pose proof (inv_held _ I) as I4. destruct (rd s) eqn:R.
    - exists Read. cbn [step]. rewrite R, D. eauto.
    - exists Recv1. cbn [step]. rewrite R. destruct (held s), (chan s); eauto.
    - exists Rearm. cbn [step]. rewrite R. eauto.
    - exists Recv2. cbn [step]. rewrite R. destruct (chan s); eauto.
    - exists Mark. cbn [step]. rewrite R. eauto.
    - exists Deliver. cbn [step]. rewrite R. destruct (held s); [eauto|easy]. }
  destruct (notified s) eqn:N.
  { right. exists Drain. cbn [step]. rewrite N, D. eexists. split; reflexivity. }
  destruct (Forall_dec (fun p => p = SendIdle) ltac:(intros []; [left|right..]; congruence) (senders s)) as [F|F].
  { left. split; auto. }
  right. apply neg_Forall_Exists_neg in F; [|intros []; [left|right..]; congruence].
  apply Exists_exists in F as (p & Hp & Hn). apply In_nth_error in Hp as [i Hi]. destruct p; [easy|..].
  - exists (Swap i). cbn [step]. rewrite Hi. unfold wake_queued. eauto.
  - exists (Notify i). cbn [step]. rewrite Hi. eauto.
Qed.

(** C17: From every reachable state, whatever order the steps under way are
    taken in, they come to an end, and then every packet queued so far has been
    delivered. *)
Theorem packets_inevitably_delivered n s : reachable n s ->
  inevitably (fun s' => quiescent s' /\ got s' = sent s) s.
Proof.
  intros R. apply (inevitable_by_weight step internal (fun x => wake_inv x /\ sent x = sent s) _ weight).
  - intros x _. apply weight_nonneg.
  - intros x [I E]. destruct (internal_progress x I) as [Q|P]; [left|now right].
    split; [exact Q|]. rewrite <- E. now apply quiescent_delivered.
  - intros a x y [I E] Ha Es. destruct (step_weight _ _ _ I Ha Es) as [Hw Hs].
    split; [|exact Hw]. split; [exact (step_inv _ I _ _ Es)|congruence].
  - split; [exact (reachable_inv _ _ R)|reflexivity].
Qed.

(** ** Notifications are coalesced *)

(** C30: The host is notified at most once more than the number of reads that
    found the queue empty, however many packets are queued.  As long as every
    such read went on to return META_WOULD_BLOCK, the header's promise about
    packet_ready is kept. *)
Theorem notifications_coalesced n s : reachable n s ->
  notifications s <= found_empty s + 1 /\
  (found_empty s = would_blocks s -> packet_ready_promise (notifications s) (would_blocks s) = true).
Proof.
  intros R. pose proof (inv_coalesced _ (reachable_inv _ _ R)) as H. unfold packet_ready_promise.
  rewrite Z.leb_le. destruct (flag s); lia.
Qed.

(** A packet queued between the re-arming of the flag and the second look at
    the queue. *)
Definition early_notification : list label :=
  [Push 0 [1]; Swap 0; Notify 0; Drain; Read; Recv1; Deliver; Read; Recv1; Rearm;
   Push 0 [2]; Swap 0; Notify 0; Recv2; Mark; Deliver].

(** A second notification can be sent before any read has returned
    META_WOULD_BLOCK, which the header rules out ("it is not sent again until a
    read has returned META_WOULD_BLOCK"): a packet queued while a read is
    between re-arming the flag and looking at the queue again both notifies and
    is returned by that read.  The extra notification finds nothing to do. *)
Example notification_before_would_block : exists s,
  run (initial 1) early_notification = Some s /\
  packet_ready_promise (notifications s) (would_blocks s) = false /\
  notified s = true /\ would_blocks s = 0 /\ got s = [[1]; [2]].
Proof.
  exists (match run (initial 1) early_notification with Some s => s | None => initial 1 end).
  refine (conj _ (conj _ (conj _ (conj _ _)))); vm_compute; reflexivity.
Qed.
