(* ===== verification/Lifecycle.v ===== *)
(** * Handles over the life of a process

    The registry under any sequence of calls by any threads, with whatever the
    workers do in between, against the lifecycle the header promises
    ([lifecycle_step] of [CApi]): identifiers are never reused, a core starts
    at most once, and a destroyed handle stays unknown. *)
From S2P Require Import Prelude CMemory CApi ConfigCrypto Host Ffi FfiContract ConfigCalls LogBuffer HandleCalls.
From Stdlib Require Import String ZArith List Lia Bool.
Import ListNotations.
Open Scope Z_scope.

Section Quiet.
Context {K : Crates} {M : Mpsc}.
Implicit Types (t : thread) (w : world) (s : meta_status).

(** ** Phases *)

Definition phase_of_handle (x : Handle CoreState) : phase :=
  if stop x then Stopped else if lifecycle_started x then Started else Created.

Definition phase_in w (h : Z) : option phase := option_map phase_of_handle (assoc h (handles w)).

(** The registry of [w'] is that of [w], handle by handle in the same phase. *)
Definition same_registry w w' : Prop :=
  next w' = next w /\ map fst (handles w') = map fst (handles w) /\
  forall h, phase_in w' h = phase_in w h.

Lemma same_registry_refl w : same_registry w w.
Proof. repeat split. Qed.

Lemma same_registry_trans w1 w2 w3 : same_registry w1 w2 -> same_registry w2 w3 -> same_registry w1 w3.
Proof. intros (A1 & B1 & C1) (A2 & B2 & C2). repeat split; [congruence..|]. intros h. now rewrite C2, C1. Qed.

(** ** Operations that leave the registry alone *)

Definition silent {A} (m : ffi A) : Prop :=
  forall t w, handles (snd (m t w)) = handles w /\ next (snd (m t w)) = next w.

Definition quiet {A} (m : ffi A) : Prop := forall t w, same_registry w (snd (m t w)).

(** Quiet when started on a registry where [id] is [x]. *)
Definition quiet_at {A} (id : Z) (x : Handle CoreState) (m : ffi A) : Prop :=
  forall t w, assoc id (handles w) = Some x -> same_registry w (snd (m t w)).

Lemma silent_quiet {A} (m : ffi A) : silent m -> quiet m.
Proof.
  intros H t w. destruct (H t w) as [E N]. unfold same_registry, phase_in. now rewrite E, N.
Qed.

Lemma quiet_at_quiet {A} id x (m : ffi A) : quiet m -> quiet_at id x m.
Proof. intros H t w _. apply H. Qed.

Lemma silent_bind {A B} (m : ffi A) (k : A -> ffi B) : silent m -> (forall a, silent (k a)) -> silent (fbind m k).
Proof.
  intros Hm Hk t w. unfold fbind. specialize (Hm t w). destruct (m t w) as [[a| |] w1]; cbn [snd] in *; try exact Hm.
  destruct (Hk a t w1) as [E N], Hm as [E1 N1]. split; congruence.
Qed.

Lemma quiet_bind {A B} (m : ffi A) (k : A -> ffi B) : quiet m -> (forall a, quiet (k a)) -> quiet (fbind m k).
Proof.
  intros Hm Hk t w. unfold fbind. specialize (Hm t w). destruct (m t w) as [[a| |] w1]; cbn [snd] in *; try exact Hm.
  eapply same_registry_trans; [exact Hm|apply Hk].
Qed.

Lemma quiet_at_bind {A B} id x (m : ffi A) (k : A -> ffi B) :
  silent m -> (forall a, quiet_at id x (k a)) -> quiet_at id x (fbind m k).
Proof.
  intros Hm Hk t w L. unfold fbind. pose proof (silent_quiet _ Hm t w) as Q. specialize (Hm t w).
  destruct (m t w) as [[a| |] w1]; cbn [snd] in *; try exact Q.
  eapply same_registry_trans; [exact Q|apply Hk]. destruct Hm as [-> _]. exact L.
Qed.

Lemma quiet_at_then {A B} id x (m : ffi A) (k : A -> ffi B) :
  quiet_at id x m -> (forall a, quiet (k a)) -> quiet_at id x (fbind m k).
Proof.
  intros Hm Hk t w L. unfold fbind. specialize (Hm t w L).
  destruct (m t w) as [[a| |] w1]; cbn [snd] in *; try exact Hm.
  eapply same_registry_trans; [exact Hm|apply Hk].
Qed.

Lemma handle_silent id : silent (handle id).
Proof.
  intros t w. unfold handle, lock_handles, gets, fbind, context_of, fret, ferr, fpanic.
  destruct (handles_poisoned w); [easy|]. now destruct (assoc id (handles w)).
Qed.

Lemma handle_ok id t w x w' : handle id t w = (Ok x, w') -> w' = w /\ assoc id (handles w) = Some x.
Proof.
  unfold handle, lock_handles, gets, fbind, context_of, fret, ferr, fpanic.
  destruct (handles_poisoned w); [discriminate|]. destruct (assoc id (handles w)); [|discriminate].
  intros E. injection E as -> ->. auto.
Qed.

Lemma quiet_handle {B} id (k : Handle CoreState -> ffi B) :
  (forall x, quiet_at id x (k x)) -> quiet (fbind (handle id) k).
Proof.
  intros Hk t w. unfold fbind. pose proof (silent_quiet _ (handle_silent id) t w) as Q.
  destruct (handle id t w) as [[x| |] w1] eqn:E; cbn [snd] in *; try exact Q.
  apply handle_ok in E as [-> L]. now apply Hk.
Qed.

Lemma phase_with id (x y : Handle CoreState) w : assoc id (handles w) = Some x ->
  same_registry w (with_handle id y w) <-> phase_of_handle y = phase_of_handle x.
Proof.
  intros L. assert (E : phase_in (with_handle id y w) id = Some (phase_of_handle y)).
  { unfold phase_in. cbn [with_handle set_registry handles]. now rewrite (assoc_set_same _ _ _ _ L). }
  split.
  - intros (_ & _ & H). specialize (H id). rewrite E in H. unfold phase_in in H. rewrite L in H.
    cbn [option_map] in H. congruence.
  - intros H. split; [reflexivity|]. split; [apply assoc_set_keys|]. intros h.
    destruct (Z.eq_dec h id) as [->|Hn].
    + rewrite E. unfold phase_in. now rewrite L, H.
    + unfold phase_in. cbn [with_handle set_registry handles]. now rewrite assoc_set_other.
Qed.

Lemma on_handle_quiet {A} id x (f : Handle CoreState -> outcome A * Handle CoreState) :
  phase_of_handle (snd (f x)) = phase_of_handle x -> quiet_at id x (on_handle id x f).
Proof.
  intros H t w L. unfold on_handle. destruct (f x) as [r y].
  change (same_registry w (with_handle id y w)). now apply (phase_with id x).
Qed.

Lemma on_core_quiet id x f : quiet_at id x (on_core id x f).
Proof. apply on_handle_quiet. now destruct (f (core x)). Qed.

Lemma put_handle_quiet id x y : phase_of_handle y = phase_of_handle x -> quiet_at id x (put_handle id y).
Proof. intros H t w L. change (same_registry w (with_handle id y w)). now apply (phase_with id x). Qed.

Lemma boundary_quiet op t w : quiet op -> same_registry w (snd (boundary op t w)).
Proof. intros H. specialize (H t w). unfold boundary. destruct (op t w) as [[]]; exact H. Qed.

Lemma silent_outside {A} (f : Os -> outcome A * Os) : silent (outside f).
Proof. intros t w. unfold outside. now destruct (f (os w)). Qed.

Lemma silent_init level : silent (modify (init level)).
Proof. intros t w. cbn. unfold init. now destruct (log_filter w). Qed.

End Quiet.

(** Decide [silent] by the shape of the program. *)
Ltac hush :=
  repeat lazymatch goal with
    | |- silent (fbind _ _) => apply silent_bind; [|intros ?]
    | |- silent (if ?b then _ else _) => destruct b
    | |- silent (match ?x with _ => _ end) => destruct x
    | |- silent (handle _) => apply handle_silent
    | |- silent (outside _) => apply silent_outside
    | |- silent (modify (init _)) => apply silent_init
    | |- silent (output _ _ _ _) => unfold output
    | |- silent (input_str _ _) => unfold input_str
    | |- silent (input _ _) => unfold input
    | |- silent (input_with_limit _ _ _) => unfold input_with_limit
    | |- silent (from_utf8 _) => unfold from_utf8
    | |- silent (ensure _ _) => unfold ensure
    | |- silent (context_of _ _) => unfold context_of
    | |- silent (check_lifecycle) => unfold check_lifecycle
    | |- silent (lock_handles) => unfold lock_handles
    | |- silent (write_mem _) => unfold write_mem
    | |- silent (drain _) => unfold drain
    | |- silent _ => intros ? ?; split; reflexivity
    end.

Section Lifecycle.
Context {K : Crates} {M : Mpsc} {C : CipherCrates}.
Variable android : bool.
Implicit Types (t : thread) (w : world) (s : meta_status).

(** ** Every exported function *)

Inductive api_call : Type :=
  | CallDecrypt (data len password password_len buffer capacity length : Z)
  | CallEncrypt (data len password password_len buffer capacity length : Z)
  | CallRuleValidate (rule len : Z)
  | CallRuleTargets (config len buffer capacity length : Z)
  | CallRulesApply (config len rules rules_len buffer capacity length : Z)
  | CallOverrides (config len overrides overrides_len buffer capacity length : Z)
  | CallYamlCheck (config len buffer capacity length : Z)
  | CallCosTarget (url len buffer capacity length : Z)
  | CallCosPut (request request_len data len : Z)
  | CallDrainLogs (buffer capacity length : Z)
  | CallPrefetch (data len directory directory_len : Z)
  | CallResourcesState (data len directory directory_len state : Z)
  | CallCreate (data len hooks out : Z)
  | CallCreateTunnel (data len directory directory_len hooks out : Z)
  | CallStart (worker : turn (outcome unit * CoreState)) (id : Z)
  | CallStop (id : Z)
  | CallDestroy (id : Z)
  | CallCloseConnections (id : Z)
  | CallNetworkChanged (id : Z)
  | CallSetTunFd (worker : turn (outcome unit)) (id fd : Z)
  | CallSetNetwork (id data len : Z)
  | CallError (buffer capacity length : Z)
  | CallSnapshot (id buffer capacity length : Z)
  | CallStatus (id buffer capacity length : Z)
  | CallUpdate (id data len : Z)
  | CallSelect (id group group_len node node_len : Z)
  | CallCloseConnection (id conn conn_len : Z)
  | CallProbe (worker : text -> Z -> turn (outcome Z * Z)) (id name name_len timeout_ms delay_ms : Z)
  | CallTestRoute (worker : Target -> text -> turn (outcome RouteTest)) (id data len buffer capacity length : Z)
  | CallDnsLeak (worker : turn (outcome DnsLeakTest)) (id online buffer capacity length : Z)
  | CallWritePacket (id data len : Z)
  | CallReadPacket (id buffer capacity length : Z).

Definition exec_call (c : api_call) : thread -> world -> meta_status * world :=
  match c with
  | CallDecrypt a b c d e f g => meta_decrypt_config_v1 a b c d e f g
  | CallEncrypt a b c d e f g => meta_encrypt_config_v1 a b c d e f g
  | CallRuleValidate a b => meta_custom_rule_validate_v1 a b
  | CallRuleTargets a b c d e => meta_custom_rule_targets_v1 a b c d e
  | CallRulesApply a b c d e f g => meta_custom_rules_apply_v1 a b c d e f g
  | CallOverrides a b c d e f g => meta_overrides_apply_v1 a b c d e f g
  | CallYamlCheck a b c d e => meta_yaml_check_v1 a b c d e
  | CallCosTarget a b c d e => meta_cos_target_v1 a b c d e
  | CallCosPut a b c d => meta_cos_put_v1 a b c d
  | CallDrainLogs a b c => meta_drain_logs_v1 a b c
  | CallPrefetch a b c d => meta_prefetch_resources_v1 a b c d
  | CallResourcesState a b c d e => meta_resources_state_v1 a b c d e
  | CallCreate a b c d => meta_create_v1 android a b c d
  | CallCreateTunnel a b c d e f => meta_create_packet_tunnel_v1 android a b c d e f
  | CallStart k id => meta_start_v1 k id
  | CallStop id => meta_stop_v1 id
  | CallDestroy id => meta_destroy_v1 id
  | CallCloseConnections id => meta_close_connections_v1 id
  | CallNetworkChanged id => meta_network_changed_v1 id
  | CallSetTunFd k id fd => meta_set_tun_fd_v1 k id fd
  | CallSetNetwork id a b => meta_set_network_v1 id a b
  | CallError a b c => meta_error_v1 a b c
  | CallSnapshot id a b c => meta_snapshot_v1 id a b c
  | CallStatus id a b c => meta_status_v1 id a b c
  | CallUpdate id a b => meta_update_v1 id a b
  | CallSelect id a b c d => meta_select_v1 id a b c d
  | CallCloseConnection id a b => meta_close_connection_v1 id a b
  | CallProbe k id a b c d => meta_probe_v1 k id a b c d
  | CallTestRoute k id a b c d e => meta_test_route_v1 k id a b c d e
  | CallDnsLeak k id a b c d => meta_dns_leak_v1 k id a b c d
  | CallWritePacket id a b => meta_write_packet_v1 id a b
  | CallReadPacket id a b c => meta_read_packet_v1 id a b c
  end.

(** The calls that cannot change a phase. *)
Definition changes_phases (c : api_call) : bool :=
  match c with
  | CallCreate _ _ _ _ | CallCreateTunnel _ _ _ _ _ _ | CallStart _ _ | CallStop _ | CallDestroy _
  | CallSetTunFd _ _ _ => true
  | _ => false
  end.

Lemma quiet_at_put {B} id x y (k : ffi B) :
  phase_of_handle y = phase_of_handle x -> quiet_at id y k -> quiet_at id x (put_handle id y ;! k).
Proof.
  intros Hp Hk t w L. change (same_registry w (snd (k t (with_handle id y w)))).
  eapply same_registry_trans; [apply (phase_with id x y w L), Hp|]. apply Hk.
  cbn [with_handle set_registry handles]. apply (assoc_set_same _ _ _ _ L).
Qed.

Lemma network_changed_phase (x : Handle CoreState) : phase_of_handle (snd (network_changed x)) = phase_of_handle x.
Proof. unfold network_changed. destruct (stop x) eqn:S; [reflexivity|]. unfold phase_of_handle. cbn. now rewrite S. Qed.

(** A probe changes the core behind the handle only. *)
Lemma probe_keeps_handle worker name ms (x : Handle CoreState) : exists c, snd (probe worker name ms x) = set_core c x.
Proof.
  unfold probe, core_probe.
  destruct (worker name ms) as [| |[[d|e|] now]]; cbn [snd]; try (exists (core x); now destruct x); now eexists.
Qed.

Lemma probe_phase worker name ms (x : Handle CoreState) :
  phase_of_handle (snd (probe worker name ms x)) = phase_of_handle x.
Proof. destruct (probe_keeps_handle worker name ms x) as [c ->]. reflexivity. Qed.

(** The same for operations that look up a handle and change it. *)
Ltac calm :=
  cbv zeta;
  repeat lazymatch goal with
    | |- quiet (fbind (handle _) _) => apply quiet_handle; intros ?
    | |- quiet (fbind _ _) => apply quiet_bind; [|intros ?]
    | |- quiet (match ?x with _ => _ end) => destruct x
    | |- quiet _ => apply silent_quiet; hush
    | |- quiet_at _ _ (fbind (on_core _ _ _) _) => apply quiet_at_then; [apply on_core_quiet|intros ?]
    | |- quiet_at _ _ (fbind (on_handle _ _ network_changed) _) =>
        apply quiet_at_then; [apply on_handle_quiet, network_changed_phase|intros ?]
    | |- quiet_at _ _ (fbind (on_handle _ _ (probe _ _ _)) _) =>
        apply quiet_at_then; [apply on_handle_quiet, probe_phase|intros ?]
    | |- quiet_at _ _ (fbind (put_handle _ _) _) => apply quiet_at_put; [reflexivity|]
    | |- quiet_at _ _ (put_handle _ _) => apply put_handle_quiet; reflexivity
    | |- quiet_at _ _ (on_core _ _ _) => apply on_core_quiet
    | |- quiet_at _ _ (fbind (if ?b then _ else _) _) => destruct b
    | |- quiet_at _ _ (fbind _ _) => apply quiet_at_bind; [hush|intros ?]
    | |- quiet_at _ _ (match ?x with _ => _ end) => destruct x
    | |- quiet_at _ _ _ => apply quiet_at_quiet, silent_quiet; hush
    end.

Lemma other_calls_quiet c t w : changes_phases c = false -> same_registry w (snd (exec_call c t w)).
Proof. destruct c; try discriminate; intros _; apply boundary_quiet; calm. Qed.

(** ** The calls that change phases *)

Lemma register_effect config hooks t w : 0 <= next w ->
  match register android config hooks t w with
  | (Ok id, w') => id = next w /\ mem w' = mem w /\ next w' = next w + 1 /\ next w + 1 < 2 ^ 64 /\
      exists x, handles w' = (id, x) :: handles w /\ phase_of_handle x = Created
  | (_, w') => handles w' = handles w /\ next w <= next w' <= next w + 1
  end.
Proof.
  intros Hn. unfold register, lock_handles, gets, ensure, modify, fbind, fret, ferr, fpanic.
  destruct (handles_poisoned w); [split; [easy|lia]|].
  destruct (zlength (handles w) <? 16); [|split; [easy|lia]].
  destruct (Z.ltb_spec (next w + 1) (2 ^ 64)); [|split; [easy|lia]].
  cbn [set_registry os handles next]. unfold new_handle.
  destruct (android && (protect hooks =? 0)); [cbn; split; [easy|lia]|].
  destruct (Core_new _ _ _) as [c| |]; cbn [obnd]; [|cbn; split; [easy|lia]..].
  destruct (spawn_worker _) as [e| |]; cbn [obnd]; [|cbn; split; [easy|lia]..].
  cbn [set_registry handles next mem]. repeat split; try assumption. now eexists.
Qed.

Lemma ensure_silent b e : silent (ensure b e).
Proof. hush. Qed.

Lemma write_mem_silent f : silent (write_mem f).
Proof. hush. Qed.

Lemma prepare_silent data len hooks dir : silent (prepare data len hooks dir).
Proof. unfold prepare. destruct dir as [[]|]; hush. Qed.

(** Either a fresh handle is registered and written to [out], or the registry
    keeps its handles. *)
Definition created (out : Z) w (r : option meta_status) w' : Prop :=
  match r with
  | Some s => s = META_OK /\ load_u64 (mem w') out = next w /\ next w' = next w + 1 /\
      exists x, handles w' = (next w, x) :: handles w /\ phase_of_handle x = Created
  | None => handles w' = handles w /\ next w <= next w' <= next w + 1
  end.

Definition creates (out : Z) (m : ffi meta_status) : Prop :=
  forall t w, 0 <= next w -> created out w (ok_of (fst (m t w))) (snd (m t w)).

Lemma creates_bind {A} out (m : ffi A) k : silent m -> (forall a, creates out (k a)) -> creates out (fbind m k).
Proof.
  intros Hm Hk t w Hn. unfold fbind. specialize (Hm t w).
  destruct (m t w) as [[a| |] w1]; cbn [fst snd ok_of] in *; destruct Hm as [Eh En].
  - assert (H1 : 0 <= next w1) by lia. specialize (Hk a t w1 H1). unfold created in *.
    now rewrite Eh, En in Hk.
  - split; [exact Eh|lia].
  - split; [exact Eh|lia].
Qed.

Lemma creates_register out config hooks :
  creates out (let! id := register android config hooks in
               write_mem (fun m => store_u64 m out id) ;! fret META_OK).
Proof.
  intros t w Hn. pose proof (register_effect config hooks t w Hn) as R. unfold fbind.
  destruct (register android config hooks t w) as [[id| |] w1]; cbn [fst snd ok_of]; try exact R.
  destruct R as (-> & Hm & H1 & H2 & x & Hx & Hp). cbn [write_mem modify fret fst snd ok_of created].
  split; [easy|]. cbn [set_mem mem next handles]. rewrite Hm.
  split; [apply load_u64_store; lia|]. eauto.
Qed.

Lemma create_effect data len hooks out dir t w s w' : 0 <= next w ->
  create android data len hooks out dir t w = (s, w') ->
  created out w (if meta_status_eqb s META_OK then Some s else None) w'.
Proof.
  intros Hn E. unfold create in E.
  match type of E with boundary ?op t w = _ => assert (G : creates out op) end.
  { do 2 (apply creates_bind; [hush|intros ?]). apply creates_bind; [apply prepare_silent|intros ?].
    apply creates_register. }
  specialize (G t w Hn). unfold boundary in E.
  match type of G with created _ _ (ok_of (fst ?x)) _ => destruct x as [r w1] end.
  cbn [fst snd] in G. destruct r as [s1|e|]; cbn [ok_of] in G; injection E as <- <-.
  - destruct G as (-> & G). exact (conj eq_refl G).
  - exact G.
  - exact G.
Qed.

Lemma start_phase se re k x r (y : Handle CoreState) : start se re k x = (r, y) ->
  match r with
  | Ok _ => phase_of_handle x = Created /\ phase_of_handle y = Started
  | _ => phase_of_handle y = phase_of_handle x \/ phase_of_handle y = Stopped
  end.
Proof.
  unfold start. destruct (stop x) eqn:S; [intros E; injection E as <- <-; auto|].
  destruct k as [| |inner]; [intros E; injection E as <- <-; auto..|].
  unfold start_with_packets. destruct (negb (Bool.eqb _ _)); [intros E; injection E as <- <-; auto|].
  destruct (lifecycle_started x) eqn:L; rewrite ?S; cbn [negb andb];
    [intros E; injection E as <- <-; auto|].
  unfold phase_of_handle. rewrite S, L.
  destruct (fst inner) as [[]|e|]; intros E; injection E as <- <-; cbn; rewrite ?S; auto.
Qed.

Lemma shutdown_phase (x : Handle CoreState) : phase_of_handle (snd (shutdown x)) = Stopped.
Proof. unfold shutdown. now destruct (worker (set_stop true x)) as [[]|]. Qed.

Lemma set_fd_phase se re k x r (y : Handle CoreState) : set_fd se re k x = (r, y) ->
  phase_of_handle y = phase_of_handle x \/ phase_of_handle y = Stopped.
Proof.
  unfold set_fd. destruct (stop x) eqn:S; [intros E; injection E as <- <-; auto|].
  destruct k as [| |device]; [intros E; injection E as <- <-; auto..|].
  destruct (lifecycle_started x || negb (tun_enable x)); [intros E; injection E as <- <-; auto|].
  destruct device as [[]|e|]; intros E; injection E as <- <-; auto.
Qed.

(** A lifecycle call either finds no handle it may use and changes nothing, or
    runs its method on the handle. *)
Lemma lifecycle_call_run id f (k : ffi meta_status) t w s w' :
  boundary (let! h := handle id in check_lifecycle ;! on_handle (A := unit) id h f ;! k) t w = (s, w') ->
  (s = META_ERROR /\ handles w' = handles w /\ next w' = next w) \/
  exists x, assoc id (handles w) = Some x /\ handles_poisoned w = false /\ callback w t = false /\
    match fst (f x) with
    | Ok _ => boundary k t (with_handle id (snd (f x)) w) = (s, w')
    | _ => s = META_ERROR /\ handles w' = handles (with_handle id (snd (f x)) w) /\ next w' = next w
    end.
Proof.
  unfold boundary, fbind, handle, lock_handles, gets, context_of, fret, ferr, fpanic, check_lifecycle, ensure,
    this_thread, fbind, gets, ferr, fret.
  destruct (handles_poisoned w) eqn:P; [intros E; injection E as <- <-; auto|].
  destruct (assoc id (handles w)) as [x|] eqn:A; [|intros E; injection E as <- <-; auto].
  destruct (callback w t) eqn:B; cbn [negb]; [intros E; injection E as <- <-; auto|].
  unfold on_handle. destruct (f x) as [r y] eqn:F. unfold put_handle, modify, lift, fbind.
  intros E. right. exists x. rewrite F. cbn [fst snd]. repeat split; try easy. clear B.
  destruct r as [u|e|]; [exact E|injection E as <- <-; auto..].
Qed.

(** The checks of [meta_set_tun_fd_v1] before it looks up the handle. *)
Lemma set_tun_fd_run k id fd t w s w' : meta_set_tun_fd_v1 k id fd t w = (s, w') ->
  (s = META_ERROR /\ exists e, w' = set_error t e w) \/
  (0 <= fd /\ boundary (let! h := handle id in check_lifecycle ;!
    on_handle id h (set_fd send_error recv_error k) ;! fret META_OK) t w = (s, w')).
Proof.
  unfold meta_set_tun_fd_v1, ensure. destruct (Z.leb_spec 0 fd).
  - unfold fret, gets, lift, boundary, fbind at 1 2 3. destruct (dup_fd (os w) fd) as [u|e|].
    + now right.
    + intros E. injection E as <- <-. left. eauto.
    + intros E. injection E as <- <-. left. eauto.
  - intros E. injection E as <- <-. left. split; [reflexivity|]. eexists. reflexivity.
Qed.

(** ** Refinement of the lifecycle *)

(** What a host can tell from the status of a call. *)
Definition visible (c : api_call) t w : list lifecycle_event :=
  let '(s, w') := exec_call c t w in
  if meta_status_eqb s META_OK then
    match c with
    | CallCreate _ _ _ out | CallCreateTunnel _ _ _ _ _ out => [EvCreate (load_u64 (mem w') out)]
    | CallStart _ id => [EvStart id]
    | CallDestroy id => [EvDestroy id]
    | _ => []
    end
  else [].

Definition shown (e : lifecycle_event) : bool := match e with EvStop _ => false | _ => true end.

Definition abstracts (l : lifecycle) w : Prop :=
  (forall h, phase_of l h = phase_in w h) /\ (forall h, used l h = true -> h < next w) /\ 0 < next w.

(** Some lifecycle events with the given visible part lead from [l] to a state
    that abstracts [w']. *)
Definition follows (l : lifecycle) (es : list lifecycle_event) w' : Prop :=
  exists all l', lifecycle_run l all = Some l' /\ filter shown all = es /\ abstracts l' w'.

Lemma follows_same l w w' : abstracts l w -> same_registry w w' -> follows l [] w'.
Proof.
  intros (Hp & Hu & Hn) (En & _ & Ep). exists [], l. split; [reflexivity|]. split; [reflexivity|].
  split; [|rewrite En; auto]. intros h. now rewrite Ep.
Qed.

Lemma abstracts_next l w w' : abstracts l w -> handles w' = handles w -> next w <= next w' -> abstracts l w'.
Proof.
  intros (Hp & Hu & Hn) Eh En. split; [|split; [intros h Hh; specialize (Hu h Hh); lia|lia]].
  intros h. unfold phase_in. rewrite Eh. apply Hp.
Qed.

Lemma phase_in_with id x y w h : assoc id (handles w) = Some x ->
  phase_in (with_handle id y w) h = if h =? id then Some (phase_of_handle y) else phase_in w h.
Proof.
  intros L. unfold phase_in. cbn [with_handle set_registry handles]. destruct (Z.eqb_spec h id) as [->|].
  - now rewrite (assoc_set_same _ _ _ _ L).
  - now rewrite assoc_set_other.
Qed.

(** One handle changes to a phase the contract allows. *)
Lemma abstracts_with l w id x y w' : abstracts l w -> assoc id (handles w) = Some x ->
  handles w' = handles (with_handle id y w) -> next w' = next w ->
  abstracts {| phase_of := set_at id (Some (phase_of_handle y)) (phase_of l); used := used l |} w'.
Proof.
  intros (Hp & Hu & Hn) L Eh En. split; [|rewrite En; auto]. intros h.
  assert (E : phase_in w' h = phase_in (with_handle id y w) h) by (unfold phase_in; now rewrite Eh).
  rewrite E, (phase_in_with id x) by exact L. cbn [phase_of]. unfold set_at. now rewrite Hp.
Qed.

Lemma abstract_phase l w id x : abstracts l w -> assoc id (handles w) = Some x ->
  phase_of l id = Some (phase_of_handle x).
Proof. intros (Hp & _) L. rewrite Hp. unfold phase_in. now rewrite L. Qed.

Lemma follows_stop l w id x y w' : abstracts l w -> assoc id (handles w) = Some x ->
  phase_of_handle y = phase_of_handle x \/ phase_of_handle y = Stopped ->
  handles w' = handles (with_handle id y w) -> next w' = next w -> follows l [] w'.
Proof.
  intros Ha L Hy Eh En. pose proof (abstracts_with _ _ _ _ y _ Ha L Eh En) as A'. destruct Hy as [Hy|Hy].
  - apply (follows_same _ w); [exact Ha|]. split; [exact En|]. split; [rewrite Eh; apply assoc_set_keys|].
    intros h. assert (E : phase_in w' h = phase_in (with_handle id y w) h) by (unfold phase_in; now rewrite Eh).
    rewrite E. now apply (phase_with id x).
  - exists [EvStop id]. eexists. split; [|split; [reflexivity|exact A']].
    cbn [lifecycle_run lifecycle_step]. rewrite (abstract_phase _ _ _ _ Ha L). cbn [obind]. now rewrite Hy.
Qed.

Lemma follows_create l w out r w' : abstracts l w -> created out w r w' ->
  follows l (match r with Some _ => [EvCreate (load_u64 (mem w') out)] | None => [] end) w'.
Proof.
  intros Ha H. destruct r as [s|]; cbn [created] in H.
  - destruct H as (_ & -> & En & x & Eh & Hx). destruct Ha as (Hp & Hu & Hn).
    exists [EvCreate (next w)]. eexists. split; [|split; [reflexivity|]].
    + cbn [lifecycle_run lifecycle_step]. destruct (used l (next w)) eqn:U; [apply Hu in U; lia|]. reflexivity.
    + split; [|split].
      * intros h. cbn [phase_of]. unfold set_at, phase_in. rewrite Eh. cbn [assoc].
        rewrite Z.eqb_sym. destruct (h =? next w) eqn:E; rewrite Z.eqb_sym, E; cbn [option_map]; [now rewrite Hx|apply Hp].
      * intros h. cbn [used]. unfold set_at. destruct (Z.eqb_spec h (next w)); [lia|]. intros U. apply Hu in U. lia.
      * lia.
  - destruct H as (Eh & Hn). exists [], l. split; [reflexivity|]. split; [reflexivity|].
    apply (abstracts_next _ w); [exact Ha|exact Eh|lia].
Qed.

Lemma follows_unchanged l w w' : abstracts l w -> handles w' = handles w -> next w' = next w -> follows l [] w'.
Proof.
  intros Ha Eh En. exists [], l. split; [reflexivity|]. split; [reflexivity|].
  apply (abstracts_next _ w); [exact Ha|exact Eh|lia].
Qed.

Lemma follows_start k id l t w : abstracts l w ->
  follows l (visible (CallStart k id) t w) (snd (exec_call (CallStart k id) t w)).
Proof.
  intros Ha. unfold visible. cbn [exec_call]. destruct (meta_start_v1 k id t w) as [s w'] eqn:E. cbn [snd].
  apply lifecycle_call_run in E as [(-> & Eh & En)|(x & L & _ & _ & E)]; [now apply (follows_unchanged _ w)|].
  destruct (start send_error recv_error k x) as [r y] eqn:F. pose proof (start_phase _ _ _ _ _ _ F) as P.
  cbn [fst snd] in E. destruct r as [u|e|].
  - unfold boundary, fret in E. injection E as <- <-. cbn [meta_status_eqb status_code Z.eqb].
    exists [EvStart id]. eexists. split; [|split; [reflexivity|apply (abstracts_with _ w id x y _ Ha L eq_refl eq_refl)]].
    cbn [lifecycle_run lifecycle_step]. rewrite (abstract_phase _ _ _ _ Ha L). destruct P as [-> ->]. reflexivity.
  - destruct E as (-> & Eh & En). now apply (follows_stop _ w id x y).
  - destruct E as (-> & Eh & En). now apply (follows_stop _ w id x y).
Qed.

Lemma follows_shutdown id l t w : abstracts l w ->
  follows l (visible (CallStop id) t w) (snd (exec_call (CallStop id) t w)).
Proof.
  intros Ha. unfold visible. cbn [exec_call]. destruct (meta_stop_v1 id t w) as [s w'] eqn:E. cbn [snd].
  replace (if meta_status_eqb s META_OK then [] else []) with (@nil lifecycle_event)
    by now destruct (meta_status_eqb s META_OK).
  apply lifecycle_call_run in E as [(-> & Eh & En)|(x & L & _ & _ & E)]; [now apply (follows_unchanged _ w)|].
  pose proof (shutdown_phase x) as P. destruct (shutdown x) as [r y]. cbn [fst snd] in E, P.
  apply (follows_stop _ w id x y); auto; destruct r; try apply E;
    unfold boundary, fret in E; now injection E as <- <-.
Qed.

Lemma follows_set_fd k id fd l t w : abstracts l w ->
  follows l (visible (CallSetTunFd k id fd) t w) (snd (exec_call (CallSetTunFd k id fd) t w)).
Proof.
  intros Ha. unfold visible. cbn [exec_call]. destruct (meta_set_tun_fd_v1 k id fd t w) as [s w'] eqn:E. cbn [snd].
  replace (if meta_status_eqb s META_OK then [] else []) with (@nil lifecycle_event)
    by now destruct (meta_status_eqb s META_OK).
  apply set_tun_fd_run in E as [(-> & e & ->)|[_ E]]; [now apply (follows_unchanged _ w)|].
  apply lifecycle_call_run in E as [(-> & Eh & En)|(x & L & _ & _ & E)]; [now apply (follows_unchanged _ w)|].
  destruct (set_fd send_error recv_error k x) as [r y] eqn:F. pose proof (set_fd_phase _ _ _ _ _ _ F) as P.
  cbn [fst snd] in E. apply (follows_stop _ w id x y); auto; destruct r; try apply E;
    unfold boundary, fret in E; now injection E as <- <-.
Qed.

Lemma assoc_remove_spec {A} k h (l : list (Z * A)) :
  assoc h (assoc_remove k l) = if h =? k then None else assoc h l.
Proof.
  unfold assoc_remove. induction l as [|[i x] l IH]; cbn [filter assoc fst]; [now destruct (h =? k)|].
  destruct (Z.eqb_spec i k) as [->|Hn]; cbn [negb assoc].
  - rewrite IH. destruct (Z.eqb_spec h k); [reflexivity|]. destruct (Z.eqb_spec k h); [lia|reflexivity].
  - destruct (Z.eqb_spec i h) as [->|]; [|exact IH]. destruct (Z.eqb_spec h k); [lia|reflexivity].
Qed.

Lemma follows_destroy id l t w : abstracts l w ->
  follows l (visible (CallDestroy id) t w) (snd (exec_call (CallDestroy id) t w)).
Proof.
  intros Ha. unfold visible. cbn [exec_call]. destruct (meta_destroy_v1 id t w) as [s w'] eqn:E. cbn [snd].
  apply lifecycle_call_run in E as [(-> & Eh & En)|(x & L & P0 & _ & E)]; [now apply (follows_unchanged _ w)|].
  pose proof (shutdown_phase x) as P. destruct (shutdown x) as [r y]. cbn [fst snd] in E, P.
  destruct r as [u|e|]; [|destruct E as (-> & Eh & En); apply (follows_stop _ w id x y); auto..].
  unfold boundary, lock_handles, gets, fbind in E. cbn [with_handle set_registry handles_poisoned] in E.
  rewrite P0 in E. cbn [fret modify] in E. injection E as <- <-. cbn [meta_status_eqb status_code Z.eqb].
  pose proof (abstracts_with _ _ _ _ y _ Ha L eq_refl eq_refl) as (Hp & Hu & Hn).
  exists [EvStop id; EvDestroy id]. eexists. split; [|split; [reflexivity|]].
  - cbn [lifecycle_run lifecycle_step]. rewrite (abstract_phase _ _ _ _ Ha L). cbn [obind phase_of].
    unfold set_at at 1. rewrite Z.eqb_refl. cbn [obind used]. reflexivity.
  - split; [|split; [exact Hu|exact Hn]]. intros h. cbn [phase_of]. unfold set_at, phase_in.
    cbn [set_registry handles]. rewrite assoc_remove_spec. destruct (Z.eqb_spec h id) as [->|Hh]; [reflexivity|].
    rewrite assoc_set_other by exact Hh. destruct Ha as (Hp0 & _). apply Hp0.
Qed.

Lemma call_follows c l t w : abstracts l w -> follows l (visible c t w) (snd (exec_call c t w)).
Proof.
  intros Ha. destruct (changes_phases c) eqn:Hc.
  - assert (Hn : 0 <= next w) by (destruct Ha as (_ & _ & ?); lia).
    destruct c; try discriminate; auto using follows_start, follows_shutdown, follows_destroy, follows_set_fd;
      unfold visible; cbn [exec_call];
      match goal with |- context [let '(_, _) := ?e in _] => destruct e as [s w'] eqn:E end; cbn [snd];
      apply create_effect in E; [|exact Hn| |exact Hn];
      apply (follows_create _ _ _ _ _ Ha) in E; now destruct (meta_status_eqb s META_OK).
  - replace (visible c t w) with (@nil lifecycle_event).
    + apply (follows_same _ w); [exact Ha|]. now apply other_calls_quiet.
    + unfold visible. destruct (exec_call c t w). now destruct (meta_status_eqb m META_OK), c.
Qed.

(** ** Processes

    Calls by any thread; the worker behind a handle, which may stop its core
    but not start it again; and everything else in the process. *)
Inductive process_step : world -> list lifecycle_event -> world -> Prop :=
  | PCall c t w : process_step w (visible c t w) (snd (exec_call c t w))
  | PWorker id x y w : assoc id (handles w) = Some x ->
      phase_of_handle y = phase_of_handle x \/ phase_of_handle y = Stopped ->
      process_step w [] (with_handle id y w)
  | POther w w' : handles w' = handles w -> next w' = next w -> process_step w [] w'.

Inductive process : world -> list lifecycle_event -> world -> Prop :=
  | process_start w : process w [] w
  | process_next w es w1 es1 w2 : process w es w1 -> process_step w1 es1 w2 -> process w (es ++ es1) w2.

Lemma lifecycle_run_app es es' l l' : lifecycle_run l es = Some l' ->
  lifecycle_run l (es ++ es') = lifecycle_run l' es'.
Proof.
  revert l. induction es as [|e es IH]; intros l E; cbn [lifecycle_run app] in *; [congruence|].
  destruct (lifecycle_step l e) as [l1|]; [|discriminate]. exact (IH _ E).
Qed.

Lemma process_refines w es w' : process w es w' -> forall l, abstracts l w -> follows l es w'.
Proof.
  induction 1 as [w|w es w1 es1 w2 H IH S]; intros l Ha.
  - now apply (follows_unchanged _ w).
  - destruct (IH l Ha) as (all & l1 & Er & Ef & Ha1).
    assert (F : follows l1 es1 w2).
    { destruct S as [c t w1|id x y w1 L Hy|w1 w2 Eh En].
      - now apply call_follows.
      - now apply (follows_stop _ w1 id x y).
      - now apply (follows_unchanged _ w1). }
    destruct F as (all1 & l2 & Er1 & Ef1 & Ha2). exists (all ++ all1), l2.
    split; [now rewrite (lifecycle_run_app _ _ _ _ Er)|]. split; [|exact Ha2].
    now rewrite filter_app, Ef, Ef1.
Qed.

(** C7: The registry refines the lifecycle of the header.  In a process that
    starts without handles, whatever calls threads make and whatever workers
    do, the creations, starts and destructions that returned META_OK, with the
    stops that happened in between, form a run that [lifecycle_step] allows,
    and the phase of every handle is the one that run leads to. *)
Theorem registry_refines_lifecycle w es w' :
  handles w = [] -> next w = 1 -> process w es w' ->
  exists all l, lifecycle_run lifecycle_init all = Some l /\ filter shown all = es /\
    forall h, phase_of l h = phase_in w' h.
Proof.
  intros H0 H1 P. destruct (process_refines _ _ _ P lifecycle_init) as (all & l & Er & Ef & Ha & _).
  - split; [intros h; unfold phase_in; now rewrite H0|]. split; [discriminate|lia].
  - exists all, l. auto.
Qed.

End Lifecycle.

(** ** What the lifecycle implies *)

Definition event_handle (e : lifecycle_event) : meta_handle :=
  match e with EvCreate h | EvStart h | EvStop h | EvDestroy h => h end.

Definition creations (es : list lifecycle_event) : list meta_handle :=
  flat_map (fun e => match e with EvCreate h => [h] | _ => [] end) es.

Definition starts (es : list lifecycle_event) : list meta_handle :=
  flat_map (fun e => match e with EvStart h => [h] | _ => [] end) es.

(** A handle with a phase has been created. *)
Definition lifecycle_wf (l : lifecycle) : Prop := forall h p, phase_of l h = Some p -> used l h = true.

Lemma lifecycle_step_wf l e l' : lifecycle_wf l -> lifecycle_step l e = Some l' ->
  lifecycle_wf l' /\ forall h, used l h = true -> used l' h = true.
Proof.
  intros W. destruct e as [h|h|h|h]; cbn [lifecycle_step].
  - destruct (used l h) eqn:U; [discriminate|]. intros E. injection E as <-.
    split; intros i; cbn [phase_of used]; unfold set_at; destruct (Z.eqb_spec i h) as [->|]; eauto.
  - destruct (phase_of l h) as [[]|] eqn:P; try discriminate. intros E. injection E as <-.
    split; [|easy]. intros i p; cbn [phase_of used]; unfold set_at; destruct (Z.eqb_spec i h) as [->|]; eauto.
  - destruct (phase_of l h) as [q|] eqn:P; try discriminate. intros E. injection E as <-.
    split; [|easy]. intros i p; cbn [phase_of used]; unfold set_at; destruct (Z.eqb_spec i h) as [->|]; eauto.
  - destruct (phase_of l h) as [[]|] eqn:P; try discriminate. intros E. injection E as <-.
    split; [|easy]. intros i p; cbn [phase_of used]; unfold set_at; destruct (Z.eqb_spec i h) as [->|]; [easy|eauto].
Qed.

(** Properties of one handle that no event can end, and the events they rule
    out. *)
Section Stable.
Variables (Q : lifecycle -> meta_handle -> Prop) (bad : meta_handle -> lifecycle_event -> Prop).
Hypothesis stable : forall l e l' h, lifecycle_wf l -> lifecycle_step l e = Some l' -> Q l h -> Q l' h /\ ~ bad h e.

Lemma stable_run es : forall l l' h, lifecycle_wf l -> lifecycle_run l es = Some l' -> Q l h ->
  Q l' h /\ forall e, In e es -> ~ bad h e.
Proof.
  induction es as [|e es IH]; intros l l' h W E H; cbn [lifecycle_run] in E.
  - injection E as <-. split; [exact H|easy].
  - destruct (lifecycle_step l e) as [l1|] eqn:S; [|discriminate]. cbn [obind] in E.
    destruct (stable _ _ _ _ W S H) as [H1 Hb]. destruct (lifecycle_step_wf _ _ _ W S) as [W1 _].
    destruct (IH _ _ _ W1 E H1) as [H2 Hn]. split; [exact H2|]. intros e' [<-|Hi]; auto.
Qed.

End Stable.

Definition was_created (l : lifecycle) h : Prop := used l h = true.
Definition cannot_start (l : lifecycle) h : Prop := used l h = true /\ phase_of l h <> Some Created.
Definition destroyed (l : lifecycle) h : Prop := used l h = true /\ phase_of l h = None.

Lemma step_at l e l' h : lifecycle_wf l -> lifecycle_step l e = Some l' ->
  used l h = true -> used l' h = true /\ e <> EvCreate h /\
  (phase_of l' h = phase_of l h \/ phase_of l' h <> Some Created) /\
  (phase_of l h <> Some Created -> e <> EvStart h) /\
  (phase_of l h = None -> phase_of l' h = None /\ event_handle e <> h).
Proof.
  intros W S U. destruct (lifecycle_step_wf _ _ _ W S) as [_ Hu]. split; [auto|].
  destruct e as [i|i|i|i]; cbn [lifecycle_step] in S; cbn [event_handle].
  - destruct (used l i) eqn:Ui; [discriminate|]. injection S as <-.
    assert (Hn : h <> i) by congruence. cbn [phase_of]. unfold set_at.
    rewrite (proj2 (Z.eqb_neq h i) Hn). repeat split; auto; congruence.
  - destruct (phase_of l i) as [[]|] eqn:P; try discriminate. injection S as <-. cbn [phase_of]. unfold set_at.
    destruct (Z.eqb_spec h i) as [->|Hn]; repeat split; auto; try congruence. right. discriminate.
  - destruct (phase_of l i) as [q|] eqn:P; try discriminate. injection S as <-. cbn [phase_of]. unfold set_at.
    destruct (Z.eqb_spec h i) as [->|Hn]; repeat split; auto; try congruence. right. discriminate.
  - destruct (phase_of l i) as [[]|] eqn:P; try discriminate. injection S as <-. cbn [phase_of]. unfold set_at.
    destruct (Z.eqb_spec h i) as [->|Hn]; repeat split; auto; try congruence. right. discriminate.
Qed.

Lemma created_stable l e l' h : lifecycle_wf l -> lifecycle_step l e = Some l' ->
  was_created l h -> was_created l' h /\ e <> EvCreate h.
Proof. intros W S U. destruct (step_at _ _ _ _ W S U) as (A & B & _). auto. Qed.

Lemma cannot_start_stable l e l' h : lifecycle_wf l -> lifecycle_step l e = Some l' ->
  cannot_start l h -> cannot_start l' h /\ e <> EvStart h.
Proof.
  intros W S [U P]. destruct (step_at _ _ _ _ W S U) as (A & _ & B & D & _).
  split; [|auto]. split; [exact A|]. destruct B as [->|B]; auto.
Qed.

Lemma destroyed_stable l e l' h : lifecycle_wf l -> lifecycle_step l e = Some l' ->
  destroyed l h -> destroyed l' h /\ event_handle e <> h.
Proof.
  intros W S [U P]. destruct (step_at _ _ _ _ W S U) as (A & _ & _ & _ & B).
  destruct (B P). unfold destroyed. auto.
Qed.

Lemma lifecycle_created_once es : forall l l', lifecycle_wf l -> lifecycle_run l es = Some l' ->
  NoDup (creations es) /\ NoDup (starts es).
Proof.
  induction es as [|e es IH]; intros l l' W E; [split; constructor|]. cbn [lifecycle_run] in E.
  destruct (lifecycle_step l e) as [l1|] eqn:S; [|discriminate]. cbn [obind] in E.
  destruct (lifecycle_step_wf _ _ _ W S) as [W1 _]. destruct (IH _ _ W1 E) as [N1 N2].
  destruct e as [h|h|h|h]; cbn [creations starts flat_map app]; auto.
  - split; [|exact N2]. constructor; [|exact N1]. intros Hi. apply in_flat_map in Hi as ([] & Hi & He); try easy.
    destruct He as [->|[]]. assert (C : was_created l1 h).
    { cbn [lifecycle_step] in S. destruct (used l h); [discriminate|]. injection S as <-.
      unfold was_created. cbn [used]. unfold set_at. now rewrite Z.eqb_refl. }
    now destruct (stable_run was_created (fun h e => e = EvCreate h) created_stable _ _ _ _ W1 E C) as [_ X]; apply (X _ Hi).
  - split; [exact N1|]. constructor; [|exact N2]. intros Hi. apply in_flat_map in Hi as ([] & Hi & He); try easy.
    destruct He as [->|[]]. assert (C : cannot_start l1 h).
    { cbn [lifecycle_step] in S. destruct (phase_of l h) as [[]|] eqn:P; try discriminate. injection S as <-.
      split; cbn [used phase_of]; [eapply W, P|]. unfold set_at. rewrite Z.eqb_refl. discriminate. }
    now destruct (stable_run cannot_start (fun h e => e = EvStart h) cannot_start_stable _ _ _ _ W1 E C) as [_ X]; apply (X _ Hi).
Qed.

Lemma lifecycle_destroyed a b h : forall l l', lifecycle_wf l ->
  lifecycle_run l (a ++ EvDestroy h :: b) = Some l' ->
  ~ In h (map event_handle b) /\ phase_of l' h = None.
Proof.
  induction a as [|e a IH]; intros l l' W E; cbn [app lifecycle_run] in E.
  - destruct (lifecycle_step l (EvDestroy h)) as [l1|] eqn:S; [|discriminate]. cbn [obind] in E.
    destruct (lifecycle_step_wf _ _ _ W S) as [W1 _]. assert (D : destroyed l1 h).
    { cbn [lifecycle_step] in S. destruct (phase_of l h) as [[]|] eqn:P; try discriminate. injection S as <-.
      split; cbn [used phase_of]; [eapply W, P|]. unfold set_at. now rewrite Z.eqb_refl. }
    destruct (stable_run destroyed (fun h e => event_handle e = h) destroyed_stable _ _ _ _ W1 E D) as [[_ P] X].
    split; [|exact P]. intros Hi. apply in_map_iff in Hi as (e & He & Hi). now apply (X e).
  - destruct (lifecycle_step l e) as [l1|] eqn:S; [|discriminate]. cbn [obind] in E.
    destruct (lifecycle_step_wf _ _ _ W S) as [W1 _]. exact (IH _ _ W1 E).
Qed.

Lemma filter_split {A} (f : A -> bool) l : forall a x b, filter f l = a ++ x :: b ->
  exists a' b', l = a' ++ x :: b' /\ filter f b' = b.
Proof.
  induction l as [|y l IH]; intros a x b E; cbn [filter] in E; [now destruct a|].
  destruct (f y) eqn:F.
  - destruct a as [|z a]; cbn [app] in E; injection E as -> E.
    + exists [], l. auto.
    + destruct (IH _ _ _ E) as (a' & b' & -> & Hb). exists (z :: a'), b'. auto.
  - destruct (IH _ _ _ E) as (a' & b' & -> & Hb). exists (y :: a'), b'. auto.
Qed.

Lemma creations_shown es : creations (filter shown es) = creations es /\ starts (filter shown es) = starts es.
Proof.
  unfold creations, starts in *. induction es as [|[] es [IH1 IH2]]; cbn [filter shown flat_map app];
    rewrite ?IH1, ?IH2; auto.
Qed.

(** C1: In every process, two successful creations never return the same
    handle, a core is started successfully at most once, and after a successful
    destruction the handle is unknown for good: no later call on it succeeds in
    changing its lifecycle and no creation returns it again. *)
Theorem handles_never_reused {K : Crates} {M : Mpsc} {C : CipherCrates} (android : bool) (w w' : world) es :
  handles w = [] -> next w = 1 -> process android w es w' ->
  NoDup (creations es) /\ NoDup (starts es) /\
  forall a h b, es = a ++ EvDestroy h :: b -> ~ In h (map event_handle b) /\ assoc h (handles w') = None.
Proof.
  intros H0 H1 P. destruct (process_refines _ _ _ _ P lifecycle_init) as (all & l & Er & Ef & Ha & _).
  { split; [intros h; unfold phase_in; now rewrite H0|]. split; [discriminate|lia]. }
  assert (W : lifecycle_wf lifecycle_init) by (intros h p; discriminate).
  destruct (creations_shown all) as [Ec Es]. rewrite Ef in Ec, Es.
  destruct (lifecycle_created_once _ _ _ W Er) as [N1 N2]. split; [now rewrite Ec|]. split; [now rewrite Es|].
  intros a h b E. rewrite E in Ef. apply filter_split in Ef as (a' & b' & -> & Hb).
  destruct (lifecycle_destroyed _ _ _ _ _ W Er) as [X Hp]. split.
  - intros Hi. apply X. apply in_map_iff in Hi as (e & He & Hi). apply in_map_iff. exists e. split; [exact He|].
    rewrite <- Hb in Hi. now apply filter_In in Hi.
  - rewrite Ha in Hp. unfold phase_in in Hp. now destruct (assoc h (handles w')).
Qed.
