(* ===== verification/Worker.v ===== *)
(** * One handle and its threads

    The worker thread of [Handle::new], the tasks on its runtime and the host
    threads that call [start], [set_fd], [probe], [test_route],
    [dns_leak_test], [network_changed] and [shutdown] on the handle
    ([crates/ffi/src/host.rs]), step by step and in any interleaving.  Every
    access to what they share is a step: the cancellation token [core.stop]
    (which the packet loop of the core cancels too, when it ends), the started
    flag of the core, the command queue of four places, the watched counter of
    network changes, the reply of a command, the mutex around the join handle,
    and the callbacks that are running.

    The core's own part of a step (whether [start_inner] succeeds, what a probe
    finds) is in the label.  Tasks are those that answer a question and those
    the core spawns; most of the latter loop until the token is cancelled, so
    none of them is ever counted on to end by itself. *)
From S2P Require Import Prelude Transition CMemory CApi ConfigCrypto Host.
From Stdlib Require Import String ZArith List Lia Bool.
Import ListNotations.
Open Scope Z_scope.

(** ** Commands and replies *)

(** [Command]: the last three variants differ in the question they carry. *)
Inductive request : Type :=
  | ReqStart
  | ReqSetFd
  | ReqAsk (question : text).

(** A reply is a [Result]: the value or the text of the error. *)
Definition answer : Type := text + text.
Definition succeeded : answer := inl [].

Definition refused_packets : answer :=
  inr (lit "tun.enable requires a host PacketIo; disable TUN for listener-only operation").
Definition refused_twice : answer := inr (lit "core cannot be started twice; create a new core").
Definition refused_fd : answer := inr (lit "TUN fd must be set before start with tun.enable=true").

(** ** Where everybody is *)

(** The worker: polling the three branches of [select!] in their order, waiting
    for one of them, handling a network change, about to start, starting,
    leaving the loop, shutting the core down, dropping the runtime, ended.
    [Unwinding] is a panic of the worker. *)
Inductive worker_position : Type :=
  | PollStop | PollNetwork | PollCommand | Parked
  | Networking
  | StartCheck (id : nat) | Starting (id : nat)
  | Leaving | ShuttingDown | Unwinding
  | DroppingRuntime | Ended.

(** A task of the runtime: the reply it owes (none for a task of the core), and
    whether it is inside a host callback. *)
Record task : Type := { owes : option nat; calling : bool }.

(** A host thread outside; between the check of the token and [try_send];
    waiting for the reply; between check and [send_modify]; at the mutex of the
    join handle; joining while it holds that mutex. *)
Inductive caller : Type :=
  | Outside
  | Checked (r : request)
  | Waiting (r : request) (id : nat)
  | CheckedNetwork
  | AtMutex
  | Joining.

(** What a call returned. *)
Inductive returned : Type :=
  | CoreStopped                            (* "core is stopped" *)
  | QueueRefused                           (* full or closed *)
  | NoAnswer (id : nat)                    (* timeout, or the reply was dropped *)
  | GotAnswer (id : nat) (r : request) (a : answer)
  | NetworkNoted
  | ShutDown (ok : bool).                  (* false: "core worker panicked" *)

Inductive packet_device : Type := NoDevice | HostDevice | FdDevice.

(** ** State *)

Record shared : Type := {
  stop_token : bool;                       (* core.stop *)
  started_flag : bool;                     (* core.lifecycle *)
  tun_config : bool;                       (* core.config.tun.enable *)
  command_queue : list (request * nat);
  watched : Z;                             (* network changes sent: the version the watch compares *)
  queue_enabled : bool;                    (* packet_queue_enabled *)
  replies : list (nat * answer) }.

Record worker_thread : Type := {
  at_ : worker_position;
  running : bool;                          (* Some(Running) *)
  device : packet_device;                  (* packets *)
  worker_calling : bool;                   (* the worker runs a host callback *)
  seen : Z;                                (* changes the watch has marked seen *)
  tasks : list task;
  panicked : bool;
  (* history *)
  handled : Z;                             (* network changes handled *)
  started_by : list nat }.                 (* the commands whose start_inner succeeded *)

Record host_threads : Type := {
  callers : list caller;
  join_handle : bool;                      (* worker: Some(JoinHandle) *)
  holder : option nat;                     (* who holds its mutex *)
  next_id : nat;
  issued : list (nat * (nat * request));   (* commands sent: number, caller, request *)
  results : list (nat * returned) }.

Record cstate : Type := { sh : shared; wt : worker_thread; ho : host_threads }.

Definition cinitial (tun : bool) (n : nat) : cstate :=
  {| sh := {| stop_token := false; started_flag := false; tun_config := tun; command_queue := [];
              watched := 0; queue_enabled := tun; replies := [] |};
     wt := {| at_ := PollStop; running := false; device := if tun then HostDevice else NoDevice;
              worker_calling := false; seen := 0; tasks := []; panicked := false;
              handled := 0; started_by := [] |};
     ho := {| callers := repeat Outside n; join_handle := true; holder := None; next_id := 0%nat;
              issued := []; results := [] |} |}.

(** ** Updates *)

Definition with_stop (x : shared) : shared :=
  {| stop_token := true; started_flag := started_flag x; tun_config := tun_config x;
     command_queue := command_queue x; watched := watched x; queue_enabled := queue_enabled x;
     replies := replies x |}.
Definition with_started (b : bool) (x : shared) : shared :=
  {| stop_token := stop_token x; started_flag := b; tun_config := tun_config x;
     command_queue := command_queue x; watched := watched x; queue_enabled := queue_enabled x;
     replies := replies x |}.
Definition with_queue (q : list (request * nat)) (x : shared) : shared :=
  {| stop_token := stop_token x; started_flag := started_flag x; tun_config := tun_config x;
     command_queue := q; watched := watched x; queue_enabled := queue_enabled x; replies := replies x |}.
Definition with_watched (v : Z) (x : shared) : shared :=
  {| stop_token := stop_token x; started_flag := started_flag x; tun_config := tun_config x;
     command_queue := command_queue x; watched := v; queue_enabled := queue_enabled x; replies := replies x |}.
Definition with_queue_disabled (x : shared) : shared :=
  {| stop_token := stop_token x; started_flag := started_flag x; tun_config := tun_config x;
     command_queue := command_queue x; watched := watched x; queue_enabled := false; replies := replies x |}.
Definition with_reply (id : nat) (a : answer) (x : shared) : shared :=
  {| stop_token := stop_token x; started_flag := started_flag x; tun_config := tun_config x;
     command_queue := command_queue x; watched := watched x; queue_enabled := queue_enabled x;
     replies := (id, a) :: replies x |}.

Definition goes (p : worker_position) (x : worker_thread) : worker_thread :=
  {| at_ := p; running := running x; device := device x; worker_calling := worker_calling x; seen := seen x;
     tasks := tasks x; panicked := panicked x; handled := handled x; started_by := started_by x |}.
Definition with_running (b : bool) (x : worker_thread) : worker_thread :=
  {| at_ := at_ x; running := b; device := device x; worker_calling := worker_calling x; seen := seen x;
     tasks := tasks x; panicked := panicked x; handled := handled x; started_by := started_by x |}.
Definition core_started (id : nat) (x : worker_thread) : worker_thread :=
  {| at_ := at_ x; running := true; device := device x; worker_calling := worker_calling x; seen := seen x;
     tasks := tasks x; panicked := panicked x; handled := handled x; started_by := id :: started_by x |}.
Definition with_fd_device (x : worker_thread) : worker_thread :=
  {| at_ := at_ x; running := running x; device := FdDevice; worker_calling := worker_calling x; seen := seen x;
     tasks := tasks x; panicked := panicked x; handled := handled x; started_by := started_by x |}.
Definition with_worker_calling (b : bool) (x : worker_thread) : worker_thread :=
  {| at_ := at_ x; running := running x; device := device x; worker_calling := b; seen := seen x;
     tasks := tasks x; panicked := panicked x; handled := handled x; started_by := started_by x |}.
Definition with_seen (v : Z) (x : worker_thread) : worker_thread :=
  {| at_ := at_ x; running := running x; device := device x; worker_calling := worker_calling x; seen := v;
     tasks := tasks x; panicked := panicked x; handled := handled x + 1; started_by := started_by x |}.
Definition with_tasks (ts : list task) (x : worker_thread) : worker_thread :=
  {| at_ := at_ x; running := running x; device := device x; worker_calling := worker_calling x; seen := seen x;
     tasks := ts; panicked := panicked x; handled := handled x; started_by := started_by x |}.
Definition with_panic (x : worker_thread) : worker_thread :=
  {| at_ := Unwinding; running := running x; device := device x; worker_calling := worker_calling x;
     seen := seen x; tasks := tasks x; panicked := true; handled := handled x; started_by := started_by x |}.

(** A caller moves on, perhaps with a result. *)
Definition moves (i : nat) (c : caller) (x : host_threads) : host_threads :=
  {| callers := set_nth i c (callers x); join_handle := join_handle x; holder := holder x;
     next_id := next_id x; issued := issued x; results := results x |}.
Definition returns (i : nat) (r : returned) (x : host_threads) : host_threads :=
  {| callers := set_nth i Outside (callers x); join_handle := join_handle x; holder := holder x;
     next_id := next_id x; issued := issued x; results := (i, r) :: results x |}.
Definition sends (i : nat) (r : request) (x : host_threads) : host_threads :=
  {| callers := set_nth i (Waiting r (next_id x)) (callers x); join_handle := join_handle x;
     holder := holder x; next_id := S (next_id x); issued := (next_id x, (i, r)) :: issued x;
     results := results x |}.
Definition takes_handle (i : nat) (x : host_threads) : host_threads :=
  {| callers := set_nth i Joining (callers x); join_handle := false; holder := Some i;
     next_id := next_id x; issued := issued x; results := results x |}.
Definition releases (x : host_threads) : host_threads :=
  {| callers := callers x; join_handle := join_handle x; holder := None;
     next_id := next_id x; issued := issued x; results := results x |}.

Definition on_sh (f : shared -> shared) (s : cstate) : cstate := {| sh := f (sh s); wt := wt s; ho := ho s |}.
Definition on_wt (f : worker_thread -> worker_thread) (s : cstate) : cstate :=
  {| sh := sh s; wt := f (wt s); ho := ho s |}.
Definition on_ho (f : host_threads -> host_threads) (s : cstate) : cstate :=
  {| sh := sh s; wt := wt s; ho := f (ho s) |}.

(** ** Steps *)

Inductive clabel : Type :=
  (* host threads *)
  | Call (i : nat) (r : request)       (* start, set_fd, probe, ... are called *)
  | TrySend (i : nat)
  | Receive (i : nat)                  (* the reply is there *)
  | Disconnected (i : nat)             (* nobody can reply any more *)
  | Timeout (i : nat)
  | CallNetwork (i : nat)
  | SendModify (i : nat)
  | CallShutdown (i : nat)
  | LockWorker (i : nat)
  | Join (i : nat)
  (* the worker *)
  | SelectStop
  | SelectNetwork
  | SelectCommand (opened : outcome unit)  (* for a descriptor: NativeTun::from_owned_fd *)
  | WakeUp
  | NetworkDone (ok : bool)
  | CheckStart
  | StartDone (r : outcome unit)       (* start_inner returns *)
  | LeaveLoop
  | CoreShutdown
  | Unwind
  | AbortTask (j : nat)
  | Finish
  (* host callbacks and tasks *)
  | WorkerCall
  | WorkerReturn
  | Spawn
  | TaskCall (j : nat)
  | TaskReturn (j : nat)
  | TaskDone (j : nat) (a : option answer)  (* a question is answered; None: its task panicked *)
  | TaskEnds (j : nat)                 (* a task of the core ends by itself *)
  | TaskCancels (j : nat).             (* the packet loop of the core ends *)

Definition needs_token (r : request) : bool := match r with ReqAsk _ => false | _ => true end.

(** Commands that cancel the core when they get no answer. *)
Definition gives_up (i : nat) (r : request) (id : nat) (s : cstate) : cstate :=
  let s := on_ho (returns i (NoAnswer id)) s in
  if needs_token r then on_sh with_stop s else s.

Fixpoint reply_of (id : nat) (l : list (nat * answer)) : option answer :=
  match l with
  | [] => None
  | (k, a) :: l' => if Nat.eqb k id then Some a else reply_of id l'
  end.

Definition position_owes (p : worker_position) : list nat :=
  match p with StartCheck id | Starting id => [id] | _ => [] end.
Definition task_owes (t : task) : list nat := match owes t with Some id => [id] | None => [] end.

(** The replies that may still come. *)
Definition owed (s : cstate) : list nat :=
  map snd (command_queue (sh s)) ++ position_owes (at_ (wt s)) ++ flat_map task_owes (tasks (wt s)).

Fixpoint remove_nth {A} (i : nat) (l : list A) : list A :=
  match i, l with
  | _, [] => []
  | O, _ :: l' => l'
  | S i', x :: l' => x :: remove_nth i' l'
  end.

Definition has_device (d : packet_device) : bool := match d with NoDevice => false | _ => true end.
Definition queue_length : nat := 4.

(** The receiving half is gone once the thread has ended. *)
Definition has_ended (p : worker_position) : bool := match p with Ended => true | _ => false end.

Definition caller_step (a : clabel) (s : cstate) : option cstate :=
  match a with
  | Call i r =>
      match nth_error (callers (ho s)) i with
      | Some Outside =>
          Some (if needs_token r && stop_token (sh s) then on_ho (returns i CoreStopped) s
                else on_ho (moves i (Checked r)) s)
      | _ => None
      end
  | TrySend i =>
      match nth_error (callers (ho s)) i with
      | Some (Checked r) =>
          Some (if negb (has_ended (at_ (wt s))) && Nat.ltb (length (command_queue (sh s))) queue_length
                then on_ho (sends i r)
                       (on_sh (fun x => with_queue (command_queue x ++ [(r, next_id (ho s))]) x) s)
                else on_ho (returns i QueueRefused) s)
      | _ => None
      end
  | Receive i =>
      match nth_error (callers (ho s)) i with
      | Some (Waiting r id) =>
          match reply_of id (replies (sh s)) with
          | Some a => Some (on_ho (returns i (GotAnswer id r a)) s)
          | None => None
          end
      | _ => None
      end
  | Disconnected i =>
      match nth_error (callers (ho s)) i with
      | Some (Waiting r id) =>
          match reply_of id (replies (sh s)) with
          | Some _ => None
          | None => if in_dec Nat.eq_dec id (owed s) then None else Some (gives_up i r id s)
          end
      | _ => None
      end
  | Timeout i =>
      match nth_error (callers (ho s)) i with
      | Some (Waiting r id) =>
          match reply_of id (replies (sh s)) with Some _ => None | None => Some (gives_up i r id s) end
      | _ => None
      end
  | CallNetwork i =>
      match nth_error (callers (ho s)) i with
      | Some Outside =>
          Some (if stop_token (sh s) then on_ho (returns i CoreStopped) s else on_ho (moves i CheckedNetwork) s)
      | _ => None
      end
  | SendModify i =>
      match nth_error (callers (ho s)) i with
      | Some CheckedNetwork =>
          Some (on_ho (returns i NetworkNoted) (on_sh (fun x => with_watched (watched x + 1) x) s))
      | _ => None
      end
  | CallShutdown i =>
      match nth_error (callers (ho s)) i with
      | Some Outside => Some (on_ho (moves i AtMutex) (on_sh with_stop s))
      | _ => None
      end
  | LockWorker i =>
      match nth_error (callers (ho s)) i, holder (ho s) with
      | Some AtMutex, None =>
          Some (if join_handle (ho s) then on_ho (takes_handle i) s else on_ho (returns i (ShutDown true)) s)
      | _, _ => None
      end
  | Join i =>
      match nth_error (callers (ho s)) i, at_ (wt s) with
      | Some Joining, Ended =>
          Some (on_ho (fun x => releases (returns i (ShutDown (negb (panicked (wt s)))) x)) s)
      | _, _ => None
      end
  | _ => None
  end.

(** The worker replies to [id] and goes back to the loop. *)
Definition replies_to (id : nat) (a : answer) (s : cstate) : cstate :=
  on_wt (goes PollStop) (on_sh (with_reply id a) s).

Definition worker_step (a : clabel) (s : cstate) : option cstate :=
  match a, at_ (wt s) with
  | SelectStop, PollStop => Some (on_wt (goes (if stop_token (sh s) then Leaving else PollNetwork)) s)
  | SelectNetwork, PollNetwork =>
      Some (if watched (sh s) =? seen (wt s) then on_wt (goes PollCommand) s
            else on_wt (fun x => goes Networking (with_seen (watched (sh s)) x)) s)
  | SelectCommand opened, PollCommand =>
      match command_queue (sh s) with
      | [] => Some (on_wt (goes Parked) s)
      | (r, id) :: q =>
          let s := on_sh (with_queue q) s in
          Some (match r with
                | ReqStart => on_wt (goes (StartCheck id)) s
                | ReqAsk _ =>
                    on_wt (fun x => goes PollStop (with_tasks ({| owes := Some id; calling := false |} :: tasks x) x)) s
                | ReqSetFd =>
                    if running (wt s) || negb (tun_config (sh s)) then replies_to id refused_fd s
                    else match opened with
                         | Ok tt => replies_to id succeeded (on_wt with_fd_device (on_sh with_queue_disabled s))
                         | Err e => replies_to id (inr e) s
                         | Panic => on_wt with_panic s
                         end
                end)
      end
  | WakeUp, Parked =>
      if stop_token (sh s) || negb (watched (sh s) =? seen (wt s)) ||
         match command_queue (sh s) with [] => false | _ => true end
      then Some (on_wt (goes PollStop) s) else None
  | NetworkDone ok, Networking =>
      if worker_calling (wt s) then None
      else Some (on_wt (if ok then goes PollStop else with_panic) s)
  | CheckStart, StartCheck id =>
      Some (if negb (Bool.eqb (tun_config (sh s)) (has_device (device (wt s)))) then replies_to id refused_packets s
            else if negb (negb (started_flag (sh s)) && negb (stop_token (sh s))) then replies_to id refused_twice s
            else on_wt (goes (Starting id)) (on_sh (with_started true) s))
  | StartDone r, Starting id =>
      if worker_calling (wt s) then None
      else Some (match r with
                 | Ok tt => replies_to id succeeded (on_wt (core_started id) s)
                 | Err e => replies_to id (inr e) (on_sh (fun x => with_started false (with_stop x)) s)
                 | Panic => on_wt with_panic s
                 end)
  | LeaveLoop, Leaving => Some (on_wt (goes (if running (wt s) then ShuttingDown else DroppingRuntime)) s)
  | CoreShutdown, ShuttingDown =>
      Some (on_wt (fun x => goes DroppingRuntime (with_running false x))
              (on_sh (fun x => with_started false (with_stop x)) s))
  | Unwind, Unwinding =>
      let s' := on_wt (fun x => goes DroppingRuntime (with_running false x)) s in
      Some (if running (wt s) then on_sh with_stop s' else s')
  | AbortTask j, DroppingRuntime =>
      match nth_error (tasks (wt s)) j with
      | Some t => if calling t then None else Some (on_wt (fun x => with_tasks (remove_nth j (tasks x)) x) s)
      | None => None
      end
  | Finish, DroppingRuntime =>
      match tasks (wt s) with
      | [] => Some (on_wt (goes Ended) (on_sh (with_queue []) s))
      | _ => None
      end
  | _, _ => None
  end.

Definition set_calling (b : bool) (t : task) : task := {| owes := owes t; calling := b |}.

Definition task_step (a : clabel) (s : cstate) : option cstate :=
  match a with
  | WorkerCall =>
      match at_ (wt s) with
      | Networking | Starting _ =>
          if worker_calling (wt s) then None else Some (on_wt (with_worker_calling true) s)
      | _ => None
      end
  | WorkerReturn => if worker_calling (wt s) then Some (on_wt (with_worker_calling false) s) else None
  | Spawn =>
      match at_ (wt s) with
      | DroppingRuntime | Ended => None
      | _ => Some (on_wt (fun x => with_tasks ({| owes := None; calling := false |} :: tasks x) x) s)
      end
  | TaskCall j =>
      match nth_error (tasks (wt s)) j with
      | Some t => if calling t then None
                  else Some (on_wt (fun x => with_tasks (set_nth j (set_calling true t) (tasks x)) x) s)
      | None => None
      end
  | TaskReturn j =>
      match nth_error (tasks (wt s)) j with
      | Some t => if calling t
                  then Some (on_wt (fun x => with_tasks (set_nth j (set_calling false t) (tasks x)) x) s)
                  else None
      | None => None
      end
  | TaskDone j a =>
      match nth_error (tasks (wt s)) j with
      | Some t =>
          match owes t with
          | Some id =>
              if calling t then None
              else
                let s := on_wt (fun x => with_tasks (remove_nth j (tasks x)) x) s in
                Some (match a with Some a => on_sh (with_reply id a) s | None => s end)
          | None => None
          end
      | None => None
      end
  | TaskEnds j =>
      match nth_error (tasks (wt s)) j with
      | Some t =>
          match owes t with
          | Some _ => None
          | None => if calling t then None else Some (on_wt (fun x => with_tasks (remove_nth j (tasks x)) x) s)
          end
      | None => None
      end
  | TaskCancels j =>
      match nth_error (tasks (wt s)) j with Some _ => Some (on_sh with_stop s) | None => None end
  | _ => None
  end.

Definition cstep (a : clabel) (s : cstate) : option cstate :=
  match a with
  | Call _ _ | TrySend _ | Receive _ | Disconnected _ | Timeout _ | CallNetwork _ | SendModify _
  | CallShutdown _ | LockWorker _ | Join _ => caller_step a s
  | WorkerCall | WorkerReturn | Spawn | TaskCall _ | TaskReturn _ | TaskDone _ _
  | TaskEnds _ | TaskCancels _ => task_step a s
  | _ => worker_step a s
  end.

Definition creachable (tun : bool) (n : nat) (s : cstate) : Prop := reaches cstep (cinitial tun n) s.

(** Host callbacks under way. *)
Definition callbacks (s : cstate) : bool := worker_calling (wt s) || existsb calling (tasks (wt s)).

(** ** Case analysis on a step *)

Arguments lit : simpl never.

(** All the ways in which [E : cstep a s = Some s'] can hold. *)
Ltac step_cases E :=
  repeat (match type of E with
          | context [match ?x with _ => _ end] => destruct x eqn:?; try discriminate E
          end);
  try (injection E as <-).

Ltac fields :=
  cbn [sh wt ho on_sh on_wt on_ho gives_up replies_to with_stop with_started with_queue with_watched with_queue_disabled
    with_reply goes with_running core_started with_fd_device with_worker_calling with_seen with_tasks with_panic
    moves returns sends takes_handle releases stop_token started_flag tun_config command_queue watched
    queue_enabled replies at_ running device worker_calling seen tasks panicked handled started_by callers
    join_handle holder next_id issued results] in *.

(** ** The core starts at most once *)

Definition in_core (p : worker_position) : bool := match p with Networking | Starting _ => true | _ => false end.

Record start_inv (s : cstate) : Prop := {
  si_calling : worker_calling (wt s) = true -> in_core (at_ (wt s)) = true;
  si_once : (length (started_by (wt s)) <= 1)%nat;
  si_running : running (wt s) = true -> started_by (wt s) <> [];
  si_flag : started_by (wt s) <> [] -> started_flag (sh s) || stop_token (sh s) = true;
  si_starting : match at_ (wt s) with Starting _ => started_by (wt s) = [] /\
                  started_flag (sh s) || stop_token (sh s) = true | _ => True end;
  si_ended : at_ (wt s) = Ended -> tasks (wt s) = [] /\ command_queue (sh s) = [];
  si_shut : match at_ (wt s) with Leaving | ShuttingDown => stop_token (sh s) = true
            | DroppingRuntime | Ended => running (wt s) = false
            | _ => True end }.

Lemma start_inv_initial tun n : start_inv (cinitial tun n).
Proof. split; cbn; try easy. lia. Qed.

Lemma start_inv_step a s s' : start_inv s -> cstep a s = Some s' -> start_inv s'.
Proof.
  intros [I1 I2 I3 I4 I5 I6 I7] E.
  destruct s as [[st fl tu q wv qe rp] [p rn dv wc sn ts pn hd sb] [cl jh hl ni iss rs]].
  destruct a; cbn [cstep caller_step worker_step task_step] in E; unfold gives_up, replies_to in E; fields.
  all: step_cases E; fields; subst; split; fields; intuition (try congruence; try discriminate).
  all: rewrite ?orb_true_r; try reflexivity; try (destruct p; intuition congruence).
  all: try (subst p; discriminate); try (subst ts; now destruct j).
  - destruct sb; [reflexivity|]. destruct fl, st; try discriminate; now discriminate I4.
  - subst sb. cbn. lia.
Qed.
