(* ===== verification/WorkerInv.v ===== *)
(** * What holds of a handle and its threads at all times

    The invariants of the steps of [Worker], and the theorems that follow from
    them: shutting down joins the worker and every callback, answers go to the
    call that asked, the core is started once, and what a start leaves behind. *)
From S2P Require Import Prelude Transition CMemory CApi ConfigCrypto Host Worker.
From Stdlib Require Import String ZArith List Lia Bool.
Import ListNotations.
Open Scope Z_scope.

Lemma creachable_start tun n s : creachable tun n s -> start_inv s.
Proof. apply reaches_invariant; [exact start_inv_step|apply start_inv_initial]. Qed.

(** ** Joining *)

Record join_inv (s : cstate) : Prop := {
  ji_stop : forall i c, nth_error (callers (ho s)) i = Some c -> c = AtMutex \/ c = Joining ->
    stop_token (sh s) = true;
  ji_joining : forall i, nth_error (callers (ho s)) i = Some Joining -> holder (ho s) = Some i;
  ji_holder : forall i, holder (ho s) = Some i ->
    nth_error (callers (ho s)) i = Some Joining /\ join_handle (ho s) = false;
  ji_ended : join_handle (ho s) = false -> holder (ho s) = None -> at_ (wt s) = Ended;
  ji_results : forall i b, In (i, ShutDown b) (results (ho s)) -> at_ (wt s) = Ended }.

Lemma nth_repeat_outside n i c : nth_error (repeat Outside n) i = Some c -> c = Outside.
Proof. intros H. apply nth_error_In in H. now apply repeat_spec in H. Qed.

Lemma join_inv_initial tun n : join_inv (cinitial tun n).
Proof.
  split; cbn; try easy.
  - intros i c H [->| ->]; apply nth_repeat_outside in H; discriminate.
  - intros i H. apply nth_repeat_outside in H. discriminate.
Qed.

(** Steps of the worker and of tasks leave the host threads alone; no step
    takes back a cancellation or revives a worker that has ended. *)
Lemma thread_frame a s s' : cstep a s = Some s' ->
  (stop_token (sh s) = true -> stop_token (sh s') = true) /\
  (at_ (wt s) = Ended -> at_ (wt s') = Ended) /\
  (caller_step a s = None -> ho s' = ho s).
Proof.
  intros E. destruct s as [[st fl tu q wv qe rp] [p rn dv wc sn ts pn hd sb] [cl jh hl ni iss rs]].
  destruct a; cbn [cstep] in E.
  1-10: rewrite E; split; [|split; [|discriminate]].
  all: cbn [caller_step worker_step task_step] in *; unfold gives_up, replies_to in *; fields.
  all: step_cases E; fields; subst; try (repeat split; congruence); auto.
Qed.

(** The caller of a step against the others. *)
Ltac other_callers :=
  repeat match goal with
    | H : nth_error ?l ?i = Some ?c, K : context [nth_error (set_nth ?i ?x ?l) ?j] |- _ =>
        rewrite (nth_set_nth i j x c l H) in K; destruct (Nat.eqb_spec j i); [subst j|]
    | H : nth_error ?l ?i = Some ?c |- context [nth_error (set_nth ?i ?x ?l) ?j] =>
        rewrite (nth_set_nth i j x c l H); destruct (Nat.eqb_spec j i); [subst j|]
    end.

Lemma join_inv_sh f s : (stop_token (sh s) = true -> stop_token (f (sh s)) = true) ->
  join_inv s -> join_inv (on_sh f s).
Proof. intros H [I1 I2 I3 I4 I5]. split; fields; eauto. Qed.

(** A caller that is not joining moves on. *)
Lemma join_inv_caller i c c' s rs :
  nth_error (callers (ho s)) i = Some c -> c <> Joining -> c' <> Joining ->
  (c' = AtMutex -> stop_token (sh s) = true) ->
  (forall j b, In (j, ShutDown b) rs -> at_ (wt s) = Ended) ->
  forall ni iss, join_inv s ->
  join_inv {| sh := sh s; wt := wt s;
    ho := {| callers := set_nth i c' (callers (ho s)); join_handle := join_handle (ho s); holder := holder (ho s);
             next_id := ni; issued := iss; results := rs |} |}.
Proof.
  intros N C C' S R ni iss [I1 I2 I3 I4 I5]. split; fields; intros; other_callers; eauto; try congruence.
  - injection H as <-. destruct H0; [auto|contradiction].
  - destruct (I3 _ H). congruence.
Qed.

Lemma join_inv_returns i c r s : nth_error (callers (ho s)) i = Some c -> c <> Joining ->
  (forall b, r = ShutDown b -> at_ (wt s) = Ended) -> join_inv s -> join_inv (on_ho (returns i r) s).
Proof.
  intros N C R I. apply (join_inv_caller i c Outside); try easy.
  intros j b [H|H]; [injection H as -> ->; eauto|]. exact (ji_results _ I _ _ H).
Qed.

Lemma join_inv_moves i c c' s : nth_error (callers (ho s)) i = Some c -> c <> Joining -> c' <> Joining ->
  (c' = AtMutex -> stop_token (sh s) = true) -> join_inv s -> join_inv (on_ho (moves i c') s).
Proof. intros N C C' S I. apply (join_inv_caller i c c'); auto. exact (ji_results _ I). Qed.

Lemma join_inv_step a s s' : join_inv s -> cstep a s = Some s' -> join_inv s'.
Proof.
  intros I E. destruct (thread_frame _ _ _ E) as (F1 & F2 & F3).
  destruct (caller_step a s) as [s1|] eqn:C.
  2: { destruct I as [I1 I2 I3 I4 I5]. pose proof (F3 eq_refl) as F. split; rewrite F; eauto. }
  assert (s1 = s') as -> by (destruct a; cbn [cstep] in E; congruence || discriminate C).
  clear E F3. destruct a; cbn [caller_step] in C; unfold gives_up in C; try discriminate; step_cases C.
  all: try (eapply join_inv_returns; [eassumption|discriminate|discriminate|assumption]).
  all: try (eapply join_inv_moves; [eassumption|discriminate|discriminate|discriminate|assumption]).
  all: clear F1 F2.
  - apply (join_inv_caller i (Checked r) _ (on_sh _ s)); try easy; [exact (ji_results _ I)|].
    now apply join_inv_sh.
  - apply join_inv_sh; [easy|]. eapply join_inv_returns; [eassumption|easy..].
  - apply join_inv_sh; [easy|]. eapply join_inv_returns; [eassumption|easy..].
  - eapply join_inv_returns; [eassumption|easy..|]. now apply join_inv_sh.
  - eapply join_inv_moves; [eassumption|easy..|]. now apply join_inv_sh.
  - destruct I as [I1 I2 I3 I4 I5]. split; fields; intros; other_callers; eauto; try congruence.
    apply I2 in H. congruence.
  - eapply join_inv_returns; [eassumption|easy| |exact I]. intros b _. now apply (ji_ended _ I).
  - destruct I as [I1 I2 I3 I4 I5]. split; fields; intros; other_callers; eauto; try congruence.
    apply I2 in H, Heqo. congruence.
Qed.

Lemma creachable_join tun n s : creachable tun n s -> join_inv s.
Proof. apply reaches_invariant; [exact join_inv_step|apply join_inv_initial]. Qed.

(** C3: When a shutdown (stop, destroy, or the last reference to the handle)
    has returned to any host thread, the worker has ended, no task of its
    runtime is left and no host callback is running, and none runs ever again,
    whatever the other threads do. *)
Theorem shutdown_joins_callbacks tun n s i b s' :
  creachable tun n s -> In (i, ShutDown b) (results (ho s)) -> reaches cstep s s' ->
  at_ (wt s') = Ended /\ tasks (wt s') = [] /\ callbacks s' = false.
Proof.
  intros R H R'. pose proof (ji_results _ (creachable_join _ _ _ R) _ _ H) as E.
  assert (E' : at_ (wt s') = Ended).
  { apply (reaches_invariant cstep (fun x => at_ (wt x) = Ended) s s'); [|exact E|exact R'].
    intros a x y Ex Es. now apply (thread_frame a x y Es). }
  pose proof (creachable_start _ _ _ (reaches_trans _ _ _ _ R R')) as I.
  destruct (si_ended _ I E') as [T _]. split; [exact E'|]. split; [exact T|].
  unfold callbacks. rewrite T. destruct (worker_calling (wt s')) eqn:W; [|reflexivity].
  apply (si_calling _ I) in W. now rewrite E' in W.
Qed.

(** ** Whose reply it is *)

(** How often a command number is owed or answered. *)
Definition occurs (x : nat) (l : list nat) : nat := count_occ Nat.eq_dec l x.
Definition live (s : cstate) : list nat := owed s ++ map fst (replies (sh s)).

Lemma occurs_app x l l' : occurs x (l ++ l') = (occurs x l + occurs x l')%nat.
Proof. apply count_occ_app. Qed.

Lemma occurs_cons x y l : occurs x (y :: l) = ((if Nat.eq_dec y x then 1 else 0) + occurs x l)%nat.
Proof. unfold occurs. cbn [count_occ]. now destruct (Nat.eq_dec y x). Qed.

Lemma occurs_remove x j t ts : nth_error ts j = Some t ->
  occurs x (flat_map task_owes ts) = (occurs x (task_owes t) + occurs x (flat_map task_owes (remove_nth j ts)))%nat.
Proof.
  revert j. induction ts as [|u ts IH]; intros [|j] H; try discriminate; cbn [flat_map remove_nth] in *.
  - injection H as ->. apply occurs_app.
  - rewrite !occurs_app, (IH _ H). lia.
Qed.

Lemma flat_map_same {A B} (f : A -> list B) j t u ts : nth_error ts j = Some t -> f u = f t ->
  flat_map f (set_nth j u ts) = flat_map f ts.
Proof.
  revert j. induction ts as [|v ts IH]; intros [|j] H E; try discriminate; cbn [flat_map set_nth] in *.
  - injection H as ->. now rewrite E.
  - now rewrite (IH _ H E).
Qed.

Ltac counting :=
  unfold live, owed; fields; intros x; cbn [position_owes map fst snd flat_map task_owes owes app];
  repeat first [rewrite occurs_app | rewrite occurs_cons | rewrite map_app | progress cbn [map fst snd occurs count_occ]];
  try lia.

Lemma live_step a s s' : cstep a s = Some s' -> forall x,
  (occurs x (live s') <= occurs x (live s) +
     match a with TrySend _ => if Nat.eq_dec (next_id (ho s)) x then 1 else 0 | _ => 0 end)%nat.
Proof.
  intros E. destruct s as [[st fl tu q wv qe rp] [p rn dv wc sn ts pn hd sb] [cl jh hl ni iss rs]].
  destruct a; cbn [cstep caller_step worker_step task_step] in E; unfold gives_up, replies_to in E; fields.
  all: step_cases E; fields; subst; try (counting; fail).
  - counting. rewrite (occurs_remove x _ _ _ Heqo). lia.
  - counting. rewrite (flat_map_same _ _ _ _ _ Heqo); [lia|reflexivity].
  - counting. rewrite (flat_map_same _ _ _ _ _ Heqo); [lia|reflexivity].
  - counting. rewrite (occurs_remove x _ _ _ Heqo). unfold task_owes at 2. rewrite Heqo0, occurs_cons. lia.
  - counting. rewrite (occurs_remove x _ _ _ Heqo). lia.
  - counting. rewrite (occurs_remove x _ _ _ Heqo). lia.
Qed.

Record id_inv (s : cstate) : Prop := {
  di_fresh : forall id x, In (id, x) (issued (ho s)) -> (id < next_id (ho s))%nat;
  di_unique : forall id x y, In (id, x) (issued (ho s)) -> In (id, y) (issued (ho s)) -> x = y;
  di_once : forall x, (occurs x (live s) <= 1)%nat;
  di_known : forall x, (next_id (ho s) <= x)%nat -> occurs x (live s) = 0%nat;
  di_queue : forall r id, In (r, id) (command_queue (sh s)) -> exists i, In (id, (i, r)) (issued (ho s));
  di_start : forall id, In id (position_owes (at_ (wt s))) -> exists i, In (id, (i, ReqStart)) (issued (ho s));
  di_task : forall t id, In t (tasks (wt s)) -> owes t = Some id ->
    exists i q, In (id, (i, ReqAsk q)) (issued (ho s));
  di_done : forall id i v, In (id, inl v) (replies (sh s)) -> In (id, (i, ReqStart)) (issued (ho s)) ->
    In id (started_by (wt s));
  di_waiting : forall i r id, nth_error (callers (ho s)) i = Some (Waiting r id) -> In (id, (i, r)) (issued (ho s));
  di_results : forall i id r a, In (i, GotAnswer id r a) (results (ho s)) ->
    In (id, a) (replies (sh s)) /\ In (id, (i, r)) (issued (ho s)) }.

Lemma id_inv_initial tun n : id_inv (cinitial tun n).
Proof.
  split; cbn; try easy; try lia.
  intros i r id H. apply nth_repeat_outside in H. discriminate.
Qed.

Lemma reply_of_in id l a : reply_of id l = Some a -> In (id, a) l.
Proof.
  induction l as [|[k b] l IH]; [discriminate|]. cbn [reply_of].
  destruct (Nat.eqb_spec k id) as [->|]; [intros [= ->]; now left|]. intros H. right. auto.
Qed.

Lemma remove_nth_in {A} j (x : A) l : In x (remove_nth j l) -> In x l.
Proof.
  revert j. induction l as [|y l IH]; intros [|j] H; cbn [remove_nth] in *; auto; [now right|].
  destruct H as [->|H]; [now left|right; eauto].
Qed.

Lemma set_nth_in_inv {A} j (x y : A) l : In y (set_nth j x l) -> y = x \/ In y l.
Proof.
  revert j. induction l as [|z l IH]; intros [|j] H; cbn [set_nth] in *; auto.
  - destruct H as [->|H]; auto. right. now right.
  - destruct H as [->|H]; [right; now left|]. destruct (IH _ H); auto. right. now right.
Qed.

Lemma live_inv_step a s s' : id_inv s -> cstep a s = Some s' ->
  (forall x, (occurs x (live s') <= 1)%nat) /\
  forall x, (next_id (ho s') <= x)%nat -> occurs x (live s') = 0%nat.
Proof.
  intros I E. pose proof (live_step _ _ _ E) as L. pose proof (di_once _ I) as I3. pose proof (di_known _ I) as I4.
  assert (N : match a with
              | TrySend _ => next_id (ho s') = S (next_id (ho s)) \/ live s' = live s /\ next_id (ho s') = next_id (ho s)
              | _ => next_id (ho s') = next_id (ho s)
              end).
  { destruct a; cbn [cstep caller_step worker_step task_step] in E; unfold gives_up, replies_to in E;
      step_cases E; auto. }
  clear E. destruct a; try (rewrite N; split; intros x; specialize (L x); specialize (I3 x);
    [lia|intros Hx; specialize (I4 x Hx); lia]).
  destruct N as [N|[-> N]]; rewrite N; [|now split].
  split; intros x; specialize (L x); specialize (I3 x); [|intros Hx];
    destruct (Nat.eq_dec (next_id (ho s)) x) as [<-|]; try lia.
  - rewrite I4 in L by lia. lia.
  - rewrite I4 in L by lia. lia.
Qed.

(** A command number that is answered has been given out. *)
Lemma replied_known s id a : id_inv s -> In (id, a) (replies (sh s)) -> (id < next_id (ho s))%nat.
Proof.
  intros I H. destruct (Nat.lt_ge_cases id (next_id (ho s))) as [|Hx]; [assumption|].
  pose proof (di_known _ I _ Hx) as O. unfold live in O. rewrite occurs_app in O.
  apply (in_map fst) in H. cbn [fst] in H. apply (count_occ_In Nat.eq_dec) in H. unfold occurs in O. lia.
Qed.

Lemma id_inv_step a s s' : id_inv s -> cstep a s = Some s' -> id_inv s'.
Proof.
  intros I E. destruct (live_inv_step _ _ _ I E) as [J3 J4]. pose proof (fun id a => replied_known s id a I) as J5.
  destruct I as [I1 I2 _ _ I5 I6 I7 I8 I9 I10].
  destruct s as [[st fl tu q wv qe rp] [p rn dv wc sn ts pn hd sb] [cl jh hl ni iss rs]].
  destruct a; cbn [cstep caller_step worker_step task_step] in E; unfold gives_up, replies_to in E; fields.
  all: step_cases E; fields; subst; (split; [..|exact J3|exact J4| | | | | |]; clear J3 J4; fields; intros;
     other_callers; try congruence; eauto).
  all: cbn [In position_owes] in *; rewrite ?in_app_iff in *; cbn [In] in *.
  all: repeat match goal with
    | H : _ \/ _ |- _ => destruct H
    | H : False |- _ => destruct H
    | H : (_, _) = (_, _) |- _ => injection H; clear H; intros; subst
    | H : GotAnswer _ _ _ = GotAnswer _ _ _ |- _ => injection H; clear H; intros; subst
    | H : {| owes := _; calling := _ |} = ?t |- _ => subst t; cbn [owes] in *
    | H : Some _ = Some _ |- _ => injection H; clear H; intros; subst
    end; try congruence; eauto using reply_of_in.
  all: try (match goal with H : In (_, GotAnswer _ _ _) _ |- _ => destruct (I10 _ _ _ _ H) as [? ?]; auto end).
  all: try (unfold refused_fd, refused_packets, refused_twice in *; discriminate).
  all: try (eapply I7; [eapply remove_nth_in; eassumption|eassumption]).
  all: try (match goal with H : In _ (set_nth _ _ _) |- _ => destruct (set_nth_in_inv _ _ _ _ H) as [->|] end;
    [eapply I7; [eapply nth_error_In; eassumption|eassumption]|eauto]).
  - specialize (I1 _ _ H). lia.
  - specialize (I1 _ _ H). lia.
  - specialize (I1 _ _ H0). lia.
  - destruct (I5 _ _ H). eauto.
  - destruct (I6 _ H). eauto.
  - destruct (I7 _ _ H H0) as (? & ? & ?). eauto.
  - specialize (J5 _ _ H). lia.
  - destruct (I5 ReqSetFd id) as [? A]; [now left|]. now pose proof (I2 _ _ _ H0 A).
  - destruct (I5 _ _ (or_introl eq_refl)). eauto.
  - destruct (I7 _ _ (nth_error_In _ _ Heqo) Heqo0) as (? & ? & A). now pose proof (I2 _ _ _ H0 A).
Qed.

Lemma creachable_ids tun n s : creachable tun n s -> id_inv s.
Proof. apply reaches_invariant; [exact id_inv_step|apply id_inv_initial]. Qed.

Lemma occurs_unique_reply id (a b : answer) l : (occurs id (map fst l) <= 1)%nat -> In (id, a) l -> In (id, b) l -> a = b.
Proof.
  induction l as [|[k c] l IH]; [easy|]. cbn [map fst]. rewrite occurs_cons. intros H [Ha|Ha] [Hb|Hb].
  - congruence.
  - injection Ha as -> ->. destruct (Nat.eq_dec id id); [|easy]. apply (in_map fst) in Hb.
    apply (count_occ_In Nat.eq_dec) in Hb. unfold occurs in H. cbn [fst] in Hb. lia.
  - injection Hb as -> ->. destruct (Nat.eq_dec id id); [|easy]. apply (in_map fst) in Ha.
    apply (count_occ_In Nat.eq_dec) in Ha. unfold occurs in H. cbn [fst] in Ha. lia.
  - apply IH; auto. lia.
Qed.

(** C12: Every answer a host thread receives is the one produced for the very
    command it sent: the command was sent by that thread with that request, was
    answered once, and its answer is the one received.  A start that was
    answered with success is the one success of the core's start, so at most one
    start call ever succeeds. *)
Theorem answers_reach_their_call tun n s i id r a :
  creachable tun n s -> In (i, GotAnswer id r a) (results (ho s)) ->
  In (id, (i, r)) (issued (ho s)) /\ In (id, a) (replies (sh s)) /\
  (forall x, In (id, x) (issued (ho s)) -> x = (i, r)) /\
  (forall b, In (id, b) (replies (sh s)) -> b = a) /\
  (r = ReqStart -> (exists v, a = inl v) -> started_by (wt s) = [id]).
Proof.
  intros R H. pose proof (creachable_ids _ _ _ R) as I. destruct (di_results _ I _ _ _ _ H) as [Ha Hi].
  split; [exact Hi|]. split; [exact Ha|]. split; [intros x Hx; exact (di_unique _ I _ _ _ Hx Hi)|]. split.
  - intros b Hb. apply (occurs_unique_reply id b a (replies (sh s))); auto.
    pose proof (di_once _ I id) as O. unfold live in O. rewrite occurs_app in O. lia.
  - intros -> [v ->]. pose proof (di_done _ I _ _ _ Ha Hi) as D. pose proof (si_once _ (creachable_start _ _ _ R)) as O.
    destruct (started_by (wt s)) as [|x [|y l]]; [easy| |cbn in O; lia]. destruct D as [->|[]]. reflexivity.
Qed.

(** ** What a call leaves behind *)

Record outcome_inv (s : cstate) : Prop := {
  oi_reply : forall id i e, In (id, inr e) (replies (sh s)) -> In (id, (i, ReqStart)) (issued (ho s)) ->
    stop_token (sh s) = true \/ inr e = refused_packets \/ inr e = refused_twice;
  oi_silent : forall i id r, In (i, NoAnswer id) (results (ho s)) -> In (id, (i, r)) (issued (ho s)) ->
    needs_token r = true -> stop_token (sh s) = true;
  oi_given : forall i id, In (i, NoAnswer id) (results (ho s)) -> exists r, In (id, (i, r)) (issued (ho s));
  oi_running : started_by (wt s) <> [] -> running (wt s) = true \/ stop_token (sh s) = true }.

Lemma outcome_inv_initial tun n : outcome_inv (cinitial tun n).
Proof. now split. Qed.

Lemma outcome_inv_step a s s' : id_inv s -> start_inv s -> outcome_inv s -> cstep a s = Some s' -> outcome_inv s'.
Proof.
  intros D S [I1 I2 I3 I4] E. pose proof (fun id a => replied_known s id a D) as K.
  pose proof (fun id x => di_fresh s D id x) as F. pose proof (di_unique _ D) as U. pose proof (di_queue _ D) as Q.
  pose proof (di_task _ D) as T. pose proof (di_waiting _ D) as W. pose proof (si_shut _ S) as B. clear D S.
  destruct s as [[st fl tu q wv qe rp] [p rn dv wc sn ts pn hd sb] [cl jh hl ni iss rs]].
  destruct a; cbn [cstep caller_step worker_step task_step] in E; unfold gives_up, replies_to in E; fields.
  all: step_cases E; fields; subst; (split; fields; intros; other_callers; try congruence; eauto).
  all: cbn [In] in *.
  all: repeat match goal with
    | H : _ \/ _ |- _ => destruct H
    | H : False |- _ => destruct H
    | H : (_, _) = (_, _) |- _ => injection H; clear H; intros; subst
    | H : NoAnswer _ = NoAnswer _ |- _ => injection H; clear H; intros; subst
    end; try discriminate; try congruence; eauto.
  - specialize (K _ _ H). lia.
  - destruct (I3 _ _ H) as [x Hx]. specialize (F _ _ Hx). lia.
  - destruct (I3 _ _ H). eauto.
  - specialize (U _ _ _ H0 (W _ _ _ Heqo)). congruence.
  - specialize (U _ _ _ H0 (W _ _ _ Heqo)). congruence.
  - destruct (Q ReqSetFd id (or_introl eq_refl)) as [? A]. now pose proof (U _ _ _ H0 A).
  - destruct (Q ReqSetFd id (or_introl eq_refl)) as [? A]. now pose proof (U _ _ _ H0 A).
  - destruct (T _ _ (nth_error_In _ _ Heqo) Heqo0) as (? & ? & A). now pose proof (U _ _ _ H0 A).
Qed.

Lemma creachable_outcome tun n s : creachable tun n s -> outcome_inv s.
Proof.
  intros R. cut (id_inv s /\ start_inv s /\ outcome_inv s); [tauto|].
  apply (reaches_invariant cstep (fun x => id_inv x /\ start_inv x /\ outcome_inv x) (cinitial tun n) s); [| |exact R].
  - intros a x y (D & S & O) E.
    refine (conj _ (conj _ _)); eauto using id_inv_step, start_inv_step, outcome_inv_step.
  - refine (conj _ (conj _ _)); auto using id_inv_initial, start_inv_initial, outcome_inv_initial.
Qed.

(** C14: What a start leaves behind.  When it succeeded, the core is running or
    has been cancelled since; when it failed inside the core, or got no answer
    in time, the core is cancelled; otherwise it was refused for one of the two
    documented reasons.  A descriptor call without an answer cancels the core as
    well. *)
Theorem start_outcome tun n s i id :
  creachable tun n s ->
  (forall v, In (i, GotAnswer id ReqStart (inl v)) (results (ho s)) ->
     running (wt s) = true \/ stop_token (sh s) = true) /\
  (forall e, In (i, GotAnswer id ReqStart (inr e)) (results (ho s)) ->
     stop_token (sh s) = true \/ inr e = refused_packets \/ inr e = refused_twice) /\
  (forall r, In (i, NoAnswer id) (results (ho s)) -> In (id, (i, r)) (issued (ho s)) ->
     needs_token r = true -> stop_token (sh s) = true).
Proof.
  intros R. pose proof (creachable_outcome _ _ _ R) as O. pose proof (creachable_ids _ _ _ R) as D.
  split; [|split].
  - intros v H. destruct (di_results _ D _ _ _ _ H) as [Ha Hi]. apply (oi_running _ O).
    pose proof (di_done _ D _ _ _ Ha Hi) as Hd. now destruct (started_by (wt s)).
  - intros e H. destruct (di_results _ D _ _ _ _ H) as [Ha Hi]. exact (oi_reply _ O _ _ _ Ha Hi).
  - intros r H Hi Hr. exact (oi_silent _ O _ _ _ H Hi Hr).
Qed.

(** ** Changes of network *)

Record network_inv (s : cstate) : Prop := {
  ni_handled : 0 <= handled (wt s) <= seen (wt s);
  ni_seen : seen (wt s) <= watched (sh s);
  ni_noted : watched (sh s) = zlength (filter (fun e => match snd e with NetworkNoted => true | _ => false end)
                                         (results (ho s))) }.

Lemma network_inv_step a s s' : network_inv s -> cstep a s = Some s' -> network_inv s'.
Proof.
  intros [I1 I2 I3] E.
  destruct s as [[st fl tu q wv qe rp] [p rn dv wc sn ts pn hd sb] [cl jh hl ni iss rs]].
  destruct a; cbn [cstep caller_step worker_step task_step] in E; unfold gives_up, replies_to in E; fields.
  all: step_cases E; fields; subst; bsplit; split; fields; cbn [filter snd]; rewrite ?zlength_cons; lia.
Qed.

Lemma creachable_network tun n s : creachable tun n s -> network_inv s.
Proof. apply reaches_invariant; [exact network_inv_step|]. split; cbn; lia. Qed.
