(* ===== verification/WorkerEnds.v ===== *)
(** * Every call on a handle comes to an end

    The steps of [Worker] that are under way without anybody calling anything
    new always finish: nobody waits for ever, not even without the timeouts, and
    a cancelled core's worker ends.  Network changes are handled, and those made
    in quick succession are handled together. *)
From S2P Require Import Prelude Transition CMemory CApi ConfigCrypto Host Worker WorkerInv.
From Stdlib Require Import String ZArith List Lia Bool.
Import ListNotations.
Open Scope Z_scope.

(** ** The steps under way *)

(** New calls, new tasks, new callbacks, a core that stops by itself, a task of
    the core that ends by itself (its loops run until the token is cancelled)
    and the passing of a timeout are not. *)
Definition cinternal (a : clabel) : bool :=
  match a with
  | Call _ _ | Timeout _ | CallNetwork _ | CallShutdown _ | WorkerCall | Spawn | TaskCall _
  | TaskEnds _ | TaskCancels _ => false
  | _ => true
  end.

(** Nothing is under way: no host thread is inside a call, no callback runs, no
    reply is owed, the command queue is empty, and the worker has ended, with all
    tasks gone, or waits, with no cancellation and no unhandled change of
    network; the tasks of a core that is not cancelled go on. *)
Definition at_rest (s : cstate) : Prop :=
  Forall (fun c => c = Outside) (callers (ho s)) /\ callbacks s = false /\ owed s = [] /\
  command_queue (sh s) = [] /\
  (at_ (wt s) = Ended /\ tasks (wt s) = [] \/
   at_ (wt s) = Parked /\ stop_token (sh s) = false /\ seen (wt s) = watched (sh s)).

(** ** The weight *)

Definition changed (s : cstate) : bool := negb (watched (sh s) =? seen (wt s)).
Definition pending_work (s : cstate) : bool :=
  stop_token (sh s) || changed s || match command_queue (sh s) with [] => false | _ => true end.

Definition caller_weight (c : caller) : Z :=
  match c with
  | Outside => 0 | Checked _ | CheckedNetwork => 30 | Waiting _ _ | Joining => 1 | AtMutex => 2
  end.

Definition task_weight (t : task) : Z := if calling t then 2 else 1.

(** Going round the loop costs nothing but what is pending when it parks. *)
Definition position_weight (s : cstate) : Z :=
  match at_ (wt s) with
  | PollStop => 23
  | PollNetwork => if stop_token (sh s) then 26 else 22
  | PollCommand => if stop_token (sh s) || changed s then 25 else 21
  | Parked => if pending_work s then 24 else 20
  | Networking | Starting _ => 24
  | StartCheck _ => 25
  | Leaving | Unwinding => 4
  | ShuttingDown => 3
  | DroppingRuntime => 2
  | Ended => 0
  end.

Definition cweight (s : cstate) : Z :=
  position_weight s + (if stop_token (sh s) then 0 else 10) + (if changed s then 10 else 0) +
  10 * zlength (command_queue (sh s)) + total task_weight (tasks (wt s)) +
  (if worker_calling (wt s) then 1 else 0) + total caller_weight (callers (ho s)).

Lemma task_weight_pos t : 0 <= task_weight t.
Proof. unfold task_weight. destruct (calling t); lia. Qed.

Lemma cweight_nonneg s : 0 <= cweight s.
Proof.
  unfold cweight. pose proof (zlength_nonneg (command_queue (sh s))).
  pose proof (total_nonneg task_weight (tasks (wt s)) task_weight_pos).
  assert (0 <= total caller_weight (callers (ho s))) by (apply total_nonneg; now intros []).
  assert (0 <= position_weight s).
  { unfold position_weight. destruct (at_ (wt s)), (stop_token (sh s)), (changed s), (pending_work s); cbn [orb]; lia. }
  destruct (stop_token (sh s)), (changed s), (worker_calling (wt s)); lia.
Qed.

Lemma total_remove {A} (f : A -> Z) j x l : nth_error l j = Some x ->
  total f (remove_nth j l) = total f l - f x.
Proof.
  revert j. induction l as [|y l IH]; intros [|j] H; try discriminate; cbn [remove_nth total].
  - injection H as ->. lia.
  - rewrite (IH _ H). lia.
Qed.

Lemma cweight_step a s s' : start_inv s -> cinternal a = true -> cstep a s = Some s' -> cweight s' < cweight s.
Proof.
  intros S Ha E. pose proof (si_shut _ S) as B. clear S.
  destruct s as [[st fl tu q wv qe rp] [p rn dv wc sn ts pn hd sb] [cl jh hl ni iss rs]].
  destruct a; try discriminate Ha; cbn [cstep caller_step worker_step task_step] in E;
    unfold gives_up, replies_to in E; fields.
  all: step_cases E; fields; subst; unfold cweight, position_weight, pending_work, changed; fields.
  all: repeat match goal with
    | H : nth_error ?l ?i = Some ?c |- context [total ?f (set_nth ?i ?x ?l)] => rewrite (total_set f i x c l H)
    | H : nth_error ?l ?i = Some ?c |- context [total ?f (remove_nth ?i ?l)] => rewrite (total_remove f i c l H)
    end; cbn [caller_weight total]; rewrite ?zlength_app, ?zlength_cons; change (@zlength (request * nat) []) with 0.
  all: try lia.
  all: try (unfold task_weight; cbn [set_calling calling]; repeat match goal with H : calling _ = _ |- _ => rewrite H end; lia).
  all: rewrite ?Z.eqb_refl; try change (task_weight {| owes := Some _; calling := false |}) with 1.
  all: try (destruct p); try lia.
  all: try (destruct st); try discriminate; destruct (wv =? sn) eqn:W; try discriminate;
    try (destruct (wv + 1 =? sn)); try (destruct q); cbn [orb negb app zlength length] in *; try discriminate;
    rewrite ?zlength_cons; try change (@zlength (request * nat) []) with 0; try lia.
  all: try (match goal with |- context [zlength ?l] => pose proof (zlength_nonneg l) end; lia).
Qed.

(** ** Progress *)

Definition can_step (s : cstate) : Prop := exists a s', cinternal a = true /\ cstep a s = Some s'.

Lemma can a s s' : cinternal a = true -> cstep a s = Some s' -> can_step s.
Proof. intros. now exists a, s'. Qed.

Lemma call_progress s j t : nth_error (tasks (wt s)) j = Some t -> calling t = true -> can_step s.
Proof. intros H B. eapply (can (TaskReturn j)); [reflexivity|]. cbn [cstep task_step]. now rewrite H, B. Qed.

(** While the runtime is dropped any task goes. *)
Lemma drop_progress s t ts : at_ (wt s) = DroppingRuntime -> tasks (wt s) = t :: ts -> can_step s.
Proof.
  intros A H. destruct (calling t) eqn:B.
  - apply (call_progress s 0 t); [now rewrite H|exact B].
  - eapply (can (AbortTask 0)); [reflexivity|]. cbn [cstep worker_step]. rewrite A, H. cbn [nth_error]. now rewrite B.
Qed.

(** Before that, a callback returns and a question is answered. *)
Lemma tasks_progress s :
  (existsb calling (tasks (wt s)) = false /\ flat_map task_owes (tasks (wt s)) = []) \/ can_step s.
Proof.
  destruct (existsb calling (tasks (wt s))) eqn:B.
  { right. apply existsb_exists in B as (t & Ht & B). apply In_nth_error in Ht as [j Hj].
    exact (call_progress s j t Hj B). }
  destruct (flat_map task_owes (tasks (wt s))) as [|id l] eqn:F; [now left|right].
  assert (I : In id (flat_map task_owes (tasks (wt s)))) by (rewrite F; now left).
  apply in_flat_map in I as (t & Ht & I). pose proof Ht as Hc. apply In_nth_error in Ht as [j Hj].
  assert (C : calling t = false).
  { destruct (calling t) eqn:C; [|reflexivity]. rewrite <- B. symmetry. apply existsb_exists. eauto. }
  unfold task_owes in I. destruct (owes t) as [i|] eqn:O; [|easy].
  eapply (can (TaskDone j (Some succeeded))); [reflexivity|]. cbn [cstep task_step]. now rewrite Hj, O, C.
Qed.

(** The worker can go on unless it has ended or waits for something to happen. *)
Lemma worker_progress s : at_ (wt s) = Ended \/ (at_ (wt s) = Parked /\ pending_work s = false) \/ can_step s.
Proof.
  destruct (worker_calling (wt s)) eqn:C.
  { right; right. eapply (can WorkerReturn); [reflexivity|]. cbn [cstep task_step]. now rewrite C. }
  destruct (at_ (wt s)) eqn:A; auto; lazymatch type of A with _ = Parked => idtac | _ => right; right end.
  - eapply (can SelectStop); [reflexivity|]. cbn [cstep worker_step]. now rewrite A.
  - eapply (can SelectNetwork); [reflexivity|]. cbn [cstep worker_step]. now rewrite A.
  - destruct (command_queue (sh s)) as [|[r id] q] eqn:Q; eapply (can (SelectCommand (Ok tt)));
      try reflexivity; cbn [cstep worker_step]; rewrite A, Q; reflexivity.
  - destruct (pending_work s) eqn:P; auto. right; right. eapply (can WakeUp); [reflexivity|].
    cbn [cstep worker_step]. rewrite A. unfold pending_work, changed in P. now rewrite P.
  - eapply (can (NetworkDone true)); [reflexivity|]. cbn [cstep worker_step]. now rewrite A, C.
  - eapply (can CheckStart); [reflexivity|]. cbn [cstep worker_step]. now rewrite A.
  - eapply (can (StartDone (Ok tt))); [reflexivity|]. cbn [cstep worker_step]. now rewrite A, C.
  - eapply (can LeaveLoop); [reflexivity|]. cbn [cstep worker_step]. now rewrite A.
  - eapply (can CoreShutdown); [reflexivity|]. cbn [cstep worker_step]. now rewrite A.
  - eapply (can Unwind); [reflexivity|]. cbn [cstep worker_step]. now rewrite A.
  - destruct (tasks (wt s)) as [|t ts] eqn:T; [|now apply (drop_progress s t ts)].
    eapply (can Finish); [reflexivity|]. cbn [cstep worker_step]. now rewrite A, T.
Qed.

(** A host thread inside a call can go on, once nobody owes it anything and the
    worker is not needed. *)
Lemma caller_progress s i c : join_inv s -> owed s = [] -> (at_ (wt s) = Ended \/ stop_token (sh s) = false) ->
  nth_error (callers (ho s)) i = Some c -> c <> Outside -> can_step s.
Proof.
  intros J O R N C. destruct c as [|r|r id| | |]; [easy|..].
  - eapply (can (TrySend i)); [reflexivity|]. cbn [cstep caller_step]. now rewrite N.
  - destruct (reply_of id (replies (sh s))) as [a|] eqn:E.
    + eapply (can (Receive i)); [reflexivity|]. cbn [cstep caller_step]. now rewrite N, E.
    + eapply (can (Disconnected i)); [reflexivity|]. cbn [cstep caller_step]. rewrite N, E, O.
      destruct (in_dec Nat.eq_dec id []) as [[]|]. reflexivity.
  - eapply (can (SendModify i)); [reflexivity|]. cbn [cstep caller_step]. now rewrite N.
  - destruct R as [R|R]; [|rewrite (ji_stop _ J i AtMutex N (or_introl eq_refl)) in R; discriminate].
    destruct (holder (ho s)) as [j|] eqn:H.
    + destruct (ji_holder _ J _ H) as [Nj _]. eapply (can (Join j)); [reflexivity|].
      cbn [cstep caller_step]. now rewrite Nj, R.
    + eapply (can (LockWorker i)); [reflexivity|]. cbn [cstep caller_step]. now rewrite N, H.
  - destruct R as [R|R]; [|rewrite (ji_stop _ J i Joining N (or_intror eq_refl)) in R; discriminate].
    eapply (can (Join i)); [reflexivity|]. cbn [cstep caller_step]. now rewrite N, R.
Qed.

Lemma callers_progress s : join_inv s -> owed s = [] -> (at_ (wt s) = Ended \/ stop_token (sh s) = false) ->
  Forall (fun c => c = Outside) (callers (ho s)) \/ can_step s.
Proof.
  intros J O R. assert (D : forall c, {c = Outside} + {c <> Outside}) by (intros []; [left|right..]; congruence).
  destruct (Forall_dec _ D (callers (ho s))) as [F|F]; [now left|right].
  apply neg_Forall_Exists_neg in F; [|exact D]. apply Exists_exists in F as (c & Hc & Hn).
  apply In_nth_error in Hc as [i Hi]. exact (caller_progress s i c J O R Hi Hn).
Qed.

Lemma worker_quiet s : start_inv s -> in_core (at_ (wt s)) = false -> worker_calling (wt s) = false.
Proof.
  intros S H. destruct (worker_calling (wt s)) eqn:W; [|reflexivity]. apply (si_calling _ S) in W. congruence.
Qed.

Lemma rest_or_step s : start_inv s -> join_inv s -> at_rest s \/ can_step s.
Proof.
  intros S J. destruct (worker_progress s) as [A|[[A P]|]]; [| |now right].
  - destruct (si_ended _ S A) as [T Q].
    assert (O : owed s = []) by (unfold owed; now rewrite Q, A, T).
    destruct (callers_progress s J O (or_introl A)) as [F|]; [left|now right].
    split; [exact F|]. split; [|auto 6]. unfold callbacks. rewrite T, worker_quiet; [reflexivity|exact S|now rewrite A].
  - destruct (tasks_progress s) as [[B T]|]; [|now right].
    unfold pending_work, changed in P. apply orb_false_iff in P as [P Q]. apply orb_false_iff in P as [P W].
    apply negb_false_iff in W. apply Z.eqb_eq in W. symmetry in W. destruct (command_queue (sh s)) eqn:E; [|discriminate].
    assert (O : owed s = []) by (unfold owed; now rewrite E, A, T).
    destruct (callers_progress s J O (or_intror P)) as [F|]; [left|now right].
    split; [exact F|]. split; [|auto 7]. unfold callbacks. rewrite B, worker_quiet; [reflexivity|exact S|now rewrite A].
Qed.

(** C4: Every call on a handle comes to an end, provided that the operations of
    the core that a call waits for (starting, shutting down, handling a change of
    network, a probe or a test) and the callbacks of the host return; the tasks
    of the core need not end.  From every state the steps under way, in any order
    and without any timeout, lead to rest: all host threads have returned, no
    callback runs, every command taken has been answered or dropped, and the
    worker waits for work with no change of network unhandled, or it has ended
    and no task is left; after a cancellation it has ended. *)
Theorem calls_come_to_an_end tun n s :
  creachable tun n s ->
  inevitable cstep cinternal (fun s' => at_rest s' /\ (stop_token (sh s) = true -> at_ (wt s') = Ended)) s.
Proof.
  intros R. apply (inevitable_by_weight cstep cinternal (fun x => start_inv x /\ join_inv x /\
    (stop_token (sh s) = true -> stop_token (sh x) = true)) _ cweight).
  - intros x _. apply cweight_nonneg.
  - intros x (S & J & T). destruct (rest_or_step x S J) as [Q|Q]; [left|now right].
    split; [exact Q|]. intros H. destruct Q as (_ & _ & _ & _ & [[E _]|(_ & N & _)]); [exact E|].
    rewrite (T H) in N. discriminate.
  - intros a x y (S & J & T) Ha E. split; [|exact (cweight_step _ _ _ S Ha E)].
    split; [exact (start_inv_step _ _ _ S E)|]. split; [exact (join_inv_step _ _ _ J E)|].
    intros H. apply (thread_frame _ _ _ E). auto.
  - split; [exact (creachable_start _ _ _ R)|]. split; [exact (creachable_join _ _ _ R)|]. auto.
Qed.

(** ** Changes of network in quick succession *)

Definition to_handle (s : cstate) : Z := handled (wt s) + (if changed s then 1 else 0).

Lemma to_handle_step a s s' : cstep a s = Some s' ->
  watched (sh s) <= watched (sh s') /\ handled (wt s) <= handled (wt s') /\
  to_handle s' <= to_handle s + (watched (sh s') - watched (sh s)).
Proof.
  intros E. unfold to_handle, changed.
  destruct s as [[st fl tu q wv qe rp] [p rn dv wc sn ts pn hd sb] [cl jh hl ni iss rs]].
  destruct a; cbn [cstep caller_step worker_step task_step] in E; unfold gives_up, replies_to in E; fields.
  all: step_cases E; fields; subst; rewrite ?Z.eqb_refl; try lia; destruct (wv =? sn) eqn:W; cbn [negb];
    try discriminate; try lia; destruct (wv + 1 =? sn); cbn [negb]; lia.
Qed.

(** C16: Changes of network made in quick succession are handled together.
    While no further change is noted, at most one more is handled however many
    were noted, and none when all noted before had been seen; over the whole
    life of a handle no more are handled than were noted. *)
Theorem network_changes_collapse tun n s s' :
  creachable tun n s -> reaches cstep s s' -> watched (sh s') = watched (sh s) ->
  handled (wt s) <= handled (wt s') <= handled (wt s) + 1 /\
  (seen (wt s) = watched (sh s) -> handled (wt s') = handled (wt s)) /\
  handled (wt s') <= zlength (filter (fun e => match snd e with NetworkNoted => true | _ => false end)
                                (results (ho s'))).
Proof.
  intros R R' W.
  assert (T : watched (sh s) <= watched (sh s') /\ handled (wt s) <= handled (wt s') /\
    to_handle s' <= to_handle s + (watched (sh s') - watched (sh s))).
  { apply (reaches_relation cstep (fun _ => True) (fun x y => watched (sh x) <= watched (sh y) /\
      handled (wt x) <= handled (wt y) /\ to_handle y <= to_handle x + (watched (sh y) - watched (sh x))) s s');
      auto; try lia. intros a x y _ E. split; [exact I|]. exact (to_handle_step _ _ _ E). }
  destruct T as (_ & T1 & T2). destruct (creachable_network _ _ _ (reaches_trans _ _ _ _ R R')) as [N1 N2 N3].
  rewrite <- N3. unfold to_handle in T2. split.
  - split; [exact T1|]. destruct (changed s), (changed s'); lia.
  - split; [|lia]. intros E. unfold changed in T2. rewrite E, Z.eqb_refl in T2. cbn [negb] in T2.
    destruct (watched (sh s') =? seen (wt s')); cbn [negb] in T2; lia.
Qed.
