(* ===== verification/WorkerAgrees.v ===== *)
(** * The methods of [Host] and the steps of [Worker]

    The calls of the interface use [Host.start], [Host.set_fd],
    [Host.network_changed] and [Host.shutdown], where a call runs to its end
    and the worker's part is given.  Each is a run of the steps of [Worker] when
    nothing interferes: it returns the same and leaves the handle the same,
    whether the worker answers, does not answer or cannot be reached. *)
From S2P Require Import Prelude Transition CMemory CApi ConfigCrypto Host Worker WorkerInv.
From Stdlib Require Import String ZArith List Lia Bool.
Import ListNotations.
Open Scope Z_scope.

(** ** In its loop the worker holds a running core exactly when one is started *)

Record loop_inv (s : cstate) : Prop := {
  li_device : has_device (device (wt s)) = tun_config (sh s);
  li_running : match at_ (wt s) with
               | Starting _ => running (wt s) = false /\ started_flag (sh s) = true
               | Unwinding | DroppingRuntime | Ended => True
               | _ => running (wt s) = started_flag (sh s)
               end }.

Lemma loop_inv_initial tun n : loop_inv (cinitial tun n).
Proof. split; [now destruct tun|reflexivity]. Qed.

Lemma loop_inv_step a s s' : start_inv s -> loop_inv s -> cstep a s = Some s' -> loop_inv s'.
Proof.
  intros S [I1 I2] E. pose proof (si_running _ S) as R. pose proof (si_starting _ S) as T.
  destruct s as [[st fl tu q wv qe rp] [p rn dv wc sn ts pn hd sb] [cl jh hl ni iss rs]].
  destruct a; cbn [cstep caller_step worker_step task_step] in E; unfold gives_up, replies_to in E; fields.
  all: step_cases E; fields; subst; split; fields; cbn [has_device]; try exact I; try (intuition congruence).
  all: repeat match goal with
    | H : _ || _ = false |- _ => apply orb_false_iff in H as [? ?]
    | H : negb _ = false |- _ => apply negb_false_iff in H
    end; try congruence.
  all: split; [destruct fl; [discriminate|reflexivity]|reflexivity].
Qed.

Lemma creachable_loop tun n s : creachable tun n s -> loop_inv s.
Proof.
  intros R. cut (start_inv s /\ loop_inv s); [tauto|].
  apply (reaches_invariant cstep (fun x => start_inv x /\ loop_inv x) (cinitial tun n) s); [| |exact R].
  - intros a x y (S & L) E. refine (conj _ _); eauto using start_inv_step, loop_inv_step.
  - refine (conj _ _); auto using start_inv_initial, loop_inv_initial.
Qed.

(** ** What a method leaves *)

Section Agrees.
Context {M : Mpsc} {CoreState : Type}.
Implicit Types (h : Handle CoreState) (s : cstate).

(** The handle of [Host] in the state of the threads.  Whether a core is
    started is looked at before it is cancelled only.  The counter of network
    changes is 64 bits wide; what the watch compares is its own version, which
    every change advances. *)
Record same_handle h s : Prop := {
  sm_stop : stop_token (sh s) = stop h;
  sm_started : stop h = false -> started_flag (sh s) = lifecycle_started h;
  sm_tun : tun_config (sh s) = tun_enable h;
  sm_network : network h = u64 (watched (sh s));
  sm_queue : queue_enabled (sh s) = packet_queue_enabled h;
  sm_worker : join_handle (ho s) = match worker h with Some _ => true | None => false end }.

(** The worker is at the head of its loop and nothing else is under way. *)
Record undisturbed s : Prop := {
  un_at : at_ (wt s) = PollStop;
  un_queue : command_queue (sh s) = [];
  un_network : watched (sh s) = seen (wt s);
  un_tasks : tasks (wt s) = [];
  un_holder : holder (ho s) = None;
  un_panicked : panicked (wt s) = false }.

(** The queue takes a command. *)
Definition accepting s : bool :=
  negb (has_ended (at_ (wt s))) && Nat.ltb (length (command_queue (sh s))) 4.

(** What a host thread got is what the method returns; [se] and [re] are the
    texts of a command that was not taken and of an answer that did not come. *)
Definition same_result (se re : text) (x : returned) (r : outcome unit) : Prop :=
  match x, r with
  | CoreStopped, Err e => e = lit "core is stopped"
  | QueueRefused, Err e => e = lit "core command queue closed or full: " ++ se
  | GotAnswer _ _ (inl _), Ok _ => True
  | GotAnswer _ _ (inr e'), Err e => e = e'
  | NoAnswer _, Err e => e = re
  | NetworkNoted, Ok _ => True
  | ShutDown true, Ok _ => True
  | ShutDown false, Err e => e = lit "core worker panicked"
  | _, _ => False
  end.

(** From [s] host thread [i] calls the method, gets [fst rh] and leaves the
    handle [snd rh]. *)
Definition runs_to (se re : text) (i : nat) s (rh : outcome unit * Handle CoreState) : Prop :=
  exists labels s' x, run_labels cstep s labels = Some s' /\ same_handle (snd rh) s' /\
    results (ho s') = (i, x) :: results (ho s) /\ same_result se re x (fst rh) /\
    nth_error (callers (ho s')) i = Some Outside.

Lemma fresh_reply s id : id_inv s -> (next_id (ho s) <= id)%nat -> reply_of id (replies (sh s)) = None.
Proof.
  intros I H. destruct (reply_of id (replies (sh s))) as [a|] eqn:E; [|reflexivity].
  apply reply_of_in in E. apply (replied_known _ _ _ I) in E. lia.
Qed.

Lemma runs_step se re i a s s1 rh : cstep a s = Some s1 -> results (ho s1) = results (ho s) ->
  runs_to se re i s1 rh -> runs_to se re i s rh.
Proof.
  intros E R (ls & s' & x & H & Q & P & V). exists (a :: ls), s', x. cbn [run_labels]. rewrite E, <- R. auto.
Qed.

Lemma runs_last se re i a s s1 rh x : cstep a s = Some s1 -> same_handle (snd rh) s1 ->
  results (ho s1) = (i, x) :: results (ho s) -> same_result se re x (fst rh) ->
  nth_error (callers (ho s1)) i = Some Outside -> runs_to se re i s rh.
Proof. intros E Q R V N. exists [a], s1, x. cbn [run_labels]. rewrite E. auto. Qed.

End Agrees.

(** The next step is [a]; or it is [a], the last one. *)
Ltac computes :=
  cbn [cstep caller_step worker_step needs_token negb andb orb length app Nat.ltb Nat.leb queue_length has_ended
    position_owes]; unfold gives_up, replies_to, owed; fields;
  repeat (first [rewrite set_nth_twice | erewrite nth_set_same by eassumption | rewrite Z.eqb_refl | rewrite Nat.eqb_refl | rewrite eqb_reflx
    | match goal with H : _ = _ |- _ => rewrite H end]; cbn [reply_of negb andb orb map flat_map app position_owes in_dec needs_token]; fields);
  reflexivity.
Ltac next a := eapply (runs_step _ _ _ a); [computes|reflexivity|].
Ltac last_one a := eapply (runs_last _ _ _ a); [computes|split; fields; auto|reflexivity|cbn; auto|
  fields; repeat first [reflexivity | eassumption | rewrite set_nth_twice | erewrite nth_set_same by eassumption]].


Section Methods.
Context {M : Mpsc} {CoreState : Type}.
Implicit Types (h : Handle CoreState) (s : cstate).

(** A handle and the threads it stands for, field by field. *)
Ltac side_by_side R U H h s :=
  pose proof (fresh_reply s (next_id (ho s)) (creachable_ids _ _ _ R) (le_n _)) as F;
  destruct (creachable_loop _ _ _ R) as [L1 L2]; pose proof (si_calling _ (creachable_start _ _ _ R)) as C;
  destruct U as [U1 U2 U3 U4 U5 U6], H as [H1 H2 H3 Hn H4 H5];
  destruct s as [[st fl tu q wv qe rp] [p rn dv wc sn ts pn hd sb] [cl jh hl ni iss rs]];
  destruct h as [hc hs ht hl' hn hw hi ho' hq]; fields;
  cbn [stop lifecycle_started tun_enable network packet_queue_enabled worker] in *; subst;
  destruct wc; [discriminate (C eq_refl)|clear C].

(** The same when the worker may be anywhere. *)
Ltac with_any_worker R H h s :=
  pose proof (fresh_reply s (next_id (ho s)) (creachable_ids _ _ _ R) (le_n _)) as F;
  destruct H as [H1 H2 H3 Hn H4 H5];
  destruct s as [[st fl tu q wv qe rp] [p rn dv wc sn ts pn hd sb] [cl jh hl ni iss rs]];
  destruct h as [hc hs ht hl' hn hw hi ho' hq]; fields;
  cbn [stop lifecycle_started tun_enable network packet_queue_enabled worker] in *; subst.

Lemma start_steps tun n i se re inner h s :
  creachable tun n s -> undisturbed s -> same_handle h s -> nth_error (callers (ho s)) i = Some Outside ->
  runs_to se re i s (start se re (Answered _ inner) h).
Proof.
  intros R U H N. side_by_side R U H h s.
  unfold start, start_with_packets. cbn [stop tun_enable lifecycle_started fst snd]. rewrite eqb_reflx. cbn [negb andb].
  destruct hs; cbn [negb andb].
  { last_one (Call i ReqStart). }
  rewrite (H2 eq_refl) in *. clear H2.
  next (Call i ReqStart). next (TrySend i). next SelectStop. next SelectNetwork. next (SelectCommand (Ok tt)).
  destruct hl'; cbn [negb]; next CheckStart.
  { last_one (Receive i). }
  destruct (fst inner) as [[]|e|].
  - next (StartDone (Ok tt)). last_one (Receive i).
  - next (StartDone (Err e)). last_one (Receive i).
  - next (StartDone Panic). last_one (Disconnected i).
Qed.

Lemma set_fd_steps tun n i se re opened h s :
  creachable tun n s -> undisturbed s -> same_handle h s -> nth_error (callers (ho s)) i = Some Outside ->
  runs_to se re i s (set_fd se re (Answered _ opened) h).
Proof.
  intros R U H N. side_by_side R U H h s.
  unfold set_fd. cbn [stop tun_enable lifecycle_started].
  destruct hs.
  { last_one (Call i ReqSetFd). }
  rewrite (H2 eq_refl) in *. clear H2.
  next (Call i ReqSetFd). next (TrySend i). next SelectStop. next SelectNetwork.
  destruct hl'; cbn [orb].
  { next (SelectCommand opened). last_one (Receive i). }
  destruct (has_device dv) eqn:D; cbn [negb].
  2: { next (SelectCommand opened). last_one (Receive i). }
  destruct opened as [[]|e|].
  - next (SelectCommand (Ok tt)). last_one (Receive i).
  - next (SelectCommand (Err e)). last_one (Receive i).
  - next (SelectCommand Panic). last_one (Disconnected i).
Qed.

(** A command that is taken and not answered in time cancels the core. *)
Lemma unanswered_steps tun n i se re h s :
  creachable tun n s -> same_handle h s -> nth_error (callers (ho s)) i = Some Outside -> accepting s = true ->
  runs_to se re i s (start se re (Unanswered _) h) /\ runs_to se re i s (set_fd se re (Unanswered _) h).
Proof.
  intros R H N A. unfold accepting, Nat.ltb in A. cbn [Nat.leb] in A. with_any_worker R H h s. unfold start, set_fd. cbn [stop].
  destruct hs; split.
  - last_one (Call i ReqStart).
  - last_one (Call i ReqSetFd).
  - next (Call i ReqStart). next (TrySend i). last_one (Timeout i).
  - next (Call i ReqSetFd). next (TrySend i). last_one (Timeout i).
Qed.

(** A full queue, or a worker that has ended, leaves the handle as it was. *)
Lemma refused_steps tun n i se re h s :
  creachable tun n s -> same_handle h s -> nth_error (callers (ho s)) i = Some Outside -> accepting s = false ->
  runs_to se re i s (start se re (Refused _) h) /\ runs_to se re i s (set_fd se re (Refused _) h).
Proof.
  intros R H N A. unfold accepting, Nat.ltb in A. cbn [Nat.leb] in A. with_any_worker R H h s. unfold start, set_fd. cbn [stop].
  destruct hs; split.
  - last_one (Call i ReqStart).
  - last_one (Call i ReqSetFd).
  - next (Call i ReqStart). last_one (TrySend i).
  - next (Call i ReqSetFd). last_one (TrySend i).
Qed.

Lemma u64_succ x : u64 (u64 x + 1) = u64 (x + 1).
Proof. unfold u64, wrap. apply Zplus_mod_idemp_l. Qed.

Lemma network_steps tun n i se re h s :
  creachable tun n s -> same_handle h s -> nth_error (callers (ho s)) i = Some Outside ->
  runs_to se re i s (network_changed h).
Proof.
  intros R H N. with_any_worker R H h s. unfold network_changed. cbn [stop].
  destruct hs.
  - last_one (CallNetwork i).
  - next (CallNetwork i). last_one (SendModify i). apply u64_succ.
Qed.

Lemma shutdown_steps tun n i se re h s :
  creachable tun n s -> undisturbed s -> same_handle h s -> nth_error (callers (ho s)) i = Some Outside ->
  worker h = Some WorkerReturns -> runs_to se re i s (shutdown h).
Proof.
  intros R U H N W. side_by_side R U H h s. unfold shutdown, set_stop. cbn [worker].
  next (CallShutdown i). next (LockWorker i). next SelectStop. next LeaveLoop.
  destruct fl; [next CoreShutdown|]; next Finish; last_one (Join i); cbn; discriminate.
Qed.

(** Shutting down once more, and after the worker has panicked. *)
Lemma shutdown_again_steps tun n i se re h s :
  creachable tun n s -> same_handle h s -> nth_error (callers (ho s)) i = Some Outside -> holder (ho s) = None ->
  worker h = None \/ (worker h = Some WorkerPanics /\ at_ (wt s) = Ended /\ panicked (wt s) = true) ->
  runs_to se re i s (shutdown h).
Proof.
  intros R H N L [W|(W & A & P)]; with_any_worker R H h s; unfold shutdown, set_stop; cbn [worker];
    next (CallShutdown i).
  - last_one (LockWorker i); cbn; discriminate.
  - next (LockWorker i). last_one (Join i); cbn; discriminate.
Qed.


End Methods.
