(* ===== verification/CreateCalls.v ===== *)
(** * Creating handles

    [meta_create_v1] and [meta_create_packet_tunnel_v1] against their
    contracts: which hooks and configurations are accepted, what the packet
    tunnel changes in a configuration, and what a failed creation leaves. *)
From S2P Require Import Prelude CMemory CApi ConfigCrypto Host Ffi FfiContract ConfigCalls LogBuffer HandleCalls Lifecycle.
From Stdlib Require Import String ZArith List Lia Bool.
Import ListNotations.
Open Scope Z_scope.

(** [Core::new] keeps the configuration it is given. *)
Class CoreLaws (K : Crates) : Prop := {
  core_keeps_config : forall o c h k, Core_new o c h = Ok k -> core_config k = c }.

Section CreateCalls.
Context {K : Crates} {M : Mpsc} {C : CipherCrates} {L : CoreLaws K}.
Variable android : bool.
Implicit Types (t : thread) (w : world) (s : meta_status).

(** ** Memory and error texts *)

(** An operation that writes no memory of the host and records no error. *)
Definition keeps {A} (m : ffi A) : Prop :=
  forall t w, mem (snd (m t w)) = mem w /\ error_text (snd (m t w)) = error_text w /\ os (snd (m t w)) = os w.

Lemma keeps_bind {A B} (m : ffi A) (k : A -> ffi B) : keeps m -> (forall a, keeps (k a)) -> keeps (fbind m k).
Proof.
  intros Hm Hk t w. unfold fbind. specialize (Hm t w). destruct (m t w) as [[a| |] w1]; cbn [snd] in *; try exact Hm.
  destruct (Hk a t w1) as (E1 & E2 & E3), Hm as (F1 & F2 & F3). repeat split; congruence.
Qed.

Lemma keeps_init level : keeps (modify (init level)).
Proof. intros t w. cbn. unfold init. now destruct (log_filter w). Qed.

Ltac keep :=
  repeat lazymatch goal with
    | |- keeps (fbind _ _) => apply keeps_bind; [|intros ?]
    | |- keeps (if ?b then _ else _) => destruct b
    | |- keeps (match ?x with _ => _ end) => destruct x
    | |- keeps (modify (init _)) => apply keeps_init
    | |- keeps (input_str _ _) => unfold input_str
    | |- keeps (input _ _) => unfold input
    | |- keeps (input_with_limit _ _ _) => unfold input_with_limit
    | |- keeps (from_utf8 _) => unfold from_utf8
    | |- keeps (ensure _ _) => unfold ensure
    | |- keeps (check_lifecycle) => unfold check_lifecycle
    | |- keeps (lock_handles) => unfold lock_handles
    | |- keeps _ => intros ? ?; repeat split; reflexivity
    end.

Lemma register_keeps config hooks : keeps (register android config hooks).
Proof.
  unfold register. keep. intros t w. destruct (new_handle android (os w) config hooks); repeat split.
Qed.

Lemma prepare_keeps data len hooks dir : keeps (prepare data len hooks dir).
Proof. unfold prepare. destruct dir as [[p n]|]; keep. Qed.

(** ** What a successful creation went through *)

Lemma fbind_ok {A B} (m : ffi A) (k : A -> ffi B) t w b w' :
  fbind m k t w = (Ok b, w') -> exists a w1, m t w = (Ok a, w1) /\ k a t w1 = (Ok b, w').
Proof. unfold fbind. destruct (m t w) as [[a| |] w1]; [eauto|discriminate..]. Qed.

Lemma ensure_ok b e t w u w' : ensure b e t w = (Ok u, w') -> b = true /\ w' = w.
Proof. destruct b; intros E; [injection E as _ <-; auto|discriminate]. Qed.

Lemma input_ok d n t w x w' : input d n t w = (Ok x, w') ->
  argument input_limit (mem w) d n = Some x /\ w' = w.
Proof. rewrite input_eq. destruct (argument _ _ _ _); intros E; [injection E as <- <-; auto|discriminate]. Qed.

Lemma input_str_ok d n t w x w' : input_str d n t w = (Ok x, w') ->
  utf8_argument (mem w) d n = Some x /\ w' = w.
Proof. rewrite input_str_eq. destruct (utf8_argument _ _ _); intros E; [injection E as <- <-; auto|discriminate]. Qed.

(** The hooks part. *)
Definition read_hooks (hooks : Z) : ffi HostHooks :=
  if hooks =? 0 then fret HostHooks_default
  else
    let! size := gets (fun w => load_u32 (mem w) hooks) in
    ensure (size =? sizeof_meta_hooks_v1) (lit "unsupported host hooks size") ;!
    let! h := gets (fun w => load_meta_hooks_v1 (mem w) hooks) in
    lift (HostHooks_new h).

Lemma read_hooks_ok hooks t w h w' : read_hooks hooks t w = (Ok h, w') ->
  w' = w /\ hooks_supported android (hooks_argument (mem w) hooks) =
    negb (android && (protect h =? 0)).
Proof.
  unfold read_hooks, hooks_argument. destruct (hooks =? 0).
  { intros E. injection E as <- <-. cbn. split; [reflexivity|]. now rewrite andb_true_r. }
  intros E. apply fbind_ok in E as (z & w1 & E1 & E). injection E1 as <- <-.
  apply fbind_ok in E as (u & w1 & E1 & E). apply ensure_ok in E1 as [Hz ->].
  unfold fbind, gets, lift, HostHooks_new in E. cbn [load_meta_hooks_v1 version size] in E.
  destruct ((load_u32 (mem w) (hooks + 4) =? 1) && _) eqn:V; [|discriminate]. injection E as <- <-.
  split; [reflexivity|]. cbn [hooks_supported load_meta_hooks_v1 version size protect protect_socket].
  apply andb_true_iff in V as [V1 V2]. rewrite V1, V2. cbn [andb]. now rewrite negb_andb.
Qed.

Definition read_config (dir : option (Z * Z)) (config : Config ConfigRest) : ffi (Config ConfigRest) :=
  match dir with
  | None => fret config
  | Some (path, path_len) =>
      let! path := input_str path path_len in
      let! is_dir := gets (fun w => path_is_dir (os w) path) in
      ensure (path_is_absolute path && is_dir) (lit "host directory must exist and be absolute") ;!
      modify (set_panic_file (path_join path (lit "panic.log"))) ;!
      fret (tunnel_config config path)
  end.

Definition config_for (dir : option (Z * Z)) w (c0 c : Config ConfigRest) : Prop :=
  match dir with
  | None => c = c0
  | Some (p, n) => exists d, utf8_argument (mem w) p n = Some d /\
      directory_usable (os w) d = true /\ c = tunnel_config c0 d
  end.

Lemma read_config_ok dir c0 t w c w' : read_config dir c0 t w = (Ok c, w') ->
  config_for dir w c0 c /\ mem w' = mem w /\ os w' = os w.
Proof.
  destruct dir as [[p n]|]; cbn [read_config config_for].
  - intros E. apply fbind_ok in E as (d & w1 & E1 & E). apply input_str_ok in E1 as [Ed ->].
    apply fbind_ok in E as (b & w1 & E1 & E). injection E1 as <- <-.
    apply fbind_ok in E as (u & w1 & E1 & E). apply ensure_ok in E1 as [Hu ->].
    injection E as <- <-. repeat split. exists d. auto.
  - intros E. injection E as <- <-. auto.
Qed.

Lemma prepare_ok data len hooks dir t w c h w' :
  prepare data len hooks dir t w = (Ok (c, h), w') ->
  callback w t = false /\
  (exists y c0, argument input_limit (mem w) data len = Some y /\ Config_parse y = Ok c0 /\ config_for dir w c0 c) /\
  hooks_supported android (hooks_argument (mem w) hooks) = negb (android && (protect h =? 0)).
Proof.
  intros E. change (prepare data len hooks dir) with
    (check_lifecycle ;! let! yaml := input data len in let! config := lift (Config_parse yaml) in
     modify (init (log_level config)) ;! let! config := read_config dir config in
     let! hooks := read_hooks hooks in fret (config, hooks)) in E.
  apply fbind_ok in E as (u & w1 & E1 & E).
  assert (W : w1 = w /\ callback w t = false).
  { unfold check_lifecycle, this_thread, gets, fbind, ensure in E1.
    destruct (callback w t); [discriminate|]. injection E1 as _ <-. auto. }
  destruct W as [-> W]. clear E1. split; [exact W|].
  apply fbind_ok in E as (y & w1 & E1 & E). apply input_ok in E1 as [Ey ->].
  apply fbind_ok in E as (c0 & w1 & E1 & E). unfold lift in E1. apply pair_equal_spec in E1 as [Ec <-].
  apply fbind_ok in E as (u2 & w1 & E1 & E). unfold modify in E1. apply pair_equal_spec in E1 as [_ <-].
  assert (Hi : mem (init (log_level c0) w) = mem w /\ os (init (log_level c0) w) = os w)
    by (unfold init; now destruct (log_filter w)). destruct Hi as [Hm Ho].
  apply fbind_ok in E as (c1 & w1 & E1 & E). apply read_config_ok in E1 as (Hc & Hm1 & Ho1).
  apply fbind_ok in E as (h1 & w2 & E1 & E). apply read_hooks_ok in E1 as (-> & Hh).
  unfold fret in E. injection E as <- <- _. rewrite Hm1, Hm in Hh. split; [|exact Hh].
  exists y, c0. split; [exact Ey|]. split; [exact Ec|]. unfold config_for in *. rewrite Hm, Ho in Hc. exact Hc.
Qed.

Lemma register_ok config hooks t w id w' : register android config hooks t w = (Ok id, w') ->
  exists x, new_handle android (os w) config hooks = Ok x /\ id = next w /\ next w + 1 < 2 ^ 64 /\
    handles w' = (id, x) :: handles w.
Proof.
  unfold register, lock_handles, gets, ensure, modify, fbind, fret, ferr, fpanic.
  destruct (handles_poisoned w); [discriminate|]. destruct (zlength (handles w) <? 16); [|discriminate].
  destruct (Z.ltb_spec (next w + 1) (2 ^ 64)); [|discriminate]. cbn [set_registry os handles next].
  destruct (new_handle android (os w) config hooks) as [x| |]; [|discriminate..].
  intros E. injection E as <- <-. exists x. auto.
Qed.

Lemma new_handle_ok o config hooks x : new_handle android o config hooks = Ok x ->
  android && (protect hooks =? 0) = false /\ core_config (core x) = config /\ stop x = false.
Proof.
  unfold new_handle. destruct (android && (protect hooks =? 0)); [discriminate|].
  destruct (Core_new o config hooks) as [c| |] eqn:N; cbn [obnd]; [|discriminate..].
  destruct (spawn_worker o) as [e| |]; cbn [obnd]; [|discriminate..]. intros E. injection E as <-.
  repeat split. exact (core_keeps_config _ _ _ _ N).
Qed.

Lemma rest_config_for dir w c0 c : config_for dir w c0 c -> rest c = rest c0.
Proof. destruct dir as [[]|]; cbn [config_for]; [intros (d & _ & _ & ->)|intros ->]; reflexivity. Qed.

(** ** The contract *)

(** At most 16 handles, all different, and none that was not given out. *)
Definition registry_keys (next : Z) (keys : list Z) : Prop :=
  0 < next < 2 ^ 64 /\ Forall (fun h => 0 < h < next) keys /\ NoDup keys /\ zlength keys <= 16.

Definition registry_inv w : Prop := registry_keys (next w) (map fst (handles w)).

Lemma registry_fresh w : registry_inv w -> ~ In (next w) (map fst (handles w)).
Proof. intros (_ & F & _) H. rewrite Forall_forall in F. specialize (F _ H). lia. Qed.

Lemma create_error data len hooks out dir t w r w1 :
  let w0 := set_mem (store_u64 (mem w) out 0) w in
  (let! ch := prepare data len hooks dir in
   let! id := register android (fst ch) (snd ch) in
   write_mem (fun m => store_u64 m out id) ;! fret META_OK) t w0 = (r, w1) ->
  match r with
  | Ok s => s = META_OK /\ exists c h w2 w3 id, prepare data len hooks dir t w0 = (Ok (c, h), w2) /\
      register android c h t w2 = (Ok id, w3) /\ w1 = set_mem (store_u64 (mem w0) out id) w3 /\
      error_text w1 = error_text w
  | _ => mem w1 = mem w0 /\ error_text w1 = error_text w
  end.
Proof.
  cbv zeta. set (w0 := set_mem _ w). intros E. unfold fbind at 1 in E.
  destruct (prepare_keeps data len hooks dir t w0) as (P1 & P2 & P3).
  change (error_text w0) with (error_text w) in P2.
  destruct (prepare data len hooks dir t w0) as [[[c h]| |] w2] eqn:Ep; cbn [snd fst] in *;
    [|injection E as <- <-; auto..].
  unfold fbind in E. destruct (register_keeps c h t w2) as (R1 & R2 & _).
  destruct (register android c h t w2) as [[id| |] w3] eqn:Er; cbn [snd] in *;
    [|injection E as <- <-; split; congruence..].
  cbn [write_mem modify fret] in E. injection E as <- <-. split; [reflexivity|].
  exists c, h, w2, w3, id. split; [easy|]. split; [easy|]. split; [now rewrite R1, P1|].
  cbn [set_mem error_text]. now rewrite R2, P2.
Qed.

(** Clearing [out] first does not change what the other arguments say. *)
Lemma hooks_argument_cleared m out h : disjoint out 8 h sizeof_meta_hooks_v1 ->
  hooks_argument (store_u64 m out 0) h = hooks_argument m h.
Proof.
  intros D. unfold hooks_argument. destruct (h =? 0); [reflexivity|]. f_equal.
  unfold load_meta_hooks_v1, load_u32, load_u64, load_le.
  rewrite !load_bytes_store_u64; [reflexivity|..]; unfold disjoint, sizeof_meta_hooks_v1 in *; lia.
Qed.

Lemma create_contract data len hooks out dir ok t w s w' :
  registry_inv w -> disjoint out 8 data len -> disjoint out 8 hooks sizeof_meta_hooks_v1 ->
  (forall c0 c x, config_for dir (set_mem (store_u64 (mem w) out 0) w) c0 c -> core_config (core x) = c -> ok x) ->
  create android data len hooks out dir t w = (s, w') ->
  create_call android data len hooks out ok t (view_of w) s (view_of w').
Proof.
  intros R D1 D2 Hok E. pose proof (registry_fresh w R) as Fresh. destruct R as (Hn & _).
  assert (Hn0 : 0 <= next w) by lia. pose proof (create_effect _ _ _ _ _ _ _ _ _ _ Hn0 E) as Eff.
  unfold create_call, target. cbn [view_of v_mem v_cores Core api].
  unfold create, boundary, ensure in E. unfold fbind at 1 in E.
  destruct (Z.eqb_spec out 0) as [Ho|Ho]; cbn [negb fret ferr] in E.
  { injection E as <- <-. split; [recorded|]. split; [apply only_changed_refl|]. split; easy. }
  unfold fbind at 1, write_mem at 1, modify at 1 in E. set (w0 := set_mem (store_u64 (mem w) out 0) w) in *.
  assert (O0 : only_changed [(out, 8)] (mem w) (mem w0)) by (apply only_changed_store_u64; now left).
  match type of E with match ?e with _ => _ end = _ => destruct e as [r w1] eqn:Er end.
  apply create_error in Er. fold w0 in Er. destruct r as [s1|e|].
  2,3: destruct Er as [Em Ee]; injection E as <- <-; destruct Eff as [Eh _];
    (split; [apply error_frame_fail; exact Ee|]); cbn [set_error mem handles] in *; rewrite Em;
    (split; [exact O0|]); split; [exact Eh|intros _; now apply load_u64_store].
  injection E as <- <-. destruct Er as (-> & c & h & w2 & w3 & id & Ep & Er & -> & Ee).
  split; [apply error_frame_ok; [easy|exact Ee]|].
  destruct (prepare_keeps data len hooks dir t w0) as (_ & _ & Ko). rewrite Ep in Ko. cbn [snd] in Ko.
  apply prepare_ok in Ep as (_ & (y & c0 & Ey & Ec & Hc) & Hh).
  apply register_ok in Er as (x & Ex & -> & H64 & Eh).
  apply new_handle_ok in Ex as (Ha & Hcfg & Hs). destruct Eff as (_ & El & _ & x' & Ex' & _).
  cbn [set_mem mem handles] in *. rewrite Ex' in Eh. injection Eh as En Exx _. subst x'.
  split. { eapply only_changed_trans; [exact O0|]. apply only_changed_store_u64. now left. }
  exists x, y, (next w). unfold v_core, v_live. cbn [view_of v_cores policy yaml_policy yaml_valid stopped api].
  cbn [set_mem handles]. rewrite Ex'. cbn [assoc]. rewrite Z.eqb_refl.
  split; [now rewrite <- (argument_cleared _ _ out _ _ 0 D1)|].
  split; [now rewrite Ec, Hcfg; cbn [ok_of option_map]; rewrite (rest_config_for _ _ _ _ Hc)|].
  split; [now rewrite Ec|].
  change (mem w0) with (store_u64 (mem w) out 0) in Hh.
  split; [rewrite <- (hooks_argument_cleared _ out _ D2), Hh; now rewrite Ha|].
  split; [exact El|]. split; [lia|]. split; [exact Fresh|]. split; [reflexivity|].
  split; [intros h' Hh'; destruct (Z.eqb_spec (next w) h'); [congruence|reflexivity]|].
  split; [exact Hs|]. exact (Hok c0 c x Hc Hcfg).
Qed.

(** C9: Creating a handle succeeds only for a configuration that parses and
    supported hooks (size and version checked, socket protection required on
    Android); it then returns a fresh non-zero handle for a running core with
    the configuration's policy.  The packet-tunnel variant moreover requires an
    existing absolute directory and gives the core the packet-tunnel settings:
    packet I/O on, MTU 1280, DNS interception, no listener, no controller, no
    native route, DNS or interface change.  A failed creation registers nothing
    and leaves a zero handle. *)
Theorem create_meets_contract t w s w' p n d k h out :
  registry_inv w -> disjoint out 8 p n -> disjoint out 8 d k -> disjoint out 8 h sizeof_meta_hooks_v1 ->
  (meta_create_v1 android p n h out t w = (s, w') ->
   meta_create_v1_contract android p n h out t (view_of w) s (view_of w')) /\
  (meta_create_packet_tunnel_v1 android p n d k h out t w = (s, w') ->
   meta_create_packet_tunnel_v1_contract android p n d k h out t (view_of w) s (view_of w')).
Proof.
  intros R D1 D2 D3. split; intros E; (eapply create_contract; [exact R|exact D1|exact D3| |exact E]).
  - easy.
  - intros c0 c x (dir & Ed & Hu & ->) Hx. exists dir. cbn [view_of v_mem v_env directory_usable settings api] in *.
    rewrite <- (utf8_argument_cleared _ out _ _ 0 D2). split; [exact Ed|]. split; [exact Hu|].
    rewrite Hx. repeat split; [discriminate|]. repeat constructor.
Qed.

(** ** The registry stays within its bounds *)

Lemma registry_keys_next n n' keys : registry_keys n keys -> n <= n' < 2 ^ 64 -> registry_keys n' keys.
Proof.
  intros (A & B & D & E) H. split; [lia|]. split; [|auto]. eapply Forall_impl; [|exact B]. cbn. lia.
Qed.

Lemma registry_keys_filter n keys f : registry_keys n keys -> registry_keys n (filter f keys).
Proof.
  intros (A & B & D & E). split; [exact A|]. split; [|split; [now apply NoDup_filter|]].
  - rewrite Forall_forall in *. intros h Hh. apply filter_In in Hh as [Hh _]. auto.
  - pose proof (filter_length_le f keys). unfold zlength in *. lia.
Qed.

Lemma map_fst_remove {A} k (l : list (Z * A)) : map fst (assoc_remove k l) = filter (fun h => negb (h =? k)) (map fst l).
Proof.
  unfold assoc_remove. induction l as [|[i x] l IH]; [reflexivity|]. cbn [filter map fst].
  destruct (negb (i =? k)); cbn [map fst]; now rewrite IH.
Qed.

Lemma shutdown_calls_keys id (k : ffi meta_status) f t w s w' :
  (forall w1 w2 s, boundary k t w1 = (s, w2) -> registry_inv w1 -> registry_inv w2) ->
  boundary (let! h := handle id in check_lifecycle ;! on_handle (A := unit) id h f ;! k) t w = (s, w') ->
  registry_inv w -> registry_inv w'.
Proof.
  intros Hk E I. unfold registry_inv in *.
  apply lifecycle_call_run in E as [(_ & Eh & En)|(x & L0 & _ & _ & E)]; [now rewrite Eh, En|].
  assert (I1 : registry_inv (with_handle id (snd (f x)) w)).
  { unfold registry_inv. cbn [with_handle set_registry handles next]. now rewrite assoc_set_keys. }
  destruct (fst (f x)); [exact (Hk _ _ _ E I1)|..]; destruct E as (_ & Eh & En); now rewrite Eh, En.
Qed.

Lemma register_keys config hooks t w : registry_inv w -> registry_inv (snd (register android config hooks t w)).
Proof.
  unfold registry_inv, register, lock_handles, gets, ensure, modify, fbind, fret, ferr, fpanic. intros I.
  destruct (handles_poisoned w); [exact I|]. destruct (Z.ltb_spec (zlength (handles w)) 16); [|exact I].
  destruct (Z.ltb_spec (next w + 1) (2 ^ 64)); [|exact I]. cbn [set_registry os handles next].
  assert (I1 : registry_keys (next w + 1) (map fst (handles w))) by (apply (registry_keys_next (next w)); [exact I|lia]).
  destruct (new_handle android (os w) config hooks) as [x| |]; [|exact I1..].
  cbn [snd set_registry handles next map fst]. destruct I as (A & B & D & E).
  split; [lia|]. split; [constructor; [lia|apply I1]|]. split.
  - constructor; [|exact D]. intros Hi. rewrite Forall_forall in B. specialize (B _ Hi). lia.
  - rewrite zlength_cons. unfold zlength in *. rewrite length_map. lia.
Qed.

Definition keeps_registry {A} (m : ffi A) : Prop := forall t w, registry_inv w -> registry_inv (snd (m t w)).

Lemma keeps_registry_bind {A B} (m : ffi A) (k : A -> ffi B) :
  keeps_registry m -> (forall a, keeps_registry (k a)) -> keeps_registry (fbind m k).
Proof.
  intros Hm Hk t w I. unfold fbind. specialize (Hm t w I).
  destruct (m t w) as [[a| |] w1]; cbn [snd] in *; try exact Hm. now apply Hk.
Qed.

Lemma silent_registry {A} (m : ffi A) : silent m -> keeps_registry m.
Proof. intros H t w I. destruct (H t w) as [E N]. unfold registry_inv in *. now rewrite E, N. Qed.

Lemma boundary_registry op t w : keeps_registry op -> registry_inv w -> registry_inv (snd (boundary op t w)).
Proof. intros H I. specialize (H t w I). unfold boundary. destruct (op t w) as [[]]; exact H. Qed.

Lemma create_registry data len hooks out dir t w : registry_inv w ->
  registry_inv (snd (create android data len hooks out dir t w)).
Proof.
  apply boundary_registry. apply keeps_registry_bind; [apply silent_registry, ensure_silent|intros ?].
  apply keeps_registry_bind; [apply silent_registry, write_mem_silent|intros ?].
  apply keeps_registry_bind; [apply silent_registry, prepare_silent|intros ?].
  apply keeps_registry_bind; [intros ? ?; apply register_keys|intros ?].
  apply silent_registry, silent_bind; [apply write_mem_silent|]. now intros _ t' w'.
Qed.

Lemma call_registry c t w : registry_inv w -> registry_inv (snd (exec_call android c t w)).
Proof.
  intros I. destruct (changes_phases c) eqn:Hc.
  2: { destruct (other_calls_quiet android c t w Hc) as (En & Ek & _). unfold registry_inv. now rewrite En, Ek. }
  destruct c; try discriminate; cbn [exec_call]; try now apply create_registry.
  all: match goal with |- registry_inv (snd ?e) => destruct e as [s w'] eqn:E end; cbn [snd].
  4: apply set_tun_fd_run in E as [(_ & e & ->)|[_ E]]; [exact I|].
  all: eapply shutdown_calls_keys; [|exact E|exact I]; intros w1 w2 s1 E1 I1.
  1,2,4: unfold boundary, fret in E1; now injection E1 as _ <-.
  unfold boundary, lock_handles, gets, fbind, fpanic, fret, modify in E1.
  destruct (handles_poisoned w1); injection E1 as _ <-; [exact I1|].
  unfold registry_inv in *. cbn [set_registry handles next]. rewrite map_fst_remove. now apply registry_keys_filter.
Qed.

(** C22: Over the whole life of a process the registry holds at most 16 handles,
    all different, non-zero and below the next identifier, which never wraps. *)
Theorem registry_invariant w es w' : registry_inv w -> process android w es w' -> registry_inv w'.
Proof.
  intros I P. induction P as [w|w es w1 es1 w2 P IH S]; [exact I|]. specialize (IH I).
  destruct S as [c t w1|id x y w1 L0 Hy|w1 w2 Eh En].
  - now apply call_registry.
  - unfold registry_inv in *. cbn [with_handle set_registry handles next]. now rewrite assoc_set_keys.
  - unfold registry_inv in *. now rewrite Eh, En.
Qed.

End CreateCalls.
