(* ===== verification/ApiContract.v ===== *)
(** * The contract of the interface as a whole

    What holds of every exported function: errors are recorded for the calling
    thread and can be read back by the documented two calls; calls on the core
    of a handle meet their contracts; lifecycle calls are refused inside
    callbacks; and the two places where the header promises more than the code
    does. *)
From S2P Require Import Prelude CMemory CApi ConfigCrypto Host Ffi FfiContract ConfigCalls LogBuffer HandleCalls Lifecycle.
From Stdlib Require Import String ZArith List Lia Bool.
Import ListNotations.
Open Scope Z_scope.

(** ** Errors *)

Section Errors.
Context {K : Crates} {M : Mpsc} {C : CipherCrates}.
Variable android : bool.
Implicit Types (t : thread) (w : world) (s : meta_status).

(** Operations never touch an error text, only [boundary] does, nor the flag
    of a running callback; and, unless they are to report it ([aware]), they do
    the same whatever the text is. *)
Definition errorless {A} (aware : bool) (m : ffi A) : Prop := forall t w,
  (error_text (snd (m t w)) = error_text w /\ callback (snd (m t w)) = callback w) /\
  (aware = false -> forall e, m t (set_error t e w) = (fst (m t w), set_error t e (snd (m t w)))).

(** An operation reports an error as [Err] or a panic, never as a status. *)
Definition honest (m : ffi meta_status) : Prop := forall t w, fst (m t w) <> Ok META_ERROR.

Lemma errorless_bind {A B} a (m : ffi A) (k : A -> ffi B) :
  errorless a m -> (forall x, errorless a (k x)) -> errorless a (fbind m k).
Proof.
  intros Hm Hk t w. unfold fbind. specialize (Hm t w) as [[M1 M2] M3]. split.
  - destruct (m t w) as [[x| |] w1]; cbn [snd] in *; auto. rewrite <- M1, <- M2. apply Hk.
  - intros Ha e. rewrite (M3 Ha e). destruct (m t w) as [[x| |] w1]; cbn [fst snd]; auto. now apply Hk.
Qed.

Lemma errorless_init a level : errorless a (modify (init level)).
Proof.
  intros t w. unfold modify, init. cbn [snd fst]. split; [now destruct (log_filter w)|].
  intros _ e. cbn [set_error log_filter]. now destruct (log_filter w).
Qed.

Lemma errorless_outside {A} a (f : Os -> outcome A * Os) : errorless a (outside f).
Proof. intros t w. unfold outside. cbn [set_error os]. split; intros; now destruct (f (os w)). Qed.

Lemma honest_bind {A} (m : ffi A) k : (forall a, honest (k a)) -> honest (fbind m k).
Proof. intros Hk t w. unfold fbind. destruct (m t w) as [[a| |] w1]; [apply Hk|discriminate..]. Qed.

Lemma honest_output p b c l : honest (output p b c l).
Proof.
  intros t w H. destruct (output p b c l t w) as [r w'] eqn:E. cbn [fst] in H. subst r.
  now destruct (output_buffer _ _ _ _ _ _ _ _ E) as [(_ & _ & B) _].
Qed.

Lemma honest_output_bind p b c l k : (forall s, s <> META_ERROR -> honest (k s)) -> honest (fbind (output p b c l) k).
Proof.
  intros Hk t w. unfold fbind. pose proof (honest_output p b c l t w) as H.
  destruct (output p b c l t w) as [[a| |] w1]; [|discriminate..]. apply Hk. intros ->. now apply H.
Qed.

Lemma errorless_register a config hooks : errorless a (register android config hooks).
Proof.
  intros t w. unfold register, lock_handles, gets, ensure, modify, fbind, fret, ferr, fpanic.
  cbn [set_error handles_poisoned handles next os].
  split; intros; (destruct (handles_poisoned w); [easy|]); (destruct (_ <? 16); [|easy]);
    (destruct (_ <? 2 ^ 64); [|easy]); cbn [set_registry os]; now destruct (new_handle _ _ _ _).
Qed.

Lemma errorless_on_handle {A} a id h (f : Handle CoreState -> outcome A * Handle CoreState) :
  errorless a (on_handle id h f).
Proof. intros t w. unfold on_handle. split; intros; now destruct (f h). Qed.

Lemma honest_drain b c l :
  honest (drain (fun bytes => let! status := output bytes b c l in
                              fret (meta_status_eqb status META_OK, status))).
Proof.
  intros t w. unfold drain, gets, fbind. pose proof (honest_output (joined (log_lines w)) b c l t w) as H.
  destruct (output _ b c l t w) as [[s| |] w1]; [|discriminate..]. cbn [fret fst snd].
  destruct (meta_status_eqb s META_OK); cbn [modify fret fst]; intros E; apply H; exact E.
Qed.

Ltac errfree :=
  cbv zeta;
  repeat lazymatch goal with
    | |- errorless _ (fbind _ _) => apply errorless_bind; [|intros ?]
    | |- errorless _ (if ?b then _ else _) => destruct b
    | |- errorless _ (match ?x with _ => _ end) => destruct x
    | |- errorless _ (modify (init _)) => apply errorless_init
    | |- errorless _ (outside _) => apply errorless_outside
    | |- errorless _ (register _ _ _) => apply errorless_register
    | |- errorless _ (on_handle _ _ _) => apply errorless_on_handle
    | |- errorless _ (on_core _ _ _) => apply errorless_on_handle
    | |- errorless _ (output _ _ _ _) => unfold output
    | |- errorless _ (input_str _ _) => unfold input_str
    | |- errorless _ (input _ _) => unfold input
    | |- errorless _ (input_with_limit _ _ _) => unfold input_with_limit
    | |- errorless _ (from_utf8 _) => unfold from_utf8
    | |- errorless _ (ensure _ _) => unfold ensure
    | |- errorless _ (context_of _ _) => unfold context_of
    | |- errorless _ (check_lifecycle) => unfold check_lifecycle
    | |- errorless _ (lock_handles) => unfold lock_handles
    | |- errorless _ (handle _) => unfold handle
    | |- errorless _ (write_mem _) => unfold write_mem
    | |- errorless _ (drain _) => unfold drain
    | |- errorless _ (prepare _ _ _ _) => unfold prepare
    | |- errorless _ _ => intros ? ?; split; [split; reflexivity|first [discriminate | intros _ ?; reflexivity]]
    end.

Ltac frank :=
  cbv zeta;
  repeat lazymatch goal with
    | |- honest (fbind (output _ _ _ _) _) => apply honest_output_bind; intros ? ?
    | |- honest (fbind _ _) => apply honest_bind; intros ?
    | |- honest (output _ _ _ _) => apply honest_output
    | |- honest (match ?x with _ => _ end) => destruct x
    | |- honest (drain _) => apply honest_drain
    | |- honest (fret _) => intros ? ?; cbn [fret fst]; congruence
    | |- honest _ => intros ? ?; discriminate
    end.

(** Every exported function is a [boundary] around such an operation; only
    [meta_error_v1] looks at the text. *)
Definition error_query (c : api_call) : bool := match c with CallError _ _ _ => true | _ => false end.

Lemma exec_call_boundary c : exists op, (forall t w, exec_call android c t w = boundary op t w) /\
  errorless (error_query c) op /\ honest op.
Proof.
  destruct c; (eexists; split; [intros t w; reflexivity|]); (split; [cbn [error_query]; errfree|frank]).
Qed.

(** When [meta_error_v1] itself fails, its own text does not depend on the one
    it was to report. *)
Lemma error_query_text b c l t w e w' w0 : meta_error_v1 b c l t w = (META_ERROR, w') ->
  meta_error_v1 b c l t (set_error t e w) = (META_ERROR, w0) -> error_text w0 t = error_text w' t.
Proof.
  assert (G : forall w x, meta_error_v1 b c l t w = (META_ERROR, x) ->
    error_text x t = if l =? 0 then lit "output length is required" else lit "invalid output buffer").
  { intros v x. unfold meta_error_v1, boundary, this_thread, gets, fbind. rewrite output_run.
    destruct (l =? 0); [intros E; injection E as <-; cbn; unfold set_at; now rewrite Z.eqb_refl|]. cbv zeta.
    destruct (c <? _); [discriminate|]. destruct (_ =? 0); [discriminate|]. destruct (b =? 0); [|discriminate].
    intros E. injection E as <-. cbn. unfold set_at. now rewrite Z.eqb_refl. }
  intros E E0. now rewrite (G _ _ E), (G _ _ E0).
Qed.

(** "Each function returning META_ERROR records a thread-local error": what the
    thread reads afterwards is the text of this call, the same whatever text an
    earlier call had left.  Only [meta_error_v1], whose answer is that text, may
    get another status with another one. *)
Definition error_recorded (c : api_call) t w : Prop :=
  forall earlier s0 w0, exec_call android c t (set_error t earlier w) = (s0, w0) ->
    (error_query c = false -> s0 = META_ERROR) /\
    (s0 = META_ERROR -> error_text w0 t = error_text (snd (exec_call android c t w)) t).

Lemma recorded_by_boundary c t w : fst (exec_call android c t w) = META_ERROR -> error_recorded c t w.
Proof.
  intros E e s0 w0 E0. destruct (error_query c) eqn:Q.
  - split; [discriminate|]. intros ->. destruct c; try discriminate. cbn [exec_call] in *.
    destruct (meta_error_v1 buffer capacity length t w) as [s w'] eqn:E1. cbn [fst snd] in *. subst s.
    exact (error_query_text _ _ _ _ _ _ _ _ E1 E0).
  - destruct (exec_call_boundary c) as (op & B & He & Hh). rewrite B in *. rewrite Q in He.
    specialize (He t w) as [_ He]. specialize (Hh t w). unfold boundary in *. rewrite (He eq_refl) in E0.
    destruct (op t w) as [[s1|x|] w1]; cbn [fst snd] in *; injection E0 as <- <-; [congruence|..];
      (split; [reflexivity|]); intros _; cbn [set_error error_text]; unfold set_at; now rewrite Z.eqb_refl.
Qed.

(** The calls that begin with looking up their handle. *)
Definition looks_up (c : api_call) : option Z :=
  match c with
  | CallStart _ id | CallStop id | CallDestroy id | CallCloseConnections id | CallNetworkChanged id
  | CallSnapshot id _ _ _ | CallStatus id _ _ _ | CallSelect id _ _ _ _ | CallDnsLeak _ id _ _ _ _ => Some id
  | _ => None
  end.

(** What such a call records when there is no such handle, and when a panic has
    left the registry unusable. *)
Lemma lookup_failure c id t w : looks_up c = Some id ->
  (handles_poisoned w = true ->
   exec_call android c t w = (META_ERROR, set_error t (lit "panic contained at C ABI boundary") w)) /\
  (handles_poisoned w = false -> assoc id (handles w) = None ->
   exec_call android c t w = (META_ERROR, set_error t (lit "invalid or destroyed core handle") w)).
Proof.
  assert (G : forall (k : Handle CoreState -> ffi meta_status) i, i = id ->
    (handles_poisoned w = true -> boundary (let! h := handle i in k h) t w =
      (META_ERROR, set_error t (lit "panic contained at C ABI boundary") w)) /\
    (handles_poisoned w = false -> assoc id (handles w) = None -> boundary (let! h := handle i in k h) t w =
      (META_ERROR, set_error t (lit "invalid or destroyed core handle") w))).
  { intros k i ->. unfold boundary, fbind. split.
    - intros H. unfold handle, lock_handles, gets, fbind. now rewrite H.
    - intros H A. now rewrite handle_eq, A by exact H. }
  destruct c; try discriminate; intros E; injection E as E; exact (G _ _ E).
Qed.

(** C19: Every exported function records an error exactly when it returns
    META_ERROR: on any other status no thread's text changes; on META_ERROR that
    of the calling thread alone does, and it is then the text of this call,
    whatever text had been left there before.  In particular a call that begins
    with its handle records that the handle is invalid or destroyed, or, when the
    registry cannot be locked, that a panic was contained. *)
Theorem every_call_records_errors c t w s w' :
  exec_call android c t w = (s, w') ->
  error_frame t (view_of w) s (view_of w') /\ (s = META_ERROR -> error_recorded c t w) /\
  forall id, looks_up c = Some id ->
    (handles_poisoned w = true -> s = META_ERROR /\ error_text w' t = lit "panic contained at C ABI boundary") /\
    (handles_poisoned w = false -> assoc id (handles w) = None ->
     s = META_ERROR /\ error_text w' t = lit "invalid or destroyed core handle").
Proof.
  intros E. split; [|split; [intros ->; apply recorded_by_boundary; now rewrite E|]].
  2: { intros id L. destruct (lookup_failure c id t w L) as [L1 L2].
       split; intros; [rewrite L1 in E by assumption|rewrite L2 in E by assumption]; injection E as <- <-;
         (split; [reflexivity|]); cbn [set_error error_text]; unfold set_at; now rewrite Z.eqb_refl. }
  revert E. destruct (exec_call_boundary c) as (op & B & He & Hh). rewrite B. clear B. intros E.
  specialize (He t w) as [[He _] _]. specialize (Hh t w). unfold boundary in E.
  destruct (op t w) as [[s1|e|] w1]; cbn [fst snd] in *; injection E as <- <-.
  - apply error_frame_ok; [congruence|exact He].
  - now apply error_frame_fail.
  - now apply error_frame_fail.
Qed.


(** ** Calls on a core *)

(** C28: Closing connections, reporting the network, selecting a node, closing
    one connection, and an online update of a live handle change the core of
    that handle exactly as the core's own operation does and no other, fail
    exactly when it fails or the arguments are invalid, and write no memory; a
    change of network is noted unless the core is stopped.  An update whose
    object has a key other than mode, rules and adblock-allow is refused with
    nothing changed; the exceptions are set first, then mode and rules. *)
Theorem core_calls_meet_contract t w s w' h p n q k :
  handles_poisoned w = false -> callback w t = false ->
  (meta_close_connections_v1 h t w = (s, w') ->
   meta_close_connections_v1_contract h t (view_of w) s (view_of w')) /\
  (meta_set_network_v1 h p n t w = (s, w') ->
   meta_set_network_v1_contract h p n t (view_of w) s (view_of w')) /\
  (meta_select_v1 h p n q k t w = (s, w') ->
   meta_select_v1_contract h p n q k t (view_of w) s (view_of w')) /\
  (meta_close_connection_v1 h p n t w = (s, w') ->
   meta_close_connection_v1_contract h p n t (view_of w) s (view_of w')) /\
  (meta_network_changed_v1 h t w = (s, w') ->
   meta_network_changed_v1_contract h t (view_of w) s (view_of w')) /\
  (assoc h (handles w) <> None -> meta_update_v1 h p n t w = (s, w') ->
   meta_update_v1_contract h p n t (view_of w) s (view_of w')).
Proof.
  intros P B. split; [now apply close_connections_contract|]. split; [now apply set_network_contract|].
  split; [now apply select_contract|]. split; [now apply close_connection_contract|].
  split; [now apply network_changed_contract|]. intros Lv.
  destruct (assoc h (handles w)) as [x|] eqn:A; [|easy]. now apply (update_contract h x).
Qed.

(** An online update without any key is accepted for every handle, even one
    that was never created or is destroyed: the handle is looked up only when a
    key is present.  The header says that handles are checked. *)
Theorem empty_update_ignores_handle t w h p n j v :
  argument input_limit (mem w) p n = Some j -> from_slice j = Ok v -> as_object v = Some [] ->
  meta_update_v1 h p n t w = (META_OK, w).
Proof.
  intros A J O. unfold meta_update_v1, boundary, fbind. rewrite input_eq, A. unfold lift. rewrite J.
  unfold context_of. rewrite O. reflexivity.
Qed.

(** ** Callbacks *)

Definition lifecycle_call (c : api_call) : bool :=
  match c with
  | CallCreate _ _ _ _ | CallCreateTunnel _ _ _ _ _ _ | CallStart _ _ | CallStop _ | CallDestroy _
  | CallNetworkChanged _ | CallSetTunFd _ _ _ => true
  | _ => false
  end.

Lemma create_refused data len hooks out dir t w : callback w t = true ->
  exists e w0, create android data len hooks out dir t w = (META_ERROR, set_error t e w0) /\
    handles w0 = handles w /\ next w0 = next w.
Proof.
  intros B. unfold create, boundary, ensure, fbind, write_mem, modify. cbv beta iota.
  destruct (negb (out =? 0)); cbn [fret ferr]; [|now do 2 eexists].
  unfold prepare, check_lifecycle, this_thread, gets, ensure, fbind. cbn [set_mem callback].
  rewrite B. cbn [negb ferr]. now do 2 eexists.
Qed.

Lemma refused_in_callback c t w : callback w t = true -> lifecycle_call c = true ->
  fst (exec_call android c t w) = META_ERROR /\
  handles (snd (exec_call android c t w)) = handles w /\ next (snd (exec_call android c t w)) = next w.
Proof.
  intros B Hc.
  assert (L : forall id f k s w', boundary (let! h := handle id in check_lifecycle ;! on_handle (A := unit) id h f ;! k) t w = (s, w') ->
    s = META_ERROR /\ handles w' = handles w /\ next w' = next w).
  { intros id f k s w' E. apply lifecycle_call_run in E as [E|(x & _ & _ & B' & _)]; [exact E|congruence]. }
  assert (R : forall data len hooks out dir, fst (create android data len hooks out dir t w) = META_ERROR /\
    handles (snd (create android data len hooks out dir t w)) = handles w /\
    next (snd (create android data len hooks out dir t w)) = next w).
  { intros. destruct (create_refused data len hooks out dir t w B) as (e & w0 & -> & Eh & En). auto. }
  destruct c; try discriminate; cbn [exec_call]; try apply R;
    match goal with |- fst ?e = _ /\ _ => destruct e as [s w'] eqn:E end; cbn [fst snd].
  1-4: exact (L _ _ _ _ _ E).
  apply set_tun_fd_run in E as [(-> & e & ->)|[_ E]]; [auto|]. exact (L _ _ _ _ _ E).
Qed.

(** C31: On a thread that is running a host callback every lifecycle call
    (create, start, stop, destroy, setting a TUN descriptor) and
    [meta_network_changed_v1] returns
    META_ERROR and leaves the registry as it was, the cores of all handles
    included.  For a change of network the header gives an unknown or stopped
    core as the only reasons to fail. *)
Theorem lifecycle_refused_in_callback c t w : callback w t = true -> lifecycle_call c = true ->
  fst (exec_call android c t w) = META_ERROR /\
  handles (snd (exec_call android c t w)) = handles w /\ next (snd (exec_call android c t w)) = next w.
Proof. apply refused_in_callback. Qed.

(** ** Host callbacks

    [HostHooks::protect_socket] and the notification of [HostPackets::send]
    call the host under a [Scope], which sets the flag of the thread and puts
    the former value back.  A host callback makes some calls of the interface
    and returns a code. *)

Fixpoint callback_calls (cs : list api_call) t w : list meta_status * world :=
  match cs with
  | [] => ([], w)
  | c :: cs' =>
      let '(s, w1) := exec_call android c t w in
      let '(ss, w2) := callback_calls cs' t w1 in (s :: ss, w2)
  end.

Definition host_callback : Type := list api_call * Z.

(** [Scope::enter], the callback, [Scope::drop]. *)
Definition in_scope (host : host_callback) t w : list meta_status * world :=
  let saved := callback w t in
  let '(ss, w1) := callback_calls (fst host) t (set_callback t true w) in
  (ss, set_callback t saved w1).

Definition protect_socket (hooks : HostHooks) (host : host_callback) : ffi unit :=
  fun t w =>
    if protect hooks =? 0 then (Ok tt, w)
    else
      let '(_, w1) := in_scope host t w in
      (if snd host =? 0 then Ok tt else Err (lit "host rejected socket protection"), w1).

(** The end of [HostPackets::send], when [queued] asked for a notification. *)
Definition notify_host (hooks : HostHooks) (host : host_callback) : ffi unit :=
  fun t w => if notify hooks =? 0 then (Ok tt, w) else (Ok tt, snd (in_scope host t w)).

Lemma call_keeps_callback c t w : callback (snd (exec_call android c t w)) = callback w.
Proof.
  destruct (exec_call_boundary c) as (op & B & He & _). rewrite B. specialize (He t w) as [[_ He] _].
  unfold boundary. now destruct (op t w) as [[]].
Qed.

Lemma call_in_callback c t w : callback w t = true -> same_registry w (snd (exec_call android c t w)) /\
  (lifecycle_call c = true -> fst (exec_call android c t w) = META_ERROR).
Proof.
  intros B. destruct (lifecycle_call c) eqn:Hc.
  - destruct (refused_in_callback c t w B Hc) as (E & Eh & En). split; [|auto].
    unfold same_registry, phase_in. now rewrite Eh, En.
  - split; [|discriminate]. apply other_calls_quiet. now destruct c.
Qed.

Lemma calls_in_callback cs t w : callback w t = true ->
  let '(ss, w') := callback_calls cs t w in
  same_registry w w' /\ callback w' = callback w /\
  Forall2 (fun c s => lifecycle_call c = true -> s = META_ERROR) cs ss.
Proof.
  revert w. induction cs as [|c cs IH]; intros w B; cbn [callback_calls]; [now repeat split|].
  pose proof (call_in_callback c t w B) as [R E]. pose proof (call_keeps_callback c t w) as F.
  destruct (exec_call android c t w) as [s w1]. cbn [fst snd] in *. specialize (IH w1).
  destruct (callback_calls cs t w1) as [ss w2]. rewrite F in IH. destruct (IH B) as (R2 & F2 & E2).
  split; [now apply (same_registry_trans _ w1)|]. split; [exact F2|]. now constructor.
Qed.

(** C18: Whatever calls a host makes inside a callback, the lifecycle calls
    among them return META_ERROR and the registry is afterwards as it was,
    handle by handle in the same phase; when the callback has returned, the
    calls of the thread are accepted again exactly as before it, also when
    callbacks nest.  Protecting a socket succeeds exactly when the host has no
    such hook or its hook returns zero. *)
Theorem callbacks_keep_lifecycle hooks host t w :
  Forall2 (fun c s => lifecycle_call c = true -> s = META_ERROR) (fst host) (fst (in_scope host t w)) /\
  (fst (protect_socket hooks host t w) = Ok tt <-> socket_protected (protect hooks) (snd host) = true) /\
  forall w', w' = snd (protect_socket hooks host t w) \/ w' = snd (notify_host hooks host t w) ->
    same_registry w w' /\ forall t', callback w' t' = callback w t'.
Proof.
  assert (S : let '(ss, w') := in_scope host t w in
    same_registry w w' /\ (forall t', callback w' t' = callback w t') /\
    Forall2 (fun c s => lifecycle_call c = true -> s = META_ERROR) (fst host) ss).
  { unfold in_scope. pose proof (calls_in_callback (fst host) t (set_callback t true w)) as H.
    destruct (callback_calls _ _ _) as [ss w1]. cbn [set_callback callback] in H.
    unfold set_at at 1 in H. rewrite Z.eqb_refl in H. destruct (H eq_refl) as (R & F & E).
    split; [exact R|]. split; [|exact E]. intros t'. cbn [set_callback callback]. rewrite F. unfold set_at.
    now destruct (Z.eqb_spec t' t) as [->|]. }
  unfold protect_socket, notify_host. destruct (in_scope host t w) as [ss w1]. destruct S as (R & F & E).
  split; [exact E|]. split.
  - unfold socket_protected. destruct (protect hooks =? 0); [now split|]. cbn [fst orb].
    now destruct (snd host =? 0).
  - intros w' [->| ->]; [destruct (protect hooks =? 0)|destruct (notify hooks =? 0)]; cbn [snd];
      first [now split | split; [apply same_registry_refl|reflexivity]].
Qed.

End Errors.
