(* ===== verification/TunFd.v ===== *)
(** * The descriptor of an Android tunnel

    [meta_set_tun_fd_v1] meets its contract, and once it has succeeded the
    packet calls on that handle are refused for good, whatever calls follow:
    no exported function gives the packet queue back. *)
From S2P Require Import Prelude CMemory CApi ConfigCrypto Host Ffi FfiContract ConfigCalls LogBuffer HandleCalls Lifecycle CreateCalls.
From Stdlib Require Import String ZArith List Lia Bool.
Import ListNotations.
Open Scope Z_scope.

Section TunFd.
Context {K : Crates} {M : Mpsc} {C : CipherCrates}.
Variable android : bool.
Implicit Types (t : thread) (w : world) (s : meta_status).

(** ** The call itself *)

Lemma set_fd_effect se re k x r (y : Handle CoreState) : set_fd se re k x = (r, y) ->
  core y = core x /\ lifecycle_started y = lifecycle_started x /\ tun_enable y = tun_enable x /\
  match r with
  | Ok _ => tun_enable x = true /\ lifecycle_started x = false /\ stop x = false /\
            packet_queue_enabled y = false /\ stop y = false
  | _ => packet_queue_enabled y = packet_queue_enabled x
  end.
Proof.
  unfold set_fd. destruct (stop x) eqn:S; [now intros [= <- <-]|].
  destruct k as [| |device]; [now intros [= <- <-]..|].
  destruct (lifecycle_started x) eqn:L; [now intros [= <- <-]|].
  destruct (tun_enable x) eqn:T; cbn [orb negb]; [|now intros [= <- <-]].
  destruct device as [[]|e|]; intros [= <- <-]; cbn; now rewrite ?L, ?T, ?S.
Qed.

(** C29: Setting the TUN descriptor succeeds only for a non-negative descriptor
    and a handle with [tun.enable] whose core is neither started nor stopped;
    the packet queue of that handle is then closed and everything else about
    its core, and every other handle, is as before.  A failure closes no packet
    queue. *)
Theorem tun_fd_meets_contract k h fd t w s w' :
  meta_set_tun_fd_v1 k h fd t w = (s, w') ->
  meta_set_tun_fd_v1_contract h fd t (view_of w) s (view_of w').
Proof.
  intros E. unfold meta_set_tun_fd_v1_contract, v_live, v_core.
  assert (Same : forall e w0, mem w0 = mem w -> handles w0 = handles w -> error_text w0 = error_text w ->
    meta_set_tun_fd_v1_contract h fd t (view_of w) META_ERROR (view_of (set_error t e w0))).
  { intros e w0 Em Eh Ee. split; [now apply error_frame_fail|].
    unfold v_live, v_core. cbn [view_of v_mem v_cores set_error mem handles]. rewrite Em, Eh.
    split; [reflexivity|]. split; [reflexivity|]. split; [reflexivity|]. cbn [Core api].
    now destruct (assoc h (handles w)). }
  apply set_tun_fd_run in E as [(-> & e & ->)|[Hf E]]; [now apply Same|].
  unfold boundary, fbind, handle, lock_handles, gets, context_of, fret, ferr, fpanic, check_lifecycle, ensure,
    this_thread, fbind, gets, ferr, fret in E.
  destruct (handles_poisoned w); [injection E as <- <-; now apply Same|].
  destruct (assoc h (handles w)) as [x|] eqn:A; [|injection E as <- <-; now apply Same].
  destruct (callback w t); cbn [negb] in E; [injection E as <- <-; now apply Same|].
  unfold on_handle in E. destruct (set_fd send_error recv_error k x) as [r y] eqn:F.
  apply set_fd_effect in F as (Ec & El & Et & F). unfold put_handle, modify, lift, fbind in E.
  cbn [view_of v_mem v_cores Core api]. rewrite A.
  assert (R : mem w' = mem w /\ handles w' = assoc_set h y (handles w))
    by (destruct r; injection E as <- <-; now split).
  destruct R as [Em Eh]. rewrite Em, Eh, (assoc_set_same _ _ _ _ A).
  split; [destruct r; injection E as <- <-; [now apply error_frame_ok|now apply error_frame_fail..]|].
  split; [reflexivity|]. split; [apply assoc_set_keys|]. split; [intros i Hi; now apply assoc_set_other|].
  cbn [Core api tunnel started stopped packet_queue settings policy]. rewrite Ec, El.
  destruct r; injection E as <- <-; cbn; intuition congruence.
Qed.

(** ** The queue stays closed *)

Section Sealed.
Variable h : Z.

Definition sealed w : Prop :=
  h < next w /\ forall x, assoc h (handles w) = Some x -> packet_queue_enabled x = false.

Definition seals {A} (m : ffi A) : Prop := forall t w, sealed w -> sealed (snd (m t w)).

Lemma seals_bind {A B} (m : ffi A) (k : A -> ffi B) : seals m -> (forall a, seals (k a)) -> seals (fbind m k).
Proof.
  intros Hm Hk t w S. unfold fbind. specialize (Hm t w S).
  destruct (m t w) as [[a| |] w1]; cbn [snd] in *; try exact Hm. now apply Hk.
Qed.

Lemma silent_seals {A} (m : ffi A) : silent m -> seals m.
Proof. intros H t w S. destruct (H t w) as [E N]. unfold sealed in *. now rewrite E, N. Qed.

(** What is known of a handle that was looked up. *)
Definition closed_at (id : Z) (x : Handle CoreState) : Prop := id = h -> packet_queue_enabled x = false.

Lemma seals_handle {B} id (k : Handle CoreState -> ffi B) :
  (forall x, closed_at id x -> seals (k x)) -> seals (fbind (handle id) k).
Proof.
  intros Hk t w S. unfold fbind. pose proof (silent_seals _ (handle_silent id) t w S) as Q.
  destruct (handle id t w) as [[x| |] w1] eqn:E; cbn [snd] in *; try exact Q.
  apply handle_ok in E as [-> L]. apply Hk; [|exact S]. intros ->. now apply S.
Qed.

Lemma seals_with id x w : closed_at id x -> sealed w -> sealed (with_handle id x w).
Proof.
  intros Hx [Hn S]. split; [exact Hn|]. cbn [with_handle set_registry handles]. intros y L.
  destruct (Z.eq_dec h id) as [<-|Hi].
  - destruct (assoc h (handles w)) as [z|] eqn:A.
    + rewrite (assoc_set_same _ _ _ _ A) in L. injection L as <-. now apply Hx.
    + now rewrite assoc_set_none in L.
  - rewrite assoc_set_other in L by exact Hi. now apply S.
Qed.

Lemma seals_put id x : closed_at id x -> seals (put_handle id x).
Proof. intros Hx t w S. now apply (seals_with id x). Qed.

Lemma seals_on_handle {A} id x (f : Handle CoreState -> outcome A * Handle CoreState) : closed_at id x ->
  (packet_queue_enabled x = false -> packet_queue_enabled (snd (f x)) = false) -> seals (on_handle id x f).
Proof.
  intros Hx Hf. unfold on_handle. destruct (f x) as [r y]. cbn [snd] in Hf.
  apply seals_bind; [apply seals_put; intros E; now apply Hf, Hx|]. intros _. now apply silent_seals.
Qed.

Lemma seals_register config hooks : seals (register android config hooks).
Proof.
  intros t w [Hn S]. unfold register, lock_handles, gets, ensure, modify, fbind, fret, ferr, fpanic.
  destruct (handles_poisoned w); [now split|]. destruct (_ <? 16); [|now split].
  destruct (_ <? 2 ^ 64); [|now split]. destruct (new_handle _ _ _ _) as [x| |]; cbn [snd].
  - split; cbn [set_registry next handles]; [lia|]. intros y. cbn [assoc].
    destruct (Z.eqb_spec (next w) h); [lia|]. apply S.
  - split; cbn [set_registry next handles]; [lia|exact S].
  - split; cbn [set_registry next handles]; [lia|exact S].
Qed.

Lemma seals_remove id : seals (modify (fun w =>
  set_registry (assoc_remove id (handles w)) (handles_poisoned w) (next w) w)).
Proof.
  intros t w [Hn S]. split; [exact Hn|]. cbn [modify snd set_registry handles]. intros x.
  rewrite assoc_remove_spec. destruct (h =? id); [discriminate|]. apply S.
Qed.

Lemma shutdown_queue (x : Handle CoreState) : packet_queue_enabled (snd (shutdown x)) = packet_queue_enabled x.
Proof. unfold shutdown. now destruct (worker (set_stop true x)) as [[]|]. Qed.

Lemma start_queue se re k (x : Handle CoreState) :
  packet_queue_enabled (snd (start se re k x)) = packet_queue_enabled x.
Proof.
  unfold start, start_with_packets. destruct (stop x); [reflexivity|]. destruct k as [| |inner]; try reflexivity.
  destruct (negb (Bool.eqb _ _)); [reflexivity|]. destruct (negb (_ && _)); [reflexivity|].
  now destruct (fst inner) as [[]|e|].
Qed.

Lemma set_fd_queue se re k (x : Handle CoreState) : packet_queue_enabled x = false ->
  packet_queue_enabled (snd (set_fd se re k x)) = false.
Proof.
  intros Hx. destruct (set_fd se re k x) as [r y] eqn:F. apply set_fd_effect in F as (_ & _ & _ & F).
  cbn [snd]. destruct r; [apply F|congruence..].
Qed.

Lemma network_queue (x : Handle CoreState) :
  packet_queue_enabled (snd (network_changed x)) = packet_queue_enabled x.
Proof. unfold network_changed. now destruct (stop x). Qed.

Lemma probe_queue k name ms (x : Handle CoreState) :
  packet_queue_enabled (snd (probe k name ms x)) = packet_queue_enabled x.
Proof. destruct (probe_keeps_handle k name ms x) as [c ->]. reflexivity. Qed.

Lemma seals_on_core id x f : closed_at id x -> seals (on_core id x f).
Proof. intros Hx. apply seals_on_handle; [exact Hx|]. now destruct (f (core x)). Qed.

(** Decide [seals] by the shape of the program. *)
Ltac seal :=
  cbv zeta;
  repeat lazymatch goal with
    | |- seals (fbind (handle _) _) => apply seals_handle; intros ? ?
    | |- seals (fbind _ _) => apply seals_bind; [|intros ?]
    | |- seals (match ?x with _ => _ end) => destruct x eqn:?
    | |- seals (register _ _ _) => apply seals_register
    | |- seals (prepare _ _ _ _) => apply silent_seals, prepare_silent
    | |- seals (modify (fun _ => set_registry (assoc_remove _ _) _ _ _)) => apply seals_remove
    | |- seals (on_core _ _ _) => apply seals_on_core; assumption
    | |- seals (on_handle _ _ _) => apply seals_on_handle; [assumption|]
    | |- seals (put_handle _ _) => apply seals_put; assumption
    | |- seals _ => apply silent_seals; hush
    end.

Lemma boundary_sealed op t w : seals op -> sealed w -> sealed (snd (boundary op t w)).
Proof. intros H S. specialize (H t w S). unfold boundary. destruct (op t w) as [[]]; exact H. Qed.

Lemma call_sealed c t w : sealed w -> sealed (snd (exec_call android c t w)).
Proof.
  destruct c; apply boundary_sealed; seal; intros Hq;
    rewrite ?shutdown_queue, ?start_queue, ?network_queue, ?probe_queue; auto using set_fd_queue.
Qed.

(** The packet calls of the handle. *)
Definition packet_call (c : api_call) : bool :=
  match c with
  | CallWritePacket id _ _ | CallReadPacket id _ _ _ => id =? h
  | _ => false
  end.

Lemma sealed_refused c t w : sealed w -> packet_call c = true -> fst (exec_call android c t w) = META_ERROR.
Proof.
  intros [_ S] Hc. destruct c; try discriminate; cbn [packet_call] in Hc; apply Z.eqb_eq in Hc as ->;
    cbn [exec_call].
  - unfold meta_write_packet_v1. cbv zeta. unfold boundary, fbind, ensure.
    destruct (_ && _); [|reflexivity]. cbn [fret]. rewrite input_eq.
    destruct (argument _ _ _ _); [|reflexivity]. destruct (_ || _); [|reflexivity]. cbn [fret].
    destruct (handle h t w) as [[x| |] w1] eqn:E; [|reflexivity..]. apply handle_ok in E as [-> L].
    destruct (negb (stop x)); [|reflexivity]. unfold lift, check_packet_queue. now rewrite (S x L).
  - unfold meta_read_packet_v1, boundary, fbind, ensure. destruct (negb _); [|reflexivity].
    cbn [fret write_mem modify].
    destruct (handle h t (set_mem _ w)) as [[x| |] w1] eqn:E; [|reflexivity..]. apply handle_ok in E as [-> L].
    unfold lift, check_packet_queue. now rewrite (S x L).
Qed.

End Sealed.

(** Calls one after the other, each by some thread. *)
Fixpoint exec_calls (cs : list (api_call * thread)) w : world :=
  match cs with
  | [] => w
  | (c, t) :: cs' => exec_calls cs' (snd (exec_call android c t w))
  end.

Lemma run_sealed h cs w : sealed h w -> sealed h (exec_calls cs w).
Proof. revert w. induction cs as [|[c t] cs IH]; intros w S; [exact S|]. now apply IH, call_sealed. Qed.

(** C23: Once a TUN descriptor is set, reading and writing packets of that
    handle returns META_ERROR, whatever calls of any thread come in between:
    nothing the host can call gives the packet queue back, and the handle's
    identifier is never given to another core. *)
Theorem tun_fd_closes_packet_calls k h fd t w w1 cs c t' :
  registry_inv w -> meta_set_tun_fd_v1 k h fd t w = (META_OK, w1) -> packet_call h c = true ->
  fst (exec_call android c t' (exec_calls cs w1)) = META_ERROR.
Proof.
  intros I E Hc. apply (sealed_refused h); [|exact Hc]. apply run_sealed.
  apply set_tun_fd_run in E as [(? & _)|[_ E]]; [discriminate|].
  apply lifecycle_call_run in E as [(? & _)|(x & L & _ & _ & E)]; [discriminate|].
  destruct (set_fd send_error recv_error k x) as [r y] eqn:F. apply set_fd_effect in F as (_ & _ & _ & F).
  cbn [fst snd] in E. destruct r as [u| |]; [|destruct E; discriminate..].
  unfold boundary, fret in E. injection E as <-. split.
  - destruct I as (_ & B & _). rewrite Forall_forall in B. cbn [with_handle set_registry next].
    apply B. exact (assoc_in_keys _ _ _ L).
  - cbn [with_handle set_registry handles]. intros z. rewrite (assoc_set_same _ _ _ _ L).
    intros [= <-]. apply F.
Qed.

End TunFd.
