(* ===== verification/ApiDemo.v ===== *)
(** * The C interface at work

    Concrete crates (a parser that keeps the text, a stream cipher that
    complements every byte, the Base64 of [Base64], a list as a channel)
    with the laws the other files assume, a process with a core in it, and the
    theorems about the interface applied to calls on them. *)
From S2P Require Import Prelude Transition CMemory CApi Base64 ConfigCrypto Host Ffi FfiContract ConfigCalls LogBuffer HandleCalls PacketCalls PacketWake Lifecycle CreateCalls ApiContract TunFd.
From Stdlib Require Import String ZArith List Lia Bool.
Import ListNotations.
Open Scope Z_scope.

(** ** Crates *)

Inductive demo_json : Type :=
  | JText (x : text)
  | JObject (keys : list text).

Definition demo_config (y : text) : Config text :=
  {| directory := lit "/"; internal_host_packet_io := false; port := 7890; socks_port := 7891;
     mixed_port := 0; allow_lan := true; external_controller := Some (lit "127.0.0.1:9090");
     external_ui := []; log_level := lit "info"; log_path := []; dns_enable := true;
     tun := {| tun_on := false; auto_route := true; auto_dns := true; auto_detect_interface := true;
               interface := None; mtu := 9000; dns_hijack := [] |};
     rest := y |}.

Definition nonempty (y : text) : outcome unit :=
  match y with [] => Err (lit "empty") | _ => Ok tt end.

Definition demo_object (j : text) : demo_json :=
  if text_eqb j (lit "{}") then JObject [] else JObject [lit "mode"].

#[export] Instance demo_crates : Crates := {|
  Os := list text; CoreState := Config text * list (text * (option Z * option text * Z)); ConfigRest := text;
  Config_parse y := obnd (nonempty y) (fun _ => Ok (demo_config y));
  custom_validate := nonempty;
  custom_targets y := obnd (nonempty y) (fun _ => Ok [lit "DIRECT"; lit "REJECT"]);
  custom_apply y rs := obnd (nonempty y) (fun _ => Ok (y ++ concat rs, []));
  Overrides := text;
  overrides_apply o y := obnd (nonempty y) (fun _ => Ok (y ++ o));
  SyntaxError := unit;
  syntax_check y := match y with [] => Some tt | _ => None end;
  NetworkInfo := text;
  CosRequest := text; CosTarget := text;
  from_url u := Some u;
  cos_put_object o r d := (Ok tt, d :: o);
  Core_new o c h := Ok (c, []);
  core_config k := fst k;
  spawn_worker o := Ok WorkerReturns;
  resource_freshness o k := Ok Expired;
  prepare_resources o k := (Ok tt, rest (fst k) :: o);
  core_connections_count k := 3; core_upload k := 100; core_download k := 200;
  core_close_connections k := k;
  core_close_connection k i := k;
  core_set_network k n := (Ok tt, k);
  core_select k g n := (Ok tt, k);
  AllowList := text; Mode := text;
  core_set_adblock_allow k a := (Ok tt, k);
  core_update_policy k m r := (Ok tt, k);
  core_insert_delay k n d := k;
  core_insert_probe k n e := (fst k, (n, e) :: snd k);
  core_probes k n := member n (snd k);
  Target := text;
  parse_test_target x p := Ok x;
  RouteTest := text; DnsLeakAudit := unit; DnsLeakTest := text;
  core_dns_leak_audit k := tt;
  path_is_absolute p := match p with b :: _ => b =? 47 | [] => false end;
  path_is_dir o p := true;
  path_join p q := p ++ 47 :: q;
  dup_fd o fd := Ok tt;
  utf8_error _ := lit "invalid utf-8 sequence";
  send_error := lit "no available capacity"; recv_error := lit "timed out";
  Value := demo_json;
  from_slice j := obnd (nonempty j) (fun _ => Ok (demo_object j));
  strings_from_slice j := obnd (nonempty j) (fun _ => Ok [j]);
  overrides_from_slice j := Ok j;
  network_from_slice j := Ok j;
  cos_request_from_slice j := obnd (nonempty j) (fun _ => Ok j);
  as_object v := match v with JObject ks => Some (map (fun k => (k, JText k)) ks) | _ => None end;
  as_str v := match v with JText x => Some x | _ => None end;
  as_u64 v := None;
  is_null v := false;
  value_index v k := v;
  allow_from_value v := Ok []; mode_from_value v := Ok []; rules_from_value v := Ok [];
  strings_to_vec l := Ok (concat l);
  applied_to_vec a := Ok (fst a);
  syntax_to_vec e := Ok (match e with Some _ => lit "error" | None => lit "null" end);
  cos_target_to_vec u := Ok (match u with Some x => x | None => lit "null" end);
  snapshot_to_vec k s := Ok (rest (fst k));
  status_to_vec s n u d := Ok [n; u; d];
  route_to_vec x := Ok x;
  dns_leak_to_vec a x := Ok (match x with Some y => y | None => lit "review" end) |}.

#[export] Instance demo_core : CoreLaws demo_crates.
Proof. constructor. intros o c h k E. now injection E as <-. Qed.

#[export] Instance demo_probes : ProbeLaws demo_crates.
Proof.
  constructor; try reflexivity. intros c n e m. cbn [core_probes core_insert_probe demo_crates snd].
  unfold member, text_eqb. cbn [find fst].
  destruct (list_eq_dec Z.eq_dec n m), (list_eq_dec Z.eq_dec m n); congruence || reflexivity.
Qed.

(** ** Channels *)

#[export] Instance demo_mpsc : Mpsc := {|
  channel := list text * Z * bool;
  mpsc_channel n := ([], n, false);
  try_send c x :=
    let '(q, n, b) := c in
    if (b : bool) then (SendClosed, c)
    else if zlength q <? n then (Sent, (q ++ [x], n, b)) else (SendFull, c);
  try_recv c :=
    match c with
    | (x :: q, n, b) => (Received x, (q, n, b))
    | ([], n, b) => (if (b : bool) then RecvDisconnected else RecvEmpty, c)
    end;
  close_channel c := (fst c, true);
  queued c := fst (fst c); capacity c := snd (fst c); closed c := snd c |}.

#[export] Instance demo_mpsc_laws : MpscLaws demo_mpsc.
Proof.
  constructor; cbn.
  - easy.
  - now intros [[q n] b].
  - intros [[q n] b] x E. cbn in E. now subst b.
  - intros [[q n] b] x E H. cbn in E, H |- *. subst b. now destruct (Z.ltb_spec (zlength q) n); [lia|].
  - intros [[q n] b] x E H. cbn in E, H |- *. subst b. destruct (Z.ltb_spec (zlength q) n); [|lia]. eauto.
  - intros [[q n] b] x q' E. cbn in E |- *. subst q. eauto.
  - intros [[q n] b] E. cbn in E |- *. now subst q.
Qed.

(** ** Ciphers *)

Definition complement (x : text) : text := map (fun b => 255 - b) x.

Definition demo_stream (a : aes) (key iv : text) : option (text -> text) :=
  if (zlength key =? key_size a) && (zlength iv =? 16) then Some complement else None.

#[export] Instance demo_ciphers : CipherCrates := {|
  cfb_encryptor := demo_stream;
  cfb_decryptor := demo_stream;
  base64_encode := EVP_EncodeBlock;
  base64_decode x := match decode_quads x with Some y => Ok y | None => Err (lit "Invalid symbol") end |}.

Lemma complement_bytes x : bytes x -> bytes (complement x).
Proof.
  unfold bytes, complement. rewrite Forall_map. apply Forall_impl. unfold is_byte. lia.
Qed.

Lemma complement_involutive x : complement (complement x) = x.
Proof. unfold complement. rewrite map_map. rewrite <- (map_id x) at 2. apply map_ext. lia. Qed.

Lemma demo_stream_eq a key iv e : demo_stream a key iv = Some e -> e = complement.
Proof. unfold demo_stream. destruct (_ && _); [|discriminate]. now intros [= <-]. Qed.

Lemma conv_visible w : is_byte (conv_bin2ascii (u8 w)) /\ ascii_whitespace (conv_bin2ascii (u8 w)) = false.
Proof.
  pose proof (all_bytes_spec (fun a => (0 <=? conv_bin2ascii a) && (conv_bin2ascii a <? 256) &&
    negb (ascii_whitespace (conv_bin2ascii a))) ltac:(vm_compute; reflexivity)
    (u8 w) (wrap_range 8 w ltac:(lia))) as H.
  cbv beta in H. bsplit. unfold is_byte. destruct (ascii_whitespace _); [discriminate|]. split; [lia|easy].
Qed.

Lemma EncodeBlock_visible src :
  Forall (fun b => is_byte b /\ ascii_whitespace b = false) (EVP_EncodeBlock src).
Proof.
  induction src using triple_ind; cbn [EVP_EncodeBlock];
    repeat first [apply Forall_nil | apply Forall_cons; [first [apply conv_visible | easy]|] | assumption].
Qed.

#[export] Instance demo_cipher_laws : CipherLaws demo_ciphers.
Proof.
  constructor; cbn [cfb_encryptor cfb_decryptor base64_encode base64_decode demo_ciphers].
  1, 2: intros a key iv Hk Hi; exists complement; unfold demo_stream; now rewrite Hk, Hi, Z.eqb_refl.
  - intros a key iv e x E Hx. apply demo_stream_eq in E as ->.
    split; [now apply complement_bytes|]. unfold complement, zlength. now rewrite length_map.
  - intros a key iv e d x E D _. apply demo_stream_eq in E as ->. apply demo_stream_eq in D as ->.
    apply complement_involutive.
  - apply zlength_EncodeBlock.
  - intros x _. eapply Forall_impl; [|apply EncodeBlock_visible]. now intros b [].
  - intros x _. eapply Forall_impl; [|apply EncodeBlock_visible]. now intros b [].
  - intros x Hx. now rewrite decode_encode_block.
Qed.

(** ** A process

    The host keeps a configuration at 1000, a password at 2000, a directory at
    3000, a JSON object without keys at 4000 and an IPv4 packet at 4500. *)

Definition demo_yaml : text := lit "mode: rule".
Definition demo_ip : text := 69 :: repeat 0 19.

Definition demo_mem : memory :=
  store_bytes (store_bytes (store_bytes (store_bytes (store_bytes (fun _ => 0) 1000 demo_yaml)
    2000 (lit "pw")) 3000 (lit "/data")) 4000 (lit "{}")) 4500 demo_ip.

Definition demo_world : world :=
  {| mem := demo_mem; error_text := fun _ => []; callback := fun t => t =? 7; handles := [];
     handles_poisoned := false; next := 1; log_lines := []; log_filter := None; panic_file := None;
     os := [] |}.

(** A packet tunnel, its handle written to 5000. *)
Definition demo_created : meta_status * world := meta_create_packet_tunnel_v1 false 1000 10 3000 5 0 5000 1 demo_world.
Definition demo_live : world := snd demo_created.

(** The same with a packet for the host. *)
Definition demo_waiting : world :=
  match assoc 1 (handles demo_live) with
  | Some h => with_handle 1 (set_output {| receiver := ([demo_ip], 256, false); pending := None; wake := true |} h)
                demo_live
  | None => demo_live
  end.

Lemma run_to (x : meta_status * world) s : fst x = s -> x = (s, snd x).
Proof. intros <-. apply surjective_pairing. Qed.

Ltac ran := apply run_to; vm_compute; reflexivity.
Ltac apart := unfold disjoint, sizeof_meta_hooks_v1; lia.

(** ** Configurations *)

Lemma text_calls_witness :
  let r := meta_custom_rule_targets_v1 1000 10 6000 100 7000 1 demo_world in
  let r' := meta_overrides_apply_v1 1000 10 4000 2 6000 5 7000 1 demo_world in
  fst r = META_OK /\
  meta_custom_rule_targets_v1_contract 1000 10 6000 100 7000 1 (view_of demo_world) META_OK (view_of (snd r)) /\
  meta_overrides_apply_v1_contract 1000 10 4000 2 6000 5 7000 1 (view_of demo_world) META_BUFFER_TOO_SMALL
    (view_of (snd r')).
Proof.
  intros r r'. split; [vm_compute; reflexivity|]. split.
  - destruct (text_calls_meet_contract 1 demo_world META_OK (snd r) 1000 10 0 0 6000 100 7000) as (H & _).
    apply H. ran.
  - destruct (text_calls_meet_contract 1 demo_world META_BUFFER_TOO_SMALL (snd r') 1000 10 4000 2 6000 5 7000)
      as (_ & _ & H & _). apply H. ran.
Defined.

Lemma plain_calls_witness :
  let r := meta_prefetch_resources_v1 1000 10 3000 5 1 demo_world in
  let r' := meta_resources_state_v1 1000 10 3000 5 7000 1 demo_world in
  os (snd r) = [demo_yaml] /\ load_u32 (mem (snd r')) 7000 = 1 /\
  meta_prefetch_resources_v1_contract 1000 10 3000 5 1 (view_of demo_world) META_OK (view_of (snd r)) /\
  meta_resources_state_v1_contract 1000 10 3000 5 7000 1 (view_of demo_world) META_OK (view_of (snd r')).
Proof.
  intros r r'. split; [vm_compute; reflexivity|]. split; [vm_compute; reflexivity|]. split.
  - destruct (plain_calls_meet_contract 1 demo_world META_OK (snd r) 1000 10 3000 5 0) as (_ & _ & H & _).
    apply H. ran.
  - destruct (plain_calls_meet_contract 1 demo_world META_OK (snd r') 1000 10 3000 5 7000) as (_ & _ & _ & H).
    apply H. ran.
Defined.

Definition demo_encrypted : meta_status * world := meta_encrypt_config_v1 1000 10 2000 2 5000 100 6000 1 demo_world.

Lemma cipher_calls_witness :
  let w := snd demo_encrypted in
  let r := meta_decrypt_config_v1 5000 16 2000 2 7000 100 8000 1 w in
  load_u64 (mem w) 6000 = 16 /\ load_bytes (mem (snd r)) 7000 10 = demo_yaml /\
  meta_encrypt_config_v1_contract 1000 10 2000 2 5000 100 6000 1 (view_of demo_world) META_OK (view_of w) /\
  meta_decrypt_config_v1_contract 5000 16 2000 2 7000 100 8000 1 (view_of w) META_OK (view_of (snd r)).
Proof.
  intros w r. split; [vm_compute; reflexivity|]. split; [vm_compute; reflexivity|].
  destruct (cipher_calls_meet_contract 1 demo_world META_OK w 1000 10 2000 2 5000 100 6000 ltac:(apart) ltac:(apart)) as [_ H1].
  destruct (cipher_calls_meet_contract 1 w META_OK (snd r) 5000 16 2000 2 7000 100 8000 ltac:(apart) ltac:(apart)) as [H2 _].
  split; [apply H1; ran|apply H2; ran].
Defined.

Lemma demo_yaml_bytes : bytes (load_bytes demo_mem 1000 10).
Proof.
  replace (load_bytes demo_mem 1000 10) with demo_yaml by (vm_compute; reflexivity).
  let v := eval vm_compute in demo_yaml in change (bytes v).
  repeat (constructor; [unfold is_byte; lia|]). constructor.
Qed.

Lemma export_import_witness :
  exists w2, meta_decrypt_config_v1 5000 (load_u64 (mem (snd demo_encrypted)) 6000) 2000 2 7000 100 8000 1
      (snd demo_encrypted) = (META_OK, w2) /\
    load_bytes (mem w2) 7000 10 = load_bytes demo_mem 1000 10 /\ load_u64 (mem w2) 8000 = 10.
Proof.
  apply (export_import_roundtrip 1 demo_world (snd demo_encrypted) 1000 10 2000 2 5000 100 6000 7000 100 8000);
    try apart; [exact demo_yaml_bytes|ran].
Defined.

(** ** Logs *)

Definition demo_log : list log_event :=
  [Logged (lit "a"); Logged (lit "b"); Drained 1 6000 1 7000; Drained 1 6000 100 7000; Logged (lit "c")].

Lemma log_buffer_witness :
  log_lines (fst (log_run demo_log demo_world [])) = lastn 2000 (snd (log_run demo_log demo_world [])) /\
  snd (log_run demo_log demo_world []) = [lit "c"] /\
  zlength (log_lines (fst (log_run demo_log demo_world []))) <= CAPACITY.
Proof.
  pose proof (log_buffer_latest demo_log demo_world eq_refl) as [A B].
  split; [exact A|]. split; [vm_compute; reflexivity|exact B].
Defined.

Lemma logs_delivered_witness :
  delivered demo_log demo_world = lit "a" ++ [10] ++ lit "b" ++ [10] /\
  delivered demo_log demo_world ++ log_text (log_lines (fst (log_run demo_log demo_world []))) =
  log_text (log_lines demo_world ++ logged demo_log).
Proof.
  split; [vm_compute; reflexivity|]. apply (logs_delivered_once demo_log demo_world).
  cbn [in_time demo_log]. refine (conj _ (conj _ (conj I (conj I (conj _ I))))); vm_compute; reflexivity.
Defined.

(** ** Handles *)

Lemma create_witness :
  load_u64 (mem demo_live) 5000 = 1 /\
  meta_create_packet_tunnel_v1_contract false 1000 10 3000 5 0 5000 1 (view_of demo_world) META_OK (view_of demo_live).
Proof.
  split; [vm_compute; reflexivity|].
  apply (create_meets_contract false 1 demo_world META_OK demo_live 1000 10 3000 5 0 5000); [|apart..|].
  - split; [cbn; lia|]. split; [constructor|]. split; [constructor|]. cbn. lia.
  - unfold demo_live, demo_created. ran.
Defined.

Lemma report_calls_witness :
  let r := meta_status_v1 1 6000 100 7000 1 demo_live in
  load_bytes (mem (snd r)) 6000 3 = [3; 100; 200] /\
  meta_status_v1_contract 1 6000 100 7000 1 (view_of demo_live) META_OK (view_of (snd r)).
Proof.
  intros r. split; [vm_compute; reflexivity|].
  destruct (report_calls_meet_contract 1 demo_live META_OK (snd r) 1 6000 100 7000) as (_ & H & _);
    [vm_compute; reflexivity|]. apply H. ran.
Defined.

(** A probe that measures 42 ms, and one that fails. *)
Definition demo_delay (_ : text) (_ : Z) : turn (outcome Z * Z) := Answered _ (Ok 42, 1000).
Definition demo_failure (_ : text) (_ : Z) : turn (outcome Z * Z) := Answered _ (Err (lit "timed out"), 1000).


Lemma core_calls_witness :
  let r := meta_network_changed_v1 1 1 demo_live in
  let r' := meta_update_v1 1 2000 2 1 demo_live in
  meta_network_changed_v1_contract 1 1 (view_of demo_live) META_OK (view_of (snd r)) /\
  meta_update_v1_contract 1 2000 2 1 (view_of demo_live) META_OK (view_of (snd r')).
Proof.
  intros r r'. split.
  - destruct (core_calls_meet_contract 1 demo_live META_OK (snd r) 1 0 0 0 0) as (_ & _ & _ & _ & H & _);
      [vm_compute; reflexivity|vm_compute; reflexivity|]. apply H. ran.
  - destruct (core_calls_meet_contract 1 demo_live META_OK (snd r') 1 2000 2 0 0) as (_ & _ & _ & _ & _ & H);
      [vm_compute; reflexivity|vm_compute; reflexivity|]. apply H; [vm_compute; discriminate|ran].
Defined.

(** A stop of an unknown handle records the same text over two earlier ones. *)
Lemma every_call_witness :
  error_text (snd (exec_call false (CallStop 9) 1 (set_error 1 (lit "old") demo_live))) 1 =
    lit "invalid or destroyed core handle" /\
  error_frame 1 (view_of demo_live) META_ERROR
    (view_of (snd (exec_call false (CallStop 9) 1 demo_live))) /\
  error_recorded false (CallStop 9) 1 demo_live.
Proof.
  split; [vm_compute; reflexivity|].
  destruct (every_call_records_errors false (CallStop 9) 1 demo_live META_ERROR
    (snd (exec_call false (CallStop 9) 1 demo_live))) as (H1 & H2 & _); [ran|]. split; [exact H1|now apply H2].
Defined.


Lemma empty_update_witness : meta_update_v1 99 4000 2 1 demo_world = (META_OK, demo_world).
Proof.
  apply (empty_update_ignores_handle 1 demo_world 99 4000 2 (lit "{}") (JObject []));
    vm_compute; reflexivity.
Defined.

Lemma refused_in_callback_witness :
  fst (exec_call false (CallDestroy 1) 7 demo_live) = META_ERROR /\
  handles (snd (exec_call false (CallDestroy 1) 7 demo_live)) = handles demo_live /\
  next (snd (exec_call false (CallDestroy 1) 7 demo_live)) = next demo_live.
Proof. apply (lifecycle_refused_in_callback false (CallDestroy 1) 7 demo_live); vm_compute; reflexivity. Defined.

(** The host's socket hook tries to destroy its handle and reads a snapshot. *)
Lemma callbacks_witness :
  let hooks := {| hooks_context := 0; protect := 900; notify := 0 |} in
  let host := ([CallDestroy 1; CallSnapshot 1 6000 100 7000], 0) in
  fst (in_scope false host 1 demo_live) = [META_ERROR; META_OK] /\
  fst (protect_socket false hooks host 1 demo_live) = Ok tt /\
  same_registry demo_live (snd (protect_socket false hooks host 1 demo_live)).
Proof.
  intros hooks host. split; [vm_compute; reflexivity|].
  destruct (callbacks_keep_lifecycle false hooks host 1 demo_live) as (_ & P & R).
  split; [now apply P|]. now apply R; left.
Defined.

(** ** Packets *)

Lemma packet_calls_witness :
  let r := meta_read_packet_v1 1 6000 100 7000 1 demo_waiting in
  let e := meta_read_packet_v1 1 6000 100 7000 1 (snd r) in
  let x := meta_write_packet_v1 1 4500 20 1 demo_live in
  load_bytes (mem (snd r)) 6000 20 = demo_ip /\
  meta_read_packet_v1_contract 1 6000 100 7000 1 (view_of demo_waiting) META_OK (view_of (snd r)) /\
  meta_read_packet_v1_contract 1 6000 100 7000 1 (view_of (snd r)) META_WOULD_BLOCK (view_of (snd e)) /\
  meta_write_packet_v1_contract 1 4500 20 1 (view_of demo_live) META_OK (view_of (snd x)).
Proof.
  intros r e x. split; [vm_compute; reflexivity|].
  destruct (packet_calls_meet_contract 1 4500 20 6000 100 7000 1 demo_waiting META_OK (snd r) ltac:(vm_compute; reflexivity)) as [_ H1].
  destruct (packet_calls_meet_contract 1 4500 20 6000 100 7000 1 (snd r) META_WOULD_BLOCK (snd e) ltac:(vm_compute; reflexivity)) as [_ H3].
  destruct (packet_calls_meet_contract 1 4500 20 6000 100 7000 1 demo_live META_OK (snd x) ltac:(vm_compute; reflexivity)) as [H2 _].
  split; [apply H1; ran|]. split; [apply H3; ran|apply H2; ran].
Defined.

Lemma tun_fd_witness :
  let r := meta_set_tun_fd_v1 (Answered _ (Ok tt)) 1 5 1 demo_live in
  meta_set_tun_fd_v1_contract 1 5 1 (view_of demo_live) META_OK (view_of (snd r)).
Proof.
  intros r. apply (tun_fd_meets_contract (Answered _ (Ok tt)) 1 5 1 demo_live META_OK (snd r)). ran.
Defined.

(** The descriptor stays in use after a stop, and another creation. *)
Lemma tun_fd_closes_witness :
  let w1 := snd (meta_set_tun_fd_v1 (Answered _ (Ok tt)) 1 5 1 demo_live) in
  fst (exec_call false (CallReadPacket 1 6000 100 7000) 2
    (exec_calls false [(CallCreate 1000 10 0 5000, 3); (CallStop 1, 4)] w1)) = META_ERROR.
Proof.
  intros w1. apply (tun_fd_closes_packet_calls false (Answered _ (Ok tt)) 1 5 1 demo_live w1).
  - unfold registry_inv. let k := eval vm_compute in (map fst (handles demo_live)) in
      change (registry_keys 2 k). split; [lia|]. split; [now repeat constructor|].
    split; [repeat constructor; cbn; lia|]. cbn. lia.
  - ran.
  - reflexivity.
Defined.

(** ** Interleavings *)

(** Two senders; the second packet arrives while a read is about to re-arm. *)
Definition demo_labels : list label :=
  [Push 0 [1]; Swap 0; Notify 0; Drain; Read; Recv1; Deliver; Read; Recv1; Push 1 [2]; Swap 1; Rearm; Recv2; Mark].

Definition demo_state : wstate := match run (initial 2) demo_labels with Some s => s | None => initial 2 end.

Lemma demo_reachable : reachable 2 demo_state.
Proof. exists demo_labels. vm_compute. reflexivity. Qed.

Lemma no_packet_left_witness :
  sent demo_state = [[1]; [2]] /\
  (exists waiting, sent demo_state = got demo_state ++ waiting) /\
  (quiescent demo_state -> got demo_state = sent demo_state).
Proof.
  split; [vm_compute; reflexivity|]. apply (no_packet_left_behind 2 demo_state), demo_reachable.
Defined.

Lemma inevitably_delivered_witness :
  got demo_state = [[1]] /\ inevitably (fun s => quiescent s /\ got s = sent demo_state) demo_state.
Proof.
  split; [vm_compute; reflexivity|]. apply (packets_inevitably_delivered 2 demo_state), demo_reachable.
Defined.

Lemma notifications_witness : notifications demo_state <= found_empty demo_state + 1.
Proof. exact (proj1 (notifications_coalesced 2 demo_state demo_reachable)). Defined.

(** ** A whole life *)

Fixpoint demo_events (cs : list (api_call * thread)) (w : world) : list lifecycle_event :=
  match cs with
  | [] => []
  | (c, t) :: cs' => visible false c t w ++ demo_events cs' (snd (exec_call false c t w))
  end.

Lemma calls_process cs w0 es w : process false w0 es w ->
  process false w0 (es ++ demo_events cs w) (exec_calls false cs w).
Proof.
  revert es w. induction cs as [|[c t] cs IH]; intros es w P; cbn [demo_events exec_calls].
  - now rewrite app_nil_r.
  - rewrite app_assoc. apply IH. apply (process_next _ _ _ w); [exact P|]. constructor.
Qed.

Definition demo_life : list (api_call * thread) :=
  [(CallCreate 1000 10 0 5000, 1); (CallStart (Answered _ (Ok tt, (demo_config demo_yaml, []))) 1, 2);
   (CallDestroy 1, 1); (CallStart (Refused _) 1, 1); (CallCreateTunnel 1000 10 3000 5 0 5000, 3)].

Lemma demo_process : process false demo_world [EvCreate 1; EvStart 1; EvDestroy 1; EvCreate 2]
  (exec_calls false demo_life demo_world).
Proof.
  pose proof (calls_process demo_life demo_world [] demo_world (process_start _ _)) as P.
  replace ([] ++ demo_events demo_life demo_world) with [EvCreate 1; EvStart 1; EvDestroy 1; EvCreate 2] in P
    by (vm_compute; reflexivity). exact P.
Qed.

Lemma registry_refines_witness :
  exists all l, lifecycle_run lifecycle_init all = Some l /\
    filter shown all = [EvCreate 1; EvStart 1; EvDestroy 1; EvCreate 2] /\
    forall h, phase_of l h = phase_in (exec_calls false demo_life demo_world) h.
Proof.
  apply (registry_refines_lifecycle false demo_world); [reflexivity|reflexivity|exact demo_process].
Defined.

Lemma handles_never_reused_witness :
  NoDup (creations [EvCreate 1; EvStart 1; EvDestroy 1; EvCreate 2]) /\
    NoDup (starts [EvCreate 1; EvStart 1; EvDestroy 1; EvCreate 2]) /\
  forall a h b, [EvCreate 1; EvStart 1; EvDestroy 1; EvCreate 2] = a ++ EvDestroy h :: b ->
    ~ In h (map event_handle b) /\ assoc h (handles (exec_calls false demo_life demo_world)) = None.
Proof.
  apply (handles_never_reused false demo_world); [reflexivity|reflexivity|exact demo_process].
Defined.

Lemma registry_invariant_witness : registry_inv (exec_calls false demo_life demo_world).
Proof.
  apply (registry_invariant false demo_world [EvCreate 1; EvStart 1; EvDestroy 1; EvCreate 2]); [|exact demo_process].
  split; [cbn; lia|]. split; [constructor|]. split; [constructor|]. cbn. lia.
Defined.
