(* ===== verification/WorkerDemo.v ===== *)
(** * A handle's threads, packets and log at work

    The theorems on the threads of a handle applied to runs of two host threads
    that start a core, note changes of network and shut down while a callback is
    running; the packets of a host that reach the core; and a log with JSON
    strings escaped the way serde_json does. *)
From S2P Require Import Prelude Transition CMemory CApi ConfigCrypto Host Ffi FfiContract LogBuffer LogText HandleCalls PacketCalls PacketsIn Worker WorkerInv WorkerEnds WorkerAgrees ApiDemo.
From Stdlib Require Import String ZArith List Lia Bool.
Import ListNotations.
Open Scope Z_scope.

(** ** Threads *)

Definition state_after (labels : list clabel) : cstate :=
  match run_labels cstep (cinitial true 2) labels with Some s => s | None => cinitial true 2 end.

(** Thread 0 starts the core, whose task calls the host; thread 1 shuts down. *)
Definition busy_labels : list clabel :=
  [Call 0 ReqStart; TrySend 0; SelectStop; SelectNetwork; SelectCommand (Ok tt); CheckStart; Spawn;
   StartDone (Ok tt); Receive 0; TaskCall 0; CallShutdown 1; LockWorker 1; SelectStop; LeaveLoop].

Definition shut_labels : list clabel := busy_labels ++ [CoreShutdown; TaskReturn 0; AbortTask 0; Finish; Join 1].

Lemma busy_reachable : creachable true 2 (state_after busy_labels).
Proof. exists busy_labels. vm_compute. reflexivity. Qed.

Lemma shut_reachable : creachable true 2 (state_after shut_labels).
Proof. exists shut_labels. vm_compute. reflexivity. Qed.

(** The callback is still running before the shutdown returns, not after. *)
Lemma shutdown_joins_witness :
  callbacks (state_after busy_labels) = true /\ callbacks (state_after (shut_labels ++ [Call 0 ReqStart])) = false.
Proof.
  split; [vm_compute; reflexivity|].
  apply (shutdown_joins_callbacks true 2 (state_after shut_labels) 1%nat true).
  - exact shut_reachable.
  - vm_compute. now left.
  - exists [Call 0 ReqStart]. vm_compute. reflexivity.
Defined.

Lemma answers_witness :
  In (0%nat, GotAnswer 0 ReqStart succeeded) (results (ho (state_after busy_labels))) /\
  started_by (wt (state_after busy_labels)) = [0%nat].
Proof.
  assert (H : In (0%nat, GotAnswer 0 ReqStart succeeded) (results (ho (state_after busy_labels)))) by (vm_compute; now left).
  split; [exact H|].
  destruct (answers_reach_their_call true 2 _ 0%nat 0%nat ReqStart succeeded busy_reachable H) as (_ & _ & _ & _ & A).
  apply A; [reflexivity|now exists []].
Defined.

(** A start that fails inside the core cancels it. *)
Definition failed_labels : list clabel :=
  [Call 0 ReqStart; TrySend 0; SelectStop; SelectNetwork; SelectCommand (Ok tt); CheckStart;
   StartDone (Err (lit "port in use")); Receive 0].

Lemma start_outcome_witness :
  stop_token (sh (state_after failed_labels)) = true \/
  @inr text text (lit "port in use") = refused_packets \/ inr (lit "port in use") = refused_twice.
Proof.
  destruct (start_outcome true 2 (state_after failed_labels) 0%nat 0%nat) as (_ & H & _).
  - exists failed_labels. vm_compute. reflexivity.
  - apply H. vm_compute. now left.
Defined.

(** A core that was started and is not cancelled rests with its task running. *)
Definition started_labels : list clabel :=
  [Call 0 ReqStart; TrySend 0; SelectStop; SelectNetwork; SelectCommand (Ok tt); CheckStart; Spawn;
   StartDone (Ok tt); Receive 0; SelectStop; SelectNetwork; SelectCommand (Ok tt)].

Lemma calls_end_witness :
  (tasks (wt (state_after started_labels)) <> [] /\ at_rest (state_after started_labels)) /\
  inevitable cstep cinternal (fun s => at_rest s /\ (stop_token (sh (state_after busy_labels)) = true -> at_ (wt s) = Ended))
    (state_after busy_labels).
Proof.
  split; [|apply (calls_come_to_an_end true 2), busy_reachable].
  split; [vm_compute; discriminate|]. split; [vm_compute; repeat constructor|].
  do 3 (split; [vm_compute; reflexivity|]). right. vm_compute. auto.
Defined.

(** Two changes, handled once. *)
Definition changed_labels : list clabel := [CallNetwork 0; SendModify 0; CallNetwork 1; SendModify 1].
Definition handled_labels : list clabel := [SelectStop; SelectNetwork; WorkerCall; WorkerReturn; NetworkDone true].

Lemma network_collapse_witness :
  watched (sh (state_after changed_labels)) = 2 /\
  handled (wt (state_after (changed_labels ++ handled_labels))) <= 0 + 1.
Proof.
  split; [vm_compute; reflexivity|].
  destruct (network_changes_collapse true 2 (state_after changed_labels) (state_after (changed_labels ++ handled_labels)))
    as ((_ & H) & _).
  - exists changed_labels. vm_compute. reflexivity.
  - exists handled_labels. vm_compute. reflexivity.
  - vm_compute. reflexivity.
  - exact H.
Defined.

Definition fresh_handle : Handle CoreState := Handle_new (demo_config demo_yaml, []) true WorkerReturns.


(** ** Packets *)

Definition written : list input_event := [CoreReads; HostWrites 1 4500 20; HostWrites 2 4500 10; CoreReads; HostWrites 3 4500 20].

Lemma packets_reach_witness :
  let '(accepted, got, w) := input_history 1 written demo_live in
  accepted = [demo_ip; demo_ip] /\ map Ok accepted = got ++ map Ok (v_written (view_of w) 1).
Proof.
  destruct (input_history 1 written demo_live) as [[accepted got] w] eqn:E. split.
  - change accepted with (fst (fst (accepted, got, w))). rewrite <- E. vm_compute. reflexivity.
  - apply (packets_reach_core 1 written demo_live accepted got w).
    + vm_compute. reflexivity.
    + destruct (assoc 1 (handles demo_live)) as [h|] eqn:A; [|discriminate A].
      exists h, ([], 256, false). split; [exact A|]. injection A as <-.
      refine (conj eq_refl (conj eq_refl (conj eq_refl (conj eq_refl (conj _ _))))); [vm_compute; discriminate|constructor].
    + exact E.
Defined.

(** ** Logs *)

(** Strings in quotes, with newlines, quotes and backslashes escaped; the time
    in ones. *)
Definition escape (b : Z) : text := if b =? 10 then [92; 110] else if (b =? 34) || (b =? 92) then [92; b] else [b].
Definition quote (x : text) : text := 34 :: flat_map escape x ++ [34].

Fixpoint unescape (x : text) (back : bool) : option (text * text) :=
  match x with
  | [] => None
  | b :: x' =>
      if back then option_map (fun r => ((if b =? 110 then 10 else b) :: fst r, snd r)) (unescape x' false)
      else if b =? 34 then Some ([], x')
      else if b =? 92 then unescape x' true
      else option_map (fun r => (b :: fst r, snd r)) (unescape x' false)
  end.

Definition unquote (x : text) : option (text * text) :=
  match x with b :: x' => if b =? 34 then unescape x' false else None | [] => None end.

Lemma unquote_quote x rest : unquote (quote x ++ rest) = Some (x, rest).
Proof.
  unfold quote, unquote. cbn [app Z.eqb Pos.eqb]. rewrite <- app_assoc. cbn [app].
  induction x as [|b x IH]; [reflexivity|]. cbn [flat_map]. unfold escape at 1.
  destruct (Z.eqb_spec b 10) as [->|N]; [cbn [app unescape Z.eqb Pos.eqb]; now rewrite IH|].
  destruct (Z.eqb_spec b 34) as [->|N1]; [cbn [orb app unescape Z.eqb Pos.eqb]; now rewrite IH|].
  destruct (Z.eqb_spec b 92) as [->|N2]; [cbn [orb app unescape Z.eqb Pos.eqb]; now rewrite IH|].
  cbn [orb app unescape]. rewrite (proj2 (Z.eqb_neq b 34) N1), (proj2 (Z.eqb_neq b 92) N2). now rewrite IH.
Qed.

Lemma quote_line x : ~ In 10 (quote x).
Proof.
  unfold quote. intros [H|H]; [discriminate|]. apply in_app_iff in H as [H|[H|[]]]; [|discriminate].
  apply in_flat_map in H as (b & _ & H). unfold escape in H.
  destruct (Z.eqb_spec b 10); [|destruct (_ || _)]; cbn in H; intuition (discriminate || congruence).
Qed.

Fixpoint ones (x : text) : nat * text :=
  match x with b :: x' => if b =? 49 then (S (fst (ones x')), snd (ones x')) else (0%nat, x) | [] => (0%nat, []) end.

Lemma ones_repeat n x : ones (repeat 49 n ++ 34 :: x) = (n, 34 :: x).
Proof. induction n as [|n IH]; [reflexivity|]. cbn [repeat app ones Z.eqb Pos.eqb]. now rewrite IH. Qed.

#[export] Instance demo_logs : LogCrates := {|
  seconds := nat; seconds_text n := repeat 49 n;
  log_json n type payload := repeat 49 n ++ quote type ++ quote payload;
  log_parse x :=
    match unquote (snd (ones x)) with
    | Some (type, x') =>
        match unquote x' with Some (payload, []) => Some (fst (ones x), type, payload) | _ => None end
    | None => None
    end |}.

#[export] Instance demo_log_laws : LogLaws demo_logs.
Proof.
  constructor; cbn [log_json log_parse demo_logs]; intros n type payload _ _.
  - rewrite !in_app_iff. intros [H|[H|H]]; [|now apply quote_line in H..]. now apply repeat_spec in H.
  - change (quote type ++ quote payload) with (34 :: (flat_map escape type ++ [34]) ++ quote payload).
    rewrite ones_repeat. cbn [fst snd].
    change (34 :: (flat_map escape type ++ [34]) ++ quote payload) with (quote type ++ quote payload).
    rewrite unquote_quote. rewrite <- (app_nil_r (quote payload)), unquote_quote. reflexivity.
Qed.

(** An event with a newline in it, one the filter stops, a drain that fails, a
    panic and a drain. *)
Definition source : list (@source_event demo_logs) :=
  [Traced 3%nat WARN [(lit "message", [97; 10; 98]); (lit "code", lit "7")]; Traced 4%nat DEBUG [(lit "message", lit "x")];
   HostDrains 1 6000 1 7000; Panicked 5%nat None (lit "oops") (lit "main") true true true; HostDrains 1 6000 200 7000;
   Traced 6%nat INFO []].

Lemma source_strings : Forall string_event source.
Proof. repeat constructor; easy. Qed.

Lemma drained_log_witness :
  flat_map (entry_of (lit "info")) source =
    [(3%nat, lit "warning", [97; 10; 98] ++ lit " code=7");
     (5%nat, lit "error", lit "panic in thread unnamed: oops" ++ [10] ++ lit "main"); (6%nat, lit "info", [])] /\
  parse_log (delivered (flat_map (buffer_events (lit "info")) source) (init (lit "info") demo_world) ++
             log_text (log_lines (source_run source (init (lit "info") demo_world)))) =
  map Some (flat_map (entry_of (lit "info")) source).
Proof.
  split; [vm_compute; reflexivity|].
  apply (drained_log_parses (lit "info") source demo_world); [reflexivity|reflexivity|exact source_strings|].
  refine (conj _ (conj I (conj _ (conj I (conj _ I))))); vm_compute; reflexivity.
Defined.

(** With the level silent the panic is all that is left, as long as it is not
    drained. *)
Definition undrained : list (@source_event demo_logs) :=
  [Traced 3%nat ERROR [(lit "message", lit "lost")]; Panicked 5%nat None (lit "oops") (lit "main") true true true].

Lemma log_lines_witness :
  length (log_lines (source_run undrained (init (lit "silent") demo_world))) = 1%nat /\
  Forall (fun line => ~ In 10 line /\ exists time type body, log_parse line = Some (time, type, body) /\
            In type log_types /\
            (shown_event (lit "silent") undrained time type body \/ panic_event undrained time type body) /\
            (lit "silent" = lit "silent" -> panic_event undrained time type body))
    (log_lines (source_run undrained (init (lit "silent") demo_world))).
Proof.
  split; [vm_compute; reflexivity|].
  apply (log_lines_typed undrained (lit "silent") demo_world); [reflexivity|reflexivity|].
  repeat constructor; easy.
Defined.
